(* ===== verification/_CoqProject ===== *)
-Q . S2P
Prelude.v
GoStrings.v
Regexp.v
DataSet.v
Matchers.v
Prom.v
Restriction.v
GoFloat.v
Promql.v
Rewriting.v
Errors.v
GoTime.v
Strutil.v
Lexer.v
LexerSpec.v
ParserTables.v
Parser.v
ParserDriver.v
Grammar.v
ParserSpec.v
Lru.v
AccessControl.v
Kube.v
Url.v
RoleRevisions.v
Http.v
Json.v
ApiContext.v
Hijack.v
PromParser.v
Quoting.v
SelectorLex.v
SelectorParse.v
Rereading.v
ExprLex.v
PrintedText.v
ExprParse.v
ExprShape.v
ExprRuns.v
Typing.v
TypeSound.v
Nesting.v
NestingRules.v
NestingDriver.v
ExprNodes.v
ExprOperand.v
RestrictedText.v
ExprLists.v
ExprCompound.v
ExprBinary.v
Requery.v
PrintedLaws.v
RequeryExamples.v
HijackSpec.v
HijackExamples.v
Mux.v
Access.v
AccessSpec.v
EndToEnd.v
AccessExamples.v
Cmux.v
Http2.v
Listener.v
Multiplexing.v
Serving.v
Entry.v
Samples.v
Conformance.v
