(* ===== verification/Prelude.v ===== *)
(** * A verification of prometheus-auth

    prometheus-auth is a proxy in front of Prometheus for clusters shared by
    several tenants.  For each request it finds out which namespaces the
    user may see, rewrites the PromQL of the request so that it only selects
    series of these namespaces, and hands the rewritten request to
    Prometheus.  This library models the program in Rocq, from the bytes of
    a connection to the request that leaves the proxy, and proves what makes
    it correct.  Paths are relative to the repository; [vendor] stands for
    src/vendor.

    ** The program and the files

    The parts call each other in this order: [main] and [Run] (cmd/main.go,
    pkg/agent/entry.go) start three servers on one port; the multiplexer
    sorts connections between HTTP and gRPC (pkg/agent/listener.go); the
    HTTP server routes a request (pkg/agent/http.go), authenticates it and
    asks pkg/kube for the namespaces of the user; a hijack handler
    (pkg/agent/http_hijack.go) parses the PromQL, has pkg/prom rewrite it,
    prints it and proxies the new request.

    Foundations.
    - [Prelude] (this file): outcomes of Go calls ([go], [result]), generic
      lemmas.  [GoStrings], [GoFloat]: strings, sort, utf8, strconv on byte
      strings; float64 as IEEE binary64; int64 with its wrap-around.
    - [Regexp]: the interface [RegexpEngine] and, in [Re2], an engine that
      implements it.  [Errors]: juju/errors.  [Json], [Url], [Http]: what
      the agent uses of encoding/json, net/url, net/http.

    Restriction of selectors (pkg/data, pkg/prom).
    - [DataSet]: data.Set, nil and empty told apart.  [Matchers]: label
      matchers and their protobuf form.  [Prom]: filter.go, translate.go,
      matcher.go, join.go, query.go.  [Restriction]: their contract on
      series.

    PromQL (vendor prometheus/promql/parser).
    - [Promql]: trees, visitor walk, printer (ast.go, printer.go) and
      pkg/prom/modify.go.  [Rewriting]: the contract of [ModifyExpression].
    - [Strutil] (util/strutil/quote.go), [Lexer] (lex.go), [ParserTables]
      (the tables of generated_parser.y.go, functions.go), [Parser]
      (parse.go, the goyacc driver, the semantic actions).  [LexerSpec],
      [ParserDriver]: both end.  [Grammar]: the stack of the driver is a
      path of the automaton that spells the grammar.  [ParserSpec]: the
      trees are complete and well formed.  [PromParser]: the parser as the
      interface of the handlers.
    - [Quoting]: quoted strings are read back.  [SelectorLex],
      [SelectorParse]: the lexer and the driver on the text of a selector,
      token by token and turn by turn.  [Rereading]: what Prometheus reads
      of a selector that the agent prints.
    - The same for every query.  [ExprLex], [PrintedText]: the lexer on the
      text of durations, numbers, strings, words and operators.
      [ExprParse]: the turns of the driver in the states of an expression,
      and the choice between shift and reduction by precedence.
      [ExprShape]: the trees whose text is read back ([readable_expr],
      [fits]) and the nodes that stand for them ([reads]).  [ExprRuns]: the
      statement of the induction ([runs_expr]); [ExprNodes], [ExprOperand],
      [ExprLists], [ExprCompound], [ExprBinary]: its cases.  [Typing]: the
      types of queries ([typed]), which pass the checks; [TypeSound]: what
      passes them is typed.  [Nesting]: trees whose operators nest by
      precedence; [NestingRules], [NestingDriver]: the parser builds them,
      by an invariant of the stack of the driver.  [RestrictedText]: a restricted tree stays
      readable, typed and plain.  [Requery]: queries are read back;
      [PrintedLaws]: as a law of the interface of the handlers;
      [RequeryExamples]: a query with every kind of node.

    Users (pkg/kube, vendor steve).
    - [Lru], [AccessControl]: the access store of steve and its cache.
      [RoleRevisions]: the store while the cluster changes, as a step
      relation of events, syncs of the role controllers and lookups.
      [Kube]: namespaces.go, nodes.go, access.go, secrets.go.

    Requests (pkg/agent).
    - [GoTime]: times and durations of parameters.  [ApiContext]:
      http_api_context.go, a state monad with panics over the response.
      [Hijack]: http_hijack.go; [HijackSpec]: its contract;
      [HijackExamples]: requests.
    - [Mux]: gorilla/mux.  [Access]: http.go; [AccessSpec]: its contract;
      [AccessExamples]: requests.  [EndToEnd]: the whole agent on a request.
    - [Samples], [Conformance]: the scenario tables of pkg/agent/samples and
      http_test.go, and the agent run on them.

    Connections and life (pkg/agent/listener.go, entry.go, grpc.go).
    - [Cmux] (vendor cockroachdb/cmux), [Http2] (frame.go), [Listener]:
      which server a connection goes to.  [Multiplexing]: the calls of
      [Match], [Serve], a goroutine for each connection, the queues of the
      listeners and the limit on connections (vendor x/net/netutil), as a
      step relation with its invariant [mux_inv]; [Serving]: what follows,
      and the steps as a function for runs that are computed.  [Entry]:
      flags, start-up, and [serve] of the agent as a step relation of its
      goroutines.

    ** What the theorems show

    - Confinement.  [EndToEnd.scoped_requests_confined]: whatever API call a
      user makes who may not list the nodes, the agent answers by itself or
      forwards one request for the same resource in which every selector
      selects exactly the series of the original one that belong to the
      namespaces the role bindings make visible, in the tree that the agent
      prints; and in the one that the parser of Prometheus reads, if the
      query is one that the printer keeps and the text is not refused
      ([confined_text], [read_confined]).  The parser in it is the model of
      the real one.  It is composed of the contracts of the parts:
      [FilterMatchers_restricts], [translateMatcher_reference],
      [FilterLabelMatchers_refines], [modified_reference],
      [ModifyExpression_confines], the [hijack..._confine] theorems,
      [accessControl_endpoints], [access_middleware_judges],
      [httpBackend_white_list], [QueryByUser_spec] and
      [AccessFor_refines_rbac] (the access set grants what role based
      access control grants).
    - Freshness.  The store caches access sets.  [AccessFor_staleness]: an
      answer is the access that a user with the same digest had in a state
      of the cluster at most a day old, in any order of events, syncs and
      lookups.  [CacheKey_tracks]: a change of a cluster role is seen at
      once exactly by users with cluster role bindings to it;
      [cluster_role_change_unseen]: for the others it is not seen for a
      day.  The confinement theorems are about the access the store
      answers, the one of [AccessContract].
    - Rereading.  Prometheus gets text and parses it again, with the same
      parser.  [printed_query_reread]: from the text of a query it reads the
      same query or refuses it; [restricted_query_reread]: so that the query
      it evaluates is confined, whatever its strings hold;
      [restricted_selector_reread]: so are the selectors of the series and
      federate calls; [quoted_value_read]: no value leaves its quotes.  A
      text is refused only for strings with control or invalid characters,
      after which the lexer of Prometheus loses a character
      ([lexEscape_refuses_printed]).  The query must be one whose names,
      durations and numbers the lexer reads as they are printed and whose
      matchings the printer keeps ([readable_expr]) and whose operators nest by precedence ([fits]), as
      those of every parsed query do ([ParseExpr_nested]) but for a base of
      [^] that is printed with a sign, such as [+Inf].  [RequeryExamples]
      evaluates both.
    - Parsing.  [parser_terminates], [items_end]: the parser and the lexer
      end on every input.  [ParseExpr_outcomes]: an accepted text gives a
      complete tree whose range selectors hold vector selectors and whose
      matchers are compiled, which is the law the handlers rely on.
      [ParseExpr_typed]: and a well-typed one; [ParseExpr_nested]: whose
      operators are grouped as the precedences of the grammar say.
    - Conformance.  [scenarios_conform], [read_scenarios_conform]: a check
      of the model on the scenarios of the tests of the repository, by
      evaluation.  Of the results of a query call only the metrics are
      compared.
    - Functional behaviour, errors and bounds of the operations: lookups of
      tokens, error responses, parameters out of range, routers, prefix
      trees, caches; the equivalence of optimised code with a reference
      (visitor walk, patricia tree, cached access sets).
    - Connections and life: a stream is dispatched however it comes in
      chunks ([serve_dispatches], [listeners_share]).  In every interleaving
      of the goroutines, the servers and the clients the limit on
      connections holds and nothing panics ([connections_limited]), a
      connection goes only to the server its text is meant for
      ([connections_routed]), and [Serve] leaves no connection behind
      ([Serve_returned]).  Whoever gets a connection reads its whole stream.
      The agent's [serve] returns as specified; a graceful stop waits for
      the gRPC server, with no bound of its own ([serve_outcome]); and every
      end of [Run] is fatal.
    - Faults: theorems also state behaviour the code does not intend, such
      as the end of [GetSA_spec], [hijackQuery_nil_unfiltered],
      [parseDuration_overflow], [http2HeaderFieldEqual_last],
      [cluster_role_change_unseen], [CacheKey_confuses], [Match_race] (a
      server may lose its listener), [silent_clients_hold] (clients that
      send nothing keep their connections for ever).

    ** Bounds and fuel

    Recursion that is not structural takes fuel, and a theorem says that it
    is enough.  A walk of a tree takes its depth ([Walk_terminates]).  The
    loops of the lexer take the bytes left and one more; [NextItem] takes
    [steps] state functions ([NextItem_item]).  The driver of the parser
    takes [turns n = 20 n + 100] turns for [n] bytes: [parser_terminates]
    bounds them by a potential (two for each state on the stack, a credit
    of the top state, 20 for each token to come, 10 for each step of the
    error recovery).  The frame loop of the gRPC sniffer is bounded by the
    bytes of the stream ([listeners_share]).  Integers keep their width:
    int64 durations and times wrap, floats round once, HTTP/2 words are
    below their power of two.

    ** Interfaces and parameters

    Code outside the repository is a parameter with the documented facts it
    is used by: a class for each of the regular expression engine
    ([RegexpLiterals]: an anchored alternation of literal words matches
    these words; [Re2] proves it of an engine), the printable characters of
    Go beyond ASCII ([UnicodeTable]), the conversion of a float out of
    range to int64 ([Machine]), multipart bodies, protobuf, snappy and
    expfmt ([Codecs]), the HPACK decoder, the informer caches of the
    cluster.  The reverse proxy and the metrics handler are handlers.

    ** Not modelled

    - The reverse proxy of net/http/httputil, TLS, the HTTP and the gRPC
      server: library code; a handler stands for the proxy, and in
      [Multiplexing] a server accepts from its listener and closes what it
      accepted at any time.  [Entry] has of the gRPC server when [Serve] and
      [GracefulStop] return.  Data races beyond a lost [append].
    - Informers and generated clients of Kubernetes: third-party caches,
      given as functions.  Of their controllers just the delivery of events
      to the handlers of the roles is modelled ([RoleRevisions]).
    - The rules of the PromQL grammar for [ParseMetric] and for the testing
      language, which the program does not reach.
    - Logging, profiling, the descriptions of command line flags.
    - What Prometheus computes for a forwarded query.
    - Events of the cluster in the middle of a lookup: a lookup of the
      access store is one step, which reads the indexes and the clock once.
    - That every tree of the parser is one whose text is read back.  Outside
      [readable_expr] and [plain_bases] are metrics named by a keyword, numbers
      whose decimal text is another float, durations that overflow, and
      forms the printer itself does not keep: infinite bases of [^] and the
      labels of [group_left] behind an empty [ignoring].  For these the
      tree that the agent prints is confined, and nothing is shown of the
      tree that is read. *)
From stdpp Require Export base option list list_tactics gmap strings sorting.
From stdpp Require Import options.

(** ** Results of Go functions

    A Go call either returns or panics.  [go A] is that outcome; a pair
    [(value, error)] returned by the code is an [A] of its own. *)
Inductive go (A : Type) : Type :=
| Done (a : A)
| Panic (reason : string).
Arguments Done {A} _.
Arguments Panic {A} _.

(** A value or an error, for functions of the code whose value is
    meaningless when the error is not nil. *)
Inductive result (E A : Type) : Type :=
| Ok (a : A)
| Error (e : E).
Arguments Ok {E A} _.
Arguments Error {E A} _.

#[export] Instance go_ret : MRet go := fun A a => Done a.
#[export] Instance go_bind : MBind go := fun A B f m =>
  match m with Done a => f a | Panic r => Panic r end.
#[export] Instance go_fmap : FMap go := fun A B f m =>
  match m with Done a => Done (f a) | Panic r => Panic r end.

#[export] Instance result_ret {E} : MRet (result E) := fun A a => Ok a.
#[export] Instance result_bind {E} : MBind (result E) := fun A B f m =>
  match m with Ok a => f a | Error e => Error e end.
#[export] Instance result_fmap {E} : FMap (result E) := fun A B f m =>
  match m with Ok a => Ok (f a) | Error e => Error e end.

#[export] Instance go_eq_dec `{EqDecision A} : EqDecision (go A).
Proof. solve_decision. Defined.
#[export] Instance result_eq_dec `{EqDecision E, EqDecision A} :
  EqDecision (result E A).
Proof. solve_decision. Defined.

(** [returns m] : the call [m] returns, it does not panic. *)
Definition returns {A} (m : go A) : bool :=
  match m with Done _ => true | Panic _ => false end.

(** [go_map f l]: a Go loop over [l] that collects the results of calls
    which may panic. *)
Section go_map.
Context {A B : Type} (f : A → go B).
Fixpoint go_map (l : list A) : go (list B) :=
  match l with
  | [] => Done []
  | x :: l => y ← f x; ys ← go_map l; Done (y :: ys)
  end.

Lemma go_map_Done l k : go_map l = Done k ↔ Forall2 (λ x y, f x = Done y) l k.
Proof.
  split.
  - revert k. induction l as [|x l IH]; intros k; cbn; [by intros [= <-]|].
    destruct (f x) eqn:Hx; [|done]. cbn. destruct (go_map l); [|done]. cbn.
    intros [= <-]. constructor; auto.
  - induction 1 as [|x y l k Hx _ IH]; [done|]. cbn. by rewrite Hx, IH.
Qed.
End go_map.

(** The value a call returns, [d] when it panics. *)
Definition go_value {A} (d : A) (m : go A) : A :=
  match m with Done a => a | Panic _ => d end.

Lemma returns_Done {A} (d : A) (m : go A) : returns m = true → m = Done (go_value d m).
Proof. by destruct m. Qed.
