(* ===== verification/GoStrings.v ===== *)
(** * Go strings

    The parts of Go's [strings], [sort], [unicode/utf8] and [strconv]
    packages the program calls, on byte strings: a Go [string] is a Rocq
    [string], one [ascii] per byte. *)
From S2P Require Import Prelude.
From Stdlib Require Import Ascii.
From stdpp Require Import options.

(** ** Bytes *)
Definition byte_val (c : ascii) : N := N_of_ascii c.
Definition byte_in (lo hi : N) (c : ascii) : bool :=
  bool_decide (lo ≤ byte_val c)%N && bool_decide (byte_val c ≤ hi)%N.
Definition is_digit : ascii → bool := byte_in 48 57.
Definition is_upper : ascii → bool := byte_in 65 90.
Definition is_lower : ascii → bool := byte_in 97 122.
Definition to_lower (c : ascii) : ascii :=
  if is_upper c then ascii_of_N (byte_val c + 32) else c.

(** [hex_digit upper d]: the digit [d < 16] in base sixteen. *)
Definition hex_digit (upper : bool) (d : N) : ascii :=
  if bool_decide (d < 10)%N then ascii_of_N (48 + d)
  else ascii_of_N ((if upper then 55 else 87) + d).
Definition unhex (c : ascii) : option N :=
  if is_digit c then Some (byte_val c - 48)%N
  else if byte_in 97 102 c then Some (byte_val c - 87)%N
  else if byte_in 65 70 c then Some (byte_val c - 55)%N
  else None.

(** All bytes of a string satisfy a test. *)
Fixpoint string_forall (f : ascii → bool) (s : string) : bool :=
  match s with
  | EmptyString => true
  | String c s => f c && string_forall f s
  end.

(** ** Package strings *)
Fixpoint HasPrefix (s prefix : string) : bool :=
  match prefix, s with
  | EmptyString, _ => true
  | String p prefix, String c s => bool_decide (p = c) && HasPrefix s prefix
  | String _ _, EmptyString => false
  end.

Fixpoint drop_string (n : nat) (s : string) : string :=
  match n, s with
  | O, _ => s
  | S n, String _ s => drop_string n s
  | S _, EmptyString => EmptyString
  end.

Definition TrimPrefix (s prefix : string) : string :=
  if HasPrefix s prefix then drop_string (String.length prefix) s else s.

Fixpoint Contains (s substr : string) : bool :=
  HasPrefix s substr ||
  match s with EmptyString => false | String _ s => Contains s substr end.

Definition Join (l : list string) (sep : string) : string := String.concat sep l.

(** [strings.EqualFold s t] for an ASCII [t], the only case the program
    uses.  Beside the two cases of a letter, the Kelvin sign U+212A folds
    with [k] and the long s U+017F with [s]. *)
Fixpoint EqualFold (s t : string) : bool :=
  match t with
  | EmptyString => match s with EmptyString => true | _ => false end
  | String d t =>
      match s with
      | EmptyString => false
      | String c s =>
          if bool_decide (to_lower c = to_lower d) then EqualFold s t
          else match byte_val c, s with
          | 197%N, String c2 s =>
              bool_decide (byte_val c2 = 191%N) &&
              bool_decide (to_lower d = "s"%char) && EqualFold s t
          | 226%N, String c2 (String c3 s) =>
              bool_decide (byte_val c2 = 132%N) &&
              bool_decide (byte_val c3 = 170%N) &&
              bool_decide (to_lower d = "k"%char) && EqualFold s t
          | _, _ => false
          end
      end
  end.

(** [sort.Strings]: increasing byte-wise order. *)
Definition sort_Strings (l : list string) : list string :=
  merge_sort String.le l.

(** [strconv.Itoa] and the decimal printing of an [int64]. *)
Fixpoint digits_of (fuel : nat) (n : N) (acc : string) : string :=
  match fuel with
  | O => acc
  | S fuel =>
      let acc := String (ascii_of_N (48 + n mod 10)%N) acc in
      if bool_decide (n < 10)%N then acc else digits_of fuel (n / 10)%N acc
  end.
Definition format_N (n : N) : string := digits_of (S (N.to_nat (N.log2 n))) n EmptyString.
Definition format_Z (z : Z) : string :=
  if bool_decide (z < 0)%Z then "-" +:+ format_N (Z.to_N (- z))
  else format_N (Z.to_N z).

(** ** Package unicode/utf8 *)
Definition RuneError : N := 65533.

(** [cont lo hi c]: the six low bits of a continuation byte between the
    bounds. *)
Definition cont (lo hi : N) (c : ascii) : option N :=
  if byte_in lo hi c then Some (byte_val c mod 64)%N else None.

(** [DecodeRuneInString]: the first rune and its width; an invalid
    encoding gives [RuneError] with width 1. *)
Definition DecodeRuneInString (s : string) : N * nat :=
  match s with
  | EmptyString => (RuneError, 0)
  | String c0 s1 =>
      let b0 := byte_val c0 in
      let invalid := (RuneError, 1) in
      if bool_decide (b0 < 128)%N then (b0, 1)
      else match s1 with
      | EmptyString => invalid
      | String c1 s2 =>
        if byte_in 194 223 c0 then
          match cont 128 191 c1 with
          | Some x1 => (((b0 - 192) * 64 + x1)%N, 2)
          | None => invalid
          end
        else match s2 with
        | EmptyString => invalid
        | String c2 s3 =>
          if byte_in 224 239 c0 then
            let lo := if bool_decide (b0 = 224)%N then 160%N else 128%N in
            let hi := if bool_decide (b0 = 237)%N then 159%N else 191%N in
            match cont lo hi c1, cont 128 191 c2 with
            | Some x1, Some x2 => (((b0 - 224) * 4096 + x1 * 64 + x2)%N, 3)
            | _, _ => invalid
            end
          else match s3 with
          | EmptyString => invalid
          | String c3 _ =>
            if byte_in 240 244 c0 then
              let lo := if bool_decide (b0 = 240)%N then 144%N else 128%N in
              let hi := if bool_decide (b0 = 244)%N then 143%N else 191%N in
              match cont lo hi c1, cont 128 191 c2, cont 128 191 c3 with
              | Some x1, Some x2, Some x3 =>
                  (((b0 - 240) * 262144 + x1 * 4096 + x2 * 64 + x3)%N, 4)
              | _, _, _ => invalid
              end
            else invalid
          end
        end
      end
  end.

(** ** Package strconv: quoting

    [unicode.IsPrint] beyond ASCII is a table of the Go runtime: it is an
    argument of the definitions that quote strings. *)
Class UnicodeTable := IsPrint_table : N → bool.

Definition IsPrint `{UnicodeTable} (r : N) : bool :=
  if bool_decide (r < 128)%N then bool_decide (32 ≤ r)%N && bool_decide (r < 127)%N
  else IsPrint_table r.

(** [hex_digits n r]: [r] on [n] lower case hexadecimal digits. *)
Fixpoint hex_digits (n : nat) (r : N) : string :=
  match n with
  | O => EmptyString
  | S n => String (hex_digit false (N.shiftr r (4 * N.of_nat n) mod 16)%N) (hex_digits n r)
  end.

(** The escape sequence of a rune that is not printed as it is. *)
Definition escapeRune (r : N) : string :=
  match r with
  | 7 => "\a" | 8 => "\b" | 12 => "\f" | 10 => "\n" | 13 => "\r" | 9 => "\t"
  | 11 => "\v"
  | _ => if bool_decide (r < 32)%N then "\x" +:+ hex_digits 2 r
         else if bool_decide (r < 65536)%N then "\u" +:+ hex_digits 4 r
         else "\U" +:+ hex_digits 8 r
  end%N.

Fixpoint take_string (n : nat) (s : string) : string :=
  match n, s with
  | S n, String c s => String c (take_string n s)
  | _, _ => EmptyString
  end.

(** The text that [appendQuotedWith] emits for the rune at the head of
    [s], whose encoding is [w] bytes wide. *)
Definition quote_rune `{UnicodeTable} (r : N) (w : nat) (s : string) : string :=
  match s with
  | EmptyString => EmptyString
  | String c _ =>
      if bool_decide (w = 1) && bool_decide (r = RuneError)
      then "\x" +:+ hex_digits 2 (byte_val c)
      else if bool_decide (r = 34)%N || bool_decide (r = 92)%N
      then String "\" (String c EmptyString)
      else if IsPrint r then take_string w s
      else escapeRune r
  end.

(** [skip] bytes still belong to the rune emitted last. *)
Fixpoint quote_body `{UnicodeTable} (skip : nat) (s : string) : string :=
  match s with
  | EmptyString => EmptyString
  | String c s' =>
      match skip with
      | S k => quote_body k s'
      | O => let '(r, w) := DecodeRuneInString s in
             quote_rune r w s +:+ quote_body (w - 1) s'
      end
  end.

Definition dquote : string := String (ascii_of_N 34) EmptyString.
Definition Quote `{UnicodeTable} (s : string) : string :=
  dquote +:+ quote_body 0 s +:+ dquote.

(** ** Lemmas *)
Lemma sort_Strings_perm l : sort_Strings l ≡ₚ l.
Proof. apply merge_sort_Permutation. Qed.

Lemma sort_Strings_unique l k : l ≡ₚ k → sort_Strings l = sort_Strings k.
Proof.
  intros Hlk. apply (Sorted_unique String.le).
  - apply Sorted_merge_sort, _.
  - apply Sorted_merge_sort, _.
  - by rewrite !sort_Strings_perm.
Qed.

Lemma string_app_cons c s t : String c s +:+ t = String c (s +:+ t).
Proof. reflexivity. Qed.

Lemma string_app_nil_l s : EmptyString +:+ s = s.
Proof. reflexivity. Qed.

Lemma string_app_nil_r s : s +:+ EmptyString = s.
Proof. induction s as [|c s IH]; [done|]. by rewrite string_app_cons, IH. Qed.

Lemma string_app_assoc s t u : (s +:+ t) +:+ u = s +:+ (t +:+ u).
Proof. induction s as [|c s IH]; [done|]. by rewrite !string_app_cons, IH. Qed.

Lemma length_string_app s t : String.length (s +:+ t) = String.length s + String.length t.
Proof. induction s as [|c s IH]; [done|]. rewrite string_app_cons. cbn. by rewrite IH. Qed.

Lemma string_app_inj s t s' t' : s +:+ t = s' +:+ t' → String.length s = String.length s' → s = s' ∧ t = t'.
Proof.
  revert s'. induction s as [|c s IH]; intros [|c' s']; try done. rewrite !string_app_cons. intros [= -> Heq] [= Hlen].
  by destruct (IH s' Heq Hlen) as [-> ->].
Qed.

Lemma string_forall_app f s t :
  string_forall f (s +:+ t) = string_forall f s && string_forall f t.
Proof.
  induction s as [|c s IH]; [done|].
  rewrite string_app_cons. cbn. by rewrite IH, andb_assoc.
Qed.

Lemma string_forall_impl (f g : ascii → bool) s :
  (∀ c, f c = true → g c = true) → string_forall f s = true → string_forall g s = true.
Proof.
  intros Hfg. induction s as [|c s IH]; [done|]. cbn.
  intros [Hc Hs]%andb_true_iff. by rewrite Hfg, IH.
Qed.

Lemma Join_cons s l sep :
  l ≠ [] → Join (s :: l) sep = s +:+ sep +:+ Join l sep.
Proof. by destruct l. Qed.

Lemma string_forall_Join f l sep :
  string_forall f sep = true →
  Forall (λ s, string_forall f s = true) l → string_forall f (Join l sep) = true.
Proof.
  intros Hsep. induction 1 as [|s l Hs Hl IH]; [done|].
  destruct (decide (l = [])) as [->|Hne]; [done|].
  by rewrite Join_cons, !string_forall_app, Hs, Hsep, IH.
Qed.

#[global] Hint Rewrite string_app_cons string_app_nil_l string_app_nil_r
  string_app_assoc : strings.
