(* ===== verification/Regexp.v ===== *)
(** * Regular expressions

    The program compiles regular expressions with Go's [regexp] package.
    [RegexpEngine] is the interface the other files are written against,
    [RegexpLiterals] the one documented fact about it they rely on: an
    alternation of literal words, anchored at both ends, compiles and
    matches exactly these words.

    Module [Re2] implements the interface for a fragment of the RE2 syntax
    (literals, escapes, character classes, groups, alternation, [*], [+],
    [?], [^] and [$], on bytes), with Brzozowski derivatives, and proves
    that it matches the denotation of the expression; its instance of
    [RegexpLiterals] shows that the interface can be implemented and lets
    concrete inputs be evaluated. *)
From S2P Require Import Prelude GoStrings.
From Stdlib Require Import Ascii.
From stdpp Require Import options.

(** ** The interface *)
Class RegexpEngine := {
  regexp : Type;
  Compile : string → result string regexp;
  MatchString : regexp → string → bool;
}.

(** A character without a meaning of its own in a regular expression. *)
Definition literal_char (c : ascii) : bool :=
  is_lower c || is_upper c || is_digit c ||
  bool_decide (c = "-"%char) || bool_decide (c = "_"%char).
Definition literal (s : string) : bool := string_forall literal_char s.

(** Label matchers are compiled as ["^(?:" + v + ")$"]. *)
Definition anchored (v : string) : string := "^(?:" +:+ (v +:+ ")$").

Class RegexpLiterals `{RegexpEngine} : Prop :=
  compile_literals (ns : list string) :
    ns ≠ [] → Forall (λ n, literal n = true) ns →
    ∃ re, Compile (anchored (Join ns "|")) = Ok re ∧
          ∀ s, MatchString re s = bool_decide (s ∈ ns).

(** ** An engine for a fragment of RE2 *)
Module Re2.

Inductive class :=
| AnyChar
| AnyNotNL
| Lit (c : ascii)
| Ranges (negated : bool) (ranges : list (ascii * ascii)).

Inductive re :=
| Nothing
| Eps
| Bol
| Eol
| Chr (k : class)
| Cat (r1 r2 : re)
| Alt (r1 r2 : re)
| Star (r : re).

Definition in_class (k : class) (c : ascii) : bool :=
  match k with
  | AnyChar => true
  | AnyNotNL => negb (bool_decide (byte_val c = 10%N))
  | Lit d => bool_decide (c = d)
  | Ranges negated rs =>
      xorb negated (existsb (λ '(lo, hi), byte_in (byte_val lo) (byte_val hi) c) rs)
  end.

(** *** Matching

    [st] says that the position is the beginning of the text, [en] that it
    is its end. *)
Fixpoint nullable (st en : bool) (r : re) : bool :=
  match r with
  | Nothing | Chr _ => false
  | Eps | Star _ => true
  | Bol => st
  | Eol => en
  | Cat r1 r2 => nullable st en r1 && nullable st en r2
  | Alt r1 r2 => nullable st en r1 || nullable st en r2
  end.

Fixpoint deriv (st : bool) (c : ascii) (r : re) : re :=
  match r with
  | Nothing | Eps | Bol | Eol => Nothing
  | Chr k => if in_class k c then Eps else Nothing
  | Cat r1 r2 =>
      let d := Cat (deriv st c r1) r2 in
      if nullable st false r1 then Alt d (deriv st c r2) else d
  | Alt r1 r2 => Alt (deriv st c r1) (deriv st c r2)
  | Star r => Cat (deriv st c r) (Star r)
  end.

Fixpoint full_match (st : bool) (r : re) (w : list ascii) : bool :=
  match w with
  | [] => nullable st true r
  | c :: w => full_match false (deriv st c r) w
  end.

(** [MatchString] is unanchored: some part of the text has to match. *)
Definition search (r : re) (s : string) : bool :=
  full_match true (Cat (Star (Chr AnyChar)) (Cat r (Star (Chr AnyChar))))
    (String.list_ascii_of_string s).

(** *** Parsing

    An open group: its finished alternatives and the items of the current
    one, the last first. *)
Record frame := Frame { alts : list re; cur : list re }.

Definition cat_all (items : list re) : re := fold_left (λ acc r, Cat r acc) items Eps.
Definition close (f : frame) : re :=
  fold_left (λ acc r, Alt r acc) (alts f) (cat_all (cur f)).
Definition push (r : re) (f : frame) : frame := Frame (alts f) (r :: cur f).

Definition digit_range : list (ascii * ascii) := [("0", "9")]%char.
Definition word_ranges : list (ascii * ascii) :=
  [("0", "9"); ("A", "Z"); ("a", "z"); ("_", "_")]%char.
Definition space_ranges : list (ascii * ascii) :=
  [("009", "010"); ("012", "013"); (" ", " ")]%char.

Definition escape (c : ascii) : option class :=
  match c with
  | "d" => Some (Ranges false digit_range) | "D" => Some (Ranges true digit_range)
  | "w" => Some (Ranges false word_ranges) | "W" => Some (Ranges true word_ranges)
  | "s" => Some (Ranges false space_ranges) | "S" => Some (Ranges true space_ranges)
  | "n" => Some (Lit "010") | "t" => Some (Lit "009") | "r" => Some (Lit "013")
  | _ => if is_lower c || is_upper c || is_digit c || bool_decide (128 ≤ byte_val c)%N
         then None else Some (Lit c)
  end%char.

(** The items of a character class up to its closing bracket; [first] as
    a closing bracket that comes first is an item. *)
Fixpoint class_items (fuel : nat) (first : bool) (acc : list (ascii * ascii)) (s : string)
    : option (list (ascii * ascii) * string) :=
  match fuel, s with
  | S fuel, String c s =>
      if bool_decide (c = "]"%char) && negb first then Some (acc, s)
      else
        let item lo s :=
          match s with
          | String "-" (String hi s') =>
              if bool_decide (hi = "]"%char) then class_items fuel false ((lo, lo) :: acc) s
              else if bool_decide (hi = "\"%char) then None
              else if bool_decide (byte_val lo ≤ byte_val hi)%N
              then class_items fuel false ((lo, hi) :: acc) s' else None
          | _ => class_items fuel false ((lo, lo) :: acc) s
          end in
        if bool_decide (c = "\"%char) then
          match s with
          | String d s => match escape d with
                          | Some (Lit e) => item e s
                          | Some (Ranges false rs) => class_items fuel false (rs ++ acc) s
                          | _ => None
                          end
          | EmptyString => None
          end
        else if bool_decide (c = "["%char) then None
        else item c s
  | _, _ => None
  end.

(** A repetition operator applies to the last item; [quant] tells that
    this item is already a repetition. *)
Definition repeat_last (quant : bool) (op : re → re) (f : frame) : option frame :=
  match cur f with
  | r :: items => if quant then None else Some (Frame (alts f) (op r :: items))
  | [] => None
  end.

(** [parse fuel quant f up s]: [f] is the innermost open group, [up] the
    groups around it. *)
Fixpoint parse (fuel : nat) (quant : bool) (f : frame) (up : list frame) (s : string)
    : option re :=
  match fuel, s with
  | _, EmptyString => match up with [] => Some (close f) | _ => None end
  | O, _ => None
  | S fuel, String c s =>
      let item r s := parse fuel false (push r f) up s in
      let repetition op s :=
        match repeat_last quant op f with
        | Some f => match s with
                    | String "?" s => parse fuel true f up s
                    | _ => parse fuel true f up s
                    end
        | None => None
        end in
      match c with
      | "(" => match s with
               | String "?" (String ":" s) => parse fuel false (Frame [] []) (f :: up) s
               | String "?" _ => None
               | _ => parse fuel false (Frame [] []) (f :: up) s
               end
      | ")" => match up with
               | g :: up => parse fuel false (push (close f) g) up s
               | [] => None
               end
      | "|" => parse fuel false (Frame (cat_all (cur f) :: alts f) []) up s
      | "*" => repetition Star s
      | "+" => repetition (λ r, Cat r (Star r)) s
      | "?" => repetition (λ r, Alt r Eps) s
      | "." => item (Chr AnyNotNL) s
      | "^" => item Bol s
      | "$" => item Eol s
      | "{" => None
      | "\" => match s with
               | String d s => match escape d with
                               | Some k => item (Chr k) s
                               | None => None
                               end
               | EmptyString => None
               end
      | "[" =>
          let '(neg, s) := match s with
                           | String "^" s => (true, s)
                           | _ => (false, s)
                           end in
          match class_items fuel true [] s with
          | Some (rs, s) => item (Chr (Ranges neg rs)) s
          | None => None
          end
      | _ => item (Chr (Lit c)) s
      end%char
  end.

Definition compile (s : string) : result string re :=
  match parse (String.length s) false (Frame [] []) [] s with
  | Some r => Ok r
  | None => Error ("error parsing regexp: " +:+ s)
  end.

(** *** Denotation

    [den r st w en]: [r] matches the word [w] when [w] begins the text iff
    [st] and ends it iff [en]. *)
Definition is_nil {A} (l : list A) : bool := match l with [] => true | _ => false end.

Inductive den : re → bool → list ascii → bool → Prop :=
| den_eps st en : den Eps st [] en
| den_bol en : den Bol true [] en
| den_eol st : den Eol st [] true
| den_chr k c st en : in_class k c = true → den (Chr k) st [c] en
| den_cat r1 r2 st w1 w2 en :
    den r1 st w1 (en && is_nil w2) → den r2 (st && is_nil w1) w2 en →
    den (Cat r1 r2) st (w1 ++ w2) en
| den_alt_l r1 r2 st w en : den r1 st w en → den (Alt r1 r2) st w en
| den_alt_r r1 r2 st w en : den r2 st w en → den (Alt r1 r2) st w en
| den_star_nil r st en : den (Star r) st [] en
| den_star_cons r c st w1 w2 en :
    den r st (c :: w1) (en && is_nil w2) → den (Star r) false w2 en →
    den (Star r) st (c :: w1 ++ w2) en.

(** *** The matcher computes the denotation *)
#[local] Hint Constructors den : re2.
#[local] Arguments close : simpl never.
#[local] Arguments cat_all : simpl never.

Lemma is_nil_app {A} (l k : list A) : is_nil (l ++ k) = is_nil l && is_nil k.
Proof. by destruct l. Qed.

(** Destruct inversions of [den] at a known head constructor. *)
Ltac inv_den H := inversion H; clear H; simplify_eq/=.

Lemma den_cat_inv r1 r2 st w en :
  den (Cat r1 r2) st w en ↔
  ∃ w1 w2, w = w1 ++ w2 ∧ den r1 st w1 (en && is_nil w2) ∧
           den r2 (st && is_nil w1) w2 en.
Proof.
  split; [intros H; inv_den H; eauto 6|].
  intros (w1 & w2 & -> & H1 & H2). by constructor.
Qed.

Lemma den_alt_inv r1 r2 st w en :
  den (Alt r1 r2) st w en ↔ den r1 st w en ∨ den r2 st w en.
Proof.
  split; [intros H; inv_den H; eauto|]. intros [H|H]; eauto with re2.
Qed.

Lemma nullable_spec r st en : nullable st en r = true ↔ den r st [] en.
Proof.
  revert st en. induction r as [| | | |k|r1 IH1 r2 IH2|r1 IH1 r2 IH2|r IH];
    intros st en; cbn [nullable].
  - split; [done|intros H; inv_den H].
  - split; auto with re2.
  - split; [intros ->; constructor|intros H; by inv_den H].
  - split; [intros ->; constructor|intros H; by inv_den H].
  - split; [done|intros H; inv_den H].
  - rewrite andb_true_iff, IH1, IH2, den_cat_inv. split.
    + intros [H1 H2]. exists [], []. cbn. by rewrite !andb_true_r.
    + intros (w1 & w2 & Hw & H1 & H2).
      symmetry in Hw. apply app_eq_nil in Hw as [-> ->].
      cbn in *. by rewrite !andb_true_r in *.
  - by rewrite orb_true_iff, IH1, IH2, den_alt_inv.
  - split; auto with re2.
Qed.

Lemma deriv_sound r st c w en :
  den (deriv st c r) false w en → den r st (c :: w) en.
Proof.
  revert st c w en.
  assert (Hcat : ∀ r1 r2 st c w en,
    (∀ w en, den (deriv st c r1) false w en → den r1 st (c :: w) en) →
    den (Cat (deriv st c r1) r2) false w en → den (Cat r1 r2) st (c :: w) en).
  { intros r1 r2 st c w en IH (w1 & w2 & -> & H1 & H2)%den_cat_inv.
    apply den_cat_inv. exists (c :: w1), w2.
    rewrite andb_false_r. cbn in *. auto. }
  induction r as [| | | |k|r1 IH1 r2 IH2|r1 IH1 r2 IH2|r IH];
    intros st c w en; cbn [deriv]; intros H.
  1-4: by inv_den H.
  - destruct (in_class k c) eqn:Hk; inv_den H. by constructor.
  - destruct (nullable st false r1) eqn:Hn; [|by eapply Hcat; eauto].
    apply den_alt_inv in H as [H|H]; [by eapply Hcat; eauto|].
    apply den_cat_inv. exists [], (c :: w).
    rewrite andb_false_r, andb_true_r. by apply nullable_spec in Hn; auto.
  - apply den_alt_inv in H as [H|H]; [apply den_alt_l|apply den_alt_r]; auto.
  - apply den_cat_inv in H as (w1 & w2 & -> & H1 & H2). by constructor; auto.
Qed.

Lemma deriv_complete r st c w en :
  den r st (c :: w) en → den (deriv st c r) false w en.
Proof.
  revert st c w en.
  induction r as [| | | |k|r1 IH1 r2 IH2|r1 IH1 r2 IH2|r IH];
    intros st c w en H; cbn [deriv].
  1-4: by inv_den H.
  - inv_den H. replace (in_class k c) with true. by constructor.
  - apply den_cat_inv in H as ([|d w1] & w2 & Hw & H1 & H2); simplify_eq/=.
    + rewrite andb_false_r in H1. apply nullable_spec in H1 as ->.
      rewrite andb_true_r in H2. apply den_alt_r. auto.
    + assert (den (Cat (deriv st d r1) r2) false (w1 ++ w2) en).
      { apply den_cat_inv. exists w1, w2. rewrite andb_false_r in H2. eauto. }
      case_match; auto with re2.
  - apply den_alt_inv in H as [H|H]; auto with re2.
  - inv_den H. constructor; auto.
Qed.

Lemma full_match_spec st r w : full_match st r w = true ↔ den r st w true.
Proof.
  revert st r. induction w as [|c w IH]; intros st r; cbn [full_match].
  - apply nullable_spec.
  - rewrite IH. split; [apply deriv_sound|apply deriv_complete].
Qed.

Lemma den_any st w en : den (Star (Chr AnyChar)) st w en.
Proof.
  revert st. induction w as [|c w IH]; intros st; [constructor|].
  apply (den_star_cons _ _ _ []); auto with re2.
Qed.

Lemma search_spec r s :
  search r s = true ↔
  ∃ before w after, String.list_ascii_of_string s = before ++ w ++ after ∧
    den r (is_nil before) w (is_nil after).
Proof.
  unfold search. rewrite full_match_spec, den_cat_inv. split.
  - intros (before & w' & -> & _ & (w & after & -> & Hr & _)%den_cat_inv). eauto.
  - intros (before & w & after & -> & Hr). exists before, (w ++ after).
    split; [done|]. split; [apply den_any|].
    apply den_cat_inv. exists w, after. eauto using den_any.
Qed.

(** *** Alternations of literals *)
Definition lits (w : list ascii) : list re := (λ c, Chr (Lit c)) <$> w.

Lemma cat_all_snoc items r : cat_all (items ++ [r]) = Cat r (cat_all items).
Proof. unfold cat_all. by rewrite fold_left_app. Qed.

Lemma den_cat_all_lits w st u en : den (cat_all (rev (lits w))) st u en ↔ u = w.
Proof.
  revert st u. induction w as [|c w IH]; intros st u.
  - split; [intros H; by inv_den H|]. intros ->. constructor.
  - cbn [lits fmap list_fmap rev]. rewrite cat_all_snoc, den_cat_inv. split.
    + intros (w1 & w2 & -> & H1 & H2). inv_den H1. case_bool_decide; [|done].
      apply IH in H2 as ->. by subst.
    + intros ->. exists [c], w. split; [done|]. split; [|by apply IH].
      constructor. cbn. by rewrite bool_decide_true.
Qed.

(** The words [ws] as finished alternatives of a group. *)
Definition alternatives (ws : list (list ascii)) : list re :=
  (λ w, cat_all (rev (lits w))) <$> ws.

Lemma den_close ws items st u en :
  den (close (Frame (alternatives ws) items)) st u en ↔
  den (cat_all items) st u en ∨ u ∈ ws.
Proof.
  unfold close. cbn [Re2.alts Re2.cur]. generalize (cat_all items).
  induction ws as [|w ws IH]; intros r; cbn.
  - rewrite elem_of_nil. tauto.
  - rewrite IH, den_alt_inv, den_cat_all_lits, elem_of_cons. tauto.
Qed.

#[local] Arguments alternatives : simpl never.

(** Reading a literal character adds it to the current alternative. *)
Lemma parse_literal_char fuel q f up c s :
  literal_char c = true →
  parse (S fuel) q f up (String c s) = parse fuel false (push (Chr (Lit c)) f) up s.
Proof.
  by destruct c as [[] [] [] [] [] [] [] []]; vm_compute (literal_char _).
Qed.

Definition word (w : string) : list ascii := String.list_ascii_of_string w.

Lemma word_inj w v : word w = word v → w = v.
Proof.
  intros H. rewrite <-(String.string_of_list_ascii_of_string w).
  unfold word in H. by rewrite H, String.string_of_list_ascii_of_string.
Qed.

Lemma parse_literal fuel f up w s :
  literal w = true →
  parse (String.length w + fuel) false f up (w +:+ s) =
  parse fuel false (Frame (alts f) (rev (lits (word w)) ++ cur f)) up s.
Proof.
  revert f. induction w as [|c w IH]; intros f Hw; [by destruct f|].
  rewrite string_app_cons. apply andb_true_iff in Hw as [Hc Hw].
  cbn [String.length Nat.add]. rewrite parse_literal_char, IH by done.
  cbn. by rewrite <-app_assoc.
Qed.

Lemma length_app_string s t : String.length (s +:+ t) = String.length s + String.length t.
Proof. induction s as [|c s IH]; [done|]. rewrite string_app_cons. cbn. by rewrite IH. Qed.

(** Reading the joined words of a group up to its closing parenthesis. *)
Lemma parse_Join fuel done_ ns g up s :
  ns ≠ [] → Forall (λ n, literal n = true) ns →
  ∃ ws items,
    parse (String.length (Join ns "|") + S fuel) false (Frame (alternatives done_) []) (g :: up)
      (Join ns "|" +:+ String ")" s) =
    parse fuel false (push (close (Frame (alternatives ws) (rev (lits items)))) g) up s ∧
    ∀ u, u ∈ done_ ∨ u ∈ word <$> ns ↔ u = items ∨ u ∈ ws.
Proof.
  revert done_. induction ns as [|n ns IH]; intros done_ Hne Hlit; [done|].
  apply Forall_cons in Hlit as [Hn Hlit].
  destruct (decide (ns = [])) as [->|Hns].
  - exists done_, (word n). split.
    + cbn [Join String.concat]. unfold Join. cbn [String.concat].
      rewrite parse_literal by done. cbn. by rewrite app_nil_r.
    + intros u. cbn. rewrite list_elem_of_singleton. tauto.
  - destruct (IH (word n :: done_) Hns Hlit) as (ws & items & Hp & Hu).
    exists ws, items. split.
    + rewrite Join_cons by done. rewrite !string_app_assoc, !length_app_string.
      rewrite <-!Nat.add_assoc, parse_literal by done.
      cbn [rev lits alts cur]. rewrite app_nil_r. cbn. apply Hp.
    + intros u. rewrite <-Hu. cbn. rewrite !elem_of_cons. tauto.
Qed.

Lemma compile_literals_eq ns :
  ns ≠ [] → Forall (λ n, literal n = true) ns →
  ∃ ws items,
    compile (anchored (Join ns "|")) =
      Ok (Cat Bol (Cat (close (Frame (alternatives ws) (rev (lits items)))) (Cat Eol Eps))) ∧
    ∀ u, u ∈ word <$> ns ↔ u = items ∨ u ∈ ws.
Proof.
  intros Hne Hlit. unfold compile, anchored.
  destruct (parse_Join 3 [] ns (Frame [] [Bol]) [] "$") as (ws & items & Hp & Hu); [done..|].
  exists ws, items. split.
  - rewrite !length_app_string.
    replace (String.length "^(?:" + (String.length (Join ns "|") + String.length ")$"))
      with (S (S (String.length (Join ns "|") + 4))) by (cbn; lia).
    change ("^(?:" +:+ ?t) with (String "^" (String "(" (String "?" (String ":" t)))).
    cbn [parse]. change (push Bol (Frame [] [])) with (Frame [] [Bol]).
    change (alternatives []) with (@nil re) in Hp. by rewrite Hp.
  - intros u. rewrite <-Hu, elem_of_nil. tauto.
Qed.

Lemma search_alternatives ws items s :
  search (Cat Bol (Cat (close (Frame (alternatives ws) (rev (lits items)))) (Cat Eol Eps))) s
    = true ↔ word s = items ∨ word s ∈ ws.
Proof.
  rewrite search_spec. fold (word s). split.
  - intros (before & w & after & Hs & (w1 & w2 & -> & H1 & H2)%den_cat_inv).
    inv_den H1. destruct before; [|done]. cbn in *.
    apply den_cat_inv in H2 as (w1 & w3 & -> & H2 & (w4 & w5 & -> & H3 & H4)%den_cat_inv).
    inv_den H4. inv_den H3. destruct after; [|done].
    rewrite !app_nil_r in Hs. rewrite den_close, den_cat_all_lits in H2. by rewrite Hs.
  - intros Hs. exists [], (word s), []. split; [by rewrite app_nil_r|].
    apply den_cat_inv. exists [], (word s). split; [done|]. split; [constructor|].
    apply den_cat_inv. exists (word s), []. split; [by rewrite app_nil_r|].
    split; [by rewrite den_close, den_cat_all_lits|].
    apply den_cat_inv. exists [], []. split; [done|]. split; constructor.
Qed.

(** *** The instances *)
#[export] Instance engine : RegexpEngine := {|
  regexp := re;
  Compile := compile;
  MatchString := search;
|}.

#[export] Instance engine_literals : RegexpLiterals.
Proof.
  intros ns Hne Hlit.
  destruct (compile_literals_eq ns Hne Hlit) as (ws & items & Hc & Hu).
  eexists. split; [exact Hc|]. intros s. apply eq_true_iff_eq.
  cbn. rewrite search_alternatives, bool_decide_eq_true, <-Hu.
  split; [intros (n & Hn & Hs)%list_elem_of_fmap|intros H].
  - by apply word_inj in Hn as ->.
  - by apply list_elem_of_fmap_2.
Qed.
End Re2.
