(* ===== verification/DataSet.v ===== *)
(** * Sets of names (src/pkg/data/set.go)

    [data.Set] is a Go map with empty values: [None] is the nil map,
    [Some m] an allocated one.  The nil map reads like an empty one, but
    the code tells them apart ([translateMatcher] leaves matchers alone
    when the set is nil). *)
From S2P Require Import Prelude GoStrings.
From stdpp Require Import options.

Module DataSet.

Definition Set_ : Type := option (gset string).

(** The keys a [range] loop over the map can meet. *)
Definition keys (s : Set_) : gset string := default ∅ s.

(** [_, exist := s[v]] and [len(s)]. *)
Definition exist (v : string) (s : Set_) : bool := bool_decide (v ∈ keys s).
Definition len (s : Set_) : nat := size (keys s).

(** [(s Set) Values()] when the [range] loop meets the keys in the order
    [order]: Go leaves that order open. *)
Definition Values_in (order : list string) (s : Set_) : list string :=
  let size := len s in
  if bool_decide (size = 0) then []
  else
    let ret := fold_left (λ ret key,
      if bool_decide (key = EmptyString) then ret else ret ++ [key]) order [] in
    if bool_decide (1 < size) then sort_Strings ret else ret.

Definition Values (s : Set_) : list string := Values_in (elements (keys s)) s.

(** [(s Set) String()]. *)
Definition String_ (s : Set_) : string := Join (Values s) ",".

(** [NewSet(values...)]. *)
Definition NewSet (values : list string) : Set_ :=
  Some (fold_left (λ ret val, {[ val ]} ∪ ret) values ∅).

(** ** Lemmas *)
Lemma Values_loop order acc :
  fold_left (λ ret key, if bool_decide (key = EmptyString) then ret else ret ++ [key])
    order acc = acc ++ filter (.≠ EmptyString) order.
Proof.
  revert acc. induction order as [|k order IH]; intros acc; cbn [fold_left]; [by rewrite app_nil_r|].
  rewrite IH, filter_cons. repeat case_decide; case_bool_decide; try done.
  by rewrite <-app_assoc.
Qed.

Lemma Values_in_perm order s :
  order ≡ₚ elements (keys s) → Values_in order s ≡ₚ filter (.≠ EmptyString) order.
Proof.
  intros Horder. unfold Values_in, len. rewrite Values_loop. cbn zeta. rewrite app_nil_l.
  case_bool_decide as Hsize.
  { apply size_empty_inv in Hsize. apply leibniz_equiv in Hsize.
    rewrite Hsize, elements_empty in Horder. by apply Permutation_nil_r in Horder as ->. }
  case_bool_decide; [apply sort_Strings_perm|done].
Qed.

(** All members but the empty string, each once. *)
Lemma elem_of_Values v s : v ∈ Values s ↔ v ∈ keys s ∧ v ≠ EmptyString.
Proof.
  unfold Values. rewrite Values_in_perm by done.
  rewrite list_elem_of_filter, elem_of_elements. tauto.
Qed.

Lemma Values_NoDup s : NoDup (Values s).
Proof.
  unfold Values. rewrite Values_in_perm by done.
  apply NoDup_filter, NoDup_elements.
Qed.

Lemma Values_in_sorted order s :
  order ≡ₚ elements (keys s) → Sorted String.le (Values_in order s).
Proof.
  intros Horder. pose proof (Values_in_perm order s Horder) as Hperm.
  pose proof (Permutation_length Hperm) as Hlen.
  assert (length order = len s) as Hl by apply Permutation_length, Horder.
  revert Hlen. unfold Values_in.
  case_bool_decide; [constructor|].
  case_bool_decide as Hsize; [intros; apply Sorted_merge_sort, _|].
  rewrite Values_loop. intros _.
  destruct order as [|x [|y order]]; cbn in Hl; try lia.
  rewrite filter_cons. case_decide; repeat constructor.
Qed.

Lemma Values_any_order order s :
  order ≡ₚ elements (keys s) → Values_in order s = Values s.
Proof.
  intros Horder. apply (Sorted_unique String.le).
  - by apply Values_in_sorted.
  - by apply Values_in_sorted.
  - unfold Values. by rewrite !Values_in_perm, Horder.
Qed.

Lemma exist_spec v s : exist v s = true ↔ v ∈ keys s.
Proof. apply bool_decide_eq_true. Qed.

Lemma keys_NewSet values v : v ∈ keys (NewSet values) ↔ v ∈ values.
Proof.
  unfold NewSet, keys. cbn.
  enough (∀ acc : gset string, v ∈ fold_left (λ ret val, {[val]} ∪ ret) values acc
    ↔ v ∈ values ∨ v ∈ acc) as -> by set_solver.
  induction values as [|x values IH]; intros acc; cbn; [set_solver|].
  rewrite IH. set_solver.
Qed.

Lemma len_zero s : len s = 0 ↔ keys s = ∅.
Proof.
  unfold len. rewrite size_empty_iff. split; [apply leibniz_equiv|by intros ->].
Qed.

(** ** Properties *)

(** Values does not depend on the order in which the Go runtime iterates
    over the map: it is the sorted list, without duplicates, of the
    members other than the empty string. *)
Theorem Values_deterministic (s : Set_) (order : list string)
  (Horder : order ≡ₚ elements (keys s)) :
  Values_in order s = Values s ∧ Sorted String.le (Values s) ∧ NoDup (Values s) ∧
  ∀ v, v ∈ Values s ↔ exist v s = true ∧ v ≠ EmptyString.
Proof.
  split_and!.
  - by apply Values_any_order.
  - by apply Values_in_sorted.
  - apply Values_NoDup.
  - intros v. by rewrite elem_of_Values, exist_spec.
Qed.

Lemma Values_deterministic_witness :
  Values_in ["c"; "B"; EmptyString; "a"] (NewSet ["a"; "B"; "c"; EmptyString]) =
  ["B"; "a"; "c"].
Proof.
  assert (["c"; "B"; EmptyString; "a"] ≡ₚ
          elements (keys (NewSet ["a"; "B"; "c"; EmptyString]))) as H.
  { apply NoDup_Permutation.
    - by apply (bool_decide_unpack _).
    - apply NoDup_elements.
    - intros x. rewrite elem_of_elements, keys_NewSet. set_solver. }
  rewrite (proj1 (Values_deterministic _ _ H)). vm_compute. reflexivity.
Defined.

End DataSet.
