(* ===== verification/Matchers.v ===== *)
(** * Label matchers

    Module [Labels] is [labels.Matcher] of the Prometheus code the program
    embeds (src/vendor/.../pkg/labels/matcher.go), module [Prompb] the
    protobuf [LabelMatcher] of remote read requests, and section
    [Conversion] the two translations between them
    (src/pkg/prom/matcher.go). *)
From S2P Require Import Prelude GoStrings Regexp.
From stdpp Require Import options.

(** ** labels.Matcher *)
Module Labels.

(** [MatchType] is an int: the four named values, and any other. *)
Inductive MatchType :=
| MatchEqual
| MatchNotEqual
| MatchRegexp
| MatchNotRegexp
| MatchTypeOther (t : Z).

#[global] Instance MatchType_eq_dec : EqDecision MatchType.
Proof. solve_decision. Defined.

(** [(m MatchType) String()] panics on an unknown type; [fmt] recovers the
    panic of a [String] method and prints it. *)
Definition MatchType_String (t : MatchType) : go string :=
  match t with
  | MatchEqual => Done "="
  | MatchNotEqual => Done "!="
  | MatchRegexp => Done "=~"
  | MatchNotRegexp => Done "!~"
  | MatchTypeOther _ => Panic "unknown match type"
  end.

Definition MetricName : string := "__name__".

Section Matcher.
Context `{RE : RegexpEngine}.

(** [re] is the compiled expression, nil for the equality types. *)
Record Matcher := MkMatcher {
  Type_ : MatchType;
  Name : string;
  Value : string;
  re : option regexp;
}.

(** [NewMatcher(t, n, v)]. *)
Definition NewMatcher (t : MatchType) (n v : string) : result string Matcher :=
  match t with
  | MatchRegexp | MatchNotRegexp =>
      match Compile (anchored v) with
      | Error err => Error err
      | Ok r => Ok (MkMatcher t n v (Some r))
      end
  | _ => Ok (MkMatcher t n v None)
  end.

(** [MustNewMatcher(mt, name, val)]. *)
Definition MustNewMatcher (mt : MatchType) (name val : string) : go Matcher :=
  match NewMatcher mt name val with
  | Error err => Panic err
  | Ok m => Done m
  end.

(** [(m *Matcher) String()]: ["%s%s%q"] of the name, type and value. *)
Definition String_ `{UnicodeTable} (m : Matcher) : string :=
  Name m +:+ match MatchType_String (Type_ m) with
             | Done s => s
             | Panic msg => "%!s(PANIC=String method: " +:+ msg +:+ ")"
             end +:+ Quote (Value m).

Definition nil_dereference : string :=
  "runtime error: invalid memory address or nil pointer dereference".

(** [(m *Matcher) Matches(s)]. *)
Definition Matches (m : Matcher) (s : string) : go bool :=
  match Type_ m with
  | MatchEqual => Done (bool_decide (s = Value m))
  | MatchNotEqual => Done (negb (bool_decide (s = Value m)))
  | MatchRegexp =>
      match re m with
      | Some r => Done (MatchString r s)
      | None => Panic nil_dereference
      end
  | MatchNotRegexp =>
      match re m with
      | Some r => Done (negb (MatchString r s))
      | None => Panic nil_dereference
      end
  | MatchTypeOther _ => Panic "labels.Matcher.Matches: invalid match type"
  end.

(** *** Well-formed matchers

    A matcher as [NewMatcher] builds it: [re] is the compilation of the
    value exactly when the type is a regular expression. *)
Definition wf (m : Matcher) : Prop :=
  NewMatcher (Type_ m) (Name m) (Value m) = Ok m ∧
  match Type_ m with MatchTypeOther _ => False | _ => True end.

(** The strings a well-formed matcher accepts. *)
Definition accepts (m : Matcher) (s : string) : bool :=
  match Matches m s with Done b => b | Panic _ => false end.

Lemma NewMatcher_fields t n v m :
  NewMatcher t n v = Ok m → Type_ m = t ∧ Name m = n ∧ Value m = v.
Proof. unfold NewMatcher. intros. repeat case_match; by simplify_eq/=. Qed.

Lemma NewMatcher_wf t n v m :
  (∀ k, t ≠ MatchTypeOther k) → NewMatcher t n v = Ok m → wf m.
Proof.
  intros Ht Hm. unfold wf. destruct (NewMatcher_fields _ _ _ _ Hm) as (-> & -> & ->).
  split; [done|]. destruct t; naive_solver.
Qed.

Lemma Matches_wf m s : wf m → Matches m s = Done (accepts m s).
Proof.
  destruct m as [t n v r]. unfold wf, accepts, Matches, NewMatcher.
  intros [H ?]. cbn in *. repeat case_match; by simplify_eq/=.
Qed.

Lemma wf_equal n v : wf (MkMatcher MatchEqual n v None).
Proof. done. Qed.

End Matcher.
Arguments Matcher : clear implicits.
Arguments Matcher {RE}.
#[global] Arguments NewMatcher : simpl never.

End Labels.

(** ** prompb.LabelMatcher *)
Module Prompb.

(** The protobuf enum; an unknown number on the wire is kept as it is. *)
Inductive LabelMatcher_Type :=
| LabelMatcher_EQ
| LabelMatcher_NEQ
| LabelMatcher_RE
| LabelMatcher_NRE
| LabelMatcher_Other (t : Z).

Record LabelMatcher := MkLabelMatcher {
  Type_ : LabelMatcher_Type;
  Name : string;
  Value : string;
}.

#[global] Instance LabelMatcher_Type_eq_dec : EqDecision LabelMatcher_Type.
Proof. solve_decision. Defined.
#[global] Instance LabelMatcher_eq_dec : EqDecision LabelMatcher.
Proof. solve_decision. Defined.

End Prompb.

(** ** Conversions (src/pkg/prom/matcher.go) *)
Section Conversion.
Context `{RE : RegexpEngine}.

Definition toLabelMatcher (m : Labels.Matcher) : result string Prompb.LabelMatcher :=
  let mk t := Ok (Prompb.MkLabelMatcher t (Labels.Name m) (Labels.Value m)) in
  match Labels.Type_ m with
  | Labels.MatchEqual => mk Prompb.LabelMatcher_EQ
  | Labels.MatchNotEqual => mk Prompb.LabelMatcher_NEQ
  | Labels.MatchRegexp => mk Prompb.LabelMatcher_RE
  | Labels.MatchNotRegexp => mk Prompb.LabelMatcher_NRE
  | Labels.MatchTypeOther _ => Error "invalid matcher type"
  end.

Fixpoint toLabelMatchers (matchers : list Labels.Matcher)
    : result string (list Prompb.LabelMatcher) :=
  match matchers with
  | [] => Ok []
  | m :: matchers =>
      pb ← toLabelMatcher m; pbs ← toLabelMatchers matchers; Ok (pb :: pbs)
  end.

Definition fromLabelMatcher (pb : Prompb.LabelMatcher) : result string Labels.Matcher :=
  let mk t := Labels.NewMatcher t (Prompb.Name pb) (Prompb.Value pb) in
  match Prompb.Type_ pb with
  | Prompb.LabelMatcher_EQ => mk Labels.MatchEqual
  | Prompb.LabelMatcher_NEQ => mk Labels.MatchNotEqual
  | Prompb.LabelMatcher_RE => mk Labels.MatchRegexp
  | Prompb.LabelMatcher_NRE => mk Labels.MatchNotRegexp
  | Prompb.LabelMatcher_Other _ => Error "invalid matcher type"
  end.

Fixpoint fromLabelMatchers (matchers : list Prompb.LabelMatcher)
    : result string (list Labels.Matcher) :=
  match matchers with
  | [] => Ok []
  | pb :: matchers =>
      m ← fromLabelMatcher pb; ms ← fromLabelMatchers matchers; Ok (m :: ms)
  end.

Lemma fromLabelMatcher_wf pb m : fromLabelMatcher pb = Ok m → Labels.wf m.
Proof.
  unfold fromLabelMatcher. case_match; [..|done]; by apply Labels.NewMatcher_wf.
Qed.

Lemma from_toLabelMatcher m pb :
  Labels.wf m → toLabelMatcher m = Ok pb → fromLabelMatcher pb = Ok m.
Proof.
  intros [Hm _]. revert Hm. unfold toLabelMatcher, fromLabelMatcher.
  destruct (Labels.Type_ m); intros; simplify_eq/=; congruence.
Qed.

Lemma to_fromLabelMatcher m pb : fromLabelMatcher pb = Ok m → toLabelMatcher m = Ok pb.
Proof.
  destruct pb as [t n v]. unfold fromLabelMatcher, toLabelMatcher. cbn.
  destruct t; intros H; try done;
    destruct (Labels.NewMatcher_fields _ _ _ _ H) as (-> & -> & ->); done.
Qed.

Lemma toLabelMatcher_wf m : Labels.wf m → ∃ pb, toLabelMatcher m = Ok pb.
Proof. intros [_ H]. unfold toLabelMatcher. case_match; eauto; done. Qed.

Lemma toLabelMatcher_Name m pb :
  toLabelMatcher m = Ok pb → Prompb.Name pb = Labels.Name m.
Proof. unfold toLabelMatcher. intros. case_match; by simplify_eq/=. Qed.

Lemma fromLabelMatcher_Name m pb :
  fromLabelMatcher pb = Ok m → Labels.Name m = Prompb.Name pb.
Proof. intros H%to_fromLabelMatcher. symmetry. by apply toLabelMatcher_Name. Qed.

Lemma from_toLabelMatchers ms pbs :
  Forall Labels.wf ms → toLabelMatchers ms = Ok pbs → fromLabelMatchers pbs = Ok ms.
Proof.
  intros Hms. revert pbs. induction Hms as [|m ms Hm Hms IH]; intros pbs.
  { intros. by simplify_eq/=. }
  cbn. destruct (toLabelMatcher m) as [pb|] eqn:Hpb; [|done]. cbn.
  destruct (toLabelMatchers ms); [|done]. intros. simplify_eq/=.
  by erewrite from_toLabelMatcher, IH by done.
Qed.

Lemma fromLabelMatchers_wf pbs ms : fromLabelMatchers pbs = Ok ms → Forall Labels.wf ms.
Proof.
  revert ms. induction pbs as [|pb pbs IH]; intros ms; cbn.
  { intros. simplify_eq. constructor. }
  destruct (fromLabelMatcher pb) eqn:Hpb; [|done]. cbn.
  destruct (fromLabelMatchers pbs) eqn:Hpbs; [|done]. cbn. intros. simplify_eq.
  constructor; eauto using fromLabelMatcher_wf.
Qed.

End Conversion.
