(* ===== verification/Prom.v ===== *)
(** * Restricting label matchers to a set of namespaces (src/pkg/prom)

    [FilterMatchers] and [FilterLabelMatchers] rewrite the matchers of a
    selector so that it only selects series of the namespaces of a set:
    the first matcher on the label [namespace] is translated in place, and
    a matcher is appended when there is none.  The Go code works on
    pointers it owns (each matcher of a parsed expression or of a decoded
    request is referenced once), so an in-place change is the replacement
    of the list element. *)
From S2P Require Import Prelude GoStrings Regexp DataSet Matchers.
From Stdlib Require Import Ascii.
From stdpp Require Import options.

Definition namespaceMatchName : string := "namespace".
Definition noneNamespace : string := "______".

(** ** join.go *)

(** [stringSliceFilter(strSlice, filter)]; the callback may panic. *)
Fixpoint stringSliceFilter (strSlice : list string) (filter : string → go bool)
    : go (list string) :=
  match strSlice with
  | [] => Done []
  | ns :: strSlice =>
      keep ← filter ns;
      matchNss ← stringSliceFilter strSlice filter;
      Done (if keep : bool then ns :: matchNss else matchNss)
  end.

Definition stringSliceIgnore (strSlice : list string) (ignore : string) : go (list string) :=
  stringSliceFilter strSlice (λ value, Done (negb (bool_decide (ignore = value)))).

Definition join (strSlice : list string) : string := Join strSlice "|".

(** ** matcher.go *)
Section Prom.
Context `{RE : RegexpEngine}.

Definition modifyMatcher (srcMatcher : Labels.Matcher) (namespaces : list string)
    : go Labels.Matcher :=
  match namespaces with
  | [] => Labels.MustNewMatcher Labels.MatchEqual (Labels.Name srcMatcher) noneNamespace
  | [ns] => Labels.MustNewMatcher Labels.MatchEqual (Labels.Name srcMatcher) ns
  | _ => Labels.MustNewMatcher Labels.MatchRegexp (Labels.Name srcMatcher) (join namespaces)
  end.

Definition createMatcher (matcherName : string) (namespaces : list string)
    : go Labels.Matcher :=
  modifyMatcher (Labels.MkMatcher Labels.MatchEqual matcherName EmptyString None) namespaces.

Definition modifyLabelMatcher (srcMatcher : Prompb.LabelMatcher) (namespaces : list string)
    : Prompb.LabelMatcher :=
  let set t v := Prompb.MkLabelMatcher t (Prompb.Name srcMatcher) v in
  match namespaces with
  | [] => set Prompb.LabelMatcher_EQ noneNamespace
  | [ns] => set Prompb.LabelMatcher_EQ ns
  | _ => set Prompb.LabelMatcher_RE (join namespaces)
  end.

Definition createLabelMatcher (matcherName : string) (namespaces : list string)
    : Prompb.LabelMatcher :=
  modifyLabelMatcher (Prompb.MkLabelMatcher Prompb.LabelMatcher_EQ matcherName EmptyString)
    namespaces.

(** ** translate.go *)
Definition translateMatcher (namespaceSet : DataSet.Set_) (srcMatcher : Labels.Matcher)
    : go Labels.Matcher :=
  match namespaceSet with
  | None => Done srcMatcher
  | Some _ =>
      let value := Labels.Value srcMatcher in
      match Labels.Type_ srcMatcher with
      | Labels.MatchEqual =>
          if DataSet.exist value namespaceSet then Done srcMatcher
          else Done (Labels.MkMatcher (Labels.Type_ srcMatcher) (Labels.Name srcMatcher)
                       noneNamespace (Labels.re srcMatcher))
      | Labels.MatchNotEqual =>
          let namespaces := DataSet.Values namespaceSet in
          namespaces ← (if DataSet.exist value namespaceSet
                        then stringSliceIgnore namespaces value else Done namespaces);
          modifyMatcher srcMatcher namespaces
      | Labels.MatchRegexp | Labels.MatchNotRegexp =>
          namespaces ← stringSliceFilter (DataSet.Values namespaceSet)
                         (λ ns, Labels.Matches srcMatcher ns);
          modifyMatcher srcMatcher namespaces
      | Labels.MatchTypeOther _ => Done srcMatcher
      end
  end.

Definition translateLabelMatcher (namespaceSet : DataSet.Set_)
    (srcMatcher : Prompb.LabelMatcher) : go Prompb.LabelMatcher :=
  match namespaceSet with
  | None => Done srcMatcher
  | Some _ =>
      let value := Prompb.Value srcMatcher in
      match Prompb.Type_ srcMatcher with
      | Prompb.LabelMatcher_EQ =>
          if DataSet.exist value namespaceSet then Done srcMatcher
          else Done (Prompb.MkLabelMatcher (Prompb.Type_ srcMatcher)
                       (Prompb.Name srcMatcher) noneNamespace)
      | Prompb.LabelMatcher_NEQ =>
          let namespaces := DataSet.Values namespaceSet in
          namespaces ← (if DataSet.exist value namespaceSet
                        then stringSliceIgnore namespaces value else Done namespaces);
          Done (modifyLabelMatcher srcMatcher namespaces)
      | Prompb.LabelMatcher_RE =>
          match Compile (anchored value) with
          | Error _ => Done srcMatcher
          | Ok valueRegexp =>
              namespaces ← stringSliceFilter (DataSet.Values namespaceSet)
                             (λ ns, Done (MatchString valueRegexp ns));
              Done (modifyLabelMatcher srcMatcher namespaces)
          end
      | Prompb.LabelMatcher_NRE =>
          match Compile (anchored value) with
          | Error _ => Done srcMatcher
          | Ok valueRegexp =>
              namespaces ← stringSliceFilter (DataSet.Values namespaceSet)
                             (λ ns, Done (negb (MatchString valueRegexp ns)));
              Done (modifyLabelMatcher srcMatcher namespaces)
          end
      | Prompb.LabelMatcher_Other _ => Done srcMatcher
      end
  end.

(** ** filter.go *)

(** The [for] loop of both functions: translate the first element named
    [namespace] and stop; [None] when the loop falls through. *)
Fixpoint filter_loop {M} (name : M → string) (translate : M → go M) (srcMatchers : list M)
    : option (go (list M)) :=
  match srcMatchers with
  | [] => None
  | m :: rest =>
      if bool_decide (name m = namespaceMatchName)
      then Some (m ← translate m; Done (m :: rest))
      else (λ r, rest ← r; Done (m :: rest)) <$> filter_loop name translate rest
  end.

Definition FilterMatchers (namespaceSet : DataSet.Set_) (srcMatchers : list Labels.Matcher)
    : go (list Labels.Matcher) :=
  match filter_loop Labels.Name (translateMatcher namespaceSet) srcMatchers with
  | Some r => r
  | None =>
      m ← createMatcher namespaceMatchName (DataSet.Values namespaceSet);
      Done (srcMatchers ++ [m])
  end.

Definition FilterLabelMatchers (namespaceSet : DataSet.Set_)
    (srcMatchers : list Prompb.LabelMatcher) : go (list Prompb.LabelMatcher) :=
  match filter_loop Prompb.Name (translateLabelMatcher namespaceSet) srcMatchers with
  | Some r => r
  | None =>
      Done (srcMatchers ++
              [createLabelMatcher namespaceMatchName (DataSet.Values namespaceSet)])
  end.

(** ** query.go *)
Definition NewInstantVectorSelectorsForNamespaces `{UnicodeTable} (namespaces : list string)
    : go string :=
  ret ← createMatcher namespaceMatchName namespaces;
  Done ("{" +:+ Labels.String_ ret +:+ "}").

Definition NewExprForCountAllLabels `{UnicodeTable} (namespaces : list string) : go string :=
  instantVectorSelectors ← NewInstantVectorSelectorsForNamespaces namespaces;
  Done ("count (" +:+ instantVectorSelectors +:+ ") by (__name__)").

End Prom.
