(* ===== verification/Restriction.v ===== *)
(** * Correctness of the namespace restriction

    The contract of src/pkg/prom: what a selector selects once its matchers
    went through [FilterMatchers] or [FilterLabelMatchers].  The contract is
    stated on series ([selects]) and the functions are proved to meet it on
    every branch; [translateMatcher] is first shown equal to a reference
    definition, [pin], from which the properties follow. *)
From S2P Require Import Prelude GoStrings Regexp DataSet Matchers Prom.
From Stdlib Require Import Ascii Btauto.
From stdpp Require Import options.

Section Restriction.
Context `{RE : RegexpEngine}.

(** ** Specification

    A series is its labels; a selector matches a series when each matcher
    accepts the value of its label, an absent label having the empty
    value. *)
Definition Series : Type := gmap string string.
Definition label (series : Series) (name : string) : string :=
  default EmptyString (series !! name).
Definition selects (ms : list Labels.Matcher) (series : Series) : bool :=
  forallb (λ m, Labels.accepts m (label series (Labels.Name m))) ms.

(** Names a Kubernetes namespace can have (a superset of the DNS labels):
    not empty, letters, digits and hyphens. *)
Definition namespace_char (c : ascii) : bool :=
  is_lower c || is_upper c || is_digit c || bool_decide (c = "-"%char).
Definition namespace_name (n : string) : Prop :=
  n ≠ EmptyString ∧ string_forall namespace_char n = true.
#[export] Instance namespace_name_dec n : Decision (namespace_name n).
Proof. apply _. Defined.

(** An allocated set of such names. *)
Definition namespace_set (S : DataSet.Set_) : Prop :=
  S ≠ None ∧ ∀ n, n ∈ DataSet.keys S → namespace_name n.


(** Reference definition of the translation: pin the label to the names of
    the set that the original matcher accepts. *)
Definition kept (S : DataSet.Set_) (m : Labels.Matcher) : list string :=
  filter (λ n, Labels.accepts m n = true) (DataSet.Values S).
Definition pin (S : DataSet.Set_) (m : Labels.Matcher) : go Labels.Matcher :=
  modifyMatcher m (kept S m).

(** ** Lemmas *)
Lemma namespace_name_literal n : namespace_name n → literal n = true.
Proof.
  intros [_ Hn]. revert Hn. apply string_forall_impl. intros c.
  unfold namespace_char, literal_char. by intros ->.
Qed.

Lemma noneNamespace_not_name : ¬ namespace_name noneNamespace.
Proof. by intros [_ H]. Qed.

Lemma elem_of_Values_set S n : namespace_set S → n ∈ DataSet.Values S ↔ n ∈ DataSet.keys S.
Proof.
  intros [_ HS]. rewrite DataSet.elem_of_Values. split; [tauto|].
  intros Hn. by destruct (HS n Hn).
Qed.

Lemma Values_literal S :
  namespace_set S → Forall (λ n, literal n = true) (DataSet.Values S).
Proof.
  intros HS. apply Forall_forall. intros n Hn%elem_of_Values_set; [|done].
  by apply namespace_name_literal, HS.
Qed.

Lemma stringSliceFilter_Done l f g :
  (∀ n, n ∈ l → f n = Done (g n)) →
  stringSliceFilter l f = Done (filter (λ n, g n = true) l).
Proof.
  induction l as [|n l IH]; intros Hf; [done|]. cbn [stringSliceFilter].
  rewrite Hf by left. rewrite IH by (intros; apply Hf; by right).
  rewrite filter_cons. by destruct (g n).
Qed.

Lemma stringSliceIgnore_Done l v :
  stringSliceIgnore l v = Done (filter (λ n, negb (bool_decide (v = n)) = true) l).
Proof. by apply stringSliceFilter_Done. Qed.

Lemma filter_all {A} (P : A → Prop) `{∀ x, Decision (P x)} (l : list A) :
  (∀ x, x ∈ l → P x) → filter P l = l.
Proof.
  induction l as [|x l IH]; intros HP; [done|].
  rewrite filter_cons_True by (apply HP; left). f_equal. apply IH. intros. apply HP. by right.
Qed.

Lemma filter_none {A} (P : A → Prop) `{∀ x, Decision (P x)} (l : list A) :
  (∀ x, x ∈ l → ¬ P x) → filter P l = [].
Proof.
  induction l as [|x l IH]; intros HP; [done|].
  rewrite filter_cons_False by (apply HP; left). apply IH. intros. apply HP. by right.
Qed.

Lemma filter_ext_in {A} (P Q : A → Prop) `{∀ x, Decision (P x), ∀ x, Decision (Q x)}
    (l : list A) :
  (∀ x, x ∈ l → P x ↔ Q x) → filter P l = filter Q l.
Proof.
  induction l as [|x l IH]; intros HPQ; [done|].
  rewrite !filter_cons, IH by (intros; apply HPQ; by right).
  assert (P x ↔ Q x) by (apply HPQ; left). repeat case_decide; tauto || done.
Qed.

Lemma filter_single {A} (P : A → Prop) `{∀ x, Decision (P x)} (l : list A) x :
  NoDup l → x ∈ l → (∀ y, y ∈ l → P y ↔ y = x) → filter P l = [x].
Proof.
  intros Hl Hx HP. apply Permutation_singleton_r. apply NoDup_Permutation.
  - by apply NoDup_filter.
  - apply NoDup_singleton.
  - intros y. rewrite list_elem_of_filter, list_elem_of_singleton. naive_solver.
Qed.

(** [modifyMatcher] accepts exactly the given names (and [noneNamespace]
    when there is none). *)
Lemma modifyMatcher_spec `{!RegexpLiterals} m nss :
  Forall (λ n, literal n = true) nss →
  ∃ m', modifyMatcher m nss = Done m' ∧ Labels.Name m' = Labels.Name m ∧ Labels.wf m' ∧
        ∀ v, v ≠ noneNamespace → Labels.accepts m' v = bool_decide (v ∈ nss).
Proof.
  intros Hlit. destruct nss as [|n1 [|n2 nss]].
  - eexists. split_and!; [done..|]. intros v Hv.
    unfold Labels.accepts. cbn. by rewrite !bool_decide_false by set_solver.
  - eexists. split_and!; [done..|]. intros v Hv.
    unfold Labels.accepts. cbn. apply bool_decide_ext. set_solver.
  - destruct (compile_literals (n1 :: n2 :: nss)) as (r & Hr & Hmatch); [done..|].
    unfold modifyMatcher, Labels.MustNewMatcher, Labels.NewMatcher, join. rewrite Hr.
    eexists. split_and!; [done..| |].
    + unfold Labels.wf, Labels.NewMatcher. cbn [Labels.Type_ Labels.Value].
      by rewrite Hr.
    + intros v _. unfold Labels.accepts. cbn. apply Hmatch.
Qed.

Lemma modifyMatcher_Name m1 m2 nss :
  Labels.Name m1 = Labels.Name m2 → modifyMatcher m1 nss = modifyMatcher m2 nss.
Proof. unfold modifyMatcher. by intros ->. Qed.

Lemma kept_literal S m : namespace_set S → Forall (λ n, literal n = true) (kept S m).
Proof.
  intros HS. apply Forall_forall. intros n [_ Hn]%list_elem_of_filter.
  revert n Hn. by apply Forall_forall, Values_literal.
Qed.

Lemma elem_of_kept S m v :
  namespace_set S → v ∈ kept S m ↔ Labels.accepts m v = true ∧ v ∈ DataSet.keys S.
Proof. intros HS. unfold kept. by rewrite list_elem_of_filter, elem_of_Values_set. Qed.

(** [kept], by type of matcher. *)
Lemma kept_equal S m :
  namespace_set S → Labels.Type_ m = Labels.MatchEqual →
  kept S m = if DataSet.exist (Labels.Value m) S then [Labels.Value m] else [].
Proof.
  intros HS Ht.
  assert (∀ s, Labels.accepts m s = true ↔ s = Labels.Value m) as Ha.
  { intros s. unfold Labels.accepts, Labels.Matches. rewrite Ht. apply bool_decide_eq_true. }
  unfold kept. destruct (DataSet.exist _ S) eqn:He.
  - apply filter_single; [apply DataSet.Values_NoDup| |intros y _; apply Ha].
    by apply elem_of_Values_set, DataSet.exist_spec.
  - apply filter_none. intros n Hn%elem_of_Values_set; [|done]. rewrite Ha. intros ->.
    apply DataSet.exist_spec in Hn. congruence.
Qed.

Lemma kept_not_equal S m :
  namespace_set S → Labels.Type_ m = Labels.MatchNotEqual →
  (if DataSet.exist (Labels.Value m) S
   then stringSliceIgnore (DataSet.Values S) (Labels.Value m)
   else Done (DataSet.Values S)) = Done (kept S m).
Proof.
  intros HS Ht.
  assert (∀ s, Labels.accepts m s = negb (bool_decide (Labels.Value m = s))) as Ha.
  { intros s. unfold Labels.accepts, Labels.Matches. rewrite Ht.
    f_equal. apply bool_decide_ext. naive_solver. }
  unfold kept. destruct (DataSet.exist _ S) eqn:He.
  - rewrite stringSliceIgnore_Done. f_equal. apply filter_ext_in. intros x _. by rewrite Ha.
  - rewrite filter_all; [done|]. intros n Hn%elem_of_Values_set; [|done].
    rewrite Ha, bool_decide_false; [done|]. intros <-.
    apply DataSet.exist_spec in Hn. congruence.
Qed.

Lemma kept_matches S m (f : string → go bool) :
  (∀ n, f n = Done (Labels.accepts m n)) →
  stringSliceFilter (DataSet.Values S) f = Done (kept S m).
Proof. intros Hf. by apply stringSliceFilter_Done. Qed.

Lemma translateMatcher_pin S m :
  namespace_set S → Labels.wf m → translateMatcher S m = pin S m.
Proof.
  intros HS Hm. unfold translateMatcher, pin.
  destruct S as [S'|]; [|by destruct HS]. set (S := Some S') in *.
  destruct (Labels.Type_ m) eqn:Ht.
  - rewrite kept_equal by done. destruct Hm as [Hm _]. rewrite Ht in Hm.
    injection Hm as Hm. cbv [modifyMatcher Labels.MustNewMatcher Labels.NewMatcher].
    case_match; [congruence|by rewrite <-Hm].
  - by rewrite kept_not_equal.
  - rewrite kept_matches with (m := m); [done|]. intros n. by apply Labels.Matches_wf.
  - rewrite kept_matches with (m := m); [done|]. intros n. by apply Labels.Matches_wf.
  - destruct Hm as [_ Hm]. by rewrite Ht in Hm.
Qed.

Lemma pin_spec `{!RegexpLiterals} S m :
  namespace_set S → Labels.wf m →
  ∃ m', pin S m = Done m' ∧ Labels.Name m' = Labels.Name m ∧ Labels.wf m' ∧
        ∀ v, v ≠ noneNamespace →
             Labels.accepts m' v = Labels.accepts m v && DataSet.exist v S.
Proof.
  intros HS Hm.
  destruct (modifyMatcher_spec m (kept S m)) as (m' & H1 & H2 & H3 & H4);
    [by apply kept_literal|].
  exists m'. split_and!; [done..|]. intros v Hv. rewrite H4 by done.
  apply eq_true_iff_eq.
  by rewrite bool_decide_eq_true, elem_of_kept, andb_true_iff, DataSet.exist_spec.
Qed.

Lemma pin_idemp `{!RegexpLiterals} S m m' :
  namespace_set S → Labels.wf m → pin S m = Done m' → pin S m' = Done m'.
Proof.
  intros HS Hm Hpin. destruct (pin_spec S m HS Hm) as (m1 & H1 & Hname & _ & Hacc).
  assert (m1 = m') as -> by congruence. clear H1. rewrite <-Hpin. unfold pin.
  rewrite (modifyMatcher_Name m' m) by done. f_equal.
  apply filter_ext_in. intros n Hn%elem_of_Values_set; [|done].
  assert (n ≠ noneNamespace) by (intros ->; by destruct (noneNamespace_not_name), (proj2 HS _ Hn)).
  rewrite Hacc, andb_true_iff, DataSet.exist_spec by done. tauto.
Qed.

Lemma filter_loop_view {M} (name : M → string) translate ms :
  (∃ l m k, ms = l ++ m :: k ∧ Forall (λ m, name m ≠ namespaceMatchName) l ∧
     name m = namespaceMatchName ∧
     filter_loop name translate ms = Some (m' ← translate m; Done (l ++ m' :: k))) ∨
  (Forall (λ m, name m ≠ namespaceMatchName) ms ∧ filter_loop name translate ms = None).
Proof.
  induction ms as [|m ms IH]; cbn [filter_loop]; [right; auto|].
  case_bool_decide as Hm.
  { left. exists [], m, ms. auto. }
  destruct IH as [(l & m0 & k & -> & Hl & Hm0 & ->)|[Hms ->]]; [left|right; auto].
  exists (m :: l), m0, k. split_and!; [done|by constructor|done|].
  cbn. by destruct (translate m0).
Qed.

(** What [FilterMatchers] does, in terms of [pin]: it pins the first
    matcher on the label [namespace], or appends a pinned one. *)
Lemma FilterMatchers_view S ms :
  namespace_set S → Forall Labels.wf ms →
  (∃ l m k, ms = l ++ m :: k ∧
     Forall (λ m, Labels.Name m ≠ namespaceMatchName) l ∧
     Labels.Name m = namespaceMatchName ∧
     FilterMatchers S ms = (m' ← pin S m; Done (l ++ m' :: k))) ∨
  (Forall (λ m, Labels.Name m ≠ namespaceMatchName) ms ∧
     FilterMatchers S ms =
       (m' ← createMatcher namespaceMatchName (DataSet.Values S); Done (ms ++ [m']))).
Proof.
  intros HS Hms. unfold FilterMatchers.
  destruct (filter_loop_view Labels.Name (translateMatcher S) ms)
    as [(l & m & k & -> & Hl & Hm & ->)|[Hne ->]]; [left|by right].
  exists l, m, k. split_and!; [done..|].
  rewrite translateMatcher_pin; [done..|].
  by apply Forall_app in Hms as [_ [? _]%Forall_cons].
Qed.

Lemma selects_app ms1 ms2 series :
  selects (ms1 ++ ms2) series = selects ms1 series && selects ms2 series.
Proof. apply forallb_app. Qed.

Lemma createMatcher_spec `{!RegexpLiterals} S :
  namespace_set S →
  ∃ m, createMatcher namespaceMatchName (DataSet.Values S) = Done m ∧
       Labels.Name m = namespaceMatchName ∧ Labels.wf m ∧
       ∀ v, v ≠ noneNamespace → Labels.accepts m v = DataSet.exist v S.
Proof.
  intros HS. unfold createMatcher.
  destruct (modifyMatcher_spec (Labels.MkMatcher Labels.MatchEqual namespaceMatchName
    EmptyString None) (DataSet.Values S)) as (m & H1 & H2 & H3 & H4); [by apply Values_literal|].
  exists m. split_and!; [done..|]. intros v Hv. rewrite H4 by done.
  apply bool_decide_ext. by apply elem_of_Values_set.
Qed.

Lemma FilterMatchers_spec `{!RegexpLiterals} S ms :
  namespace_set S → Forall Labels.wf ms →
  ∃ ms', FilterMatchers S ms = Done ms' ∧ Forall Labels.wf ms' ∧
    ∀ series, label series namespaceMatchName ≠ noneNamespace →
      selects ms' series =
      selects ms series && DataSet.exist (label series namespaceMatchName) S.
Proof.
  intros HS Hms.
  destruct (FilterMatchers_view S ms HS Hms) as [(l & m & k & -> & Hl & Hm & ->)|[Hne ->]].
  - apply Forall_app in Hms as [Hwl [Hwm Hwk]%Forall_cons].
    destruct (pin_spec S m HS Hwm) as (m' & -> & Hname & Hwf & Hacc).
    exists (l ++ m' :: k). split_and!; [done|by apply Forall_app_2, Forall_cons_2|].
    intros series Hs. rewrite !selects_app. cbn.
    rewrite Hname, Hm, Hacc by done. btauto.
  - destruct (createMatcher_spec S HS) as (m & -> & Hname & Hwf & Hacc).
    exists (ms ++ [m]). split_and!; [done|by apply Forall_app_2, Forall_cons_2|].
    intros series Hs. rewrite selects_app. cbn.
    by rewrite Hname, Hacc, andb_true_r.
Qed.

Lemma filter_loop_at {M} (name : M → string) translate l m k :
  Forall (λ m, name m ≠ namespaceMatchName) l → name m = namespaceMatchName →
  filter_loop name translate (l ++ m :: k) =
  Some (m' ← translate m; Done (l ++ m' :: k)).
Proof.
  intros Hl Hm. induction Hl as [|m0 l Hm0 Hl IH]; cbn [app filter_loop].
  - by rewrite bool_decide_true.
  - rewrite bool_decide_false, IH by done. cbn. by destruct (translate m).
Qed.

(** A matcher that [pin] leaves alone, first of its name, makes
    [FilterMatchers] the identity. *)
Lemma FilterMatchers_pinned S l m k :
  namespace_set S → Forall (λ m, Labels.Name m ≠ namespaceMatchName) l →
  Labels.Name m = namespaceMatchName → Labels.wf m → pin S m = Done m →
  FilterMatchers S (l ++ m :: k) = Done (l ++ m :: k).
Proof.
  intros HS Hl Hm Hwf Hpin. unfold FilterMatchers.
  rewrite filter_loop_at by done. by rewrite translateMatcher_pin, Hpin.
Qed.

Lemma createMatcher_pinned `{!RegexpLiterals} S m :
  namespace_set S → createMatcher namespaceMatchName (DataSet.Values S) = Done m →
  Labels.Name m = namespaceMatchName ∧ Labels.wf m ∧ pin S m = Done m.
Proof.
  intros HS Hc. destruct (createMatcher_spec S HS) as (m' & Hc' & Hname & Hwf & Hacc).
  assert (m' = m) as -> by congruence. split_and!; [done..|].
  rewrite <-Hc. unfold pin, createMatcher.
  replace (kept S m) with (DataSet.Values S); [by apply modifyMatcher_Name|].
  symmetry. apply filter_all. intros n Hn%elem_of_Values_set; [|done].
  rewrite Hacc; [by apply DataSet.exist_spec|].
  intros ->. by destruct (noneNamespace_not_name), (proj2 HS _ Hn).
Qed.

Lemma FilterMatchers_idemp `{!RegexpLiterals} S ms ms' :
  namespace_set S → Forall Labels.wf ms →
  FilterMatchers S ms = Done ms' → FilterMatchers S ms' = Done ms'.
Proof.
  intros HS Hms.
  destruct (FilterMatchers_view S ms HS Hms) as [(l & m & k & -> & Hl & Hm & ->)|[Hne ->]].
  - apply Forall_app in Hms as [Hwl [Hwm Hwk]%Forall_cons].
    destruct (pin_spec S m HS Hwm) as (m' & Hpin & Hname & Hwf & _). rewrite Hpin.
    intros [= <-]. apply FilterMatchers_pinned; [done..|congruence|done|].
    by apply (pin_idemp S m).
  - destruct (createMatcher _ _) as [m|] eqn:Hc; intros [= <-].
    destruct (createMatcher_pinned S m HS Hc) as (Hname & Hwf & Hpin).
    by apply FilterMatchers_pinned.
Qed.

(** ** Label matchers of remote read requests *)
Lemma modifyMatcher_pb m pb nss :
  Labels.Name m = Prompb.Name pb → Forall (λ n, literal n = true) nss → RegexpLiterals →
  ∃ m', modifyMatcher m nss = Done m' ∧ fromLabelMatcher (modifyLabelMatcher pb nss) = Ok m'.
Proof.
  intros Hname Hlit HR. destruct nss as [|n1 [|n2 nss]].
  1,2: cbv [modifyMatcher Labels.MustNewMatcher Labels.NewMatcher]; rewrite Hname; by eexists.
  destruct (compile_literals (n1 :: n2 :: nss)) as (r & Hr & _); [done..|].
  unfold modifyMatcher, fromLabelMatcher, modifyLabelMatcher, Labels.MustNewMatcher,
    Labels.NewMatcher, join.
  cbn [Prompb.Type_ Prompb.Name Prompb.Value]. rewrite Hr, Hname. by eexists.
Qed.

(** On the wire, too, the translation pins the matcher. *)
Lemma translateLabelMatcher_pin S pb m :
  namespace_set S → fromLabelMatcher pb = Ok m →
  translateLabelMatcher S pb = Done (modifyLabelMatcher pb (kept S m)).
Proof.
  intros HS Hpb. unfold translateLabelMatcher.
  destruct S as [S'|]; [|by destruct HS]. set (S := Some S') in *.
  destruct pb as [t n v]. unfold fromLabelMatcher in Hpb. cbn in Hpb |- *.
  destruct t; [..|done];
    destruct (Labels.NewMatcher_fields _ _ _ _ Hpb) as (Ht & _ & Hv).
  - rewrite kept_equal, Hv by done. by case_match.
  - rewrite <-Hv. by rewrite kept_not_equal.
  - unfold Labels.NewMatcher in Hpb. destruct (Compile _) as [r|] eqn:Hr; [|done].
    injection Hpb as <-. by erewrite kept_matches.
  - unfold Labels.NewMatcher in Hpb. destruct (Compile _) as [r|] eqn:Hr; [|done].
    injection Hpb as <-. by erewrite kept_matches.
Qed.

(** A matcher that upstream refuses stays one that upstream refuses. *)
Lemma translateLabelMatcher_refused S pb err :
  fromLabelMatcher pb = Error err → translateLabelMatcher S pb = Done pb.
Proof.
  destruct pb as [t n v]. unfold fromLabelMatcher, translateLabelMatcher, Labels.NewMatcher.
  cbn. destruct S, t; try done; by destruct (Compile _).
Qed.

Lemma translateLabelMatcher_sim `{!RegexpLiterals} S pb m :
  namespace_set S → fromLabelMatcher pb = Ok m →
  ∃ pb' m', translateLabelMatcher S pb = Done pb' ∧ translateMatcher S m = Done m' ∧
            fromLabelMatcher pb' = Ok m'.
Proof.
  intros HS Hpb. rewrite (translateLabelMatcher_pin S pb m), translateMatcher_pin
    by eauto using fromLabelMatcher_wf.
  destruct (modifyMatcher_pb m pb (kept S m)) as (m' & Hm' & Hpb');
    eauto using fromLabelMatcher_Name, kept_literal.
Qed.

Lemma fromLabelMatchers_app pbs1 pbs2 :
  fromLabelMatchers (pbs1 ++ pbs2) =
  (ms1 ← fromLabelMatchers pbs1; ms2 ← fromLabelMatchers pbs2; Ok (ms1 ++ ms2)).
Proof.
  induction pbs1 as [|pb pbs1 IH]; cbn; [by destruct (fromLabelMatchers pbs2)|].
  destruct (fromLabelMatcher pb); [|done]. cbn. rewrite IH.
  destruct (fromLabelMatchers pbs1); [|done]. cbn. by destruct (fromLabelMatchers pbs2).
Qed.

Lemma fromLabelMatchers_Names pbs ms :
  fromLabelMatchers pbs = Ok ms → Prompb.Name <$> pbs = Labels.Name <$> ms.
Proof.
  revert ms. induction pbs as [|pb pbs IH]; intros ms; cbn; [by intros [= <-]|].
  destruct (fromLabelMatcher pb) eqn:Hpb; [|done]. cbn.
  destruct (fromLabelMatchers pbs); [|done]. cbn. intros [= <-]. cbn.
  f_equal; [|by apply IH]. symmetry. by apply fromLabelMatcher_Name.
Qed.

Lemma Forall_Names (pbs : list Prompb.LabelMatcher) (ms : list Labels.Matcher) :
  Prompb.Name <$> pbs = Labels.Name <$> ms →
  Forall (λ pb, Prompb.Name pb ≠ namespaceMatchName) pbs →
  Forall (λ m, Labels.Name m ≠ namespaceMatchName) ms.
Proof.
  intros H Hpbs. apply (Forall_fmap Labels.Name (.≠ namespaceMatchName)).
  rewrite <-H. by apply Forall_fmap.
Qed.

Lemma createLabelMatcher_sim `{!RegexpLiterals} S :
  namespace_set S →
  ∃ m, createMatcher namespaceMatchName (DataSet.Values S) = Done m ∧
    fromLabelMatcher (createLabelMatcher namespaceMatchName (DataSet.Values S)) = Ok m.
Proof. intros HS. apply modifyMatcher_pb; [done|by apply Values_literal|done]. Qed.

Lemma FilterLabelMatchers_sim `{!RegexpLiterals} S pbs ms :
  namespace_set S → fromLabelMatchers pbs = Ok ms →
  ∃ pbs' ms', FilterLabelMatchers S pbs = Done pbs' ∧ FilterMatchers S ms = Done ms' ∧
              fromLabelMatchers pbs' = Ok ms'.
Proof.
  intros HS Hpbs. pose proof (fromLabelMatchers_Names _ _ Hpbs) as Hnames.
  unfold FilterLabelMatchers, FilterMatchers.
  destruct (filter_loop_view Prompb.Name (translateLabelMatcher S) pbs)
    as [(l & pb & k & -> & Hl & Hpb & ->)|[Hne ->]].
  - rewrite fromLabelMatchers_app in Hpbs. cbn in Hpbs.
    destruct (fromLabelMatchers l) as [l'|] eqn:Hl'; [|done]. cbn in Hpbs.
    destruct (fromLabelMatcher pb) as [m|] eqn:Hm; [|done]. cbn in Hpbs.
    destruct (fromLabelMatchers k) as [k'|] eqn:Hk; [|done]. cbn in Hpbs.
    injection Hpbs as <-.
    destruct (translateLabelMatcher_sim S pb m HS Hm) as (pb' & m' & -> & Hm' & Hpb').
    rewrite filter_loop_at, Hm'; [|by eauto using Forall_Names, fromLabelMatchers_Names|].
    + eexists _, _. split_and!; [done..|].
      rewrite fromLabelMatchers_app, Hl'. cbn. by rewrite Hpb', Hk.
    + by rewrite (fromLabelMatcher_Name _ _ Hm).
  - destruct (filter_loop_view Labels.Name (translateMatcher S) ms)
      as [(l & m & k & -> & _ & Hm & _)|[_ ->]].
    { exfalso. apply (Forall_Names _ _ Hnames), Forall_app in Hne as [_ Hne].
      by apply Forall_cons in Hne as [? _]. }
    destruct (createLabelMatcher_sim S HS) as (m & -> & Hm).
    eexists _, _. split_and!; [done..|]. rewrite fromLabelMatchers_app, Hpbs. cbn.
    by rewrite Hm.
Qed.

Lemma FilterLabelMatchers_error `{!RegexpLiterals} S pbs err :
  namespace_set S → fromLabelMatchers pbs = Error err →
  ∃ pbs' err', FilterLabelMatchers S pbs = Done pbs' ∧ fromLabelMatchers pbs' = Error err'.
Proof.
  intros HS Hpbs. unfold FilterLabelMatchers.
  destruct (filter_loop_view Prompb.Name (translateLabelMatcher S) pbs)
    as [(l & pb & k & -> & _ & _ & ->)|[_ ->]].
  - destruct (fromLabelMatcher pb) as [m|e] eqn:Hm.
    + destruct (translateLabelMatcher_sim S pb m HS Hm) as (pb' & m' & -> & _ & Hpb').
      eexists _, _. split; [done|]. revert Hpbs. rewrite !fromLabelMatchers_app.
      cbn. rewrite Hm, Hpb'. cbn. destruct (fromLabelMatchers l); cbn; [|done].
      by destruct (fromLabelMatchers k).
    + rewrite (translateLabelMatcher_refused S pb e Hm). by eexists _, _.
  - eexists _, _. split; [done|]. by rewrite fromLabelMatchers_app, Hpbs.
Qed.

Lemma namespace_set_NewSet values :
  Forall namespace_name values → namespace_set (DataSet.NewSet values).
Proof.
  intros Hv. split; [done|]. intros n Hn%DataSet.keys_NewSet.
  by rewrite Forall_forall in Hv; apply Hv.
Qed.

Lemma FilterMatchers_frame S ms ms' :
  namespace_set S → Forall Labels.wf ms → RegexpLiterals → FilterMatchers S ms = Done ms' →
  (∃ l m m' k, ms = l ++ m :: k ∧ ms' = l ++ m' :: k ∧
     Forall (λ m, Labels.Name m ≠ namespaceMatchName) l ∧
     Labels.Name m = namespaceMatchName ∧ Labels.Name m' = namespaceMatchName) ∨
  (∃ m', ms' = ms ++ [m'] ∧ Forall (λ m, Labels.Name m ≠ namespaceMatchName) ms ∧
     Labels.Name m' = namespaceMatchName).
Proof.
  intros HS Hms HR.
  destruct (FilterMatchers_view S ms HS Hms) as [(l & m & k & -> & Hl & Hm & ->)|[Hne ->]].
  - apply Forall_app in Hms as [Hwl [Hwm Hwk]%Forall_cons].
    destruct (pin_spec S m HS Hwm) as (m' & -> & Hname & _). intros [= <-].
    left. exists l, m, m', k. split_and!; congruence.
  - destruct (createMatcher_spec S HS) as (m & -> & Hname & _). intros [= <-]. right. eauto.
Qed.

(** ** Properties *)

(** C14. Restriction and exactness.  For a set of namespace names and
    well-formed matchers, [FilterMatchers] does not panic, keeps the
    matchers well formed, and the new selector selects a series exactly
    when the old one did and the series carries the label of a namespace
    of the set (the label value [noneNamespace], which no namespace has,
    aside). *)
Theorem FilterMatchers_restricts `{!RegexpLiterals} (S : DataSet.Set_)
    (ms : list Labels.Matcher) (HS : namespace_set S) (Hms : Forall Labels.wf ms) :
  ∃ ms', FilterMatchers S ms = Done ms' ∧ Forall Labels.wf ms' ∧
    ∀ series, label series namespaceMatchName ≠ noneNamespace →
      selects ms' series =
      selects ms series && DataSet.exist (label series namespaceMatchName) S.
Proof. by apply FilterMatchers_spec. Qed.

(** [translateMatcher] agrees with its reference definition on every
    type of matcher: it pins the label to the names of the set that the
    matcher accepts. *)
Theorem translateMatcher_reference (S : DataSet.Set_) (m : Labels.Matcher)
    (HS : namespace_set S) (Hm : Labels.wf m) :
  translateMatcher S m = pin S m.
Proof. by apply translateMatcher_pin. Qed.

(** Filtering twice is filtering once; a range selector is visited
    twice by the expression walk. *)
Theorem FilterMatchers_idempotent `{!RegexpLiterals} (S : DataSet.Set_)
    (ms ms' : list Labels.Matcher) (HS : namespace_set S) (Hms : Forall Labels.wf ms)
    (Hfilter : FilterMatchers S ms = Done ms') :
  FilterMatchers S ms' = Done ms'.
Proof. by apply (FilterMatchers_idemp S ms). Qed.

(** Frame: only the first matcher on [namespace] changes, and it stays
    one; without any, one is appended. *)
Theorem FilterMatchers_changes_one `{!RegexpLiterals} (S : DataSet.Set_)
    (ms ms' : list Labels.Matcher) (HS : namespace_set S) (Hms : Forall Labels.wf ms)
    (Hfilter : FilterMatchers S ms = Done ms') :
  (∃ l m m' k, ms = l ++ m :: k ∧ ms' = l ++ m' :: k ∧
     Forall (λ m, Labels.Name m ≠ namespaceMatchName) l ∧
     Labels.Name m = namespaceMatchName ∧ Labels.Name m' = namespaceMatchName) ∨
  (∃ m', ms' = ms ++ [m'] ∧ Forall (λ m, Labels.Name m ≠ namespaceMatchName) ms ∧
     Labels.Name m' = namespaceMatchName).
Proof. by apply FilterMatchers_frame with S. Qed.

(** C20. Remote read refines: filtering the wire matchers and decoding them
    is decoding them and filtering; what upstream refuses to decode it
    still refuses after the filter. *)
Theorem FilterLabelMatchers_refines `{!RegexpLiterals} (S : DataSet.Set_)
    (pbs : list Prompb.LabelMatcher) (HS : namespace_set S) :
  ∃ pbs', FilterLabelMatchers S pbs = Done pbs' ∧
    match fromLabelMatchers pbs with
    | Ok ms => ∃ ms', FilterMatchers S ms = Done ms' ∧ fromLabelMatchers pbs' = Ok ms'
    | Error _ => ∃ err, fromLabelMatchers pbs' = Error err
    end.
Proof.
  destruct (fromLabelMatchers pbs) as [ms|err] eqn:Hpbs.
  - destruct (FilterLabelMatchers_sim S pbs ms HS Hpbs) as (pbs' & ms' & ? & ? & ?). eauto.
  - destruct (FilterLabelMatchers_error S pbs err HS Hpbs) as (pbs' & err' & ? & ?). eauto.
Qed.

(** With the nil set nothing is restricted: a selector that already
    has a matcher on [namespace], whatever it is, comes back unchanged. *)
Theorem FilterMatchers_nil_set (l k : list Labels.Matcher) (m : Labels.Matcher)
    (Hl : Forall (λ m, Labels.Name m ≠ namespaceMatchName) l)
    (Hm : Labels.Name m = namespaceMatchName) :
  FilterMatchers None (l ++ m :: k) = Done (l ++ m :: k).
Proof. unfold FilterMatchers. by rewrite filter_loop_at. Qed.

End Restriction.

(** ** Witnesses *)
Module RestrictionExamples.
Import Re2.

Definition S0 : DataSet.Set_ := DataSet.NewSet ["ns-a"; "ns-b"; "rx-c"].
Definition ms0 : list Labels.Matcher :=
  match fromLabelMatchers [Prompb.MkLabelMatcher Prompb.LabelMatcher_EQ "job" "x";
    Prompb.MkLabelMatcher Prompb.LabelMatcher_RE "namespace" "n.*|kube-system"] with
  | Ok ms => ms
  | Error _ => []
  end.

Lemma S0_names : namespace_set S0.
Proof. apply namespace_set_NewSet. by apply (bool_decide_unpack _). Qed.

Lemma ms0_wf : Forall Labels.wf ms0.
Proof. repeat constructor. Qed.

Lemma FilterMatchers_restricts_witness :
  namespace_set S0 ∧ Forall Labels.wf ms0 ∧
  ∃ ms', FilterMatchers S0 ms0 = Done ms' ∧
    selects ms' {["job" := "x"; "namespace" := "ns-b"]} = true ∧
    selects ms' {["job" := "x"; "namespace" := "kube-system"]} = false.
Proof.
  split; [apply S0_names|]. split; [apply ms0_wf|].
  destruct (FilterMatchers_restricts S0 ms0 S0_names ms0_wf) as (ms' & Hms' & _ & Hsel).
  exists ms'. split; [exact Hms'|]. rewrite !Hsel by (vm_compute; discriminate).
  split; vm_compute; reflexivity.
Defined.

Lemma translateMatcher_reference_witness :
  ∃ m, ms0 !! 1 = Some m ∧ translateMatcher S0 m = pin S0 m ∧
       (Labels.Value <$> translateMatcher S0 m) = Done "ns-a|ns-b".
Proof.
  eexists. split; [reflexivity|]. split; [|vm_compute; reflexivity].
  apply (translateMatcher_reference S0); [apply S0_names|].
  apply (Forall_lookup_1 _ ms0 1); [apply ms0_wf|reflexivity].
Defined.

Definition filtered (ms : list Labels.Matcher) : list Labels.Matcher :=
  go_value [] (FilterMatchers S0 ms).

Lemma FilterMatchers_idempotent_witness :
  FilterMatchers S0 (filtered ms0) = Done (filtered ms0) ∧
  Labels.Value <$> filtered ms0 = ["x"; "ns-a|ns-b"].
Proof.
  split; [|vm_compute; reflexivity].
  apply (FilterMatchers_idempotent S0 ms0); [apply S0_names|apply ms0_wf|].
  apply returns_Done. vm_compute; reflexivity.
Defined.

Lemma FilterMatchers_changes_one_witness :
  ∃ m', filtered [] = [m'] ∧ Labels.Name m' = namespaceMatchName.
Proof.
  destruct (FilterMatchers_changes_one S0 [] (filtered []) S0_names (List.Forall_nil _))
    as [(l & m & m' & k & Hl & _)|(m' & Hm' & _ & Hname)].
  - apply returns_Done. vm_compute; reflexivity.
  - by apply app_cons_not_nil in Hl.
  - exists m'. split; [exact Hm'|exact Hname].
Defined.

Lemma FilterLabelMatchers_refines_witness :
  namespace_set S0 ∧
  ∃ pbs', FilterLabelMatchers S0
    [Prompb.MkLabelMatcher Prompb.LabelMatcher_RE "namespace" "(?bad"] = Done pbs' ∧
    ∃ err, fromLabelMatchers pbs' = Error err.
Proof.
  split; [apply S0_names|].
  exact (FilterLabelMatchers_refines S0
    [Prompb.MkLabelMatcher Prompb.LabelMatcher_RE "namespace" "(?bad"] S0_names).
Defined.

Lemma FilterMatchers_nil_set_witness :
  FilterMatchers None
    [Labels.MkMatcher Labels.MatchEqual "namespace" "kube-system" None] =
  Done [Labels.MkMatcher Labels.MatchEqual "namespace" "kube-system" None].
Proof. apply (FilterMatchers_nil_set [] []); [constructor|reflexivity]. Defined.

End RestrictionExamples.
