(* ===== verification/GoFloat.v ===== *)
(** * Integers and floating-point numbers of Go

    [int64] is [Z] with its wrap-around ([wrap64]); [float64] is the IEEE
    754 binary64 format of the Standard Library ([spec_float] with 53 bits
    of precision).  [ParseFloat] is [strconv.ParseFloat(s, 64)], computed
    with exact integers and rounded once; [FormatFloat] is the shortest
    decimal that [fmt] prints for [%v]. *)
From S2P Require Import Prelude GoStrings.
From Stdlib Require Import Ascii SpecFloat.
From stdpp Require Import options.

(** ** int64 *)
Definition int64_min : Z := - 2 ^ 63.
Definition int64_max : Z := 2 ^ 63 - 1.
Definition wrap64 (z : Z) : Z := (z + 2 ^ 63) mod 2 ^ 64 - 2 ^ 63.
Definition in_int64 (z : Z) : bool := bool_decide (int64_min ≤ z ≤ int64_max)%Z.

(** ** float64 *)
Abbreviation float64 := spec_float.
Definition prec64 : Z := 53.
Definition emax64 : Z := 1024.

(** [of_ratio neg num den]: the float nearest to [num / den]. *)
Definition of_ratio (neg : bool) (num den : Z) : float64 :=
  let k := Z.max 0 (Z.log2 den - Z.log2 num + 66) in
  let q := (num * 2 ^ k / den)%Z in
  let r := ((num * 2 ^ k) mod den)%Z in
  let l := if bool_decide (r = 0)%Z then loc_Exact
           else loc_Inexact (Z.compare (2 * r) den) in
  if bool_decide (num = 0)%Z then S754_zero neg
  else binary_round_aux prec64 emax64 neg q (- k) l.

Definition of_Z (z : Z) : float64 := of_ratio (bool_decide (z < 0)%Z) (Z.abs z) 1.

Definition fmul : float64 → float64 → float64 := SFmul prec64 emax64.
Definition fsub : float64 → float64 → float64 := SFsub prec64 emax64.

(** [x > y] and [x < y]: false when an operand is NaN. *)
Definition fgt (x y : float64) : bool := SFltb y x.
Definition flt (x y : float64) : bool := SFltb x y.

(** The integer part of a finite float. *)
Definition ftrunc (x : float64) : option Z :=
  match x with
  | S754_zero _ => Some 0%Z
  | S754_finite s m e => Some (Z.quot (cond_Zopp s (Zpos m) * 2 ^ Z.max 0 e) (2 ^ Z.max 0 (- e)))
  | _ => None
  end.

(** The conversion [int64(x)] drops the fraction; Go leaves it to the
    machine when the value does not fit. *)
Class Machine := float_overflow : float64 → Z.
Definition int64_of_float `{Machine} (x : float64) : Z :=
  match ftrunc x with
  | Some z => if in_int64 z then z else float_overflow x
  | None => float_overflow x
  end.

(** [math.Modf]: integral part and fraction, both with the sign of [x]. *)
Definition Modf (x : float64) : float64 * float64 :=
  match x with
  | S754_zero s => (x, S754_zero s)
  | S754_infinity _ => (x, S754_nan)
  | S754_nan => (S754_nan, S754_nan)
  | S754_finite s m e =>
      let num := (Zpos m * 2 ^ Z.max 0 e)%Z in
      let den := (2 ^ Z.max 0 (- e))%Z in
      (of_ratio s (num / den) 1, of_ratio s (num mod den) den)
  end.

(** ** strconv.ParseFloat *)
Definition chars : string → list ascii := String.list_ascii_of_string.
Definition lower_chars (s : string) : string :=
  String.string_of_list_ascii (to_lower <$> chars s).

(** The special values, case folded. *)
Definition special (s : string) : option float64 :=
  let s := lower_chars s in
  if bool_decide (s ∈ ["+inf"; "+infinity"; "inf"; "infinity"]) then Some (S754_infinity false)
  else if bool_decide (s ∈ ["-inf"; "-infinity"]) then Some (S754_infinity true)
  else if bool_decide (s = "nan") then Some S754_nan
  else None.

Definition digit_value (base : Z) (c : ascii) : option Z :=
  match unhex c with
  | Some d => if bool_decide (Z.of_N d < base)%Z then Some (Z.of_N d) else None
  | None => None
  end.

(** The digits of the mantissa.  [mant] is their value, [frac] the number
    of digits after the point, if one was read; [some] tells that there is
    a digit. *)
Record mantissa := Mantissa { mant : Z; frac : option Z; some : bool }.

Fixpoint read_mantissa (base : Z) (acc : mantissa) (s : list ascii) : mantissa * list ascii :=
  match s with
  | [] => (acc, [])
  | c :: s' =>
      if bool_decide (c = "_"%char) then read_mantissa base acc s'
      else if bool_decide (c = "."%char) then
        match frac acc with
        | Some _ => (acc, s)
        | None => read_mantissa base (Mantissa (mant acc) (Some 0%Z) (some acc)) s'
        end
      else match digit_value base c with
           | Some d => read_mantissa base
               (Mantissa (mant acc * base + d) ((λ f, f + 1)%Z <$> frac acc) true) s'
           | None => (acc, s)
           end
  end.

(** The digits of the exponent; it saturates at 10000 and more. *)
Fixpoint read_exponent (e : Z) (s : list ascii) : Z * list ascii :=
  match s with
  | [] => (e, [])
  | c :: s' =>
      if bool_decide (c = "_"%char) then read_exponent e s'
      else if is_digit c
      then read_exponent (if bool_decide (e < 10000)%Z
                          then e * 10 + (Z.of_N (byte_val c) - 48) else e)%Z s'
      else (e, s)
  end.

(** [underscoreOK]: underscores only between digits, or after a base
    prefix; [prev] is ['0'] after a digit or the prefix, ['_'] after an
    underscore, ['!'] otherwise. *)
Fixpoint underscores_ok (hex : bool) (prev : ascii) (s : list ascii) : bool :=
  match s with
  | [] => negb (bool_decide (prev = "_"%char))
  | c :: s =>
      if is_digit c || (hex && byte_in 97 102 (to_lower c)) then underscores_ok hex "0" s
      else if bool_decide (c = "_"%char)
      then bool_decide (prev = "0"%char) && underscores_ok hex "_" s
      else negb (bool_decide (prev = "_"%char)) && underscores_ok hex "!" s
  end%char.

(** [strconv.ErrSyntax] and [strconv.ErrRange]. *)
Inductive num_error := ErrSyntax | ErrRange.
Definition num_error_text (e : num_error) : string :=
  match e with ErrSyntax => "invalid syntax" | ErrRange => "value out of range" end.

(** The value [m * b^e] as a float, an error when it overflows. *)
Definition scale (neg : bool) (base m e : Z) : result num_error float64 :=
  let x :=
    if bool_decide (m = 0)%Z then S754_zero neg
    else if bool_decide (0 ≤ e)%Z then of_ratio neg (m * base ^ e) 1
    else of_ratio neg m (base ^ (- e)) in
  match x with S754_infinity _ => Error ErrRange | _ => Ok x end.

(** [parse_number neg s]: [s] without its sign. *)
Definition parse_number (neg : bool) (s : list ascii) : result num_error float64 :=
  let '(hex, body) :=
    match s with
    | "0" :: c :: rest => if bool_decide (to_lower c = "x") then (true, rest) else (false, s)
    | _ => (false, s)
    end%char in
  let base := if hex : bool then 16%Z else 10%Z in
  let '(m, rest) := read_mantissa base (Mantissa 0 None false) body in
  if negb (some m) then Error ErrSyntax
  else
    let marker := (if hex then "p" else "e")%char in
    let exponent :=
      match rest with
      | [] => if hex then None else Some 0%Z
      | c :: rest =>
          if bool_decide (to_lower c = marker) then
            let '(sign, rest) :=
              match rest with
              | "+" :: rest => (1%Z, rest)
              | "-" :: rest => ((-1)%Z, rest)
              | _ => (1%Z, rest)
              end%char in
            match rest with
            | d :: _ => if is_digit d then
                          let '(e, rest) := read_exponent 0 rest in
                          if bool_decide (rest = []) then Some (sign * e)%Z else None
                        else None
            | [] => None
            end
          else None
      end in
    match exponent with
    | None => Error ErrSyntax
    | Some e =>
        if negb (underscores_ok hex (if hex then "0" else "!")%char body) then Error ErrSyntax
        else
          let f := default 0%Z (frac m) in
          if hex then scale neg 2 (mant m) (e - 4 * f)
          else scale neg 10 (mant m) (e - f)
    end.

(** [strconv.ParseFloat(s, 64)]. *)
Definition ParseFloat (s : string) : result num_error float64 :=
  match special s with
  | Some x => Ok x
  | None =>
      match chars s with
      | "+" :: s => parse_number false s
      | "-" :: s => parse_number true s
      | s => parse_number false s
      end%char
  end.

(** ** strconv.FormatFloat(x, 'g', -1, 64), the text [fmt] prints for [%v] *)

(** The decimal point of a positive ratio: the least [k], from the
    estimate on, with [num < den * 10 ^ k]. *)
Definition pow10_ratio (num den k : Z) : Z * Z :=
  if bool_decide (0 ≤ k)%Z then (num, den * 10 ^ k)%Z else (num * 10 ^ (- k), den)%Z.
Fixpoint decimal_point (fuel : nat) (num den k : Z) : Z :=
  match fuel with
  | O => k
  | S fuel => let '(a, b) := pow10_ratio num den k in
              if bool_decide (a < b)%Z then k else decimal_point fuel num den (k + 1)
  end.

(** The shortest digits that read back as the float: truncate or round up
    at [n] digits as soon as the result stays between the halfway points
    [lower] and [upper] to the neighbours (numerators over [den]); [incl]
    tells whether these points themselves round to the float. *)
Fixpoint shortest (fuel : nat) (n lower x upper den k : Z) (incl : bool) : Z * Z :=
  let '(a, b) := pow10_ratio 1 1 (k - n) in
  let down := (x * a / (den * b))%Z in
  let scaled z := (z * den * b)%Z in
  let okdown := bool_decide (lower * a < scaled down)%Z ||
                (incl && bool_decide (lower * a = scaled down)%Z) in
  let okup := bool_decide (scaled (down + 1) < upper * a)%Z ||
              (incl && bool_decide (scaled (down + 1) = upper * a)%Z) in
  let nearest :=
    let twice := (2 * (x * a - scaled down))%Z in
    match Z.compare twice (den * b) with
    | Lt => down
    | Gt => down + 1
    | Eq => if Z.even down then down else down + 1
    end%Z in
  match fuel with
  | O => (n, nearest)
  | S fuel =>
      if okdown && okup then (n, nearest)
      else if okdown then (n, down)
      else if okup then (n, down + 1)%Z
      else shortest fuel (n + 1) lower x upper den k incl
  end.

Fixpoint strip_zeros (fuel : nat) (d : Z) : Z :=
  match fuel with
  | O => d
  | S fuel => if bool_decide (d mod 10 = 0)%Z then strip_zeros fuel (d / 10) else d
  end.

(** Digits without trailing zeros and the position of the decimal point:
    the value is [0.digits * 10 ^ point]. *)
Definition shortest_digits (m : positive) (e : Z) : string * Z :=
  let '(x, den) := (Zpos m * 4 * 2 ^ Z.max 0 e, 4 * 2 ^ Z.max 0 (- e))%Z in
  let half := (2 * 2 ^ Z.max 0 e)%Z in
  let lower := if bool_decide (Zpos m = 2 ^ 52)%Z && bool_decide (- 1074 < e)%Z
               then (x - half / 2)%Z else (x - half)%Z in
  let k := decimal_point 8 x den ((Z.log2 x - Z.log2 den) * 30103 / 100000 - 1) in
  let '(n, d) := shortest 20 1 lower x (x + half) den k (Z.even (Zpos m)) in
  if bool_decide (d = 10 ^ n)%Z then ("1", k + 1)%Z
  else (format_Z (strip_zeros 20 d), k).

Definition zeros (n : Z) : string :=
  String.string_of_list_ascii (replicate (Z.to_nat n) "0"%char).

Definition FormatFloat (x : float64) : string :=
  match x with
  | S754_nan => "NaN"
  | S754_infinity neg => if neg : bool then "-Inf" else "+Inf"
  | S754_zero neg => if neg : bool then "-0" else "0"
  | S754_finite neg m e =>
      let '(ds, dp) := shortest_digits m e in
      let nd := Z.of_nat (String.length ds) in
      let exp := (dp - 1)%Z in
      let body :=
        if bool_decide (exp < -4)%Z || bool_decide (6 ≤ exp)%Z then
          let mantissa :=
            take_string 1 ds +:+
            (if bool_decide (1 < nd)%Z then "." +:+ drop_string 1 ds else EmptyString) in
          let digits := format_Z (Z.abs exp) in
          mantissa +:+ (if bool_decide (exp < 0)%Z then "e-" else "e+") +:+
          (if bool_decide (Z.abs exp < 10)%Z then "0" +:+ digits else digits)
        else if bool_decide (dp ≤ 0)%Z then "0." +:+ zeros (- dp) +:+ ds
        else if bool_decide (nd ≤ dp)%Z then ds +:+ zeros (dp - nd)
        else take_string (Z.to_nat dp) ds +:+ "." +:+ drop_string (Z.to_nat dp) ds in
      if neg : bool then "-" +:+ body else body
  end.
