(* ===== verification/Promql.v ===== *)
(** * PromQL expressions and their rewriting

    The syntax tree of the PromQL parser the program embeds
    (src/vendor/.../promql/parser: ast.go, printer.go, value.go) and the
    rewriting of an expression for a set of namespaces
    (src/pkg/prom/modify.go).

    Source positions and the [UnexpandedSeriesSet] and [Series] fields,
    which the program neither reads nor writes, are left out.  The Go tree
    is made of pointers that are each referenced once, and the visitor
    changes nodes in place: [Walk] returns the changed tree. *)
From S2P Require Import Prelude GoStrings GoFloat Regexp DataSet Matchers Prom.
From stdpp Require Import options.

(** ** value.go, lex.go *)
Inductive ValueType :=
| ValueTypeNone
| ValueTypeVector
| ValueTypeScalar
| ValueTypeMatrix
| ValueTypeString.

#[export] Instance ValueType_eq_dec : EqDecision ValueType.
Proof. solve_decision. Defined.

Definition ValueType_text (t : ValueType) : string :=
  match t with
  | ValueTypeNone => "none"
  | ValueTypeVector => "vector"
  | ValueTypeScalar => "scalar"
  | ValueTypeMatrix => "matrix"
  | ValueTypeString => "string"
  end.

(** The items that occur in a tree: operators and aggregators; any other
    item is [ItemOther]. *)
Inductive ItemType :=
| SUB | ADD | MUL | MOD | DIV | POW
| EQL | NEQ | LTE | LSS | GTE | GTR | EQL_REGEX | NEQ_REGEX
| LAND | LOR | LUNLESS
| SUM | AVG | COUNT | MIN | MAX | STDDEV | STDVAR
| TOPK | BOTTOMK | COUNT_VALUES | QUANTILE
| ItemOther (i : Z).

#[export] Instance ItemType_eq_dec : EqDecision ItemType.
Proof. solve_decision. Defined.

Definition ItemType_String (i : ItemType) : string :=
  match i with
  | SUB => "-" | ADD => "+" | MUL => "*" | MOD => "%" | DIV => "/" | POW => "^"
  | EQL => "==" | NEQ => "!=" | LTE => "<=" | LSS => "<" | GTE => ">=" | GTR => ">"
  | EQL_REGEX => "=~" | NEQ_REGEX => "!~"
  | LAND => "and" | LOR => "or" | LUNLESS => "unless"
  | SUM => "sum" | AVG => "avg" | COUNT => "count" | MIN => "min" | MAX => "max"
  | STDDEV => "stddev" | STDVAR => "stdvar" | TOPK => "topk" | BOTTOMK => "bottomk"
  | COUNT_VALUES => "count_values" | QUANTILE => "quantile"
  | ItemOther i => "<Item " +:+ format_Z i +:+ ">"
  end.

Definition IsAggregatorWithParam (i : ItemType) : bool :=
  match i with TOPK | BOTTOMK | COUNT_VALUES | QUANTILE => true | _ => false end.

(** ** ast.go *)
Inductive VectorMatchCardinality :=
| CardOneToOne
| CardManyToOne
| CardOneToMany
| CardManyToMany.

Record VectorMatching := MkVectorMatching {
  Card : VectorMatchCardinality;
  MatchingLabels : list string;
  On : bool;
  Include : list string;
}.

Record Function_ := MkFunction {
  Func_Name : string;
  ArgTypes : list ValueType;
  Variadic : Z;
  ReturnType : ValueType;
}.

Section Promql.
Context `{RE : RegexpEngine}.

(** Durations are [int64] counts of nanoseconds. *)
Inductive Expr :=
| AggregateExpr (Op : ItemType) (Expr_ Param : option Expr) (Grouping : list string)
    (Without : bool)
| BinaryExpr (Op : ItemType) (LHS RHS : Expr) (VectorMatching_ : option VectorMatching)
    (ReturnBool : bool)
| Call (Func : Function_) (Args : list Expr)
| MatrixSelector (VectorSelector_ : Expr) (Range : Z)
| SubqueryExpr (Expr_ : Expr) (Range Offset Step : Z)
| NumberLiteral (Val : float64)
| ParenExpr (Expr_ : Expr)
| StringLiteral (Val : string)
| UnaryExpr (Op : ItemType) (Expr_ : Expr)
| VectorSelector (Name : string) (Offset : Z) (LabelMatchers : list Labels.Matcher).

(** [Type()] of each node. *)
Fixpoint Type_ (e : Expr) : ValueType :=
  match e with
  | AggregateExpr _ _ _ _ _ => ValueTypeVector
  | Call f _ => ReturnType f
  | MatrixSelector _ _ => ValueTypeMatrix
  | SubqueryExpr _ _ _ _ => ValueTypeMatrix
  | NumberLiteral _ => ValueTypeScalar
  | ParenExpr e => Type_ e
  | StringLiteral _ => ValueTypeString
  | UnaryExpr _ e => Type_ e
  | VectorSelector _ _ _ => ValueTypeVector
  | BinaryExpr _ l r _ _ =>
      if bool_decide (Type_ l = ValueTypeScalar) && bool_decide (Type_ r = ValueTypeScalar)
      then ValueTypeScalar else ValueTypeVector
  end.

Definition Children (node : Expr) : list Expr :=
  match node with
  | AggregateExpr _ None None _ _ => []
  | AggregateExpr _ None (Some p) _ _ => [p]
  | AggregateExpr _ (Some e) None _ _ => [e]
  | AggregateExpr _ (Some e) (Some p) _ _ => [e; p]
  | BinaryExpr _ l r _ _ => [l; r]
  | Call _ args => args
  | SubqueryExpr e _ _ _ => [e]
  | ParenExpr e => [e]
  | UnaryExpr _ e => [e]
  | MatrixSelector vs _ => [vs]
  | NumberLiteral _ | StringLiteral _ | VectorSelector _ _ _ => []
  end.

(** The node once its children, in the order of [Children], were changed
    in place into [cs]. *)
Definition with_children (node : Expr) (cs : list Expr) : Expr :=
  match node, cs with
  | AggregateExpr op None (Some _) g w, [p] => AggregateExpr op None (Some p) g w
  | AggregateExpr op (Some _) None g w, [e] => AggregateExpr op (Some e) None g w
  | AggregateExpr op (Some _) (Some _) g w, [e; p] => AggregateExpr op (Some e) (Some p) g w
  | BinaryExpr op _ _ vm b, [l; r] => BinaryExpr op l r vm b
  | Call f _, args => Call f args
  | SubqueryExpr _ r o s, [e] => SubqueryExpr e r o s
  | ParenExpr _, [e] => ParenExpr e
  | UnaryExpr op _, [e] => UnaryExpr op e
  | MatrixSelector _ r, [vs] => MatrixSelector vs r
  | _, _ => node
  end.

(** A visitor returns the node as it left it and its error. *)
Definition visitor : Type := Expr → go (Expr * option string).

(** What a walk returns: [None] when it ran out of fuel. *)
Definition walked (A : Type) : Type := option (go (A * option string)).

Definition walk_map {A B} (f : A → B) (w : walked A) : walked B :=
  match w with
  | Some (Done (a, err)) => Some (Done (f a, err))
  | Some (Panic r) => Some (Panic r)
  | None => None
  end.

(** The loop of [Walk] over the children: an error stops it. *)
Fixpoint walk_all (walk : Expr → walked Expr) (cs : list Expr) : walked (list Expr) :=
  match cs with
  | [] => Some (Done ([], None))
  | c :: cs =>
      match walk c with
      | None => None
      | Some (Panic r) => Some (Panic r)
      | Some (Done (c, Some err)) => Some (Done (c :: cs, Some err))
      | Some (Done (c, None)) => walk_map (cons c) (walk_all walk cs)
      end
  end.

(** [Walk(v, node, path)]: visit the node, then its children; an error
    stops the whole walk.  [fuel] bounds the depth. *)
Fixpoint Walk (fuel : nat) (v : visitor) (node : Expr) : walked Expr :=
  match fuel with
  | O => None
  | S fuel =>
      match v node with
      | Panic r => Some (Panic r)
      | Done (node, Some err) => Some (Done (node, Some err))
      | Done (node, None) =>
          walk_map (with_children node) (walk_all (Walk fuel v) (Children node))
      end
  end.

(** The depth of a tree: the fuel of its walk. *)
Fixpoint depth (e : Expr) : nat :=
  match e with
  | AggregateExpr _ e p _ _ =>
      S (Nat.max (match e with Some e => depth e | None => 0 end)
                 (match p with Some p => depth p | None => 0 end))
  | BinaryExpr _ l r _ _ => S (Nat.max (depth l) (depth r))
  | Call _ args => S (foldr (λ a n, Nat.max (depth a) n) 0 args)
  | MatrixSelector e _ | SubqueryExpr e _ _ _ | ParenExpr e | UnaryExpr _ e => S (depth e)
  | NumberLiteral _ | StringLiteral _ | VectorSelector _ _ _ => 1
  end.

(** [Inspect(node, f)] drops the error. *)
Definition Inspect (node : Expr) (f : visitor) : option (go Expr) :=
  match Walk (depth node) f node with
  | Some (Done (node, _)) => Some (Done node)
  | Some (Panic r) => Some (Panic r)
  | None => None
  end.

(** ** printer.go *)

(** [model.Duration(d).String()]. *)
Definition Duration_String (d : Z) : string :=
  let ms := Z.quot d 1000000 in
  let factor u := Z.rem ms u in
  if bool_decide (ms = 0)%Z then "0s"
  else
    let '(f, unit) :=
      if bool_decide (factor 31536000000 = 0)%Z then (31536000000%Z, "y")
      else if bool_decide (factor 604800000 = 0)%Z then (604800000%Z, "w")
      else if bool_decide (factor 86400000 = 0)%Z then (86400000%Z, "d")
      else if bool_decide (factor 3600000 = 0)%Z then (3600000%Z, "h")
      else if bool_decide (factor 60000 = 0)%Z then (60000%Z, "m")
      else if bool_decide (factor 1000 = 0)%Z then (1000%Z, "s")
      else (1%Z, "ms") in
    format_Z (Z.quot ms f) +:+ unit.

(** [fmt] with verb [%s] on a value with a [String] method, whose panic it
    recovers; a nil interface prints as such. *)
Definition fmt_s (m : go string) : string :=
  match m with
  | Done s => s
  | Panic msg => "%!s(PANIC=String method: " +:+ msg +:+ ")"
  end.
Definition fmt_nil : string := "%!s(<nil>)".

Definition offset_String (offset : Z) : string :=
  if bool_decide (offset = 0)%Z then EmptyString else " offset " +:+ Duration_String offset.

(** [(node *VectorSelector) String()]. *)
Definition VectorSelector_String `{UnicodeTable} (name : string) (offset : Z)
    (matchers : list Labels.Matcher) : go string :=
  match matchers with
  | [] => Panic "runtime error: makeslice: cap out of range"
  | _ =>
      let labelStrings :=
        Labels.String_ <$>
          filter (λ m, ¬ (Labels.Name m = Labels.MetricName ∧
                          Labels.Type_ m = Labels.MatchEqual ∧ Labels.Value m = name))
            matchers in
      match labelStrings with
      | [] => Done (name +:+ offset_String offset)
      | _ => Done (name +:+ "{" +:+ Join (sort_Strings labelStrings) "," +:+ "}" +:+
                   offset_String offset)
      end
  end.

Definition VectorMatching_String (vm : option VectorMatching) : string :=
  match vm with
  | Some vm =>
      if bool_decide (MatchingLabels vm ≠ []) || On vm then
        (if On vm then " on(" else " ignoring(") +:+ Join (MatchingLabels vm) ", " +:+ ")" +:+
        match Card vm with
        | CardManyToOne => " group_left(" +:+ Join (Include vm) ", " +:+ ")"
        | CardOneToMany => " group_right(" +:+ Join (Include vm) ", " +:+ ")"
        | _ => EmptyString
        end
      else EmptyString
  | None => EmptyString
  end.

(** [String()] of each node. *)
Fixpoint String_ `{UnicodeTable} (node : Expr) : go string :=
  match node with
  | AggregateExpr op e p grouping without =>
      let show e := match e with Some e => fmt_s (String_ e) | None => fmt_nil end in
      Done (ItemType_String op +:+
        (if without : bool then " without(" +:+ Join grouping ", " +:+ ") "
         else if bool_decide (grouping ≠ []) then " by(" +:+ Join grouping ", " +:+ ") "
         else EmptyString) +:+ "(" +:+
        (if IsAggregatorWithParam op then show p +:+ ", " else EmptyString) +:+
        show e +:+ ")")
  | BinaryExpr op l r vm returnBool =>
      Done (fmt_s (String_ l) +:+ " " +:+ ItemType_String op +:+
        (if returnBool : bool then " bool" else EmptyString) +:+ VectorMatching_String vm +:+
        " " +:+ fmt_s (String_ r))
  | Call f args =>
      let args := (fix strings (args : list Expr) : go (list string) :=
        match args with
        | [] => Done []
        | a :: args => s ← String_ a; ss ← strings args; Done (s :: ss)
        end) args in
      Done (Func_Name f +:+ "(" +:+ fmt_s (ss ← args; Done (Join ss ", ")) +:+ ")")
  | MatrixSelector (VectorSelector name offset matchers) range =>
      s ← VectorSelector_String name 0 matchers;
      Done (s +:+ "[" +:+ Duration_String range +:+ "]" +:+ offset_String offset)
  | MatrixSelector _ _ => Panic "interface conversion: parser.Expr is not *parser.VectorSelector"
  | SubqueryExpr e range offset step =>
      s ← String_ e;
      Done (s +:+ "[" +:+ Duration_String range +:+ ":" +:+
        (if bool_decide (step = 0)%Z then EmptyString else Duration_String step) +:+ "]" +:+
        offset_String offset)
  | NumberLiteral v => Done (FormatFloat v)
  | ParenExpr e => Done ("(" +:+ fmt_s (String_ e) +:+ ")")
  | StringLiteral s => Done (Quote s)
  | UnaryExpr op e => Done (ItemType_String op +:+ fmt_s (String_ e))
  | VectorSelector name offset matchers => VectorSelector_String name offset matchers
  end.

(** ** src/pkg/prom/modify.go *)
Definition modify_visitor (namespaceSet : DataSet.Set_) : visitor := λ node,
  match node with
  | VectorSelector name offset matchers =>
      matchers ← FilterMatchers namespaceSet matchers;
      Done (VectorSelector name offset matchers, None)
  | MatrixSelector (VectorSelector name offset matchers) range =>
      matchers ← FilterMatchers namespaceSet matchers;
      Done (MatrixSelector (VectorSelector name offset matchers) range, None)
  | MatrixSelector _ _ => Done (node, Some "cannot parse MatrixSelector to VectorSelector")
  | _ => Done (node, None)
  end.

(** The tree [ModifyExpression] leaves, and the text it returns. *)
Definition modified (originalExpr : Expr) (namespaceSet : DataSet.Set_) : go Expr :=
  match Inspect originalExpr (modify_visitor namespaceSet) with
  | Some m => m
  | None => Panic "out of fuel"
  end.

Definition ModifyExpression `{UnicodeTable} (originalExpr : Expr) (namespaceSet : DataSet.Set_)
    : go string :=
  e ← modified originalExpr namespaceSet; String_ e.

End Promql.
Arguments Expr : clear implicits.
Arguments Expr {RE}.
