(* ===== verification/Rewriting.v ===== *)
(** * Correctness of the expression rewriting

    [ModifyExpression] walks the tree and visits a range selector twice
    (as the child of its [MatrixSelector] too).  It is proved equal to a
    one-pass reference, [restrict]; the contract of the rewriting follows:
    it returns, it changes nothing but the matchers of the selectors, and
    each selector of the result selects exactly the series of the original
    one that belong to the namespaces. *)
From S2P Require Import Prelude GoStrings GoFloat Regexp DataSet Matchers Prom Restriction.
From S2P Require Import Promql.
From stdpp Require Import options.

Section Rewriting.
Context `{RE : RegexpEngine}.

(** ** Reference and specification *)

(** Each selector filtered once. *)
Fixpoint restrict (S : DataSet.Set_) (e : Expr) : go Expr :=
  let restrict_opt e := match e with
                        | Some e => e ← restrict S e; Done (Some e)
                        | None => Done None
                        end in
  match e with
  | AggregateExpr op e p g w =>
      e ← restrict_opt e; p ← restrict_opt p; Done (AggregateExpr op e p g w)
  | BinaryExpr op l r vm b => l ← restrict S l; r ← restrict S r; Done (BinaryExpr op l r vm b)
  | Call f args => args ← go_map (restrict S) args; Done (Call f args)
  | MatrixSelector vs r => vs ← restrict S vs; Done (MatrixSelector vs r)
  | SubqueryExpr e r o s => e ← restrict S e; Done (SubqueryExpr e r o s)
  | ParenExpr e => e ← restrict S e; Done (ParenExpr e)
  | UnaryExpr op e => e ← restrict S e; Done (UnaryExpr op e)
  | VectorSelector n o ms => ms ← FilterMatchers S ms; Done (VectorSelector n o ms)
  | NumberLiteral _ | StringLiteral _ => Done e
  end.

(** The selectors of an expression, from left to right. *)
Fixpoint selectors (e : Expr) : list (list Labels.Matcher) :=
  let selectors_opt e := match e with Some e => selectors e | None => [] end in
  match e with
  | AggregateExpr _ e p _ _ => selectors_opt e ++ selectors_opt p
  | BinaryExpr _ l r _ _ => selectors l ++ selectors r
  | Call _ args => List.flat_map selectors args
  | MatrixSelector e _ | SubqueryExpr e _ _ _ | ParenExpr e | UnaryExpr _ e => selectors e
  | VectorSelector _ _ ms => [ms]
  | NumberLiteral _ | StringLiteral _ => []
  end.

(** The expression without the matchers of its selectors. *)
Fixpoint erase (e : Expr) : Expr :=
  match e with
  | AggregateExpr op e p g w => AggregateExpr op (erase <$> e) (erase <$> p) g w
  | BinaryExpr op l r vm b => BinaryExpr op (erase l) (erase r) vm b
  | Call f args => Call f (List.map erase args)
  | MatrixSelector vs r => MatrixSelector (erase vs) r
  | SubqueryExpr e r o s => SubqueryExpr (erase e) r o s
  | ParenExpr e => ParenExpr (erase e)
  | UnaryExpr op e => UnaryExpr op (erase e)
  | VectorSelector n o _ => VectorSelector n o []
  | NumberLiteral _ | StringLiteral _ => e
  end.

(** What the parser guarantees: a range selector holds a vector selector,
    and the matchers are well formed. *)
Fixpoint wf_expr (e : Expr) : Prop :=
  let wf_opt e := match e with Some e => wf_expr e | None => True end in
  match e with
  | AggregateExpr _ e p _ _ => wf_opt e ∧ wf_opt p
  | BinaryExpr _ l r _ _ => wf_expr l ∧ wf_expr r
  | Call _ args => foldr (λ a P, wf_expr a ∧ P) True args
  | MatrixSelector e _ =>
      match e with VectorSelector _ _ ms => Forall Labels.wf ms | _ => False end
  | SubqueryExpr e _ _ _ | ParenExpr e | UnaryExpr _ e => wf_expr e
  | VectorSelector _ _ ms => Forall Labels.wf ms
  | NumberLiteral _ | StringLiteral _ => True
  end.

(** ** Trees by their children *)
Definition is_selector (e : Expr) : bool :=
  match e with VectorSelector _ _ _ => true | _ => false end.

Lemma foldr_and {A} (Q : A → Prop) (l : list A) :
  foldr (λ a P, Q a ∧ P) True l ↔ Forall Q l.
Proof.
  induction l as [|a l IH]; cbn; [split; constructor|]. by rewrite IH, Forall_cons.
Qed.

Lemma depth_arg a args :
  a ∈ args → depth a ≤ foldr (λ a n, Nat.max (depth a) n) 0 args.
Proof. induction 1; cbn; lia. Qed.

Lemma depth_Children c e : c ∈ Children e → depth c < depth e.
Proof.
  destruct e as [op [e|] [p|] g w|op l r vm b|f args|e r|e r o s|v|e|s|op e|n o ms]; cbn;
    rewrite ?elem_of_cons, ?elem_of_nil; try (intros Hc; destruct_or!; subst; lia || done).
  intros Hc%depth_arg. lia.
Qed.

Lemma Expr_children_ind (P : Expr → Prop) :
  (∀ e, (∀ c, c ∈ Children e → P c) → P e) → ∀ e, P e.
Proof.
  intros HP e. remember (depth e) as n eqn:Hn. revert e Hn.
  induction (lt_wf n) as [n _ IH]. intros e ->. apply HP. intros c Hc.
  by eapply IH; [apply depth_Children, Hc|].
Qed.

Lemma wf_Children e : wf_expr e → Forall wf_expr (Children e).
Proof.
  destruct e as [op [e|] [p|] g w|op l r vm b|f args|e r|e r o s|v|e|s|op e|n o ms]; cbn;
    rewrite ?foldr_and; intros; destruct_and?; repeat constructor; try done.
  by destruct e.
Qed.

(** [restrict], [selectors] and [erase] distribute over the children. *)
Lemma restrict_Children S e :
  is_selector e = false →
  restrict S e = (cs ← go_map (restrict S) (Children e); Done (with_children e cs)).
Proof.
  destruct e as [op [e|] [p|] g w|op l r vm b|f args|e r|e r o s|v|e|s|op e|n o ms]; try done;
    intros _; cbn; repeat (match goal with |- context [restrict S ?e] => destruct (restrict S e) end; cbn);
    try done.
Qed.

Lemma selectors_Children e :
  is_selector e = false → selectors e = List.flat_map selectors (Children e).
Proof.
  destruct e as [op [e|] [p|] g w|op l r vm b|f args|e r|e r o s|v|e|s|op e|n o ms]; try done;
    intros _; cbn; by rewrite ?app_nil_r.
Qed.

Lemma erase_Children e :
  is_selector e = false → erase e = with_children e (erase <$> Children e).
Proof.
  by destruct e as [op [e|] [p|] g w|op l r vm b|f args|e r|e r o s|v|e|s|op e|n o ms].
Qed.

Lemma Children_with_children e cs :
  length cs = length (Children e) → Children (with_children e cs) = cs.
Proof.
  destruct e as [op [e|] [p|] g w|op l r vm b|f args|e r|e r o s|v|e|s|op e|n o ms];
    destruct cs as [|c1 [|c2 [|c3 cs]]]; by cbn.
Qed.

Lemma with_children_twice e cs ds :
  length cs = length (Children e) → length ds = length (Children e) →
  with_children (with_children e cs) ds = with_children e ds.
Proof.
  destruct e as [op [e|] [p|] g w|op l r vm b|f args|e r|e r o s|v|e|s|op e|n o ms];
    destruct cs as [|c1 [|c2 [|c3 cs]]], ds as [|d1 [|d2 [|d3 ds]]]; by cbn.
Qed.

(** ** The walk equals the reference *)

(** [agrees S w e]: the walk [w] of [e] ends without error in the tree
    that the reference gives. *)
Definition agrees (S : DataSet.Set_) (w : Expr → walked Expr) (e : Expr) : Prop :=
  ∃ e', restrict S e = Done e' ∧ w e = Some (Done (e', None)).

Lemma walk_all_agrees S w cs :
  Forall (agrees S w) cs →
  ∃ cs', go_map (restrict S) cs = Done cs' ∧ walk_all w cs = Some (Done (cs', None)).
Proof.
  induction 1 as [|c cs (c' & Hr & Hw) _ (cs' & Hrs & Hws)]; [by exists []|].
  exists (c' :: cs'). cbn. by rewrite Hr, Hw, Hrs, Hws.
Qed.

Lemma Walk_plain S fuel e :
  is_selector e = false → modify_visitor S e = Done (e, None) →
  Forall (agrees S (Walk fuel (modify_visitor S))) (Children e) →
  agrees S (Walk (Datatypes.S fuel) (modify_visitor S)) e.
Proof.
  intros Hsel Hv Hcs. destruct (walk_all_agrees S _ _ Hcs) as (cs' & Hr & Hw).
  exists (with_children e cs'). rewrite restrict_Children, Hr by done.
  split; [done|]. cbn. by rewrite Hv, Hw.
Qed.

Lemma Walk_vector `{!RegexpLiterals} S n o ms fuel :
  namespace_set S → Forall Labels.wf ms →
  agrees S (Walk (Datatypes.S fuel) (modify_visitor S)) (VectorSelector n o ms).
Proof.
  intros HS Hms. destruct (FilterMatchers_spec S ms HS Hms) as (ms' & Hf & _).
  exists (VectorSelector n o ms'). cbn. by rewrite Hf.
Qed.

(** A range selector filters its matchers, then its child does again. *)
Lemma Walk_matrix `{!RegexpLiterals} S n o ms r fuel :
  namespace_set S → Forall Labels.wf ms →
  agrees S (Walk (Datatypes.S (Datatypes.S fuel)) (modify_visitor S))
    (MatrixSelector (VectorSelector n o ms) r).
Proof.
  intros HS Hms. destruct (FilterMatchers_spec S ms HS Hms) as (ms' & Hf & _).
  exists (MatrixSelector (VectorSelector n o ms') r). cbn. rewrite Hf. cbn.
  by rewrite (FilterMatchers_idemp S ms ms').
Qed.

Lemma Walk_restrict `{!RegexpLiterals} S fuel e :
  namespace_set S → wf_expr e → depth e ≤ fuel →
  agrees S (Walk fuel (modify_visitor S)) e.
Proof.
  intros HS. revert e. induction fuel as [|fuel IH]; intros e Hwf Hd.
  { destruct e; cbn in Hd; lia. }
  assert (Forall (agrees S (Walk fuel (modify_visitor S))) (Children e)) as Hcs.
  { apply Forall_forall. intros c Hc. pose proof (depth_Children c e Hc).
    apply IH; [|lia]. pose proof (wf_Children e Hwf) as Hcs.
    rewrite Forall_forall in Hcs. auto. }
  destruct e; try by apply Walk_plain.
  - destruct e; try done. destruct fuel; [cbn in Hd; lia|]. by apply Walk_matrix.
  - by apply Walk_vector.
Qed.

(** ** What the reference changes *)
Definition filtered (S : DataSet.Set_) (ms ms' : list Labels.Matcher) : Prop :=
  FilterMatchers S ms = Done ms'.

Lemma Forall2_flat_map {A B C D} (R : A → B → Prop) (Q : C → D → Prop)
    (f : A → list C) (g : B → list D) l k :
  (∀ x y, x ∈ l → R x y → Forall2 Q (f x) (g y)) → Forall2 R l k →
  Forall2 Q (List.flat_map f l) (List.flat_map g k).
Proof.
  intros HQ HR. induction HR as [|x y l k Hxy HR IH]; cbn; [constructor|].
  apply Forall2_app; [apply HQ; [left|done]|]. apply IH. intros. eapply HQ; [by right|done].
Qed.

Lemma is_selector_with_children e cs :
  is_selector e = false → is_selector (with_children e cs) = false.
Proof.
  destruct e as [op [e|] [p|] g w|op l r vm b|f args|e r|e r o s|v|e|s|op e|n o ms];
    destruct cs as [|c1 [|c2 [|c3 cs]]]; by cbn.
Qed.

(** The selectors of the result, from those of the original. *)
Lemma restrict_selectors S e e' :
  restrict S e = Done e' → Forall2 (filtered S) (selectors e) (selectors e').
Proof.
  revert e'. induction e as [e IH] using Expr_children_ind. intros e' He.
  destruct (is_selector e) eqn:Hsel.
  { destruct e; try done. cbn in He. destruct (FilterMatchers S _) eqn:Hf; [|done].
    cbn in He. simplify_eq. by repeat constructor. }
  rewrite restrict_Children in He by done.
  destruct (go_map (restrict S) (Children e)) as [cs|] eqn:Hcs; [|done].
  injection He as <-. apply go_map_Done in Hcs.
  pose proof (Forall2_length _ _ _ Hcs) as Hlen.
  rewrite !selectors_Children by auto using is_selector_with_children.
  rewrite Children_with_children by done.
  eapply Forall2_flat_map; [|exact Hcs]. intros c c' Hc Hr. by apply IH.
Qed.

Lemma restrict_erase S e e' : restrict S e = Done e' → erase e' = erase e.
Proof.
  revert e'. induction e as [e IH] using Expr_children_ind. intros e' He.
  destruct (is_selector e) eqn:Hsel.
  { destruct e; try done. cbn in He. destruct (FilterMatchers S _) eqn:Hf; [|done].
    by injection He as <-. }
  rewrite restrict_Children in He by done.
  destruct (go_map (restrict S) (Children e)) as [cs|] eqn:Hcs; [|done].
  injection He as <-. apply go_map_Done in Hcs.
  pose proof (Forall2_length _ _ _ Hcs) as Hlen.
  rewrite !erase_Children by auto using is_selector_with_children.
  rewrite Children_with_children, with_children_twice by (by rewrite ?length_fmap).
  f_equal. symmetry. apply list_eq_Forall2, Forall2_fmap.
  apply Forall2_same_length_lookup. split; [done|]. intros i c c' Hc Hc'.
  symmetry. apply IH; [by eapply list_elem_of_lookup_2|].
  by eapply Forall2_lookup_lr in Hcs.
Qed.

Lemma Type_erase e : Type_ (erase e) = Type_ e.
Proof.
  induction e as [e IH] using Expr_children_ind.
  destruct e; cbn in *; try done; rewrite ?IH by set_solver; done.
Qed.

(** ** Printing does not panic *)
Lemma VectorSelector_String_returns `{UnicodeTable} n o ms :
  ms ≠ [] → returns (VectorSelector_String n o ms) = true.
Proof. destruct ms; [done|]. intros _. cbn. by case_match. Qed.

Lemma String_returns `{UnicodeTable} e :
  wf_expr e → Forall (.≠ []) (selectors e) → returns (String_ e) = true.
Proof.
  induction e as [e IH] using Expr_children_ind. intros Hwf Hne.
  destruct e as [op e p g w|op l r vm b|f args|e r|e r o s|v|e|s|op e|n o ms]; try done; cbn.
  - destruct e as [| | | | | | | | |n o ms]; try done.
    apply Forall_cons in Hne as [Hne _]. apply (VectorSelector_String_returns n 0) in Hne.
    by destruct (VectorSelector_String _ _ _).
  - assert (returns (String_ e) = true) as He by (apply IH; [left|done..]).
    by destruct (String_ e).
  - apply Forall_cons in Hne as [Hne _]. by apply VectorSelector_String_returns.
Qed.

(** What the parser guarantees survives the rewriting. *)
Lemma wf_with_children e cs :
  is_selector e = false → wf_expr e → length cs = length (Children e) →
  Forall wf_expr cs → erase <$> cs = erase <$> Children e →
  wf_expr (with_children e cs).
Proof.
  destruct e as [op [e|] [p|] g w|op l r vm b|f args|e r|e r o s|v|e|s|op e|n o ms]; try done;
    cbn; intros _ Hwf Hlen Hcs Hsel;
    try (destruct cs as [|c1 [|c2 [|c3 cs]]]; try done;
         rewrite ?Forall_cons in Hcs; destruct_and!; by split_and?).
  - by apply foldr_and.
  - destruct cs as [|c1 [|c2 cs]]; try done. apply Forall_cons in Hcs as [Hcs _].
    destruct e; try done. injection Hsel as Hsel. by destruct c1.
Qed.

(** What holds of selectors and goes through the children survives. *)
Lemma restrict_keeps (P : Expr → Prop) S e e' :
  (∀ n o ms ms', P (VectorSelector n o ms) → filtered S ms ms' → P (VectorSelector n o ms')) →
  (∀ e, P e → is_selector e = false → Forall P (Children e)) →
  (∀ e cs, is_selector e = false → P e → length cs = length (Children e) → Forall P cs →
     erase <$> cs = erase <$> Children e → P (with_children e cs)) →
  P e → restrict S e = Done e' → P e'.
Proof.
  intros Hselector Hchildren Hwith. revert e'. induction e as [e IH] using Expr_children_ind. intros e' HP He.
  destruct (is_selector e) eqn:Hsel.
  { destruct e; try done. cbn in He. destruct (FilterMatchers S _) eqn:Hf; [|done]. injection He as <-. by eapply Hselector. }
  pose proof (Hchildren e HP Hsel) as HPc. rewrite Forall_forall in HPc.
  rewrite restrict_Children in He by done.
  destruct (go_map (restrict S) (Children e)) as [cs|] eqn:Hcs; [|done].
  injection He as <-. apply go_map_Done in Hcs.
  apply Hwith; [done..|by apply Forall2_length in Hcs| |].
  - apply Forall_lookup. intros i c' Hc'.
    destruct (Forall2_lookup_r _ _ _ _ _ Hcs Hc') as (c & Hc & Hr).
    apply list_elem_of_lookup_2 in Hc. eauto.
  - symmetry. apply list_eq_Forall2, Forall2_fmap. eapply Forall2_impl; [exact Hcs|].
    intros c c' Hr. by rewrite (restrict_erase _ _ _ Hr).
Qed.

Lemma filtered_wf `{!RegexpLiterals} S ms ms' :
  namespace_set S → Forall Labels.wf ms → filtered S ms ms' → Forall Labels.wf ms'.
Proof.
  intros HS Hwf Hf. destruct (FilterMatchers_spec S ms HS Hwf) as (ms1 & Hf' & Hms' & _).
  unfold filtered in Hf. rewrite Hf in Hf'. by injection Hf' as ->.
Qed.

Lemma restrict_wf `{!RegexpLiterals} S e e' :
  namespace_set S → wf_expr e → restrict S e = Done e' → wf_expr e'.
Proof.
  intros HS. apply restrict_keeps; [|by intros c Hc _; apply wf_Children|by intros; apply wf_with_children].
  intros n o ms ms' Hwf Hf. by eapply filtered_wf.
Qed.

Lemma restrict_idemp `{!RegexpLiterals} S e e' :
  namespace_set S → wf_expr e → restrict S e = Done e' → restrict S e' = Done e'.
Proof.
  intros HS. revert e'. induction e as [e IH] using Expr_children_ind. intros e' Hwf He.
  destruct (is_selector e) eqn:Hsel.
  { destruct e as [| | | | | | | | |n o ms]; try done. cbn in He.
    destruct (FilterMatchers S ms) as [ms'|] eqn:Hf; [|done]. injection He as <-.
    cbn. by rewrite (FilterMatchers_idemp S ms ms'). }
  pose proof (wf_Children e Hwf) as Hwfc. rewrite Forall_forall in Hwfc.
  rewrite restrict_Children in He by done.
  destruct (go_map (restrict S) (Children e)) as [cs|] eqn:Hcs; [|done].
  injection He as <-. apply go_map_Done in Hcs.
  pose proof (Forall2_length _ _ _ Hcs) as Hlen.
  rewrite restrict_Children, Children_with_children by auto using is_selector_with_children.
  rewrite (proj2 (go_map_Done _ cs cs)); [cbn; by rewrite with_children_twice|].
  apply Forall2_same_length_lookup. split; [done|]. intros i c c' Hc Hc'. simplify_eq.
  destruct (Forall2_lookup_r _ _ _ _ _ Hcs Hc) as (c0 & Hc0 & Hr).
  apply list_elem_of_lookup_2 in Hc0. eauto.
Qed.

(** ** Fuel

    The visitor keeps the depth of a node, so the walk never runs out of
    fuel, whatever the tree. *)
Lemma modify_visitor_depth S e e' err :
  modify_visitor S e = Done (e', err) →
  depth e' = depth e.
Proof.
  destruct e as [| | |e r| | | | | |n o ms]; cbn; try by intros [= <- _].
  - destruct e as [| | | | | | | | |n o ms]; cbn; try by intros [= <- _].
    destruct (FilterMatchers S ms); [|done]. by intros [= <- _].
  - destruct (FilterMatchers S ms); [|done]. by intros [= <- _].
Qed.

Lemma walk_all_fuel v cs n m :
  Forall (λ c, Walk n v c = Walk m v c ∧ Walk n v c ≠ None) cs →
  walk_all (Walk n v) cs = walk_all (Walk m v) cs ∧ walk_all (Walk n v) cs ≠ None.
Proof.
  induction 1 as [|c cs [Hc Hne] _ [IHeq IHne]]; [done|]. cbn. rewrite <-Hc, <-IHeq.
  destruct (Walk n v c) as [[[c' [err|]]|]|]; try done.
  by destruct (walk_all (Walk n v) cs) as [[[]|]|].
Qed.

Lemma depth_pos e : ∃ d, depth e = S d.
Proof. destruct e; cbn; eauto. Qed.

Lemma modify_enough (s : DataSet.Set_) n :
  ∀ e, depth e ≤ n → ∀ m, depth e ≤ m →
  Walk n (modify_visitor s) e = Walk m (modify_visitor s) e ∧ Walk n (modify_visitor s) e ≠ None.
Proof.
  induction n as [|n IH]; intros e Hn m Hm; destruct (depth_pos e) as [d Hd]; [lia|].
  destruct m as [|m]; [lia|]. cbn [Walk].
  destruct (modify_visitor s e) as [[e' [err|]]|] eqn:Hv; try done.
  apply modify_visitor_depth in Hv.
  destruct (walk_all_fuel (modify_visitor s) (Children e') n m) as [Heq Hne].
  { apply Forall_forall. intros c Hc%depth_Children. apply IH; lia. }
  rewrite <-Heq. by destruct (walk_all _ _) as [[[]|]|].
Qed.

(** ** The result, put together *)
Lemma modified_restrict `{!RegexpLiterals} S e :
  namespace_set S → wf_expr e → ∃ e', restrict S e = Done e' ∧ modified e S = Done e'.
Proof.
  intros HS He. destruct (Walk_restrict S (depth e) e HS He) as (e' & Hr & Hw); [done|].
  exists e'. split; [done|]. unfold modified, Inspect. by rewrite Hw.
Qed.

Lemma filtered_nonempty S ms ms' : filtered S ms ms' → ms' ≠ [].
Proof.
  unfold filtered, FilterMatchers.
  destruct (filter_loop_view Labels.Name (translateMatcher S) ms)
    as [(l & m & k & -> & _ & _ & ->)|[_ ->]].
  - destruct (translateMatcher S m); [|done]. intros [= <-]. by destruct l.
  - destruct (createMatcher _ _); [|done]. intros [= <-]. by destruct ms.
Qed.

Lemma selectors_wf e : wf_expr e → Forall (Forall Labels.wf) (selectors e).
Proof.
  induction e as [e IH] using Expr_children_ind. intros Hwf.
  destruct (is_selector e) eqn:Hsel; [destruct e; by repeat constructor|].
  pose proof (wf_Children e Hwf) as Hcs. rewrite selectors_Children by done.
  rewrite Forall_forall in Hcs. apply Forall_forall.
  intros ms (c & Hms & Hc)%list_elem_of_In%in_flat_map.
  apply list_elem_of_In in Hms, Hc. revert ms Hc. apply Forall_forall. auto.
Qed.

(** The selector [ms'] selects what [ms] does, within the namespaces. *)
Definition confined (S : DataSet.Set_) (ms ms' : list Labels.Matcher) : Prop :=
  ∀ series, label series namespaceMatchName ≠ noneNamespace →
    selects ms' series = selects ms series && DataSet.exist (label series namespaceMatchName) S.

Lemma filtered_confined `{!RegexpLiterals} S ms ms' :
  namespace_set S → Forall Labels.wf ms → filtered S ms ms' → confined S ms ms'.
Proof.
  intros HS Hms Hf. destruct (FilterMatchers_spec S ms HS Hms) as (ms1 & Hf' & _ & Hsel).
  unfold filtered in Hf. rewrite Hf in Hf'. by injection Hf' as <-.
Qed.

Lemma filtered_selectors_nonempty S e e' :
  restrict S e = Done e' → Forall (.≠ []) (selectors e').
Proof.
  intros Hr. pose proof (restrict_selectors S e e' Hr) as Hsel. apply Forall_lookup. intros i ms' Hi.
  destruct (Forall2_lookup_r _ _ _ _ _ Hsel Hi) as (ms & _ & Hf). by eapply filtered_nonempty.
Qed.

Lemma filtered_selectors_confined `{!RegexpLiterals} S e e' :
  namespace_set S → wf_expr e → restrict S e = Done e' →
  Forall2 (confined S) (selectors e) (selectors e').
Proof.
  intros HS He Hr. pose proof (restrict_selectors S e e' Hr) as Hsel.
  apply Forall2_same_length_lookup. split; [by eapply Forall2_length|].
  intros i ms ms' Hi Hi'.
  apply filtered_confined; [done| |exact (Forall2_lookup_lr _ _ _ _ _ _ Hsel Hi Hi')].
  by eapply (Forall_lookup_1 _ _ _ _ (selectors_wf e He)).
Qed.

(** ** Properties *)

(** C21. The rewriting is the one-pass reference: on an expression of the
    parser, [ModifyExpression]'s walk, which reaches a range selector's
    matchers twice, leaves the tree in which each selector was filtered
    once. *)
Theorem modified_reference `{!RegexpLiterals} (S : DataSet.Set_) (e : Expr)
    (HS : namespace_set S) (He : wf_expr e) :
  modified e S = restrict S e.
Proof. by destruct (modified_restrict S e HS He) as (e' & -> & ->). Qed.

(** C3. End-to-end confinement of a query: [ModifyExpression] returns the
    text of an expression of the same type that differs from the original
    in the matchers of its selectors only, where every selector, in place,
    selects exactly the series of the original one that carry the label of
    a namespace of the set. *)
Theorem ModifyExpression_confines `{!RegexpLiterals, !UnicodeTable} (S : DataSet.Set_) (e : Expr)
    (HS : namespace_set S) (He : wf_expr e) :
  ∃ e' text, modified e S = Done e' ∧ ModifyExpression e S = Done text ∧
    String_ e' = Done text ∧ wf_expr e' ∧ erase e' = erase e ∧ Type_ e' = Type_ e ∧
    Forall2 (confined S) (selectors e) (selectors e').
Proof.
  destruct (modified_restrict S e HS He) as (e' & Hr & Hm).
  pose proof (restrict_wf S e e' HS He Hr) as He'.
  pose proof (restrict_erase S e e' Hr) as Her.
  assert (returns (String_ e') = true) as Hs.
  { apply String_returns; [done|]. by apply (filtered_selectors_nonempty S e e'). }
  apply (returns_Done EmptyString) in Hs.
  exists e', (go_value EmptyString (String_ e')). unfold ModifyExpression. rewrite Hm.
  split_and!; try done; [|by apply filtered_selectors_confined].
  by rewrite <-(Type_erase e'), Her, Type_erase.
Qed.

(** Rewriting twice is rewriting once. *)
Theorem modified_idempotent `{!RegexpLiterals} (S : DataSet.Set_) (e e' : Expr)
    (HS : namespace_set S) (He : wf_expr e) (Hmod : modified e S = Done e') :
  modified e' S = Done e'.
Proof.
  destruct (modified_restrict S e HS He) as (e1 & Hr & Hm).
  assert (e1 = e') as -> by congruence.
  destruct (modified_restrict S e' HS) as (e2 & Hr2 & ->); [by apply (restrict_wf S e)|].
  rewrite <-Hr2. by apply (restrict_idemp S e).
Qed.

(** The walk ends, in the depth of the tree, on every expression and
    for every set, and more fuel does not change what it gives. *)
Theorem Walk_terminates (S : DataSet.Set_) (e : Expr) (n : nat) :
  Walk (depth e + n) (modify_visitor S) e = Walk (depth e) (modify_visitor S) e ∧
  Walk (depth e) (modify_visitor S) e ≠ None.
Proof.
  split; [apply modify_enough; lia|]. by apply (modify_enough S _ e) with (m := depth e).
Qed.

End Rewriting.

(** ** Witnesses and the cases of src/pkg/prom/filter_test.go *)
Module RewritingExamples.
Import Re2 RestrictionExamples.

#[export] Instance ascii_table : UnicodeTable := λ _, true.

Definition matcher (t : Labels.MatchType) (n v : string) : list Labels.Matcher :=
  match Labels.NewMatcher t n v with Ok m => [m] | Error _ => [] end.

(** [a{...}], as the parser builds it. *)
Definition metric (name : string) (ms : list Labels.Matcher) : Expr :=
  VectorSelector name 0 (ms ++ matcher Labels.MatchEqual Labels.MetricName name).

(** [sum(rate(a{namespace=~"n.*"}[5m])) by (pod) / b] *)
Definition ratio : Expr :=
  BinaryExpr DIV
    (AggregateExpr SUM
       (Some (Call (MkFunction "rate" [ValueTypeMatrix] 0 ValueTypeVector)
          [MatrixSelector (metric "a" (matcher Labels.MatchRegexp "namespace" "n.*"))
             300000000000])) None ["pod"] false)
    (metric "b" []) None false.

Definition q (s : string) : string := dquote +:+ s +:+ dquote.

Lemma ratio_wf : wf_expr ratio.
Proof. repeat constructor. Qed.

Definition ratio' : Expr := go_value ratio (modified ratio S0).

Lemma ratio_modified : modified ratio S0 = Done ratio'.
Proof. apply returns_Done. vm_compute; reflexivity. Qed.

Lemma modified_reference_witness :
  modified ratio S0 = restrict S0 ratio ∧
  (List.map Labels.Value <$> selectors ratio') = [["ns-a|ns-b"; "a"]; ["b"; "ns-a|ns-b|rx-c"]].
Proof.
  split; [|vm_compute; reflexivity].
  apply (modified_reference S0 ratio); [apply S0_names|apply ratio_wf].
Defined.

Lemma ModifyExpression_confines_witness :
  (∃ e' text, modified ratio S0 = Done e' ∧ ModifyExpression ratio S0 = Done text ∧
     Forall2 (confined S0) (selectors ratio) (selectors e')) ∧
  ModifyExpression ratio S0 =
    Done ("sum by(pod) (rate(a{namespace=~" +:+ q "ns-a|ns-b" +:+ "}[5m])) / b{namespace=~" +:+
          q "ns-a|ns-b|rx-c" +:+ "}").
Proof.
  split; [|vm_compute; reflexivity].
  destruct (ModifyExpression_confines S0 ratio S0_names ratio_wf)
    as (e' & text & Hm & Ht & _ & _ & _ & _ & Hc).
  exists e', text. split_and!; [exact Hm|exact Ht|exact Hc].
Defined.

Lemma modified_idempotent_witness :
  modified ratio' S0 = Done ratio'.
Proof.
  apply (modified_idempotent S0 ratio ratio' S0_names ratio_wf). apply ratio_modified.
Defined.

(** [TestFilterMatchers]: type and value of the matcher on [namespace]
    before, and what the expression reads after. *)
Definition test_cases : list (list Labels.Matcher * string) :=
  let ns := matcher in
  let eq s := "a{namespace=" +:+ q s +:+ "}" in
  let re s := "a{namespace=~" +:+ q s +:+ "}" in
  [([], re "ns-a|ns-b|rx-c");
   (matcher Labels.MatchEqual "value" "value",
      "a{namespace=~" +:+ q "ns-a|ns-b|rx-c" +:+ ",value=" +:+ q "value" +:+ "}");
   (ns Labels.MatchEqual "namespace" "ns-x", eq "______");
   (ns Labels.MatchEqual "namespace" "ns-a", eq "ns-a");
   (ns Labels.MatchNotEqual "namespace" "ns-x", re "ns-a|ns-b|rx-c");
   (ns Labels.MatchNotEqual "namespace" "ns-a", re "ns-b|rx-c");
   (ns Labels.MatchRegexp "namespace" "ns-x", eq "______");
   (ns Labels.MatchRegexp "namespace" "ns-a", eq "ns-a");
   (ns Labels.MatchRegexp "namespace" "n.*", re "ns-a|ns-b");
   (ns Labels.MatchRegexp "namespace" "^.*-.*$", re "ns-a|ns-b|rx-c");
   (ns Labels.MatchRegexp "namespace" "t.*", eq "______");
   (ns Labels.MatchRegexp "namespace" EmptyString, eq "______");
   (ns Labels.MatchNotRegexp "namespace" "ns-x", re "ns-a|ns-b|rx-c");
   (ns Labels.MatchNotRegexp "namespace" "ns-a", re "ns-b|rx-c");
   (ns Labels.MatchNotRegexp "namespace" "n.*", eq "rx-c");
   (ns Labels.MatchNotRegexp "namespace" "^.*-.*$", eq "______");
   (ns Labels.MatchNotRegexp "namespace" "t.*", re "ns-a|ns-b|rx-c");
   (ns Labels.MatchNotRegexp "namespace" EmptyString, re "ns-a|ns-b|rx-c")].

Example filter_test_passes :
  forallb (λ '(ms, expect),
    match ModifyExpression (metric "a" ms) S0 with
    | Done text => String.eqb text expect
    | Panic _ => false
    end) test_cases = true.
Proof. vm_compute. reflexivity. Qed.

End RewritingExamples.
