(* ===== verification/Errors.v ===== *)
(** * The error values of the agent (github.com/juju/errors)

    The agent classifies a failure by the cause of its error: [Wrap] gives
    an error a new cause, [Annotate] keeps the cause, and the response code
    is chosen by [IsBadRequest] and [IsNotProvisioned]
    (src/pkg/agent/http_api_context.go).

    The source locations of the errors, which only the logs show, are left
    out; two errors that differ in nothing else are then equal for
    [sameError], a case the program does not build (it compares a sentinel
    with errors of other types or texts). *)
From S2P Require Import Prelude GoStrings.
From stdpp Require Import options.

(** The concrete types of the errors: [*errors.Err] and the types that
    embed it. *)
Inductive err_type :=
| TErr
| TBadRequest
| TNotProvisioned.

(** A Go [error] value: nil, an error of another package (which has no
    [Cause] method), or one of this package. *)
Inductive error :=
| ErrNil
| Foreign (text : string)
| Err (type : err_type) (message : string) (cause previous : error).

#[export] Instance err_type_eq_dec : EqDecision err_type.
Proof. solve_decision. Defined.
#[export] Instance error_eq_dec : EqDecision error.
Proof. solve_decision. Defined.

Definition is_nil (e : error) : bool := match e with ErrNil => true | _ => false end.

(** ** error.go, functions.go *)
Definition New (message : string) : error := Err TErr message ErrNil ErrNil.

(** [Errorf] and the other constructors take the text their format gives. *)
Definition Errorf (message : string) : error := Err TErr message ErrNil ErrNil.

Definition Cause (err : error) : error :=
  let diag := match err with Err _ _ cause _ => cause | _ => ErrNil end in
  if is_nil diag then err else diag.

Definition Annotate (other : error) (message : string) : error :=
  if is_nil other then ErrNil else Err TErr message (Cause other) other.

Definition Annotatef (other : error) (message : string) : error :=
  if is_nil other then ErrNil else Err TErr message (Cause other) other.

Definition Wrap (other newDescriptive : error) : error :=
  Err TErr EmptyString newDescriptive other.

Definition Underlying (e : error) : error :=
  match e with Err _ _ _ previous => previous | _ => ErrNil end.

Definition sameError (e1 e2 : error) : bool := bool_decide (e1 = e2).

(** [err.Error()]; a method call on a nil interface panics. *)
Definition nil_dereference : string :=
  "runtime error: invalid memory address or nil pointer dereference".

Fixpoint Error_ (e : error) : go string :=
  match e with
  | ErrNil => Panic nil_dereference
  | Foreign text => Done text
  | Err _ message cause previous =>
      if negb (sameError (Cause previous) cause) && negb (is_nil cause)
      then if bool_decide (message = EmptyString) then Error_ cause
           else s ← Error_ cause; Done (message +:+ ": " +:+ s)
      else if is_nil previous then Done message
           else if bool_decide (message = EmptyString) then Error_ previous
           else s ← Error_ previous; Done (message +:+ ": " +:+ s)
  end.

(** ** errortypes.go *)
Definition NotProvisionedf (text : string) : error :=
  Err TNotProvisioned (text +:+ " not provisioned") ErrNil ErrNil.
Definition BadRequestf (text : string) : error := Err TBadRequest text ErrNil ErrNil.

Definition has_type (t : err_type) (e : error) : bool :=
  match e with Err t' _ _ _ => bool_decide (t' = t) | _ => false end.

Definition IsNotProvisioned (err : error) : bool := has_type TNotProvisioned (Cause err).
Definition IsBadRequest (err : error) : bool := has_type TBadRequest (Cause err).

(** ** The sentinels of src/pkg/agent/http_api_context.go *)
Definition badRequestErr : error := BadRequestf "bad_data".
Definition notProvisionedErr : error := NotProvisionedf "execution".
Definition errInternal : error := New "internal".

(** ** Lemmas *)

Lemma annotated_returns message (text : go string) :
  returns text = true →
  returns (if bool_decide (message = EmptyString) then text
           else s ← text; Done (message +:+ ": " +:+ s)) = true.
Proof. case_bool_decide; [done|]. by destruct text. Qed.

(** Only a nil error has no text. *)
Lemma Error_returns e : e ≠ ErrNil → returns (Error_ e) = true.
Proof.
  induction e as [|text|t message cause IHc previous IHp]; [done..|]. intros _. cbn [Error_].
  destruct (negb _ && negb _) eqn:Hb.
  - apply annotated_returns, IHc. intros ->. by rewrite andb_false_r in Hb.
  - destruct previous; cbn [is_nil]; [done|by apply annotated_returns, IHp..].
Qed.

Lemma Cause_Wrap e c : c ≠ ErrNil → Cause (Wrap e c) = c.
Proof. by destruct c. Qed.

Lemma Cause_Annotate e m : Cause e = Cause (Annotate e m) ∨ e = ErrNil.
Proof.
  destruct e as [|text|t message cause previous]; [by right|by left|left].
  by destruct cause.
Qed.

(** ** Properties *)

(** The class of a failure is that of its last [Wrap], however the
    error was annotated before and after: what the handlers wrap with
    [badRequestErr] is a bad request and not an execution error, the other
    way round for [notProvisionedErr], and neither for [errInternal]. *)
Theorem Wrap_classifies (e : error) (message : string) :
  let after c := Annotate (Wrap e c) message in
  (IsBadRequest (after badRequestErr), IsNotProvisioned (after badRequestErr)) = (true, false) ∧
  (IsBadRequest (after notProvisionedErr), IsNotProvisioned (after notProvisionedErr))
    = (false, true) ∧
  (IsBadRequest (after errInternal), IsNotProvisioned (after errInternal)) = (false, false) ∧
  (∀ c, IsBadRequest (after c) = IsBadRequest (Wrap e c) ∧
        IsNotProvisioned (after c) = IsNotProvisioned (Wrap e c)).
Proof.
  cbn. split_and!; try done. intros c.
  unfold IsBadRequest, IsNotProvisioned. by destruct c.
Qed.
