(* ===== verification/GoTime.v ===== *)
(** * Times and durations

    What the request parameters [start], [end], [step] and [timeout] mean:
    the parts of Go's package time the agent uses, [ParseDuration] of
    github.com/prometheus/common/model, and [parseTime] and [parseDuration]
    of src/pkg/agent/http_hijack.go.  A duration is an [int64] of
    nanoseconds. *)
From S2P Require Import Prelude GoStrings GoFloat Errors Promql.
From Stdlib Require Import Ascii.
From stdpp Require Import options.

(** ** Package time *)

(** A [time.Time] without monotonic clock: seconds since January 1 of year
    1, as an [int64], and nanoseconds in [0, 10^9). *)
Record Time := MkTime { sec : Z; nsec : Z }.

#[export] Instance Time_eq_dec : EqDecision Time.
Proof. solve_decision. Defined.

Definition unixToInternal : Z := 62135596800.
Definition Second : Z := 1000000000.
Definition Millisecond : Z := 1000000.

(** [time.Unix(sec, nsec)]. *)
Definition Unix (sec nsec : Z) : Time :=
  let '(sec, nsec) :=
    if bool_decide (nsec < 0)%Z || bool_decide (Second ≤ nsec)%Z then
      let n := Z.quot nsec Second in
      let sec := wrap64 (sec + n) in
      let nsec := (nsec - n * Second)%Z in
      if bool_decide (nsec < 0)%Z then (wrap64 (sec - 1), nsec + Second)%Z else (sec, nsec)
    else (sec, nsec) in
  MkTime (wrap64 (sec + unixToInternal)) nsec.

Definition Before (t u : Time) : bool :=
  bool_decide (sec t < sec u)%Z ||
  (bool_decide (sec t = sec u) && bool_decide (nsec t < nsec u)%Z).

(** [t.Add(d)]. *)
Definition Time_Add (t : Time) (d : Z) : Time :=
  let dsec := Z.quot d Second in
  let n := (nsec t + Z.rem d Second)%Z in
  let '(dsec, n) :=
    if bool_decide (Second ≤ n)%Z then (dsec + 1, n - Second)%Z
    else if bool_decide (n < 0)%Z then (dsec - 1, n + Second)%Z
    else (dsec, n) in
  MkTime (wrap64 (sec t + dsec)) n.

(** [t.Sub(u)]. *)
Definition Sub (t u : Time) : Z :=
  let d := wrap64 (wrap64 (wrap64 (sec t - sec u) * Second) + (nsec t - nsec u)) in
  if bool_decide (Time_Add u d = t) then d
  else if Before t u then int64_min
  else int64_max.

(** Days since January 1 of year 1 of a date of the Gregorian calendar. *)
Definition leap (year : Z) : bool :=
  bool_decide (year mod 4 = 0)%Z &&
  (negb (bool_decide (year mod 100 = 0)%Z) || bool_decide (year mod 400 = 0)%Z).
Definition daysIn (month year : Z) : Z :=
  if bool_decide (month = 2)%Z then (if leap year then 29 else 28)%Z
  else if bool_decide (month ∈ [4; 6; 9; 11])%Z then 30%Z else 31%Z.
Fixpoint days_before_month (n : nat) (year : Z) : Z :=
  match n with
  | O => 0
  | S n => days_before_month n year + daysIn (Z.of_nat n + 1) year
  end%Z.
Definition days_before_year (year : Z) : Z :=
  let y := (year - 1)%Z in (365 * y + y / 4 - y / 100 + y / 400)%Z.

(** [time.Date] in UTC, for the fields in range that [time.Parse] gives. *)
Definition Date (year month day hour min s ns : Z) : Time :=
  let days := (days_before_year year + days_before_month (Z.to_nat (month - 1)) year
               + (day - 1))%Z in
  MkTime (days * 86400 + hour * 3600 + min * 60 + s)%Z ns.

(** *** [time.Parse(time.RFC3339Nano, s)]: layout
    2006-01-02T15:04:05.999999999Z07:00 *)
Definition digit (c : ascii) : option Z :=
  if is_digit c then Some (Z.of_N (byte_val c) - 48)%Z else None.

(** [getnum(s, fixed)]: one or two digits, two when [fixed]. *)
Definition getnum (s : list ascii) (fixed : bool) : option (Z * list ascii) :=
  match s with
  | a :: s' =>
      match digit a with
      | None => None
      | Some x =>
          match s' with
          | b :: s'' =>
              match digit b with
              | Some y => Some (x * 10 + y, s'')%Z
              | None => if fixed then None else Some (x, s')
              end
          | [] => if fixed then None else Some (x, s')
          end
      end
  | [] => None
  end.

(** [atoi]: an optional sign, then digits only (none counts as zero). *)
Fixpoint all_digits (acc : Z) (s : list ascii) : option Z :=
  match s with
  | [] => Some acc
  | c :: s => d ← digit c; all_digits (acc * 10 + d)%Z s
  end.
Definition atoi (s : list ascii) : option Z :=
  match s with
  | "-" :: s => Z.opp <$> all_digits 0 s
  | "+" :: s => all_digits 0 s
  | _ => all_digits 0 s
  end%char.

Definition skip (prefix : ascii) (s : list ascii) : option (list ascii) :=
  match s with
  | c :: s => if bool_decide (c = prefix) then Some s else None
  | [] => None
  end.

Definition in_range (lo hi x : Z) : option unit :=
  if bool_decide (lo ≤ x ≤ hi)%Z then Some () else None.

(** Up to nine digits of a fraction, and how many. *)
Fixpoint read_fraction (n : nat) (acc : Z) (k : Z) (s : list ascii) : Z * Z * list ascii :=
  match n, s with
  | S n, c :: s' =>
      match digit c with
      | Some d => read_fraction n (acc * 10 + d) (k + 1) s'
      | None => (acc, k, s)
      end
  | _, _ => (acc, k, s)
  end%Z.
Definition parse_fraction (s : list ascii) : Z * list ascii :=
  match s with
  | "." :: c :: s' =>
      match digit c with
      | Some _ => let '(ns, k, rest) := read_fraction 9 0 0 (c :: s') in
                  (ns * 10 ^ (9 - k), rest)%Z
      | None => (0%Z, s)
      end
  | _ => (0%Z, s)
  end%char.

(** The zone: [Z] or an offset in seconds. *)
Definition parse_zone (s : list ascii) : option (Z * list ascii) :=
  match s with
  | "Z" :: s => Some (0%Z, s)
  | sign :: h1 :: h2 :: ":" :: m1 :: m2 :: s =>
      hr ← atoi [h1; h2]; mm ← atoi [m1; m2];
      let offset := ((hr * 60 + mm) * 60)%Z in
      if bool_decide (sign = "+") then Some (offset, s)
      else if bool_decide (sign = "-") then Some (- offset, s)%Z
      else None
  | _ => None
  end%char.

Definition parse_year (s : list ascii) : option (Z * list ascii) :=
  match s with
  | a :: b :: c :: d :: s => _ ← digit a; y ← atoi [a; b; c; d]; Some (y, s)
  | _ => None
  end.

Definition Parse_RFC3339Nano (value : string) : option Time :=
  '(year, s) ← parse_year (chars value); s ← skip "-" s;
  '(month, s) ← getnum s true; _ ← in_range 1 12 month; s ← skip "-" s;
  '(day, s) ← getnum s true; s ← skip "T" s;
  '(hour, s) ← getnum s false; _ ← in_range 0 23 hour; s ← skip ":" s;
  '(min, s) ← getnum s true; _ ← in_range 0 59 min; s ← skip ":" s;
  '(second, s) ← getnum s true; _ ← in_range 0 59 second;
  let '(ns, s) := parse_fraction s in
  '(offset, s) ← parse_zone s;
  _ ← (if bool_decide (s = []) then Some () else None);
  _ ← in_range 1 (daysIn month year) day;
  let t := Date year month day hour min second ns in
  Some (MkTime (sec t - offset)%Z (nsec t)).

(** ** github.com/prometheus/common/model/time.go *)

(** [strconv.Atoi] of digits, its range error ignored. *)
Definition Atoi (n : Z) : Z := Z.min n int64_max.

Definition unit_factor (u : string) : option Z :=
  if bool_decide (u = "y") then Some 31536000000%Z
  else if bool_decide (u = "w") then Some 604800000%Z
  else if bool_decide (u = "d") then Some 86400000%Z
  else if bool_decide (u = "h") then Some 3600000%Z
  else if bool_decide (u = "m") then Some 60000%Z
  else if bool_decide (u = "s") then Some 1000%Z
  else if bool_decide (u = "ms") then Some 1%Z
  else None.

(** The match of [^([0-9]+)(y|w|d|h|m|s|ms)$]: the digits' value and the
    unit; [some_] tells that a digit was read. *)
Fixpoint durationRE (acc : Z) (some_ : bool) (s : string) : option (Z * Z) :=
  match s with
  | EmptyString => None
  | String c s' =>
      match digit c with
      | Some d => durationRE (acc * 10 + d)%Z true s'
      | None => if some_ then (λ f, (acc, f)) <$> unit_factor s else None
      end
  end.

Definition ParseDuration (durationStr : string) : option Z :=
  if bool_decide (durationStr = "0") then Some 0%Z
  else
    '(n, factor) ← durationRE 0 false durationStr;
    Some (wrap64 (wrap64 (Atoi n * Millisecond) * factor)).

(** ** src/pkg/agent/http_hijack.go *)
Section Agent.
Context `{UnicodeTable, Machine}.

Definition nanoseconds : float64 := of_Z Second.

Definition parseTime (s : string) : result error Time :=
  match ParseFloat s with
  | Ok t =>
      let '(s, ns) := Modf t in
      Ok (Unix (int64_of_float s) (int64_of_float (fmul ns nanoseconds)))
  | Error _ =>
      match Parse_RFC3339Nano s with
      | Some t => Ok t
      | None => Error (Errorf ("cannot parse " +:+ Quote s +:+ " to a valid timestamp"))
      end
  end.

Definition parseDuration (s : string) : result error Z :=
  match ParseFloat s with
  | Ok d =>
      let ts := fmul d nanoseconds in
      if fgt ts (of_Z int64_max) || flt ts (of_Z int64_min)
      then Error (Errorf ("cannot parse " +:+ Quote s +:+
                          " to a valid duration. It overflows int64"))
      else Ok (int64_of_float ts)
  | Error _ =>
      match ParseDuration s with
      | Some d => Ok d
      | None => Error (Errorf ("cannot parse " +:+ Quote s +:+ " to a valid duration"))
      end
  end.
End Agent.

(** ** Lemmas *)
Lemma wrap64_small z : (int64_min ≤ z ≤ int64_max)%Z → wrap64 z = z.
Proof. unfold wrap64, int64_min, int64_max. intros. rewrite Z.mod_small; lia. Qed.

Lemma wrap64_add_mod z k : wrap64 (z + k * 2 ^ 64) = wrap64 z.
Proof.
  unfold wrap64. f_equal.
  replace (z + k * 2 ^ 64 + 2 ^ 63)%Z with (z + 2 ^ 63 + k * 2 ^ 64)%Z by ring.
  by rewrite Z.mod_add.
Qed.

(** *** Digits *)
Lemma byte_val_digit n : (n < 10)%N → byte_val (ascii_of_N (48 + n)) = (48 + n)%N.
Proof. intros. unfold byte_val. apply N_ascii_embedding. lia. Qed.

Lemma digit_of_N n : (n < 10)%N → digit (ascii_of_N (48 + n)) = Some (Z.of_N n).
Proof.
  intros Hn. unfold digit, is_digit, byte_in. rewrite byte_val_digit by done.
  rewrite !bool_decide_true by lia. cbn [andb]. f_equal. lia.
Qed.

Lemma durationRE_digits fuel n tail acc b :
  fuel ≠ 0 → (n < 10 ^ N.of_nat fuel)%N →
  ∃ k, (0 ≤ k)%Z ∧ durationRE acc b (digits_of fuel n tail) =
       durationRE (acc * 10 ^ k + Z.of_N n) true tail.
Proof.
  revert n tail. induction fuel as [|fuel IH]; intros n tail Hf Hn; [done|]. cbn [digits_of].
  rewrite Nat2N.inj_succ, N.pow_succ_r' in Hn.
  pose proof (N.mod_lt n 10 ltac:(done)) as Hmod. pose proof (N.div_mod n 10 ltac:(done)) as Hdiv.
  case_bool_decide as Hn10.
  - exists 1%Z. split; [lia|]. cbn [durationRE]. rewrite digit_of_N by done. f_equal.
    rewrite N.mod_small by done. lia.
  - destruct fuel as [|fuel]; [cbn in Hn; lia|].
    destruct (IH (n / 10)%N (String (ascii_of_N (48 + n mod 10)) tail)) as (k & Hk & ->);
      [done|apply N.Div0.div_lt_upper_bound; lia|].
    exists (k + 1)%Z. split; [lia|]. cbn [durationRE]. rewrite digit_of_N by done. f_equal.
    rewrite Z.pow_add_r by lia. nia.
Qed.

Lemma format_N_fuel n : (n < 10 ^ N.of_nat (S (N.to_nat (N.log2 n))))%N.
Proof.
  rewrite Nat2N.inj_succ, N2Nat.id. destruct (N.eq_dec n 0%N) as [->|Hn]; [done|].
  pose proof (N.log2_spec n ltac:(lia)) as [_ Hlog].
  eapply N.lt_le_trans; [exact Hlog|]. apply N.pow_le_mono_l. lia.
Qed.

Lemma digits_of_app fuel n tail : digits_of fuel n tail = digits_of fuel n EmptyString +:+ tail.
Proof.
  assert (∀ fuel n a b, digits_of fuel n (a +:+ b) = digits_of fuel n a +:+ b) as H.
  { clear. induction fuel as [|fuel IH]; intros n a b; [done|]. cbn [digits_of].
    case_bool_decide; [done|]. by rewrite <-IH. }
  apply (H fuel n EmptyString).
Qed.

Lemma durationRE_format n u f :
  (0 ≤ n)%Z → unit_factor u = Some f →
  (∀ acc, durationRE acc true u = Some (acc, f)) →
  durationRE 0 false (format_Z n +:+ u) = Some (n, f).
Proof.
  intros Hn Hu Hre. unfold format_Z. rewrite bool_decide_false by lia. unfold format_N.
  rewrite <-digits_of_app.
  destruct (durationRE_digits (S (N.to_nat (N.log2 (Z.to_N n)))) (Z.to_N n) u 0 false)
    as (k & _ & ->); [done|apply format_N_fuel|].
  rewrite Hre. repeat f_equal. lia.
Qed.

Lemma ParseDuration_unit n u f :
  (0 ≤ n)%Z → (0 < f)%Z → (n * f * Millisecond ≤ int64_max)%Z → unit_factor u = Some f →
  (∀ acc, durationRE acc true u = Some (acc, f)) →
  ParseDuration (format_Z n +:+ u) = Some (n * f * Millisecond)%Z.
Proof.
  intros Hn Hf Hmax Hu Hre. pose proof (durationRE_format n u f Hn Hu Hre) as Hd.
  unfold ParseDuration. case_bool_decide as H0; [by rewrite H0 in Hd|].
  rewrite Hd. cbn. unfold Atoi, Millisecond in *. f_equal.
  assert (n * 1000000 ≤ n * f * 1000000)%Z by nia.
  rewrite Z.min_l by nia.
  rewrite (wrap64_small (n * 1000000)) by (unfold int64_min; lia).
  rewrite wrap64_small by (unfold int64_min; nia). ring.
Qed.

(** The units, as the regexp reads them after a digit. *)
Lemma durationRE_unit u f acc :
  (u, f) ∈ [("y", 31536000000); ("w", 604800000); ("d", 86400000); ("h", 3600000);
            ("m", 60000); ("s", 1000); ("ms", 1)]%Z →
  unit_factor u = Some f ∧ durationRE acc true u = Some (acc, f).
Proof. rewrite !elem_of_cons, elem_of_nil. intros. by destruct_or!; simplify_eq. Qed.

Lemma Duration_String_unit d :
  (0 ≤ d)%Z →
  ∃ n u f, Duration_String d = format_Z n +:+ u ∧ (0 ≤ n)%Z ∧ (0 < f)%Z ∧
    (n * f = Z.quot d Millisecond)%Z ∧
    (u, f) ∈ [("y", 31536000000); ("w", 604800000); ("d", 86400000); ("h", 3600000);
              ("m", 60000); ("s", 1000); ("ms", 1)]%Z.
Proof.
  intros Hd. unfold Duration_String. change 1000000%Z with Millisecond.
  assert (0 ≤ Z.quot d Millisecond)%Z as Hms by (apply Z.quot_pos; unfold Millisecond; lia).
  set (ms := Z.quot d Millisecond) in *. cbn zeta.
  assert (∀ f, (0 < f)%Z → Z.rem ms f = 0%Z → (0 ≤ Z.quot ms f)%Z ∧ (Z.quot ms f * f = ms)%Z) as Hq.
  { intros f Hf Hr. split; [by apply Z.quot_pos; lia|]. pose proof (Z.quot_rem' ms f). lia. }
  case_bool_decide as H0.
  { exists 0%Z, "s", 1000%Z. rewrite H0. split_and!; try done. set_solver. }
  repeat case_bool_decide; match goal with
    | |- context [Z.quot ms ?f] =>
        match goal with
        | |- context [format_Z (Z.quot ms f) +:+ ?u] =>
            destruct (Hq f) as [? ?]; [done|rewrite ?Z.rem_1_r; done|];
            exists (Z.quot ms f), u, f; split_and!; try done; set_solver
        end
    end.
Qed.

(** *** Times *)
Definition normal (t : Time) : Prop := (0 ≤ nsec t < Second)%Z.

(** The instant in nanoseconds, and times far from the end of [int64]. *)
Definition instant (t : Time) : Z := (sec t * Second + nsec t)%Z.
Definition sane (t : Time) : Prop := normal t ∧ (- 2 ^ 61 ≤ sec t ≤ 2 ^ 61)%Z.
Definition saturate (z : Z) : Z := Z.max int64_min (Z.min int64_max z).

Lemma Unix_normal s n : normal (Unix s n).
Proof.
  unfold normal, Unix, Second.
  destruct (_ || _) eqn:Hb; cbn [nsec].
  - pose proof (Z.quot_rem' n 1000000000). pose proof (Z.rem_bound_abs n 1000000000 ltac:(done)).
    clear Hb. cbn zeta. case_bool_decide; cbn [nsec]; lia.
  - apply orb_false_iff in Hb as [H1%bool_decide_eq_false H2%bool_decide_eq_false]. lia.
Qed.

Lemma digit_bounds c d : digit c = Some d → (0 ≤ d ≤ 9)%Z.
Proof.
  unfold digit, is_digit, byte_in. destruct (_ && _) eqn:Hb; [|done]. intros [= <-].
  apply andb_true_iff in Hb as [H1%bool_decide_eq_true H2%bool_decide_eq_true]. lia.
Qed.

Lemma read_fraction_bounds n acc k s ns k' rest :
  read_fraction n acc k s = (ns, k', rest) → (0 ≤ k)%Z → (0 ≤ acc < 10 ^ k)%Z →
  (0 ≤ k' ≤ k + Z.of_nat n)%Z ∧ (0 ≤ ns < 10 ^ k')%Z.
Proof.
  revert acc k s. induction n as [|n IH]; intros acc k s; cbn [read_fraction].
  { intros [= <- <- _] ??. split; [lia|done]. }
  destruct s as [|c s]; [intros [= <- <- _] ??; split; [lia|done]|].
  destruct (digit c) as [d|] eqn:Hd; [|intros [= <- <- _] ??; split; [lia|done]].
  intros Hr Hk Hacc. apply digit_bounds in Hd.
  apply IH in Hr; [|lia|rewrite Z.pow_add_r by lia; nia].
  destruct Hr as [Hk' Hns]. split; [lia|done].
Qed.

Lemma parse_fraction_bounds s ns rest : parse_fraction s = (ns, rest) → (0 ≤ ns < Second)%Z.
Proof.
  assert (0 ≤ 0 < Second)%Z by (unfold Second; lia).
  unfold parse_fraction. destruct s as [|c s]; [by intros [= <- _]|].
  destruct (ascii_dec c ".") as [->|Hc].
  2: { intros Hp. assert (Hp' : (0%Z, c :: s) = (ns, rest)).
       { rewrite <-Hp. clear -Hc. by destruct c as [[] [] [] [] [] [] [] []]. }
       by injection Hp' as <- _. }
  destruct s as [|c s]; [by intros [= <- _]|]. destruct (digit c); [|by intros [= <- _]].
  destruct (read_fraction 9 0 0 (c :: s)) as [[ns0 k] rest0] eqn:Hr. intros [= <- _].
  apply read_fraction_bounds in Hr as [Hk Hns]; [|done|by cbn].
  assert (10 ^ 9 = 10 ^ k * 10 ^ (9 - k))%Z as H9 by (rewrite <-Z.pow_add_r by lia; f_equal; lia).
  change Second with (10 ^ 9)%Z. rewrite H9.
  pose proof (Z.pow_pos_nonneg 10 (9 - k) ltac:(lia) ltac:(lia)). nia.
Qed.

Lemma Parse_normal s t : Parse_RFC3339Nano s = Some t → normal t.
Proof.
  unfold Parse_RFC3339Nano. intros H.
  repeat first
    [ match type of H with context [let '(_, _) := parse_fraction ?s in _] =>
        destruct (parse_fraction s) as [ns rest] eqn:Hf end
    | let x := fresh in apply bind_Some in H as (x & _ & H);
      try match type of x with (_ * _)%type => destruct x as [? ?] end ].
  injection H as <-. by apply parse_fraction_bounds in Hf.
Qed.

Lemma Time_Add_instant u d :
  normal u →
  normal (Time_Add u d) ∧
  ∃ s, sec (Time_Add u d) = wrap64 s ∧ (s * Second + nsec (Time_Add u d) = instant u + d)%Z.
Proof.
  unfold normal, Time_Add, instant. intros Hu.
  pose proof (Z.quot_rem' d Second) as Hd.
  pose proof (Z.rem_bound_abs d Second ltac:(done)) as Hr.
  assert (Z.abs Second = Second) as HS by done. rewrite HS in Hr.
  case_bool_decide; [|case_bool_decide]; cbn [sec nsec];
    (split; [unfold Second in *; lia|]); eexists; (split; [done|]); unfold Second in *; lia.
Qed.

Lemma wrap64_range z : (int64_min ≤ wrap64 z ≤ int64_max)%Z.
Proof.
  unfold wrap64, int64_min, int64_max.
  pose proof (Z.mod_pos_bound (z + 2 ^ 63) (2 ^ 64) ltac:(done)). lia.
Qed.

Lemma wrap64_wrap_add a b c : wrap64 (wrap64 (a * c) + b) = wrap64 (a * c + b).
Proof.
  unfold wrap64. f_equal.
  replace ((a * c + 2 ^ 63) mod 2 ^ 64 - 2 ^ 63 + b + 2 ^ 63)%Z
    with ((a * c + 2 ^ 63) mod 2 ^ 64 + b)%Z by ring.
  rewrite Z.add_mod_idemp_l by done. f_equal. ring.
Qed.

Lemma Before_instant t u : normal t → normal u → Before t u = bool_decide (instant t < instant u)%Z.
Proof.
  unfold Before, normal, instant, Second. intros Ht Hu. apply eq_true_iff_eq.
  rewrite orb_true_iff, andb_true_iff, !bool_decide_eq_true. lia.
Qed.

(** The subtraction is exact where it fits and saturates elsewhere. *)
Lemma Sub_sane t u : sane t → sane u → Sub t u = saturate (instant t - instant u).
Proof.
  intros [Ht Hst] [Hu Hsu]. unfold Sub.
  rewrite (wrap64_small (sec t - sec u)) by (unfold int64_min, int64_max; lia).
  rewrite wrap64_wrap_add.
  replace ((sec t - sec u) * Second + (nsec t - nsec u))%Z with (instant t - instant u)%Z
    by (unfold instant; ring).
  set (D := (instant t - instant u)%Z). set (d := wrap64 D).
  pose proof (wrap64_range D) as Hd.
  destruct (Time_Add_instant u d Hu) as (Hn & s & Hs & Hsum).
  destruct (decide (int64_min ≤ D ≤ int64_max)%Z) as [HD|HD].
  - assert (d = D) as HdD by (by apply wrap64_small).
    rewrite bool_decide_true; [unfold saturate; lia|].
    unfold D, instant, normal in *. destruct (Time_Add u d) as [s' n'], t as [st nt].
    cbn [sec nsec] in *. assert (s = st ∧ n' = nt) as [-> ->] by (unfold Second in *; lia).
    f_equal. rewrite Hs. apply wrap64_small. unfold int64_min, int64_max. lia.
  - rewrite bool_decide_false.
    + rewrite Before_instant by done. unfold saturate, D in *.
      case_bool_decide; unfold int64_min, int64_max in *; lia.
    + intros Heq. rewrite Heq in Hs, Hsum. apply HD.
      assert (s = sec t) as ->.
      { rewrite Hs. symmetry. apply wrap64_small. unfold int64_min, int64_max, instant, normal, Second in *.
        unfold d in *. lia. }
      replace D with d; [done|]. unfold D, instant in *. lia.
Qed.

(** The instants of a range query: the start, and from there on every step
    until the end. *)
Definition points (start end_ : Time) (step : Z) : Z := ((instant end_ - instant start) / step + 1)%Z.

Lemma points_spec start end_ step k :
  (0 < step)%Z → (0 ≤ k)%Z →
  (k < points start end_ step)%Z ↔ (instant start + k * step ≤ instant end_)%Z.
Proof.
  intros Hs Hk. unfold points. rewrite Z.add_1_r, Z.lt_succ_r. split; intros H.
  - pose proof (Z.mul_div_le (instant end_ - instant start) step Hs). nia.
  - apply Z.div_le_lower_bound; lia.
Qed.

(** What the guard on the span means for the points. *)
Lemma guard_points start end_ step :
  sane start → sane end_ → Before end_ start = false → (0 < step)%Z →
  (Z.quot (Sub end_ start) step ≤ 11000)%Z →
  (instant start ≤ instant end_)%Z ∧
  ((points start end_ step ≤ 11001)%Z ∨
   (int64_max < instant end_ - instant start)%Z ∧ (int64_max / step ≤ 11000)%Z).
Proof.
  intros Hs He Hb Hstep Hq. rewrite Before_instant in Hb by (apply He || apply Hs).
  apply bool_decide_eq_false in Hb. split; [lia|]. rewrite Sub_sane in Hq by done.
  assert (0 ≤ int64_max)%Z by done. unfold points.
  destruct (decide (instant end_ - instant start ≤ int64_max)%Z) as [Hle|Hgt].
  - left. assert (saturate (instant end_ - instant start) = instant end_ - instant start)%Z as Hsat
      by (unfold saturate, int64_min in *; lia).
    rewrite Hsat, Z.quot_div_nonneg in Hq by lia. lia.
  - right. assert (saturate (instant end_ - instant start) = int64_max)%Z as Hsat
      by (unfold saturate, int64_min in *; lia).
    rewrite Hsat, Z.quot_div_nonneg in Hq by lia. lia.
Qed.

(** ** Properties *)

(** C30. Durations read back: [ParseDuration] of the printed form of a
    duration gives it again, to the millisecond it is printed with; so the
    ranges and offsets of a rewritten query keep their meaning upstream. *)
Theorem ParseDuration_String (d : Z) (Hd : (0 ≤ d ≤ int64_max)%Z) :
  ParseDuration (Duration_String d) = Some (d - d mod Millisecond)%Z.
Proof.
  destruct (Duration_String_unit d) as (n & u & f & -> & Hn & Hf & Hnf & Hu); [lia|].
  rewrite (Z.quot_div_nonneg d Millisecond) in Hnf by (unfold Millisecond; lia).
  pose proof (Z.div_mod d Millisecond ltac:(done)) as Hdm.
  pose proof (Z.mod_pos_bound d Millisecond ltac:(done)) as Hm.
  destruct (durationRE_unit u f 0 Hu) as [Hfac _].
  rewrite (ParseDuration_unit n u f); [|done|done|lia|done|].
  - f_equal. lia.
  - intros acc. by apply durationRE_unit.
Qed.

(** The span of a range query: on instants within 2^61 seconds,
    [end.Sub(start)] is the exact difference when it fits an [int64] and
    saturates otherwise, and [Before] is the order of the instants. *)
Theorem Sub_saturates (t u : Time) (Ht : sane t) (Hu : sane u) :
  Sub t u = saturate (instant t - instant u) ∧
  Before t u = bool_decide (instant t < instant u)%Z.
Proof. split; [by apply Sub_sane|]. apply Before_instant; [apply Ht|apply Hu]. Qed.

(** Every time [parseTime] returns has its nanoseconds within a second,
    whatever the parameter and the machine's conversion of floats. *)
Theorem parseTime_normal `{UnicodeTable, Machine} (s : string) (t : Time)
    (Hs : parseTime s = Ok t) : normal t.
Proof.
  unfold parseTime in Hs. destruct (ParseFloat s) as [x|].
  - destruct (Modf x). injection Hs as <-. apply Unix_normal.
  - destruct (Parse_RFC3339Nano s) eqn:Hp; [|done]. injection Hs as <-. by apply Parse_normal in Hp.
Qed.

(** The overflow check of [parseDuration] lets through the values that
    no [int64] holds next to the bound: 2^63 nanoseconds, which is not
    greater than [float64(math.MaxInt64)], and NaN; the result is then
    whatever the machine converts them to. *)
Theorem parseDuration_overflow `{UnicodeTable, Machine} :
  (∃ x, ftrunc x = Some (2 ^ 63)%Z ∧
        parseDuration "9223372036.854775808" = Ok (float_overflow x)) ∧
  parseDuration "NaN" = Ok (float_overflow SpecFloat.S754_nan).
Proof.
  split; [|vm_compute; reflexivity].
  exists (SpecFloat.S754_finite false 4503599627370496 11). split; vm_compute; reflexivity.
Qed.

(** ** Witnesses *)
Module GoTimeExamples.

Lemma ParseDuration_String_witness :
  Duration_String 5400000000000 = "90m" ∧ ParseDuration "90m" = Some 5400000000000%Z.
Proof.
  split; [vm_compute; reflexivity|].
  apply (ParseDuration_String 5400000000000). unfold int64_max. lia.
Defined.

Lemma Sub_saturates_witness :
  Sub (MkTime 63271811045 0) (MkTime 63271807445 500000000) = 3599500000000%Z ∧
  Sub (MkTime 63271811045 0) (MkTime (-63271811045) 0) = int64_max.
Proof.
  assert (∀ s n, (0 ≤ n < Second)%Z → (- 2 ^ 61 ≤ s ≤ 2 ^ 61)%Z → sane (MkTime s n)) as Hsane
    by (by intros).
  split.
  - refine (proj1 (Sub_saturates (MkTime 63271811045 0) (MkTime 63271807445 500000000) _ _));
      apply Hsane; unfold Second; lia.
  - refine (proj1 (Sub_saturates (MkTime 63271811045 0) (MkTime (-63271811045) 0) _ _));
      apply Hsane; unfold Second; lia.
Defined.

Lemma parseTime_normal_witness :
  normal (MkTime 63271811045 500000000).
Proof.
  apply (@parseTime_normal (λ _, true) (λ _, 0%Z) "1136214245.5"). vm_compute. reflexivity.
Defined.

End GoTimeExamples.
