(* ===== verification/Strutil.v ===== *)
(** * Text of PromQL literals

    [Unquote] is [strutil.Unquote] of the prometheus module
    (src/vendor/.../prometheus/util/strutil/quote.go), which decodes the
    string literals of an expression; [QuoteRune], [EncodeRune] and
    [ParseInt] are the functions of Go's [strconv] and [unicode/utf8] that
    the lexer and the parser call besides those of [GoStrings]. *)
From S2P Require Import Prelude GoStrings GoFloat.
From Stdlib Require Import Ascii.
From stdpp Require Import options.

(** ** Runes

    A rune is an [int32]; [-1] is the lexer's end of input. *)
Definition MaxRune : Z := 1114111.
Definition surrogate (r : Z) : bool := bool_decide (55296 ≤ r < 57344)%Z.
Definition byte_of (z : Z) : ascii := ascii_of_N (Z.to_N (z mod 256)).

(** [utf8.EncodeRune]. *)
Definition EncodeRune (r : Z) : string :=
  let r := if bool_decide (0 ≤ r ≤ MaxRune)%Z && negb (surrogate r) then r
           else Z.of_N RuneError in
  let tail k := byte_of (128 + Z.shiftr r (6 * k) mod 64) in
  String.string_of_list_ascii
    (if bool_decide (r < 128)%Z then [byte_of r]
     else if bool_decide (r < 2048)%Z then [byte_of (192 + Z.shiftr r 6); tail 0]
     else if bool_decide (r < 65536)%Z then [byte_of (224 + Z.shiftr r 12); tail 1; tail 0]
     else [byte_of (240 + Z.shiftr r 18); tail 2; tail 1; tail 0])%Z.

(** [%q] of a rune: a value that is no code point is quoted as
    [RuneError]. *)
Definition QuoteRune `{UnicodeTable} (r : Z) : string :=
  let r := if bool_decide (0 ≤ r ≤ MaxRune)%Z && negb (surrogate r) then r
           else Z.of_N RuneError in
  let n := Z.to_N r in
  let body := if bool_decide (r = 39)%Z then "\'"
              else if bool_decide (r = 92)%Z then "\\"
              else if IsPrint n then EncodeRune r
              else escapeRune n in
  "'" +:+ body +:+ "'".

(** [%#U] of a rune: ["U+0041 'A'"]. *)
Definition upper_hex (n : nat) (r : N) : string :=
  String.string_of_list_ascii
    ((λ i, hex_digit true (N.shiftr r (4 * N.of_nat (n - 1 - i)) mod 16)%N) <$> seq 0 n).
Definition format_U `{UnicodeTable} (r : Z) : string :=
  let n := Z.to_N r in
  let digits := if bool_decide (r < 65536)%Z then 4
                else if bool_decide (r < 1048576)%Z then 5 else 6 in
  "U+" +:+ upper_hex digits n +:+
  (if IsPrint n then " '" +:+ EncodeRune r +:+ "'" else EmptyString).

(** ** quote.go *)
Fixpoint contains (s : string) (c : ascii) : bool :=
  match s with
  | EmptyString => false
  | String d s => bool_decide (d = c) || contains s c
  end.

Definition wrap32 (z : Z) : Z := ((z + 2 ^ 31) mod 2 ^ 32 - 2 ^ 31)%Z.

(** [n] hexadecimal digits, shifted into an [int32]. *)
Fixpoint hex_run (n : nat) (v : Z) (s : string) : option (Z * string) :=
  match n with
  | O => Some (v, s)
  | S n => match s with
           | EmptyString => None
           | String c s => x ← unhex c; hex_run n (wrap32 (Z.lor (wrap32 (Z.shiftl v 4)) (Z.of_N x))) s
           end
  end.

Definition octal (c : ascii) : option Z :=
  if byte_in 48 55 c then Some (Z.of_N (byte_val c) - 48)%Z else None.

Definition bquote : ascii := "`"%char.
Definition squote : ascii := "'"%char.
Definition dquote_char : ascii := ascii_of_N 34.
Definition backslash : ascii := "\"%char.
Definition newline : ascii := ascii_of_N 10.

(** [unquoteChar(s, quote)]: the value, whether it takes several bytes, and
    the rest; [None] is [ErrSyntax].  The caller gives a non-empty [s]. *)
Definition unquoteChar (s : string) (quote : ascii) : option (Z * bool * string) :=
  match s with
  | EmptyString => None
  | String c rest =>
      if bool_decide (c = quote) && (bool_decide (quote = squote) || bool_decide (quote = dquote_char))
      then None
      else if bool_decide (128 ≤ byte_val c)%N then
        let '(r, size) := DecodeRuneInString s in Some (Z.of_N r, true, drop_string size s)
      else if negb (bool_decide (c = backslash)) then Some (Z.of_N (byte_val c), false, rest)
      else match rest with
      | EmptyString => None
      | String c s =>
          match c with
          | "a" => Some (7, false, s)
          | "b" => Some (8, false, s)
          | "f" => Some (12, false, s)
          | "n" => Some (10, false, s)
          | "r" => Some (13, false, s)
          | "t" => Some (9, false, s)
          | "v" => Some (11, false, s)
          | "x" => '(v, s) ← hex_run 2 0 s; Some (v, false, s)
          | "u" => '(v, s) ← hex_run 4 0 s;
                   if bool_decide (v > MaxRune) then None else Some (v, true, s)
          | "U" => '(v, s) ← hex_run 8 0 s;
                   if bool_decide (v > MaxRune) then None else Some (v, true, s)
          | "\" => Some (92, false, s)
          | _ =>
              if bool_decide (c = squote) || bool_decide (c = dquote_char) then
                if bool_decide (c = quote) then Some (Z.of_N (byte_val c), false, s) else None
              else
                v0 ← octal c;
                match s with
                | String c1 (String c2 s) =>
                    v1 ← octal c1; v2 ← octal c2;
                    let v := (v0 * 64 + v1 * 8 + v2) in
                    if bool_decide (v > 255) then None else Some (v, false, s)
                | _ => None
                end
          end%char%Z
      end
  end.

(** The loop of [Unquote]; every turn shortens [s]. *)
Fixpoint unquote_loop (fuel : nat) (s : string) (quote : ascii) (buf : string) : option string :=
  match s, fuel with
  | EmptyString, _ => Some buf
  | _, O => None
  | _, S fuel =>
      '(c, multibyte, s) ← unquoteChar s quote;
      unquote_loop fuel s quote
        (buf +:+ (if bool_decide (c < 128)%Z || negb multibyte
                  then String (byte_of c) EmptyString else EncodeRune c))
  end.

Definition last_byte (s : string) : option ascii := last (chars s).

(** [Unquote(s)]; [None] is [ErrSyntax], ["invalid syntax"]. *)
Definition Unquote (s : string) : option string :=
  match s with
  | String quote (String _ _) =>
      if negb (bool_decide (last_byte s = Some quote)) then None
      else
        let s := take_string (String.length s - 2) (drop_string 1 s) in
        if bool_decide (quote = bquote) then if contains s bquote then None else Some s
        else if negb (bool_decide (quote = dquote_char)) && negb (bool_decide (quote = squote))
        then None
        else if contains s newline then None
        else if negb (contains s backslash) && negb (contains s quote) then Some s
        else unquote_loop (String.length s) s quote EmptyString
  | _ => None
  end.

(** ** strconv.ParseInt(s, 0, 64) of a text without sign and underscore *)
Fixpoint parse_digits (base acc : Z) (s : list ascii) : option Z :=
  match s with
  | [] => Some acc
  | c :: s => d ← digit_value base c; parse_digits base (acc * base + d)%Z s
  end.

Definition ParseInt (s : string) : option Z :=
  n ← match chars s with
      | [] => None
      | "0" :: c :: d :: rest =>
          if bool_decide (to_lower c = "x") then parse_digits 16 0 (d :: rest)
          else if bool_decide (to_lower c = "b") then parse_digits 2 0 (d :: rest)
          else if bool_decide (to_lower c = "o") then parse_digits 8 0 (d :: rest)
          else parse_digits 8 0 (c :: d :: rest)
      | "0" :: s => parse_digits 8 0 s
      | s => parse_digits 10 0 s
      end%char;
  if bool_decide (n ≤ int64_max)%Z then Some n else None.
