(* ===== verification/Lexer.v ===== *)
(** * The lexer of PromQL

    src/vendor/.../promql/parser/lex.go: a scanner whose state functions
    read the input rune by rune and put items into the caller's variable.
    The sequences of values of the testing language ([seriesDesc]), which
    [ParseExpr] and [ParseMetricSelector] never lex, are left out.

    A state function is a value of [stateFn]; [lex_step] runs one.  The
    loops inside a state function consume the input: their fuel is the
    number of bytes left and one more ([remaining]).  [NextItem] runs state
    functions until an item is scanned; its fuel, [steps], is proved enough
    ([NextItem_item]). *)
From S2P Require Import Prelude GoStrings Strutil.
From Stdlib Require Import Ascii.
From stdpp Require Import options.

(** ** Item types: the constants of generated_parser.y.go *)
Section ItemTypes.
Local Open Scope Z_scope.
Definition ASSIGN := 57346.
Definition BLANK := 57347.
Definition COLON := 57348.
Definition COMMA := 57349.
Definition COMMENT := 57350.
Definition DURATION := 57351.
Definition EOF := 57352.
Definition ERROR := 57353.
Definition IDENTIFIER := 57354.
Definition LEFT_BRACE := 57355.
Definition LEFT_BRACKET := 57356.
Definition LEFT_PAREN := 57357.
Definition METRIC_IDENTIFIER := 57358.
Definition NUMBER := 57359.
Definition RIGHT_BRACE := 57360.
Definition RIGHT_BRACKET := 57361.
Definition RIGHT_PAREN := 57362.
Definition SEMICOLON := 57363.
Definition SPACE := 57364.
Definition STRING := 57365.
Definition TIMES := 57366.
Definition operatorsStart := 57367.
Definition ADD := 57368.
Definition DIV := 57369.
Definition EQL := 57370.
Definition EQL_REGEX := 57371.
Definition GTE := 57372.
Definition GTR := 57373.
Definition LAND := 57374.
Definition LOR := 57375.
Definition LSS := 57376.
Definition LTE := 57377.
Definition LUNLESS := 57378.
Definition MOD := 57379.
Definition MUL := 57380.
Definition NEQ := 57381.
Definition NEQ_REGEX := 57382.
Definition POW := 57383.
Definition SUB := 57384.
Definition operatorsEnd := 57385.
Definition aggregatorsStart := 57386.
Definition AVG := 57387.
Definition BOTTOMK := 57388.
Definition COUNT := 57389.
Definition COUNT_VALUES := 57390.
Definition MAX := 57391.
Definition MIN := 57392.
Definition QUANTILE := 57393.
Definition STDDEV := 57394.
Definition STDVAR := 57395.
Definition SUM := 57396.
Definition TOPK := 57397.
Definition aggregatorsEnd := 57398.
Definition keywordsStart := 57399.
Definition BOOL := 57400.
Definition BY := 57401.
Definition GROUP_LEFT := 57402.
Definition GROUP_RIGHT := 57403.
Definition IGNORING := 57404.
Definition OFFSET := 57405.
Definition ON := 57406.
Definition WITHOUT := 57407.
Definition keywordsEnd := 57408.
Definition START_EXPRESSION := 57412.
Definition START_METRIC_SELECTOR := 57413.

Definition IsOperator (i : Z) : bool := bool_decide (operatorsStart < i < operatorsEnd).
Definition IsAggregator (i : Z) : bool := bool_decide (aggregatorsStart < i < aggregatorsEnd).
Definition IsAggregatorWithParam (i : Z) : bool :=
  bool_decide (i ∈ [TOPK; BOTTOMK; COUNT_VALUES; QUANTILE]).
Definition IsKeyword (i : Z) : bool := bool_decide (keywordsStart < i < keywordsEnd).
Definition IsComparisonOperator (i : Z) : bool :=
  bool_decide (i ∈ [EQL; NEQ; LTE; LSS; GTE; GTR]).
Definition IsSetOperator (i : Z) : bool := bool_decide (i ∈ [LAND; LOR; LUNLESS]).
End ItemTypes.

(** The map [key]; [init] adds the numbers after it filled [ItemTypeStr]. *)
Definition keywords : list (string * Z) :=
  [("and", LAND); ("or", LOR); ("unless", LUNLESS);
   ("sum", SUM); ("avg", AVG); ("count", COUNT); ("min", MIN); ("max", MAX);
   ("stddev", STDDEV); ("stdvar", STDVAR); ("topk", TOPK); ("bottomk", BOTTOMK);
   ("count_values", COUNT_VALUES); ("quantile", QUANTILE);
   ("offset", OFFSET); ("by", BY); ("without", WITHOUT); ("on", ON);
   ("ignoring", IGNORING); ("group_left", GROUP_LEFT); ("group_right", GROUP_RIGHT);
   ("bool", BOOL)].
Definition key : list (string * Z) := keywords ++ [("inf", NUMBER); ("nan", NUMBER)].

Definition ItemTypeStr : list (Z * string) :=
  [(LEFT_PAREN, "("); (RIGHT_PAREN, ")"); (LEFT_BRACE, "{"); (RIGHT_BRACE, "}");
   (LEFT_BRACKET, "["); (RIGHT_BRACKET, "]"); (COMMA, ","); (ASSIGN, "=");
   (COLON, ":"); (SEMICOLON, ";"); (BLANK, "_"); (TIMES, "x"); (SPACE, "<space>");
   (SUB, "-"); (ADD, "+"); (MUL, "*"); (MOD, "%"); (DIV, "/"); (EQL, "==");
   (NEQ, "!="); (LTE, "<="); (LSS, "<"); (GTE, ">="); (GTR, ">");
   (EQL_REGEX, "=~"); (NEQ_REGEX, "!~"); (POW, "^")] ++
  ((λ p, (p.2, p.1)) <$> keywords).

(** A lookup in a map given by its entries. *)
Definition map_get {K V} `{EqDecision K} (k : K) (l : list (K * V)) : option V :=
  snd <$> List.find (λ p, bool_decide (p.1 = k)) l.

(** [ItemType.String()]. *)
Definition Typ_String (i : Z) : string :=
  match map_get i ItemTypeStr with
  | Some s => s
  | None => "<Item " +:+ format_Z i +:+ ">"
  end.

(** ** Items *)
Record Item := MkItem { Typ : Z; Pos : Z; Val : string }.
Definition zero_item : Item := MkItem 0 0 EmptyString.

(** The first [n] runes of a string. *)
Fixpoint take_runes (n : nat) (s : string) : string :=
  match n with
  | O => EmptyString
  | S n => match s with
           | EmptyString => EmptyString
           | _ => let w := (DecodeRuneInString s).2 in
                  take_string w s +:+ take_runes n (drop_string w s)
           end
  end.

Section Lexer.
Context `{UnicodeTable}.

(** [Item.String()], [ItemType.desc()] and [Item.desc()]. *)
Definition Item_String (i : Item) : string :=
  if bool_decide (Typ i = EOF) then "EOF"
  else if bool_decide (Typ i = ERROR) then Val i
  else if bool_decide (Typ i = IDENTIFIER) || bool_decide (Typ i = METRIC_IDENTIFIER)
  then Quote (Val i)
  else if IsKeyword (Typ i) then "<" +:+ Val i +:+ ">"
  else if IsOperator (Typ i) then "<op:" +:+ Val i +:+ ">"
  else if IsAggregator (Typ i) then "<aggr:" +:+ Val i +:+ ">"
  else if bool_decide (10 < String.length (Val i)) then Quote (take_runes 10 (Val i)) +:+ "..."
  else Quote (Val i).

Definition Typ_desc (i : Z) : string :=
  if bool_decide (i = ERROR) then "error"
  else if bool_decide (i = EOF) then "end of input"
  else if bool_decide (i = COMMENT) then "comment"
  else if bool_decide (i = IDENTIFIER) then "identifier"
  else if bool_decide (i = METRIC_IDENTIFIER) then "metric identifier"
  else if bool_decide (i = STRING) then "string"
  else if bool_decide (i = NUMBER) then "number"
  else if bool_decide (i = DURATION) then "duration"
  else Quote (Typ_String i).

Definition Item_desc (i : Item) : string :=
  match map_get (Typ i) ItemTypeStr with
  | Some _ => Item_String i
  | None => if bool_decide (Typ i = EOF) then Typ_desc (Typ i)
            else Typ_desc (Typ i) +:+ " " +:+ Item_String i
  end.

(** ** The scanner *)
Inductive stateFn :=
| lexStatements
| lexInsideBraces
| lexEscape
| lexString
| lexRawString
| lexSpace
| lexLineComment
| lexDuration
| lexNumberOrDuration
| lexIdentifier
| lexKeywordOrIdentifier.

(** [itemp] is the item the caller's variable holds.  The field [lastPos],
    which is only written, is left out. *)
Record Lexer := MkLexer {
  input : string;
  state : option stateFn;
  pos : nat;
  start : nat;
  width : nat;
  itemp : Item;
  scannedItem : bool;
  parenDepth : Z;
  braceOpen : bool;
  bracketOpen : bool;
  gotColon : bool;
  stringOpen : Z;
}.

Definition set_state (s : option stateFn) (l : Lexer) : Lexer :=
  MkLexer (input l) s (pos l) (start l) (width l) (itemp l) (scannedItem l)
    (parenDepth l) (braceOpen l) (bracketOpen l) (gotColon l) (stringOpen l).
Definition set_pos (p w : nat) (l : Lexer) : Lexer :=
  MkLexer (input l) (state l) p (start l) w (itemp l) (scannedItem l)
    (parenDepth l) (braceOpen l) (bracketOpen l) (gotColon l) (stringOpen l).
Definition set_start (n : nat) (l : Lexer) : Lexer :=
  MkLexer (input l) (state l) (pos l) n (width l) (itemp l) (scannedItem l)
    (parenDepth l) (braceOpen l) (bracketOpen l) (gotColon l) (stringOpen l).
Definition set_item (i : Item) (l : Lexer) : Lexer :=
  MkLexer (input l) (state l) (pos l) (start l) (width l) i true
    (parenDepth l) (braceOpen l) (bracketOpen l) (gotColon l) (stringOpen l).
Definition set_scanned (b : bool) (l : Lexer) : Lexer :=
  MkLexer (input l) (state l) (pos l) (start l) (width l) (itemp l) b
    (parenDepth l) (braceOpen l) (bracketOpen l) (gotColon l) (stringOpen l).
Definition set_parenDepth (d : Z) (l : Lexer) : Lexer :=
  MkLexer (input l) (state l) (pos l) (start l) (width l) (itemp l) (scannedItem l)
    d (braceOpen l) (bracketOpen l) (gotColon l) (stringOpen l).
Definition set_braceOpen (b : bool) (l : Lexer) : Lexer :=
  MkLexer (input l) (state l) (pos l) (start l) (width l) (itemp l) (scannedItem l)
    (parenDepth l) b (bracketOpen l) (gotColon l) (stringOpen l).
Definition set_bracketOpen (b : bool) (l : Lexer) : Lexer :=
  MkLexer (input l) (state l) (pos l) (start l) (width l) (itemp l) (scannedItem l)
    (parenDepth l) (braceOpen l) b (gotColon l) (stringOpen l).
Definition set_gotColon (b : bool) (l : Lexer) : Lexer :=
  MkLexer (input l) (state l) (pos l) (start l) (width l) (itemp l) (scannedItem l)
    (parenDepth l) (braceOpen l) (bracketOpen l) b (stringOpen l).
Definition set_stringOpen (r : Z) (l : Lexer) : Lexer :=
  MkLexer (input l) (state l) (pos l) (start l) (width l) (itemp l) (scannedItem l)
    (parenDepth l) (braceOpen l) (bracketOpen l) (gotColon l) r.

Definition eof : Z := -1.
Definition remaining (l : Lexer) : nat := String.length (input l) - pos l.

(** [next], [backup] and [peek]. *)
Definition next (l : Lexer) : Z * Lexer :=
  if bool_decide (String.length (input l) ≤ pos l) then (eof, set_pos (pos l) 0 l)
  else let '(r, w) := DecodeRuneInString (drop_string (pos l) (input l)) in
       (Z.of_N r, set_pos (pos l + w) w l).
Definition backup (l : Lexer) : Lexer := set_pos (pos l - width l) (width l) l.
Definition peek (l : Lexer) : Z * Lexer := let '(r, l) := next l in (r, backup l).

(** [l.input[l.start:l.pos]]. *)
Definition pending (l : Lexer) : string :=
  take_string (pos l - start l) (drop_string (start l) (input l)).

Definition emit (t : Z) (l : Lexer) : Lexer :=
  set_start (pos l) (set_item (MkItem t (Z.of_nat (start l)) (pending l)) l).
Definition ignore (l : Lexer) : Lexer := set_start (pos l) l.

(** [l.errorf(...)], whose nil result is the next state of the callers that
    return it. *)
Definition errorf (text : string) (l : Lexer) : Lexer :=
  set_item (MkItem ERROR (Z.of_nat (start l)) text) l.

(** ** Classes of runes *)
Definition rune (c : ascii) : Z := Z.of_N (byte_val c).
Definition is_rune (r : Z) (c : ascii) : bool := bool_decide (r = rune c).
Definition isSpace (r : Z) : bool := bool_decide (r ∈ [32; 9; 10; 13])%Z.
Definition isEndOfLine (r : Z) : bool := bool_decide (r ∈ [13; 10])%Z.
Definition isDigit (r : Z) : bool := bool_decide (48 ≤ r ≤ 57)%Z.
Definition isAlpha (r : Z) : bool :=
  bool_decide (r = 95)%Z || bool_decide (97 ≤ r ≤ 122)%Z || bool_decide (65 ≤ r ≤ 90)%Z.
Definition isAlphaNumeric (r : Z) : bool := isAlpha r || isDigit r.

(** [isLabel(s)]; the runes of [s[1:]] that are letters or digits are its
    bytes. *)
Definition isLabel (s : string) : bool :=
  match s with
  | EmptyString => false
  | String c s => isAlpha (rune c) && string_forall (λ c, isAlphaNumeric (rune c)) s
  end.

(** [strings.ContainsRune(valid, r)] for an ASCII [valid]. *)
Definition ContainsRune (valid : string) (r : Z) : bool :=
  existsb (λ c, bool_decide (rune c = r)) (String.list_ascii_of_string valid).

(** ** Loops *)
(** [for f(l.next()) {}; l.backup()]. *)
Fixpoint skip_while (fuel : nat) (f : Z → bool) (l : Lexer) : Lexer :=
  match fuel with
  | O => l
  | S fuel => let '(r, l) := next l in
              if f r then skip_while fuel f l else backup l
  end.
Definition skip (f : Z → bool) (l : Lexer) : Lexer := skip_while (S (remaining l)) f l.

Definition accept (valid : string) (l : Lexer) : bool * Lexer :=
  let '(r, l) := next l in
  if ContainsRune valid r then (true, l) else (false, backup l).
Definition acceptRun (valid : string) (l : Lexer) : Lexer := skip (ContainsRune valid) l.

(** [for isSpace(l.peek()) { l.next() }; l.ignore()]. *)
Definition skipSpaces (l : Lexer) : Lexer := ignore (skip isSpace l).

(** ** State functions *)
Definition goto (s : stateFn) (l : Lexer) : Lexer := set_state (Some s) l.
Definition fail (text : string) (l : Lexer) : Lexer := set_state None (errorf text l).

Definition lex_comment (l : Lexer) : Lexer :=
  let l := set_pos (pos l + 1) (width l) l in
  let l := skip (λ r, negb (isEndOfLine r) && negb (bool_decide (r = eof))) l in
  goto lexStatements (emit COMMENT l).

Definition lex_statements (l : Lexer) : Lexer :=
  if braceOpen l then goto lexInsideBraces l
  else if HasPrefix (drop_string (pos l) (input l)) "#" then goto lexLineComment l
  else
    let '(r, l) := next l in
    let stay l := goto lexStatements l in
    let two t2 t1 l :=
      let '(t, l) := peek l in
      if is_rune t "=" then stay (emit t2 (next l).2) else stay (emit t1 l) in
    if bool_decide (r = eof) then
      if bool_decide (parenDepth l ≠ 0)%Z then fail "unclosed left parenthesis" l
      else if bracketOpen l then fail "unclosed left bracket" l
      else set_state None (emit EOF l)
    else if is_rune r "," then stay (emit COMMA l)
    else if isSpace r then goto lexSpace l
    else if is_rune r "*" then stay (emit MUL l)
    else if is_rune r "/" then stay (emit DIV l)
    else if is_rune r "%" then stay (emit MOD l)
    else if is_rune r "+" then stay (emit ADD l)
    else if is_rune r "-" then stay (emit SUB l)
    else if is_rune r "^" then stay (emit POW l)
    else if is_rune r "=" then
      let '(t, l) := peek l in
      if is_rune t "=" then stay (emit EQL (next l).2)
      else if is_rune t "~"
      then fail ("unexpected character after '=': " +:+ QuoteRune t) l
      else stay (emit ASSIGN l)
    else if is_rune r "!" then
      let '(t, l) := next l in
      if is_rune t "=" then stay (emit NEQ l)
      else fail ("unexpected character after '!': " +:+ QuoteRune t) l
    else if is_rune r "<" then two LTE LSS l
    else if is_rune r ">" then two GTE GTR l
    else
      let '(number, l) :=
        if isDigit r then (true, l)
        else if is_rune r "." then let '(d, l) := peek l in (isDigit d, l)
        else (false, l) in
      if number : bool then goto lexNumberOrDuration (backup l)
      else if is_rune r dquote_char || is_rune r "'"
      then goto lexString (set_stringOpen r l)
      else if is_rune r "`" then goto lexRawString (set_stringOpen r l)
      else if isAlpha r || is_rune r ":" then
        if negb (bracketOpen l) then goto lexKeywordOrIdentifier (backup l)
        else if gotColon l then fail ("unexpected colon " +:+ QuoteRune r) l
        else stay (set_gotColon true (emit COLON l))
      else if is_rune r "(" then
        let l := emit LEFT_PAREN l in stay (set_parenDepth (parenDepth l + 1) l)
      else if is_rune r ")" then
        let l := emit RIGHT_PAREN l in
        let l := set_parenDepth (parenDepth l - 1) l in
        if bool_decide (parenDepth l < 0)%Z
        then fail ("unexpected right parenthesis " +:+ QuoteRune r) l
        else stay l
      else if is_rune r "{" then goto lexInsideBraces (set_braceOpen true (emit LEFT_BRACE l))
      else if is_rune r "[" then
        if bracketOpen l then fail ("unexpected left bracket " +:+ QuoteRune r) l
        else
          let l := emit LEFT_BRACKET (set_gotColon false l) in
          let '(t, l) := peek l in
          let l := if isSpace t then skipSpaces l else l in
          goto lexDuration (set_bracketOpen true l)
      else if is_rune r "]" then
        if negb (bracketOpen l) then fail ("unexpected right bracket " +:+ QuoteRune r) l
        else stay (set_bracketOpen false (emit RIGHT_BRACKET l))
      else fail ("unexpected character: " +:+ QuoteRune r) l.

Definition lex_inside_braces (l : Lexer) : Lexer :=
  if HasPrefix (drop_string (pos l) (input l)) "#" then goto lexLineComment l
  else
    let '(r, l) := next l in
    let stay l := goto lexInsideBraces l in
    if bool_decide (r = eof) then fail "unexpected end of input inside braces" l
    else if isSpace r then goto lexSpace l
    else if isAlpha r then goto lexIdentifier (backup l)
    else if is_rune r "," then stay (emit COMMA l)
    else if is_rune r dquote_char || is_rune r "'"
    then goto lexString (set_stringOpen r l)
    else if is_rune r "`" then goto lexRawString (set_stringOpen r l)
    else if is_rune r "=" then
      let '(t, l) := next l in
      if is_rune t "~" then stay (emit EQL_REGEX l)
      else stay (emit EQL (backup l))
    else if is_rune r "!" then
      let '(t, l) := next l in
      if is_rune t "~" then stay (emit NEQ_REGEX l)
      else if is_rune t "=" then stay (emit NEQ l)
      else fail ("unexpected character after '!' inside braces: " +:+ QuoteRune t) l
    else if is_rune r "{" then fail ("unexpected left brace " +:+ QuoteRune r) l
    else if is_rune r "}" then goto lexStatements (set_braceOpen false (emit RIGHT_BRACE l))
    else fail ("unexpected character inside braces: " +:+ QuoteRune r) l.

Definition digitVal (ch : Z) : Z :=
  if bool_decide (48 ≤ ch ≤ 57)%Z then (ch - 48)%Z
  else if bool_decide (97 ≤ ch ≤ 102)%Z then (ch - 97 + 10)%Z
  else if bool_decide (65 ≤ ch ≤ 70)%Z then (ch - 65 + 10)%Z
  else 16%Z.

(** The loop over the [n] digits of an escape sequence: the number ([None]
    after an error) and the lexer; the rune after the last digit is
    consumed too. *)
Fixpoint escape_digits (n : nat) (base x ch : Z) (l : Lexer) : option Z * Lexer :=
  match n with
  | O => (Some x, l)
  | S n =>
      let d := digitVal ch in
      if bool_decide (base ≤ d)%Z then
        if bool_decide (ch = eof) then (None, errorf "escape sequence not terminated" l)
        else (None, errorf ("illegal character " +:+ format_U ch +:+ " in escape sequence") l)
      else
        let '(ch, l) := next l in
        escape_digits n base ((x * base + d) mod 2 ^ 32)%Z ch l
  end.

Definition lex_escape (l : Lexer) : Lexer :=
  let '(ch, l) := next l in
  let number n base max ch l :=
    let '(x, l) := escape_digits n base 0 ch l in
    match x with
    | None => goto lexString l
    | Some x =>
        goto lexString
          (if bool_decide (max < x)%Z || surrogate x
           then errorf "escape sequence is an invalid Unicode code point" l else l)
    end in
  if ContainsRune "abfnrtv\" ch || bool_decide (ch = stringOpen l) then goto lexString l
  else if bool_decide (48 ≤ ch ≤ 55)%Z then number 3 8%Z 255%Z ch l
  else if is_rune ch "x" then
    let '(ch, l) := next l in number 2 16%Z 255%Z ch l
  else if is_rune ch "u" then
    let '(ch, l) := next l in number 4 16%Z MaxRune ch l
  else if is_rune ch "U" then
    let '(ch, l) := next l in number 8 16%Z MaxRune ch l
  else if bool_decide (ch = eof) then goto lexString (errorf "escape sequence not terminated" l)
  else goto lexString (errorf ("unknown escape sequence " +:+ format_U ch) l).

(** The loops of [lexString] and [lexRawString]; without fuel the state is
    entered again. *)
Fixpoint string_loop (fuel : nat) (l : Lexer) : Lexer :=
  match fuel with
  | O => goto lexString l
  | S fuel =>
      let '(r, l) := next l in
      if is_rune r "\" then goto lexEscape l
      else if bool_decide (r = Z.of_N RuneError) then goto lexString (errorf "invalid UTF-8 rune" l)
      else if bool_decide (r = eof) || bool_decide (r = 10)%Z
      then fail "unterminated quoted string" l
      else if bool_decide (r = stringOpen l) then goto lexStatements (emit STRING l)
      else string_loop fuel l
  end.

Fixpoint raw_string_loop (fuel : nat) (l : Lexer) : Lexer :=
  match fuel with
  | O => goto lexRawString l
  | S fuel =>
      let '(r, l) := next l in
      if bool_decide (r = Z.of_N RuneError)
      then goto lexRawString (errorf "invalid UTF-8 rune" l)
      else if bool_decide (r = eof) then goto lexRawString (errorf "unterminated raw string" l)
      else if bool_decide (r = stringOpen l) then goto lexStatements (emit STRING l)
      else raw_string_loop fuel l
  end.

Definition decimal : string := "0123456789".

(** The rest of [scanNumber], once it is known which digits are read. *)
Definition scan_digits (digits : string) (l : Lexer) : bool * Lexer :=
  let l := acceptRun digits l in
  let '(dot, l) := accept "." l in
  let l := if dot : bool then acceptRun digits l else l in
  let '(e, l) := accept "eE" l in
  let l := if e : bool then acceptRun decimal (accept "+-" l).2 else l in
  let '(r, l) := peek l in
  (negb (isAlphaNumeric r), l).

Definition scanNumber (l : Lexer) : bool * Lexer :=
  let '(zero, l) := accept "0" l in
  let '(hex, l) := if zero : bool then accept "xX" l else (false, l) in
  scan_digits (if hex : bool then "0123456789abcdefABCDEF" else decimal) l.

(** The unit of a duration, which no letter or digit may follow. *)
Definition lex_unit (what : string) (l : Lexer) : Lexer :=
  let bad l := fail ("bad " +:+ what +:+ " syntax: " +:+ Quote (pending l)) l in
  let '(unit, l) := accept "smhdwy" l in
  if unit : bool then
    let '(r, l) := next l in
    if isAlphaNumeric r then bad l
    else goto lexStatements (emit DURATION (backup l))
  else bad l.

Definition lex_duration (l : Lexer) : Lexer :=
  let '(number, l) := scanNumber l in
  if number : bool then fail "missing unit character in duration" l
  else lex_unit "duration" l.

Definition lex_number_or_duration (l : Lexer) : Lexer :=
  let '(number, l) := scanNumber l in
  if number : bool then goto lexStatements (emit NUMBER l)
  else lex_unit "number or duration" l.

(** The keyword of a word, whatever its case. *)
Definition keyword (word : string) : option Z :=
  map_get (String.string_of_list_ascii (to_lower <$> String.list_ascii_of_string word)) key.

Definition lex_keyword_or_identifier (l : Lexer) : Lexer :=
  let l := skip (λ r, isAlphaNumeric r || is_rune r ":") l in
  let word := pending l in
  goto lexStatements
    (emit (match keyword word with
           | Some kw => kw
           | None => if negb (Contains word ":") then IDENTIFIER else METRIC_IDENTIFIER
           end) l).

(** [l.state(l)]: the new lexer with its next state. *)
Definition lex_step (s : stateFn) (l : Lexer) : Lexer :=
  match s with
  | lexStatements => lex_statements l
  | lexInsideBraces => lex_inside_braces l
  | lexEscape => lex_escape l
  | lexString => string_loop (S (remaining l)) l
  | lexRawString => raw_string_loop (S (remaining l)) l
  | lexSpace => goto lexStatements (skipSpaces l)
  | lexLineComment => lex_comment l
  | lexDuration => lex_duration l
  | lexNumberOrDuration => lex_number_or_duration l
  | lexIdentifier => goto lexStatements (emit IDENTIFIER (skip isAlphaNumeric l))
  | lexKeywordOrIdentifier => lex_keyword_or_identifier l
  end.

(** The loop of [NextItem]: a nil state function is a panic. *)
Fixpoint scan (fuel : nat) (l : Lexer) : option Lexer :=
  if scannedItem l then Some l
  else match fuel, state l with
  | S fuel, Some s => scan fuel (lex_step s l)
  | _, _ => None
  end.

Definition steps (l : Lexer) : nat := 4 * remaining l + 4.

(** [NextItem]; [None] when the loop runs out of fuel, which never happens. *)
Definition NextItem (l : Lexer) : option Lexer :=
  let l := set_scanned false l in
  match state l with
  | Some _ => scan (steps l) l
  | None => Some (emit EOF l)
  end.

(** [Lex(input)]. *)
Definition Lex (s : string) : Lexer :=
  MkLexer s (Some lexStatements) 0 0 0 zero_item false 0 false false false 0.

(** The items of an input up to the first [EOF] or [ERROR]. *)
Fixpoint items (fuel : nat) (l : Lexer) : list Item :=
  match fuel with
  | O => []
  | S fuel =>
      match NextItem l with
      | None => []
      | Some l => itemp l :: (if bool_decide (Typ (itemp l) ∈ [EOF; ERROR]) then []
                              else items fuel l)
      end
  end.
End Lexer.
