(* ===== verification/LexerSpec.v ===== *)
(** * The lexer ends

    Every state function of the lexer either scans an item or lowers a
    measure of the input left, so that [NextItem] returns, and every item
    other than the end and an error takes at least one byte of the input. *)
From S2P Require Import Prelude GoStrings Strutil Lexer.
From Stdlib Require Import Ascii.
From stdpp Require Import options.

#[local] Arguments skip : simpl never.

(** ** Strings and runes *)
Lemma length_drop_string n s : String.length (drop_string n s) = String.length s - n.
Proof. revert s. induction n as [|n IH]; intros [|c s]; cbn; auto with lia. Qed.

Lemma byte_in_true lo hi c : byte_in lo hi c = true → (lo ≤ byte_val c ≤ hi)%N.
Proof. unfold byte_in. rewrite andb_true_iff, !bool_decide_eq_true. done. Qed.

Lemma cont_Some lo hi c x :
  cont lo hi c = Some x → (128 ≤ lo)%N → (hi < 192)%N → (lo - 128 ≤ x < 64)%N.
Proof.
  unfold cont. case_match eqn:Hb; [|done]. apply byte_in_true in Hb. intros [= <-] Hlo Hhi.
  rewrite (N.mod_eq (byte_val c) 64) by done.
  assert (byte_val c / 64 = 2)%N as -> by (symmetry; apply (N.div_unique _ 64 2 (byte_val c - 128)); lia). lia.
Qed.

Lemma Decode_width c s r w :
  DecodeRuneInString (String c s) = (r, w) → 1 ≤ w ≤ S (String.length s) ∧ ((r < 128)%N → w = 1).
Proof.
  assert (∀ b : bool, (128 ≤ if b then 160 else 128)%N) by (intros []; lia).
  assert (∀ b : bool, (128 ≤ if b then 144 else 128)%N) by (intros []; lia).
  assert (∀ b : bool, ((if b then 159 else 191) < 192)%N) by (intros []; lia).
  assert (∀ b : bool, ((if b then 143 else 191) < 192)%N) by (intros []; lia).
  cbn. intros Hd.
  repeat (case_match; simplify_eq/=; try (split; [lia|]; intros; lia));
    repeat match goal with
      | H : byte_in _ _ _ = true |- _ => apply byte_in_true in H
      | H : cont _ _ _ = Some _ |- _ => apply cont_Some in H; [|auto; lia|auto; lia]
      end;
    (split; [lia|]); intros Hr; exfalso;
    repeat match goal with
      | H : context [bool_decide (?b = ?n)] |- _ =>
          destruct (decide (b = n)) as [?|?];
          [rewrite (bool_decide_eq_true_2 (b = n)) in * by done
          |rewrite (bool_decide_eq_false_2 (b = n)) in * by done]
      end; lia.
Qed.

(** ** The primitive moves *)
Section Spec.
Context `{UnicodeTable}.

Definition len (l : Lexer) : nat := String.length (input l).

(** [l'] is [l] moved forward. *)
Record moved (l l' : Lexer) : Prop := Moved {
  moved_input : input l' = input l;
  moved_start : start l' = start l;
  moved_scanned : scannedItem l' = scannedItem l;
  moved_pos : pos l ≤ pos l' ≤ len l;
}.

Lemma moved_refl l : pos l ≤ len l → moved l l.
Proof. by constructor. Qed.
Lemma moved_trans l1 l2 l3 : moved l1 l2 → moved l2 l3 → moved l1 l3.
Proof.
  intros [Hi Hs Hc Hp] [Hi' Hs' Hc' Hp']. constructor; try congruence.
  unfold len in *. rewrite Hi in Hp'. lia.
Qed.

Lemma moved_len l l' : moved l l' → len l' = len l.
Proof. intros [Hi _ _ _]. unfold len. by rewrite Hi. Qed.
Lemma moved_in l l' : moved l l' → pos l' ≤ len l'.
Proof. intros Hm. rewrite (moved_len l l' Hm). by destruct Hm as [_ _ _ []]. Qed.

(** [next] reads a rune and moves behind it, or is at the end. *)
Lemma next_cases l r l' :
  pos l ≤ len l → next l = (r, l') →
  moved l l' ∧ (r = eof ∧ pos l' = pos l ∧ width l' = 0 ∨
                (0 ≤ r)%Z ∧ pos l' = pos l + width l' ∧ 1 ≤ width l' ∧ ((r < 128)%Z → width l' = 1)).
Proof.
  unfold next, len. intros Hp. case_bool_decide as Hlen.
  - intros [= <- <-]. split; [by constructor|by left].
  - destruct (DecodeRuneInString _) as [n w] eqn:Hd. intros [= <- <-].
    pose proof (length_drop_string (pos l) (input l)) as Hl.
    destruct (drop_string (pos l) (input l)) as [|c s] eqn:Hdr; [cbn in Hl; lia|].
    apply Decode_width in Hd as [Hw H1]. cbn in Hl. split.
    + constructor; cbn; try done. unfold len. lia.
    + right. cbn. split_and!; try lia.
Qed.

Lemma peek_cases l r l' :
  pos l ≤ len l → peek l = (r, l') →
  moved l l' ∧ pos l' = pos l ∧ (r = eof ∨ (0 ≤ r)%Z ∧ ((r < 128)%Z → width l' = 1)).
Proof.
  unfold peek. destruct (next l) as [r1 l1] eqn:Hn. intros Hp [= <- <-].
  destruct (next_cases _ _ _ Hp Hn) as [[Hi Hs Hc Hp1] Hcases]. cbn.
  assert (pos l1 - width l1 = pos l) by lia. split; [constructor; cbn; auto; lia|].
  split; [done|]. destruct Hcases as [[-> _]|(? & _ & _ & ?)]; auto.
Qed.

Lemma isDigit_bounds r : isDigit r = true → (48 ≤ r ≤ 57)%Z.
Proof. unfold isDigit. by rewrite bool_decide_eq_true. Qed.

(** A loop over a class moves; over one that holds of the next rune it
    moves at least one byte. *)
Lemma skip_while_moved fuel f l : pos l ≤ len l → moved l (skip_while fuel f l).
Proof.
  revert l. induction fuel as [|fuel IH]; intros l Hp; cbn; [by apply moved_refl|].
  destruct (next l) as [r l1] eqn:Hn. destruct (next_cases _ _ _ Hp Hn) as [Hm Hc].
  destruct (f r).
  - apply (moved_trans _ l1); [done|]. apply IH. by eapply moved_in.
  - destruct Hm as [Hi Hs Hsc ?]. constructor; cbn; auto. destruct Hc as [(_ & -> & ->)|]; lia.
Qed.

Lemma skip_moved f l : pos l ≤ len l → moved l (skip f l).
Proof. apply skip_while_moved. Qed.

Lemma skip_step f l r l1 :
  pos l ≤ len l → next l = (r, l1) → f r = true → r ≠ eof → pos l < pos (skip f l).
Proof.
  intros Hp Hn Hf Hr. unfold skip. cbn. rewrite Hn, Hf.
  destruct (next_cases _ _ _ Hp Hn) as [Hm [[? _]|(_ & Hp1 & Hw & _)]]; [done|].
  destruct (skip_while_moved (remaining l) f l1) as [_ _ _ ?]; [by eapply moved_in|]. lia.
Qed.

Lemma accept_moved valid l : pos l ≤ len l → moved l (accept valid l).2.
Proof.
  intros Hp. unfold accept. destruct (next l) as [r l1] eqn:Hn.
  destruct (next_cases _ _ _ Hp Hn) as [Hm Hc]. destruct (ContainsRune valid r); cbn; [done|].
  destruct Hm as [Hi Hs Hsc ?]. constructor; cbn; auto. lia.
Qed.

Lemma ContainsRune_eof valid : ContainsRune valid eof = false.
Proof.
  unfold ContainsRune. apply not_true_is_false. rewrite existsb_exists.
  intros (c & _ & Hc%bool_decide_eq_true). unfold rune, eof in Hc. lia.
Qed.

Lemma accept_true valid l l' : pos l ≤ len l → accept valid l = (true, l') → pos l < pos l'.
Proof.
  intros Hp. unfold accept. destruct (next l) as [r l1] eqn:Hn.
  destruct (next_cases _ _ _ Hp Hn) as [Hm Hc]. destruct (ContainsRune valid r) eqn:Hv; [|done].
  intros [= <-]. destruct Hc as [[-> _]|?]; [by rewrite ContainsRune_eof in Hv|lia].
Qed.

(** After a failed [accept] the next rune is the same. *)
Lemma next_ext l l' : input l' = input l → pos l' = pos l → (next l').1 = (next l).1.
Proof. intros Hi Hp. unfold next. rewrite Hi, Hp. case_bool_decide; [done|]. by destruct (DecodeRuneInString _). Qed.

Lemma accept_false valid l l' :
  pos l ≤ len l → accept valid l = (false, l') →
  pos l' = pos l ∧ (next l').1 = (next l).1 ∧ ContainsRune valid (next l).1 = false.
Proof.
  intros Hp. unfold accept. destruct (next l) as [r l1] eqn:Hn.
  destruct (next_cases _ _ _ Hp Hn) as [Hm Hc]. destruct (ContainsRune valid r) eqn:Hv; [done|].
  intros [= <-]. destruct Hm as [Hi _ _ _].
  assert (pos (backup l1) = pos l) as Hb by (cbn; lia). split_and!; [done| |done].
  rewrite (next_ext l) by done. by rewrite Hn.
Qed.

(** ** The state functions *)

(** What a state function finds when it is entered. *)
Definition pre (s : stateFn) (l : Lexer) : Prop :=
  match s with
  | lexNumberOrDuration => isDigit (next l).1 = true ∨ (next l).1 = rune "."
  | lexIdentifier => isAlpha (next l).1 = true
  | lexKeywordOrIdentifier => isAlpha (next l).1 = true ∨ (next l).1 = rune ":"
  | lexLineComment => pos l < len l
  | _ => True
  end.

Definition rank (s : stateFn) : nat :=
  match s with
  | lexSpace => 3 | lexStatements => 2 | lexInsideBraces | lexEscape => 1 | _ => 0
  end.

Definition measure (s : stateFn) (l : Lexer) : nat := 4 * remaining l + rank s.

Definition ready (l : Lexer) : Prop :=
  pos l ≤ len l ∧ match state l with Some s => pre s l | None => True end.

Definition scanned (p : nat) (l : Lexer) : Prop :=
  scannedItem l = true ∧ (Typ (itemp l) = EOF ∨ Typ (itemp l) = ERROR ∨ p < pos l).

(** A step from [l] in state [s]. *)
Record stepped (s : stateFn) (l l' : Lexer) : Prop := Stepped {
  stepped_input : input l' = input l;
  stepped_pos : pos l ≤ pos l' ≤ len l;
  stepped_pre : match state l' with Some s' => pre s' l' | None => True end;
  stepped_done : scanned (pos l) l' ∨
    scannedItem l' = false ∧ ∃ s', state l' = Some s' ∧ measure s' l' < measure s l;
}.

(** The leaves of the state functions, given where they moved. *)
Lemma stepped_fail s l l1 text :
  moved l l1 → stepped s l (fail text l1).
Proof.
  intros [Hi Hs Hc Hp]. constructor; try done. left. split; [done|]. by right; left.
Qed.

Lemma stepped_emit s l l1 l2 s' :
  moved l l1 → pos l < pos l1 → scannedItem l2 = true → input l2 = input l1 → pos l2 = pos l1 →
  state l2 = Some s' → pre s' l2 → stepped s l l2.
Proof.
  intros [Hi Hs Hc Hp] Hlt Hsc Hi2 Hp2 Hst Hpre.
  constructor; [congruence|lia|by rewrite Hst|]. left. split; [done|]. right; right. lia.
Qed.

Lemma stepped_goto s l l1 s' :
  moved l l1 → scannedItem l = false → pre s' (goto s' l1) →
  4 * pos l + rank s' < 4 * pos l1 + rank s → stepped s l (goto s' l1).
Proof.
  intros Hm Hsc Hpre Hr. pose proof (moved_len _ _ Hm) as Hlen. destruct Hm as [Hi Hs Hc Hp].
  constructor; try done. right. split; [cbn; congruence|]. eexists. split; [done|].
  unfold measure, remaining. cbn. unfold len in *. rewrite Hi. lia.
Qed.

Lemma HasPrefix_comment l : HasPrefix (drop_string (pos l) (input l)) "#" = true → pos l < len l.
Proof.
  intros Hh. pose proof (length_drop_string (pos l) (input l)) as Hl.
  destruct (drop_string _ _); [done|]. cbn in Hl. unfold len. lia.
Qed.

(** After [backup] the rune is read again. *)
Lemma next_backup l r l1 :
  pos l ≤ len l → next l = (r, l1) →
  pos (backup l1) = pos l ∧ moved l (backup l1) ∧
  ∀ l2, input l2 = input l1 → pos l2 = pos (backup l1) → (next l2).1 = r.
Proof.
  intros Hp Hn. destruct (next_cases _ _ _ Hp Hn) as [[Hi ? ? ?] Hc].
  assert (pos (backup l1) = pos l) as Hb by (cbn; lia).
  split; [done|]. split; [constructor; try done; rewrite Hb; lia|].
  intros l2 Hi2 Hp2. rewrite (next_ext l); [by rewrite Hn|congruence|congruence].
Qed.

Lemma moved_to l l1 l2 :
  moved l l1 → input l2 = input l1 → start l2 = start l1 → scannedItem l2 = scannedItem l1 →
  pos l ≤ pos l2 ≤ len l → moved l l2.
Proof. intros [Hi Hs Hc Hp] ????. constructor; congruence || done. Qed.

Ltac emitted l1 :=
  eapply (stepped_emit _ _ l1); [eassumption|lia|reflexivity|reflexivity|reflexivity|reflexivity|exact I].

(** The branches of [lexStatements] that read on after the first rune, from
    the lexer [l1] that stands behind it. *)
Section statements.
Context (l l1 : Lexer) (Hm : moved l l1) (Hlt : pos l < pos l1).

Lemma moved_further l2 : moved l1 l2 → moved l l2 ∧ pos l < pos l2.
Proof using Hm Hlt. intros Hm2. split; [by eapply moved_trans|]. destruct Hm2 as [_ _ _ ?]. lia. Qed.

Lemma peek_further t l2 : peek l1 = (t, l2) → moved l1 l2 ∧ moved l l2 ∧ pos l < pos l2.
Proof using Hm Hlt.
  intros Hk. destruct (peek_cases _ _ _ (moved_in _ _ Hm) Hk) as (Hm2 & _ & _).
  split; [done|by apply moved_further].
Qed.

Lemma next_further t l2 : next l1 = (t, l2) → moved l l2 ∧ pos l < pos l2.
Proof using Hm Hlt. intros Hn. apply moved_further. by destruct (next_cases _ _ _ (moved_in _ _ Hm) Hn). Qed.

(** One rune more when [c] follows; [other] is what happens when not. *)
Lemma step_peek c t2 other :
  (∀ t l2, moved l l2 → pos l < pos l2 → stepped lexStatements l (other t l2)) →
  stepped lexStatements l
    (let '(t, l2) := peek l1 in
     if is_rune t c then goto lexStatements (emit t2 (next l2).2) else other t l2).
Proof using Hm Hlt.
  intros Hother. destruct (peek l1) as [t l2] eqn:Hk. destruct (peek_further _ _ Hk) as (Hm2 & Hm3 & ?).
  destruct (is_rune t c); [|by apply Hother].
  destruct (next l2) as [t' l3] eqn:Hn3. destruct (next_cases _ _ _ (moved_in _ _ Hm2) Hn3) as [Hm4 _].
  destruct (moved_further l3) as [? ?]; [by eapply moved_trans|]. emitted l3.
Qed.

(** The left bracket skips the spaces that follow it. *)
Lemma step_bracket :
  stepped lexStatements l
    (let '(t, l2) := peek (emit LEFT_BRACKET (set_gotColon false l1)) in
     goto lexDuration (set_bracketOpen true (if isSpace t then skipSpaces l2 else l2))).
Proof using Hm Hlt.
  destruct (peek (emit LEFT_BRACKET (set_gotColon false l1))) as [t l2] eqn:Hk.
  destruct (peek_cases _ _ _ (moved_in _ _ Hm : pos (emit LEFT_BRACKET (set_gotColon false l1)) ≤ _) Hk)
    as (Hm2 & Hp2 & _).
  set (l3 := if isSpace t then skipSpaces l2 else l2).
  assert (input l3 = input l ∧ scannedItem l3 = true ∧ pos l1 ≤ pos l3 ≤ len l) as (Hi3 & Hs3 & Hp3).
  { pose proof (moved_in _ _ Hm2) as Hin. pose proof (moved_len _ _ Hm2) as Hl2.
    pose proof (moved_len _ _ Hm) as Hl1. destruct Hm as [Hi _ _ _], Hm2 as [Hi2 _ Hs2 Hp22].
    unfold l3. destruct (isSpace t).
    - destruct (skip_moved isSpace l2 Hin) as [Hi3 _ Hs3 Hp3]. cbn in *.
      split_and!; [congruence|congruence|lia|]. unfold len in *. cbn in *. lia.
    - cbn in *. split_and!; [congruence|done|lia|]. unfold len in *. cbn in *. lia. }
  constructor; cbn; [done|lia|done|]. left. split; [done|]. right; right. cbn. lia.
Qed.
End statements.

(** A point starts a number when a digit follows it. *)
Lemma step_point l l1 d l2 other :
  pos l ≤ len l → next l = (46%Z, l1) → scannedItem l = false → peek l1 = (d, l2) →
  (moved l l2 → pos l < pos l2 → stepped lexStatements l other) →
  stepped lexStatements l (if isDigit d then goto lexNumberOrDuration (backup l2) else other).
Proof.
  intros Hp Hn Hsc Hk Hother. destruct (next_cases _ _ _ Hp Hn) as [Hm Hc].
  destruct Hc as [[? _]|(_ & Hp1 & Hw & H1)]; [done|]. specialize (H1 ltac:(lia)).
  destruct (peek_further l l1 Hm ltac:(lia) _ _ Hk) as (_ & Hm3 & ?).
  destruct (isDigit d) eqn:Hdd; [|by apply Hother]. apply isDigit_bounds in Hdd.
  destruct (peek_cases _ _ _ (moved_in _ _ Hm) Hk) as (Hm2 & Hp2 & Hd2).
  destruct Hd2 as [->|[? Hw2]]; [unfold eof in Hdd; lia|]. specialize (Hw2 ltac:(lia)).
  assert (pos (backup l2) = pos l) as Hpb by (cbn; lia).
  assert (moved l (backup l2)) as Hmb.
  { apply (moved_to _ l2); [done..|rewrite Hpb; destruct Hm as [_ _ _ ?]; lia]. }
  apply stepped_goto; [done|done| |cbn in *; lia].
  right. rewrite (next_ext l); [by rewrite Hn| |done]. destruct Hmb as [Hi _ _ _]. done.
Qed.

(** The runes that begin no operator, bracket or number: quotes, letters,
    parentheses. *)
Ltac one_rune l1 := match goal with |- context [if is_rune ?r ?c then _ else _] =>
  destruct (is_rune r c); [emitted l1|] end.

Lemma step_rest l r l1 :
  pos l ≤ len l → next l = (r, l1) → pos l < pos l1 → scannedItem l = false → (r ≠ 46)%Z →
  stepped lexStatements l
    (let stay l := goto lexStatements l in
     if is_rune r dquote_char || is_rune r "'" then goto lexString (set_stringOpen r l1)
     else if is_rune r "`" then goto lexRawString (set_stringOpen r l1)
     else if isAlpha r || is_rune r ":" then
       if negb (bracketOpen l1) then goto lexKeywordOrIdentifier (backup l1)
       else if gotColon l1 then fail ("unexpected colon " +:+ QuoteRune r) l1
       else stay (set_gotColon true (emit COLON l1))
     else if is_rune r "(" then
       let l := emit LEFT_PAREN l1 in stay (set_parenDepth (parenDepth l + 1) l)
     else if is_rune r ")" then
       let l := emit RIGHT_PAREN l1 in
       let l := set_parenDepth (parenDepth l - 1) l in
       if bool_decide (parenDepth l < 0)%Z
       then fail ("unexpected right parenthesis " +:+ QuoteRune r) l
       else stay l
     else if is_rune r "{" then goto lexInsideBraces (set_braceOpen true (emit LEFT_BRACE l1))
     else if is_rune r "[" then
       if bracketOpen l1 then fail ("unexpected left bracket " +:+ QuoteRune r) l1
       else
         let l := emit LEFT_BRACKET (set_gotColon false l1) in
         let '(t, l) := peek l in
         let l := if isSpace t then skipSpaces l else l in
         goto lexDuration (set_bracketOpen true l)
     else if is_rune r "]" then
       if negb (bracketOpen l1) then fail ("unexpected right bracket " +:+ QuoteRune r) l1
       else stay (set_bracketOpen false (emit RIGHT_BRACKET l1))
     else fail ("unexpected character: " +:+ QuoteRune r) l1).
Proof.
  intros Hp Hn Hlt Hsc Hdot. destruct (next_backup _ _ _ Hp Hn) as (Hb & Hmb0 & Hbn).
  destruct (next_cases _ _ _ Hp Hn) as [Hm _]. cbv zeta.
  destruct (is_rune r dquote_char || is_rune r "'");
    [apply (stepped_goto _ _ (set_stringOpen r l1)); [by apply (moved_to _ l1); destruct Hm|done|done|cbn; lia]|].
  destruct (is_rune r "`");
    [apply (stepped_goto _ _ (set_stringOpen r l1)); [by apply (moved_to _ l1); destruct Hm|done|done|cbn; lia]|].
  destruct (isAlpha r || is_rune r ":") eqn:Ha.
  { destruct (negb (bracketOpen l1)).
    - apply stepped_goto; [done|done| |cbn in *; lia].
      unfold pre. rewrite !Hbn by done. apply orb_true_iff in Ha as [?|?%bool_decide_eq_true]; auto.
    - destruct (gotColon l1); [by apply stepped_fail|emitted l1]. }
  one_rune l1. destruct (is_rune r ")").
  { case_bool_decide; [|emitted l1].
    destruct Hm as [Hi Hs Hcs Hpm]. constructor; try done. left. split; [done|]. by right; left. }
  one_rune l1. destruct (is_rune r "[").
  { destruct (bracketOpen l1); [by apply stepped_fail|by apply step_bracket]. }
  destruct (is_rune r "]"); [|by apply stepped_fail].
  destruct (negb (bracketOpen l1)); [by apply stepped_fail|emitted l1].
Qed.

Lemma step_statements l :
  ready l → scannedItem l = false → stepped lexStatements l (lex_statements l).
Proof.
  intros [Hp _] Hsc. unfold lex_statements.
  destruct (braceOpen l).
  { apply (stepped_goto _ _ l); [by apply moved_refl|done|done|cbn; lia]. }
  destruct (HasPrefix _ _) eqn:Hcom.
  { apply (stepped_goto _ _ l); [by apply moved_refl|done|by apply HasPrefix_comment|cbn; lia]. }
  destruct (next l) as [r l1] eqn:Hn.
  destruct (next_backup _ _ _ Hp Hn) as (Hb & Hmb0 & Hbn).
  destruct (next_cases _ _ _ Hp Hn) as [Hm Hc].
  case_bool_decide as Heof.
  { destruct (bool_decide (parenDepth l1 ≠ 0)%Z); [by apply stepped_fail|].
    destruct (bracketOpen l1); [by apply stepped_fail|].
    destruct Hm as [Hi Hs Hcs Hp1]. constructor; try done. left. split; [done|by left]. }
  destruct Hc as [[? _]|(Hr & Hp1 & Hw & H1)]; [done|].
  assert (pos l < pos l1) as Hlt by lia.
  one_rune l1. destruct (isSpace r); [apply stepped_goto; cbn; auto; lia|].
  do 6 one_rune l1.
  destruct (is_rune r "=").
  { apply (step_peek l l1 Hm Hlt "=" EQL). intros t l2 Hm2 Hlt2.
    destruct (is_rune t "~"); [by apply stepped_fail|]. emitted l2. }
  destruct (is_rune r "!").
  { destruct (next l1) as [t l2] eqn:Hn2. destruct (next_further l l1 Hm Hlt _ _ Hn2) as [? ?].
    destruct (is_rune t "="); [emitted l2|by apply stepped_fail]. }
  destruct (is_rune r "<"); [apply (step_peek l l1 Hm Hlt "=" LTE); intros t l2 ??; emitted l2|].
  destruct (is_rune r ">"); [apply (step_peek l l1 Hm Hlt "=" GTE); intros t l2 ??; emitted l2|].
  destruct (isDigit r) eqn:Hd.
  { apply stepped_goto; [done|done|left; by rewrite Hbn|cbn in *; lia]. }
  destruct (decide (r = 46)%Z) as [->|Hdot].
  { cbn [is_rune]. destruct (peek l1) as [d l2] eqn:Hk.
    apply (step_point l l1 d l2 _ Hp Hn Hsc Hk). intros Hm2 _. by apply stepped_fail. }
  assert (is_rune r "." = false) as -> by (by apply bool_decide_eq_false).
  by apply step_rest.
Qed.

Lemma step_braces l :
  ready l → scannedItem l = false → stepped lexInsideBraces l (lex_inside_braces l).
Proof.
  intros [Hp _] Hsc. unfold lex_inside_braces.
  destruct (HasPrefix _ _) eqn:Hcom.
  { apply (stepped_goto _ _ l); [by apply moved_refl|done|by apply HasPrefix_comment|cbn; lia]. }
  destruct (next l) as [r l1] eqn:Hn.
  destruct (next_backup _ _ _ Hp Hn) as (Hb & Hmb & Hbn).
  destruct (next_cases _ _ _ Hp Hn) as [Hm Hc].
  case_bool_decide as Heof; [by apply stepped_fail|].
  destruct Hc as [[? _]|(Hr & Hp1 & Hw & H1)]; [done|].
  assert (pos l < pos l1) as Hlt by lia.
  destruct (isSpace r); [apply stepped_goto; cbn; auto; lia|].
  destruct (isAlpha r) eqn:Ha.
  { apply stepped_goto; [done|done|unfold pre; by rewrite Hbn|cbn in *; lia]. }
  destruct (is_rune r ","); [emitted l1|].
  destruct (is_rune r dquote_char || is_rune r "'");
    [apply (stepped_goto _ _ (set_stringOpen r l1)); [by apply (moved_to _ l1); destruct Hm|done|done|cbn; lia]|].
  destruct (is_rune r "`");
    [apply (stepped_goto _ _ (set_stringOpen r l1)); [by apply (moved_to _ l1); destruct Hm|done|done|cbn; lia]|].
  destruct (next l1) as [t l2] eqn:Hn2.
  destruct (next_cases _ _ _ (moved_in _ _ Hm) Hn2) as [Hm2 _].
  destruct (next_backup _ _ _ (moved_in _ _ Hm) Hn2) as (Hb2 & Hmb2 & _).
  assert (moved l l2 ∧ moved l (backup l2) ∧ pos l < pos l2) as (? & ? & ?).
  { split_and!; [by eapply moved_trans..|]. destruct Hm2 as [_ _ _ ?]. lia. }
  destruct (is_rune r "="); [destruct (is_rune t "~"); [emitted l2|emitted (backup l2)]|].
  destruct (is_rune r "!").
  { destruct (is_rune t "~"); [emitted l2|]. destruct (is_rune t "="); [emitted l2|by apply stepped_fail]. }
  destruct (is_rune r "{"); [by apply stepped_fail|].
  destruct (is_rune r "}"); [emitted l1|by apply stepped_fail].
Qed.

Lemma step_space l :
  ready l → scannedItem l = false → stepped lexSpace l (goto lexStatements (skipSpaces l)).
Proof.
  intros [Hp _] Hsc. destruct (skip_moved isSpace l Hp) as [Hi Hs Hcs Hpm].
  constructor; try done. right. split; [cbn; congruence|]. eexists. split; [done|].
  unfold measure, remaining. cbn. rewrite Hi. lia.
Qed.

Lemma step_comment l :
  ready l → scannedItem l = false → state l = Some lexLineComment →
  stepped lexLineComment l (lex_comment l).
Proof.
  intros [Hp Hpre] Hsc Hst. rewrite Hst in Hpre. cbn in Hpre. unfold lex_comment.
  assert (moved l (set_pos (pos l + 1) (width l) l)) as Hm by (constructor; cbn; auto; lia).
  set (f := λ r, _). pose proof (skip_moved f _ (moved_in _ _ Hm)) as Hm2.
  assert (moved l (skip f (set_pos (pos l + 1) (width l) l))) by (by eapply moved_trans).
  destruct Hm2 as [_ _ _ ?]. cbn in *.
  emitted (skip f (set_pos (pos l + 1) (width l) l)).
Qed.

(** A word: the loop reads at least the first rune. *)
Lemma step_word s l f t s' r :
  ready l → (next l).1 = r → f r = true → r ≠ eof → pre s' (goto s' (emit t (skip f l))) →
  stepped s l (goto s' (emit t (skip f l))).
Proof.
  intros [Hp _] Hr Hf Hne Hpre. destruct (next l) as [r1 l1] eqn:Hn. cbn in Hr. subst r1.
  pose proof (skip_step f l r l1 Hp Hn Hf Hne). pose proof (skip_moved f l Hp).
  by apply (stepped_emit _ _ (skip f l) _ s').
Qed.

Lemma isAlpha_not_eof r : isAlpha r = true → r ≠ eof.
Proof. by intros ? ->. Qed.

Lemma step_identifier l :
  ready l → state l = Some lexIdentifier →
  stepped lexIdentifier l (goto lexStatements (emit IDENTIFIER (skip isAlphaNumeric l))).
Proof.
  intros Hrd Hst. destruct (Hrd) as [_ Hpre]. rewrite Hst in Hpre. cbn in Hpre.
  eapply step_word; [done|done| |by apply isAlpha_not_eof|exact I].
  unfold isAlphaNumeric. by rewrite Hpre.
Qed.

Lemma step_keyword l :
  ready l → state l = Some lexKeywordOrIdentifier →
  stepped lexKeywordOrIdentifier l (lex_keyword_or_identifier l).
Proof.
  intros Hrd Hst. destruct (Hrd) as [_ Hpre]. rewrite Hst in Hpre. cbn in Hpre.
  unfold lex_keyword_or_identifier. eapply step_word; [done|done| | |exact I].
  - unfold isAlphaNumeric, is_rune. destruct Hpre as [->|Hpre]; [done|].
    by rewrite (bool_decide_eq_true_2 _ Hpre), orb_true_r.
  - destruct Hpre as [Hpre|Hpre]; [by apply isAlpha_not_eof|by rewrite Hpre].
Qed.

Lemma stepped_error s l l1 text s' :
  moved l l1 → pre s' (goto s' (errorf text l1)) → stepped s l (goto s' (errorf text l1)).
Proof.
  intros [Hi Hs Hc Hp] Hpre. constructor; try done. left. split; [done|]. by right; left.
Qed.

Lemma string_loop_stepped fuel l0 l :
  scannedItem l0 = false → moved l0 l → remaining l < fuel → stepped lexString l0 (string_loop fuel l).
Proof.
  intros Hsc. revert l. induction fuel as [|fuel IH]; intros l Hm Hf; [lia|]. cbn.
  destruct (next l) as [r l1] eqn:Hn.
  destruct (next_cases _ _ _ (moved_in _ _ Hm) Hn) as [Hm1 Hc].
  assert (moved l0 l1) as Hm2 by (by eapply moved_trans).
  assert (r ≠ eof → pos l0 < pos l1 ∧ remaining l1 < remaining l) as Hmore.
  { intros Hr. destruct Hc as [[? _]|(_ & ? & ? & _)]; [done|]. destruct Hm as [_ _ _ ?].
    pose proof (moved_in _ _ Hm1) as Hin. destruct Hm1 as [Hi _ _ ?]. unfold remaining, len in *.
    rewrite Hi in *. lia. }
  destruct (is_rune r "\") eqn:Hbs.
  { apply bool_decide_eq_true in Hbs. destruct Hmore as [? _]; [by rewrite Hbs|].
    apply (stepped_goto _ _ l1); [done|done|done|cbn; lia]. }
  case_bool_decide; [by apply stepped_error|].
  destruct (bool_decide (r = eof)) eqn:Heof; [by apply stepped_fail|].
  apply bool_decide_eq_false in Heof. destruct (Hmore Heof) as [? ?]. cbn.
  case_bool_decide; [by apply stepped_fail|].
  case_bool_decide; [emitted l1|]. apply IH; [done|lia].
Qed.

Lemma raw_string_loop_stepped fuel l0 l :
  scannedItem l0 = false → moved l0 l → remaining l < fuel →
  stepped lexRawString l0 (raw_string_loop fuel l).
Proof.
  intros Hsc. revert l. induction fuel as [|fuel IH]; intros l Hm Hf; [lia|]. cbn.
  destruct (next l) as [r l1] eqn:Hn.
  destruct (next_cases _ _ _ (moved_in _ _ Hm) Hn) as [Hm1 Hc].
  assert (moved l0 l1) as Hm2 by (by eapply moved_trans).
  case_bool_decide; [by apply stepped_error|].
  case_bool_decide as Heof; [by apply stepped_error|].
  destruct Hc as [[? _]|(_ & ? & ? & _)]; [done|]. destruct Hm as [_ _ _ ?].
  case_bool_decide; [emitted l1|]. apply IH; [done|].
  pose proof (moved_in _ _ Hm1) as Hin. destruct Hm1 as [Hi _ _ ?]. unfold remaining, len in *.
  rewrite Hi in *. lia.
Qed.

Lemma escape_digits_moved n base x ch l :
  pos l ≤ len l →
  let '(res, l') := escape_digits n base x ch l in
  match res with
  | Some _ => moved l l'
  | None => ∃ l1 text, moved l l1 ∧ l' = errorf text l1
  end.
Proof.
  revert x ch l. induction n as [|n IH]; intros x ch l Hp; cbn; [by apply moved_refl|].
  case_bool_decide; [case_bool_decide; eexists _, _; (split; [by apply moved_refl|done])|].
  destruct (next l) as [r l1] eqn:Hn. destruct (next_cases _ _ _ Hp Hn) as [Hm _].
  specialize (IH ((x * base + digitVal ch) mod 2 ^ 32)%Z r l1 (moved_in _ _ Hm)).
  destruct (escape_digits _ _ _ _ _) as [[y|] l2]; [by eapply moved_trans|].
  destruct IH as (l3 & text & ? & ->). eexists _, _. split; [by eapply moved_trans|done].
Qed.

Lemma step_escape l :
  ready l → scannedItem l = false → stepped lexEscape l (lex_escape l).
Proof.
  intros [Hp _] Hsc. unfold lex_escape.
  destruct (next l) as [ch l1] eqn:Hn. destruct (next_cases _ _ _ Hp Hn) as [Hm _].
  assert (∀ n base max ch l2, moved l l2 → stepped lexEscape l
    (let '(x, l3) := escape_digits n base 0 ch l2 in
     match x with
     | Some x => goto lexString
         (if bool_decide (max < x)%Z || surrogate x
          then errorf "escape sequence is an invalid Unicode code point" l3 else l3)
     | None => goto lexString l3
     end)) as Hnumber.
  { intros n base max c l2 Hm2.
    pose proof (escape_digits_moved n base 0 c l2 (moved_in _ _ Hm2)) as He.
    destruct (escape_digits _ _ _ _ _) as [[x|] l3].
    - assert (moved l l3) by (by eapply moved_trans). case_match; [by apply stepped_error|].
      apply stepped_goto; [done|done|done|]. destruct H0 as [_ _ _ ?]. cbn. lia.
    - destruct He as (l4 & text & Hm4 & ->). apply stepped_error; [by eapply moved_trans|done]. }
  assert (∀ n base max, stepped lexEscape l
    (let '(c, l2) := next l1 in
     let '(x, l3) := escape_digits n base 0 c l2 in
     match x with
     | Some x => goto lexString
         (if bool_decide (max < x)%Z || surrogate x
          then errorf "escape sequence is an invalid Unicode code point" l3 else l3)
     | None => goto lexString l3
     end)) as Hmore.
  { intros n base max. destruct (next l1) as [c l2] eqn:Hn2. apply Hnumber.
    eapply moved_trans; [done|]. by destruct (next_cases _ _ _ (moved_in _ _ Hm) Hn2). }
  destruct (ContainsRune _ ch || _).
  { apply stepped_goto; [done|done|done|]. destruct Hm as [_ _ _ ?]. cbn. lia. }
  case_bool_decide; [by apply Hnumber|].
  do 3 (match goal with |- context [if is_rune ch ?c then _ else _] => destruct (is_rune ch c) end;
        [apply Hmore|]).
  case_bool_decide; by apply stepped_error.
Qed.

(** ** Numbers and durations *)
Lemma moved_if (b : bool) l l1 l2 : moved l l1 → moved l l2 → moved l (if b then l1 else l2).
Proof. by destruct b. Qed.

Lemma acceptRun_moved valid l : pos l ≤ len l → moved l (acceptRun valid l).
Proof. apply skip_moved. Qed.

Lemma scan_rest_moved digits l :
  pos l ≤ len l →
  let '(dot, l1) := accept "." l in
  let l2 := if dot : bool then acceptRun digits l1 else l1 in
  let '(e, l3) := accept "eE" l2 in
  let l4 := if e : bool then acceptRun decimal (accept "+-" l3).2 else l3 in
  moved l l1 ∧ moved l1 (peek l4).2.
Proof.
  intros Hp. pose proof (accept_moved "." l Hp) as H4.
  destruct (accept "." l) as [dot l4]. cbn in H4. cbv zeta.
  pose proof (acceptRun_moved digits l4 (moved_in _ _ H4)) as H5.
  assert (moved l4 (if dot then acceptRun digits l4 else l4)) as H6
    by (apply moved_if; [done|apply moved_refl; by eapply moved_in]).
  pose proof (accept_moved "eE" _ (moved_in _ _ H6)) as H7.
  destruct (accept "eE" _) as [e l7]. cbn in H7.
  pose proof (accept_moved "+-" l7 (moved_in _ _ H7)) as H8.
  pose proof (acceptRun_moved decimal _ (moved_in _ _ H8)) as H9.
  assert (moved l7 (if e then acceptRun decimal (accept "+-" l7).2 else l7)) as H10
    by (apply moved_if; [by eapply moved_trans|apply moved_refl; by eapply moved_in]).
  destruct (peek _) as [r l11] eqn:Hk.
  destruct (peek_cases _ _ _ (moved_in _ _ H10) Hk) as [? _]. split; [done|]. cbn. eauto using moved_trans.
Qed.

Lemma scan_digits_moved digits l : pos l ≤ len l → moved l (scan_digits digits l).2.
Proof.
  intros Hp. unfold scan_digits. pose proof (acceptRun_moved digits l Hp) as H1.
  pose proof (scan_rest_moved digits _ (moved_in _ _ H1)) as H2. cbv zeta in *.
  destruct (accept "." _) as [dot l1]. destruct (accept "eE" _) as [e l3].
  destruct (peek _) as [r l5]. destruct H2. cbn in *. eauto using moved_trans.
Qed.

Lemma skip_stop f l r l1 :
  pos l ≤ len l → next l = (r, l1) → f r = false → pos (skip f l) = pos l ∧ (next (skip f l)).1 = r.
Proof.
  intros Hp Hn Hf. unfold skip. cbn. rewrite Hn, Hf.
  destruct (next_backup _ _ _ Hp Hn) as (Hb & _ & Hbn). split; [done|by apply Hbn].
Qed.

(** A number starts with a digit or a point, which it reads. *)
Lemma scan_digits_step l :
  pos l ≤ len l → isDigit (next l).1 = true ∨ (next l).1 = rune "." →
  pos l < pos (scan_digits decimal l).2.
Proof.
  intros Hp Hr. unfold scan_digits. pose proof (acceptRun_moved decimal l Hp) as H1.
  pose proof (scan_rest_moved decimal _ (moved_in _ _ H1)) as H2. cbv zeta in *.
  destruct (next l) as [r l0] eqn:Hn. cbn in Hr.
  destruct (accept "." _) as [dot l1] eqn:Hdot. destruct (accept "eE" _) as [e l3].
  destruct (peek _) as [r' l5]. destruct H2 as [[_ _ _ Hp2] [_ _ _ Hp3]]. cbn in *.
  destruct Hr as [Hr|Hr].
  - pose proof (isDigit_bounds _ Hr). pose proof (skip_step (ContainsRune decimal) l r l0 Hp Hn) as Hs.
    unfold acceptRun in *. assert (pos l < pos (skip (ContainsRune decimal) l)); [|lia].
    apply Hs; [|unfold eof; lia].
    assert (r ∈ (λ n, Z.of_nat n + 48)%Z <$> seq 0 10) as Hin.
    { apply list_elem_of_fmap. exists (Z.to_nat (r - 48)). rewrite elem_of_seq. lia. }
    revert Hin. cbn. rewrite !elem_of_cons, elem_of_nil. naive_solver.
  - subst r. destruct (skip_stop (ContainsRune decimal) l _ l0 Hp Hn eq_refl) as [Hs Hsn].
    destruct dot.
    + apply accept_true in Hdot; [|by eapply moved_in]. unfold acceptRun in *. lia.
    + apply accept_false in Hdot as (_ & _ & Hc); [|by eapply moved_in].
      unfold acceptRun in Hc. by rewrite Hsn in Hc.
Qed.

Lemma scanNumber_prefix l :
  pos l ≤ len l →
  ∃ digits l1, scanNumber l = scan_digits digits l1 ∧ moved l l1 ∧
    (pos l < pos l1 ∨ digits = decimal ∧ (next l1).1 = (next l).1 ∧ pos l1 = pos l).
Proof.
  intros Hp. unfold scanNumber.
  pose proof (accept_moved "0" l Hp) as H1. destruct (accept "0" l) as [[] l1] eqn:Ha; cbn in H1.
  - apply accept_true in Ha; [|done].
    pose proof (accept_moved "xX" l1 (moved_in _ _ H1)) as H2.
    destruct (accept "xX" l1) as [hex l2]. cbn in H2. eexists _, _. split; [done|].
    split; [by eapply moved_trans|]. left. destruct H2 as [_ _ _ ?]. lia.
  - apply accept_false in Ha as (? & ? & _); [|done]. eexists _, _. split; [done|]. auto.
Qed.

Lemma scanNumber_moved l : pos l ≤ len l → moved l (scanNumber l).2.
Proof.
  intros Hp. destruct (scanNumber_prefix l Hp) as (digits & l1 & -> & Hm & _).
  eapply moved_trans; [done|]. apply scan_digits_moved. by eapply moved_in.
Qed.

Lemma scanNumber_step l :
  pos l ≤ len l → isDigit (next l).1 = true ∨ (next l).1 = rune "." → pos l < pos (scanNumber l).2.
Proof.
  intros Hp Hr. destruct (scanNumber_prefix l Hp) as (digits & l1 & -> & Hm & [?|(-> & Hn & Heq)]).
  - destruct (scan_digits_moved digits l1 (moved_in _ _ Hm)) as [_ _ _ ?]. lia.
  - rewrite <-Heq. apply scan_digits_step; [by eapply moved_in|by rewrite Hn].
Qed.

Lemma lex_unit_stepped s l l1 what :
  moved l l1 → stepped s l (lex_unit what l1).
Proof.
  intros Hm. unfold lex_unit. pose proof (accept_moved "smhdwy" l1 (moved_in _ _ Hm)) as H1.
  destruct (accept "smhdwy" l1) as [[] l2] eqn:Ha; cbn in H1;
    [|apply stepped_fail; by eapply moved_trans].
  apply accept_true in Ha; [|by eapply moved_in].
  destruct (next l2) as [r l3] eqn:Hn.
  destruct (next_cases _ _ _ (moved_in _ _ H1) Hn) as [H2 _].
  destruct (next_backup _ _ _ (moved_in _ _ H1) Hn) as (Hb & H3 & _).
  destruct (isAlphaNumeric r); [apply stepped_fail; eauto using moved_trans|].
  assert (moved l (backup l3)) by eauto using moved_trans.
  destruct Hm as [_ _ _ ?]. emitted (backup l3).
Qed.

Lemma step_duration l : ready l → stepped lexDuration l (lex_duration l).
Proof.
  intros [Hp _]. unfold lex_duration. pose proof (scanNumber_moved l Hp) as Hm.
  destruct (scanNumber l) as [[] l1]; [by apply stepped_fail|by apply lex_unit_stepped].
Qed.

Lemma step_number l :
  ready l → state l = Some lexNumberOrDuration →
  stepped lexNumberOrDuration l (lex_number_or_duration l).
Proof.
  intros [Hp Hpre] Hst. rewrite Hst in Hpre. unfold lex_number_or_duration.
  pose proof (scanNumber_moved l Hp) as Hm. pose proof (scanNumber_step l Hp Hpre) as Hlt.
  destruct (scanNumber l) as [[] l1]; cbn in *; [emitted l1|by apply lex_unit_stepped].
Qed.

(** ** NextItem *)
Lemma lex_step_stepped s l :
  ready l → scannedItem l = false → state l = Some s → stepped s l (lex_step s l).
Proof.
  intros Hrd Hsc Hst. destruct s; unfold lex_step.
  - by apply step_statements.
  - by apply step_braces.
  - by apply step_escape.
  - apply string_loop_stepped; [done|by apply moved_refl; destruct Hrd|lia].
  - apply raw_string_loop_stepped; [done|by apply moved_refl; destruct Hrd|lia].
  - by apply step_space.
  - by apply step_comment.
  - by apply step_duration.
  - by apply step_number.
  - by apply step_identifier.
  - by apply step_keyword.
Qed.

(** The result of a scan from [l]: an item, in a lexer ready to go on. *)
Record item_of (l l' : Lexer) : Prop := ItemOf {
  item_input : input l' = input l;
  item_ready : ready l';
  item_pos : pos l ≤ pos l';
  item_end : Typ (itemp l') = EOF ∨ Typ (itemp l') = ERROR ∨ pos l < pos l';
}.

Lemma stepped_ready s l l' : stepped s l l' → ready l'.
Proof.
  intros [Hi Hp Hpre _]. split; [|done]. unfold len in *. rewrite Hi. lia.
Qed.

Lemma scan_returns fuel l s :
  ready l → scannedItem l = false → state l = Some s → measure s l < fuel →
  ∃ l', scan fuel l = Some l' ∧ item_of l l'.
Proof.
  revert l s. induction fuel as [|fuel IH]; intros l s Hrd Hsc Hst Hf; [lia|].
  cbn. rewrite Hsc, Hst. pose proof (lex_step_stepped s l Hrd Hsc Hst) as Hstep.
  pose proof (stepped_ready _ _ _ Hstep) as Hrd'.
  destruct Hstep as [Hi Hp Hpre [[Hs Hd]|(Hs & s' & Hst' & Hlt)]].
  - exists (lex_step s l). split; [destruct fuel; cbn; by rewrite Hs|]. constructor; auto; lia.
  - destruct (IH _ _ Hrd' Hs Hst') as (l' & -> & [Hi' Hr' Hp' He']); [lia|].
    exists l'. split; [done|]. constructor; [congruence|done|lia|].
    destruct He' as [?|[?|?]]; auto. right; right; lia.
Qed.

(** [NextItem] returns on every lexer. *)
Lemma NextItem_item l : ready l → ∃ l', NextItem l = Some l' ∧ item_of l l'.
Proof.
  intros [Hp Hpre]. unfold NextItem.
  assert (ready (set_scanned false l)) as Hrd.
  { split; [done|]. change (state (set_scanned false l)) with (state l).
    destruct (state l) as [[]|]; unfold pre in *; rewrite ?(next_ext l (set_scanned false l)) by done;
      auto. }
  cbv zeta. change (state (set_scanned false l)) with (state l) in *.
  destruct (state l) as [s|] eqn:Hst.
  - destruct (scan_returns (steps (set_scanned false l)) _ s Hrd) as (l' & -> & Hit);
      [done|done|unfold steps, measure; destruct s; cbn; lia|].
    exists l'. split; [done|]. by destruct Hit.
  - eexists. split; [done|]. constructor; cbn; auto. split; cbn; [done|]. by rewrite Hst.
Qed.

Lemma Lex_ready s : ready (Lex s).
Proof. split; cbn; [lia|done]. Qed.

(** The items of an input: they end with the end or an error, and there are
    at most as many as bytes before it. *)
Theorem items_end (s : string) :
  ∃ l i, items (S (String.length s)) (Lex s) = l ++ [i] ∧ length l ≤ String.length s ∧
         (Typ i = EOF ∨ Typ i = ERROR) ∧ Forall (λ i, Typ i ≠ EOF ∧ Typ i ≠ ERROR) l.
Proof.
  assert (∀ fuel l, ready l → remaining l < fuel →
    ∃ k i, items fuel l = k ++ [i] ∧ length k ≤ remaining l ∧
           (Typ i = EOF ∨ Typ i = ERROR) ∧ Forall (λ i, Typ i ≠ EOF ∧ Typ i ≠ ERROR) k) as Hgen.
  { intros fuel. induction fuel as [|fuel IH]; intros l Hrd Hf; [lia|]. cbn.
    destruct (NextItem_item l Hrd) as (l' & -> & [Hi Hr' Hp He]).
    case_bool_decide as Hin; rewrite !elem_of_cons, elem_of_nil in Hin.
    - exists [], (itemp l'). split_and!; [done|cbn; lia|tauto|done].
    - pose proof (proj1 Hr') as Hp'. assert (pos l < pos l') by tauto.
      assert (remaining l' < remaining l) as Hlt
        by (unfold remaining, len in *; rewrite Hi in *; lia).
      destruct (IH l' Hr') as (k & i & -> & Hk & Hend & Hall); [lia|].
      exists (itemp l' :: k), i. split_and!; [done|cbn; lia|done|].
      all: constructor; [tauto|done]. }
  destruct (Hgen (S (String.length s)) (Lex s) (Lex_ready s)) as (k & i & Hk & Hl & ?).
  { unfold remaining. cbn. lia. }
  exists k, i. unfold remaining in Hl. cbn in Hl. rewrite Nat.sub_0_r in Hl. done.
Qed.
End Spec.
