(* ===== verification/ParserTables.v ===== *)
(** * The tables of the PromQL parser

    The tables of the automaton that goyacc generated
    (src/vendor/.../promql/parser/generated_parser.y.go), number for number,
    and the function table of functions.go.  The driver that reads them is
    in [Parser]. *)
From S2P Require Import Prelude GoStrings GoFloat Promql.
From stdpp Require Import options.

(** Token numbers: [yyTok2] maps the [i]-th private constant to [i + 2]. *)
Definition yyEofCode : Z := 1.
Definition yyErrCode : Z := 2.
Definition yyPrivate : Z := 57344.
Definition yyTok2_len : Z := 71.
Definition yyFlag : Z := -1000.
Definition yyLast : Z := 553.

Definition yyExca : list Z := [
  (-1); 1; 1; (-1); (-2); 0; (-1); 31; 1; 119; 10; 119; 22; 119; (-2); 0; (-1); 53; 2; 131;
  15; 131; 59; 131; 65; 131; (-2); 89; (-1); 54; 2; 132; 15; 132; 59; 132; 65; 132; (-2);
  90; (-1); 55; 2; 133; 15; 133; 59; 133; 65; 133; (-2); 92; (-1); 56; 2; 134; 15; 134; 59;
  134; 65; 134; (-2); 93; (-1); 57; 2; 135; 15; 135; 59; 135; 65; 135; (-2); 98; (-1); 58;
  2; 136; 15; 136; 59; 136; 65; 136; (-2); 100; (-1); 59; 2; 137; 15; 137; 59; 137; 65;
  137; (-2); 102; (-1); 60; 2; 138; 15; 138; 59; 138; 65; 138; (-2); 103; (-1); 61; 2; 139;
  15; 139; 59; 139; 65; 139; (-2); 104; (-1); 62; 2; 140; 15; 140; 59; 140; 65; 140; (-2);
  105; (-1); 63; 2; 141; 15; 141; 59; 141; 65; 141; (-2); 106; (-1); 173; 12; 180; 13; 180;
  16; 180; 17; 180; 23; 180; 26; 180; 32; 180; 33; 180; 36; 180; 42; 180; 45; 180; 46; 180;
  47; 180; 48; 180; 49; 180; 50; 180; 51; 180; 52; 180; 53; 180; 54; 180; 55; 180; 59; 180;
  63; 180; (-2); 0; (-1); 174; 12; 180; 13; 180; 16; 180; 17; 180; 23; 180; 26; 180; 32;
  180; 33; 180; 36; 180; 42; 180; 45; 180; 46; 180; 47; 180; 48; 180; 49; 180; 50; 180; 51;
  180; 52; 180; 53; 180; 54; 180; 55; 180; 59; 180; 63; 180; (-2); 0; (-1); 190; 19; 178;
  (-2); 0; (-1); 237; 19; 179; (-2); 0]%Z.

Definition yyAct : list Z := [
  243; 194; 33; 133; 233; 234; 165; 166; 105; 71; 94; 93; 96; 6; 173; 174; 196; 171; 97;
  172; 118; 92; 227; 112; 168; 246; 205; 226; 95; 107; 211; 225; 113; 160; 249; 52; 247;
  241; 98; 106; 169; 98; 240; 221; 7; 222; 207; 208; 89; 111; 209; 100; 224; 101; 159; 239;
  220; 99; 114; 197; 199; 201; 202; 210; 212; 215; 216; 217; 218; 219; 91; 92; 198; 200;
  203; 204; 206; 213; 214; 2; 3; 4; 5; 76; 77; 96; 244; 102; 191; 167; 66; 97; 190; 29; 86;
  87; 136; 73; 89; 90; 107; 146; 140; 143; 138; 189; 139; 72; 142; 44; 106; 238; 248; 157;
  75; 67; 104; 170; 135; 158; 91; 141; 175; 176; 177; 178; 179; 180; 181; 182; 183; 184;
  185; 186; 187; 188; 119; 120; 121; 122; 123; 124; 125; 126; 127; 128; 129; 130; 131; 132;
  30; 150; 196; 162; 152; 1; 149; 137; 223; 10; 164; 236; 205; 43; 135; 167; 211; 148; 110;
  68; 193; 228; 42; 109; 168; 229; 230; 231; 232; 235; 153; 155; 207; 208; 108; 51; 209;
  41; 9; 9; 169; 154; 156; 40; 237; 197; 199; 201; 202; 210; 212; 215; 216; 217; 218; 219;
  117; 39; 198; 200; 203; 204; 206; 213; 214; 46; 66; 73; 48; 21; 47; 38; 37; 145; 242;
  134; 49; 72; 245; 64; 8; 115; 135; 70; 31; 17; 18; 144; 36; 19; 116; 35; 250; 34; 163;
  65; 74; 251; 53; 54; 55; 56; 57; 58; 59; 60; 61; 62; 63; 161; 192; 69; 13; 50; 195; 32;
  23; 46; 66; 151; 48; 21; 47; 45; 103; 0; 0; 0; 49; 0; 0; 64; 0; 0; 0; 0; 0; 17; 18; 0; 0;
  19; 0; 0; 0; 0; 0; 65; 0; 0; 53; 54; 55; 56; 57; 58; 59; 60; 61; 62; 63; 0; 46; 66; 13;
  48; 21; 47; 23; 0; 0; 0; 0; 49; 0; 0; 64; 0; 0; 0; 0; 0; 17; 18; 0; 0; 19; 16; 66; 0; 0;
  21; 65; 0; 0; 53; 54; 55; 56; 57; 58; 59; 60; 61; 62; 63; 0; 17; 18; 13; 0; 19; 0; 23; 0;
  16; 29; 0; 92; 21; 11; 12; 14; 15; 20; 22; 24; 25; 26; 27; 28; 77; 0; 0; 13; 17; 18; 0;
  23; 19; 0; 86; 87; 0; 0; 89; 0; 0; 11; 12; 14; 15; 20; 22; 24; 25; 26; 27; 28; 92; 0; 0;
  13; 0; 0; 147; 23; 91; 0; 0; 0; 76; 77; 78; 0; 79; 80; 81; 82; 83; 84; 85; 86; 87; 88; 0;
  89; 90; 0; 0; 0; 0; 0; 92; 0; 0; 0; 0; 0; 0; 0; 0; 0; 0; 0; 76; 77; 78; 91; 79; 80; 81;
  82; 83; 84; 85; 86; 87; 88; 0; 89; 90; 0; 92; 0; 0; 0; 0; 0; 0; 0; 0; 0; 0; 0; 76; 77;
  78; 0; 79; 80; 81; 91; 83; 84; 85; 86; 87; 88; 0; 89; 90; 0; 92; 0; 0; 0; 0; 0; 0; 0; 0;
  0; 0; 0; 76; 77; 78; 0; 79; 80; 0; 91; 83; 84; 0; 86; 87; 88; 0; 89; 90; 0; 0; 0; 0; 0;
  0; 0; 0; 0; 0; 0; 0; 0; 0; 0; 0; 0; 0; 0; 0; 91]%Z.

Definition yyPact : list Z := [
  11; 34; 353; 353; 255; 325; (-1000); (-1000); (-1000); 80; (-1000); (-1000); (-1000);
  (-1000); (-1000); (-1000); (-1000); (-1000); (-1000); (-1000); (-1000); (-1000); (-1000);
  (-1000); (-1000); (-1000); (-1000); (-1000); (-1000); 215; (-1000); 112; (-1000); 429;
  (-1000); (-1000); (-1000); (-1000); (-1000); (-1000); (-1000); (-1000); (-1000); (-1000);
  (-1000); 26; 23; (-1000); 300; (-1000); 300; 77; (-1000); (-1000); (-1000); (-1000);
  (-1000); (-1000); (-1000); (-1000); (-1000); (-1000); (-1000); (-1000); (-1000); (-1000);
  98; (-1000); (-1000); 166; (-1000); (-1000); 21; (-1000); 10; (-1000); (-38); (-38);
  (-38); (-38); (-38); (-38); (-38); (-38); (-38); (-38); (-38); (-38); (-38); (-38);
  (-38); 223; 155; 23; (-47); (-1000); 106; 106; 203; (-1000); 395; 7; (-1000); 149;
  (-1000); (-1000); 152; (-1000); (-1000); 95; (-1000); 31; (-1000); 148; 300; (-1000);
  (-45); (-46); (-1000); 300; 300; 300; 300; 300; 300; 300; 300; 300; 300; 300; 300; 300;
  300; (-1000); (-1000); (-1000); 86; (-1000); (-1000); (-1000); (-1000); 150; (-1000);
  (-1000); 36; (-1000); 429; (-1000); (-1000); 27; (-1000); 29; (-1000); (-1000); (-1000);
  (-1000); (-1000); (-1000); (-1000); (-1000); (-1000); (-1000); 3; (-2); (-1000); (-1000);
  (-1000); (-1000); 72; 72; 354; 106; 106; 106; 106; 7; 57; 57; 57; 489; 459; 57; 57; 489;
  7; 7; 57; 7; 354; (-1000); 109; (-1000); 35; (-1000); (-1000); (-1000); (-1000); (-1000);
  (-1000); (-1000); (-1000); (-1000); (-1000); (-1000); (-1000); (-1000); (-1000); (-1000);
  (-1000); (-1000); (-1000); (-1000); (-1000); (-1000); (-1000); (-1000); (-1000); (-1000);
  (-1000); (-1000); (-1000); 300; (-1000); (-1000); (-1000); (-1000); 69; 69; 1; (-1000);
  (-1000); (-1000); (-1000); (-1000); (-1000); (-1000); 17; 110; (-1000); (-1000); 14;
  (-1000); 429; (-1000); (-1000); (-1000); 69; (-1000); (-1000); (-1000); (-1000); (-1000)]%Z.

Definition yyPgo : list Z := [
  0; 274; 8; 273; 1; 269; 264; 185; 263; 159; 261; 230; 9; 260; 5; 4; 259; 246; 0; 6; 244;
  7; 243; 11; 58; 241; 240; 2; 238; 237; 10; 231; 35; 222; 221; 207; 206; 193; 187; 172;
  163; 109; 3; 161; 155; 150]%Z.

Definition yyR1 : list Z := [
  0; 44; 44; 44; 44; 44; 44; 44; 27; 27; 27; 27; 27; 27; 27; 27; 27; 27; 27; 22; 22; 22;
  22; 23; 23; 25; 25; 25; 25; 25; 25; 25; 25; 25; 25; 25; 25; 25; 25; 25; 24; 26; 26; 36;
  36; 31; 31; 31; 31; 14; 14; 14; 14; 13; 13; 13; 4; 4; 28; 30; 30; 29; 29; 29; 37; 35; 35;
  33; 39; 39; 39; 39; 39; 40; 41; 41; 41; 32; 32; 32; 1; 1; 1; 2; 2; 2; 2; 11; 11; 7; 7; 7;
  7; 7; 7; 7; 7; 7; 7; 7; 7; 7; 7; 7; 7; 7; 7; 9; 9; 9; 9; 10; 10; 10; 12; 12; 12; 12; 45;
  17; 17; 17; 17; 16; 16; 16; 16; 16; 20; 20; 20; 3; 3; 3; 3; 3; 3; 3; 3; 3; 3; 3; 6; 6; 6;
  6; 6; 6; 6; 6; 6; 6; 6; 6; 6; 6; 6; 6; 6; 6; 6; 6; 6; 6; 6; 8; 8; 5; 5; 5; 5; 34; 19; 21;
  21; 18; 42; 38; 43; 43; 15; 15]%Z.

Definition yyR2 : list Z := [
  0; 2; 2; 2; 2; 2; 2; 1; 1; 1; 1; 1; 1; 1; 1; 1; 1; 1; 1; 3; 3; 2; 2; 2; 2; 4; 4; 4; 4; 4;
  4; 4; 4; 4; 4; 4; 4; 4; 4; 4; 1; 0; 1; 3; 3; 1; 1; 3; 3; 3; 4; 2; 1; 3; 1; 2; 1; 1; 2; 3;
  2; 3; 1; 2; 3; 3; 3; 4; 6; 6; 5; 4; 3; 2; 2; 1; 1; 3; 4; 2; 3; 1; 2; 3; 3; 2; 1; 2; 1; 1;
  1; 1; 1; 1; 1; 1; 1; 1; 1; 1; 1; 1; 1; 1; 1; 1; 1; 3; 4; 2; 0; 3; 1; 2; 3; 3; 2; 1; 2; 0;
  3; 2; 1; 1; 3; 1; 3; 4; 1; 1; 1; 1; 1; 1; 1; 1; 1; 1; 1; 1; 1; 1; 1; 1; 1; 1; 1; 1; 1; 1;
  1; 1; 1; 1; 1; 1; 1; 1; 1; 1; 1; 1; 1; 1; 1; 1; 1; 1; 1; 1; 1; 1; 1; 2; 2; 1; 1; 1; 0; 1;
  0; 1]%Z.

Definition yyChk : list Z := [
  (-1000); (-44); 68; 69; 70; 71; 2; 10; (-11); (-7); (-9); 45; 46; 59; 47; 48; 12; 32; 33;
  36; 49; 16; 50; 63; 51; 52; 53; 54; 55; 13; (-45); (-11); 10; (-27); (-22); (-25); (-28);
  (-33); (-34); (-35); (-37); (-38); (-39); (-40); (-41); (-3); 12; 17; 15; 23; (-8); (-7);
  (-32); 45; 46; 47; 48; 49; 50; 51; 52; 53; 54; 55; 26; 42; 13; (-41); (-9); (-10); 18;
  (-12); 12; 2; (-17); 2; 26; 27; 28; 30; 31; 32; 33; 34; 35; 36; 37; 38; 39; 41; 42; 63;
  14; (-23); (-30); 2; 59; 65; 15; (-30); (-27); (-27); (-32); (-1); 18; (-2); 12; 2; 18;
  7; 2; 28; 2; 22; (-24); (-31); (-26); (-36); 58; (-24); (-24); (-24); (-24); (-24);
  (-24); (-24); (-24); (-24); (-24); (-24); (-24); (-24); (-24); (-42); 2; 9; (-42); 2;
  (-30); (-23); (-14); 15; 2; (-14); (-29); 20; (-27); 20; 18; 7; 2; (-5); 2; 28; 39; 29;
  40; 18; (-12); 23; 2; (-16); 5; (-20); 12; (-19); (-21); 17; 26; 42; (-27); 62; 64; 60;
  61; (-27); (-27); (-27); (-27); (-27); (-27); (-27); (-27); (-27); (-27); (-27); (-27);
  (-27); (-27); 19; 6; 2; (-13); 20; (-4); (-6); 2; 45; 58; 46; 59; 47; 48; 60; 61; 12; 62;
  32; 33; 36; 49; 16; 50; 63; 64; 51; 52; 53; 54; 55; 20; 7; 18; (-2); 23; 2; 24; 24;
  (-21); (-19); (-19); (-14); (-14); (-15); (-14); (-15); (-43); (-42); 2; 20; 7; 2; (-27);
  (-18); 17; (-18); 24; 19; 2; 20; (-4); (-18)]%Z.

Definition yyDef : list Z := [
  0; (-2); 110; 110; 0; 0; 7; 6; 1; 110; 88; 89; 90; 91; 92; 93; 94; 95; 96; 97; 98; 99;
  100; 101; 102; 103; 104; 105; 106; 0; 2; (-2); 3; 4; 8; 9; 10; 11; 12; 13; 14; 15; 16;
  17; 18; 0; 94; 171; 0; 177; 0; 75; 76; (-2); (-2); (-2); (-2); (-2); (-2); (-2); (-2);
  (-2); (-2); (-2); 165; 166; 0; 5; 87; 0; 109; 112; 0; 117; 118; 122; 41; 41; 41; 41; 41;
  41; 41; 41; 41; 41; 41; 41; 41; 41; 41; 0; 0; 0; 21; 22; 0; 0; 0; 58; 0; 73; 74; 0; 79;
  81; 0; 86; 107; 0; 113; 0; 116; 121; 0; 40; 45; 46; 42; 0; 0; 0; 0; 0; 0; 0; 0; 0; 0; 0;
  0; 0; 0; 65; 66; 176; 0; 72; 19; 20; 23; 0; 52; 24; 0; 60; 62; 64; 77; 0; 82; 0; 85; 167;
  168; 169; 170; 108; 111; 114; 115; 120; 123; 125; 128; 129; 130; 172; 0; 0; 25; 0; 0;
  (-2); (-2); 26; 27; 28; 29; 30; 31; 32; 33; 34; 35; 36; 37; 38; 39; 67; (-2); 71; 0; 51;
  54; 56; 57; 142; 143; 144; 145; 146; 147; 148; 149; 150; 151; 152; 153; 154; 155; 156;
  157; 158; 159; 160; 161; 162; 163; 164; 59; 63; 78; 80; 83; 84; 0; 0; 0; 173; 174; 43;
  44; 47; 181; 48; 0; (-2); 70; 49; 0; 55; 61; 124; 175; 126; 0; 68; 69; 50; 53; 127]%Z.

(** ** functions.go *)
Definition Functions : list Function_ := [
   MkFunction "abs" [ValueTypeVector] 0 ValueTypeVector;
   MkFunction "absent" [ValueTypeVector] 0 ValueTypeVector;
   MkFunction "absent_over_time" [ValueTypeMatrix] 0 ValueTypeVector;
   MkFunction "avg_over_time" [ValueTypeMatrix] 0 ValueTypeVector;
   MkFunction "ceil" [ValueTypeVector] 0 ValueTypeVector;
   MkFunction "changes" [ValueTypeMatrix] 0 ValueTypeVector;
   MkFunction "clamp_max" [ValueTypeVector; ValueTypeScalar] 0 ValueTypeVector;
   MkFunction "clamp_min" [ValueTypeVector; ValueTypeScalar] 0 ValueTypeVector;
   MkFunction "count_over_time" [ValueTypeMatrix] 0 ValueTypeVector;
   MkFunction "days_in_month" [ValueTypeVector] 1 ValueTypeVector;
   MkFunction "day_of_month" [ValueTypeVector] 1 ValueTypeVector;
   MkFunction "day_of_week" [ValueTypeVector] 1 ValueTypeVector;
   MkFunction "delta" [ValueTypeMatrix] 0 ValueTypeVector;
   MkFunction "deriv" [ValueTypeMatrix] 0 ValueTypeVector;
   MkFunction "exp" [ValueTypeVector] 0 ValueTypeVector;
   MkFunction "floor" [ValueTypeVector] 0 ValueTypeVector;
   MkFunction "histogram_quantile" [ValueTypeScalar; ValueTypeVector] 0 ValueTypeVector;
   MkFunction "holt_winters" [ValueTypeMatrix; ValueTypeScalar; ValueTypeScalar] 0 ValueTypeVector;
   MkFunction "hour" [ValueTypeVector] 1 ValueTypeVector;
   MkFunction "idelta" [ValueTypeMatrix] 0 ValueTypeVector;
   MkFunction "increase" [ValueTypeMatrix] 0 ValueTypeVector;
   MkFunction "irate" [ValueTypeMatrix] 0 ValueTypeVector;
   MkFunction "label_replace" [ValueTypeVector; ValueTypeString; ValueTypeString; ValueTypeString; ValueTypeString] 0 ValueTypeVector;
   MkFunction "label_join" [ValueTypeVector; ValueTypeString; ValueTypeString; ValueTypeString] (-1) ValueTypeVector;
   MkFunction "ln" [ValueTypeVector] 0 ValueTypeVector;
   MkFunction "log10" [ValueTypeVector] 0 ValueTypeVector;
   MkFunction "log2" [ValueTypeVector] 0 ValueTypeVector;
   MkFunction "max_over_time" [ValueTypeMatrix] 0 ValueTypeVector;
   MkFunction "min_over_time" [ValueTypeMatrix] 0 ValueTypeVector;
   MkFunction "minute" [ValueTypeVector] 1 ValueTypeVector;
   MkFunction "month" [ValueTypeVector] 1 ValueTypeVector;
   MkFunction "predict_linear" [ValueTypeMatrix; ValueTypeScalar] 0 ValueTypeVector;
   MkFunction "quantile_over_time" [ValueTypeScalar; ValueTypeMatrix] 0 ValueTypeVector;
   MkFunction "rate" [ValueTypeMatrix] 0 ValueTypeVector;
   MkFunction "resets" [ValueTypeMatrix] 0 ValueTypeVector;
   MkFunction "round" [ValueTypeVector; ValueTypeScalar] 1 ValueTypeVector;
   MkFunction "scalar" [ValueTypeVector] 0 ValueTypeScalar;
   MkFunction "sort" [ValueTypeVector] 0 ValueTypeVector;
   MkFunction "sort_desc" [ValueTypeVector] 0 ValueTypeVector;
   MkFunction "sqrt" [ValueTypeVector] 0 ValueTypeVector;
   MkFunction "stddev_over_time" [ValueTypeMatrix] 0 ValueTypeVector;
   MkFunction "stdvar_over_time" [ValueTypeMatrix] 0 ValueTypeVector;
   MkFunction "sum_over_time" [ValueTypeMatrix] 0 ValueTypeVector;
   MkFunction "time" [] 0 ValueTypeScalar;
   MkFunction "timestamp" [ValueTypeVector] 0 ValueTypeVector;
   MkFunction "vector" [ValueTypeScalar] 0 ValueTypeVector;
   MkFunction "year" [ValueTypeVector] 1 ValueTypeVector].

(** [getFunction(name)]. *)
Definition getFunction (name : string) : option Function_ :=
  List.find (λ f, String.eqb (Func_Name f) name) Functions.
