(* ===== verification/Parser.v ===== *)
(** * The parser of PromQL

    src/vendor/.../promql/parser: parse.go, the semantic actions and the
    driver of generated_parser.y.go, and the positions of ast.go.

    The nodes of the parser ([node]) carry what [Promql.Expr] leaves out:
    source positions, and the nil fields of a node that is still being
    built or belongs to an input with errors; [to_Expr] forgets them.  A
    node is referenced by one live value of the parser stack, so that the
    updates in place of the actions give a new node.  A run-time error in
    the parser is the panic of the state monad [P]: [ParseExpr] recovers
    it.  The parser is a fresh one: what the pool leaves in a reused parser
    is overwritten before it is read. *)
From S2P Require Import Prelude GoStrings GoFloat Regexp Matchers Promql Errors.
From S2P Require Import GoTime Strutil Lexer ParserTables.
From Stdlib Require Import SpecFloat.
From stdpp Require Import options.

Record PositionRange := MkRange { Start : Z; End_ : Z }.
Definition mergeRanges (first last : PositionRange) : PositionRange :=
  MkRange (Start first) (End_ last).
Definition Item_range (i : Item) : PositionRange :=
  MkRange (Pos i) (Pos i + Z.of_nat (String.length (Val i))).

Record ParseErr := MkParseErr { Err_range : PositionRange; Err_text : string }.

(** [DocumentedType]. *)
Definition DocumentedType (t : ValueType) : string :=
  match t with
  | ValueTypeVector => "instant vector"
  | ValueTypeMatrix => "range vector"
  | t => ValueType_text t
  end.

(** The operator a tree keeps. *)
Definition item_type (i : Z) : ItemType :=
  match map_get i
    [(SUB, Promql.SUB); (ADD, Promql.ADD); (MUL, Promql.MUL); (MOD, Promql.MOD);
     (DIV, Promql.DIV); (POW, Promql.POW); (EQL, Promql.EQL); (NEQ, Promql.NEQ);
     (LTE, Promql.LTE); (LSS, Promql.LSS); (GTE, Promql.GTE); (GTR, Promql.GTR);
     (EQL_REGEX, Promql.EQL_REGEX); (NEQ_REGEX, Promql.NEQ_REGEX);
     (LAND, Promql.LAND); (LOR, Promql.LOR); (LUNLESS, Promql.LUNLESS);
     (SUM, Promql.SUM); (AVG, Promql.AVG); (COUNT, Promql.COUNT); (MIN, Promql.MIN);
     (MAX, Promql.MAX); (STDDEV, Promql.STDDEV); (STDVAR, Promql.STDVAR);
     (TOPK, Promql.TOPK); (BOTTOMK, Promql.BOTTOMK);
     (COUNT_VALUES, Promql.COUNT_VALUES); (QUANTILE, Promql.QUANTILE)] with
  | Some t => t
  | None => ItemOther i
  end.

Definition nil_dereference : string :=
  "runtime error: invalid memory address or nil pointer dereference".
Definition bad_assertion : string := "interface conversion".
Definition bad_index : string := "runtime error: index out of range".

(** A pointer that is read. *)
Definition deref {A} (p : option A) : go A :=
  match p with Some a => Done a | None => Panic nil_dereference end.

Section Parser.
Context `{RE : RegexpEngine, !UnicodeTable}.

(** ** Nodes *)
Inductive node :=
| Expressions_ (l : list node)
| NAggregateExpr (Op : Z) (Expr_ Param : option node) (Grouping : list string)
    (Without : bool) (PosRange : PositionRange)
| NBinaryExpr (Op : Z) (LHS RHS : option node) (VM : option VectorMatching) (ReturnBool : bool)
| NCall (Func : option Function_) (Args : list node) (PosRange : PositionRange)
| NMatrixSelector (VS : node) (Range EndPos : Z)
| NSubqueryExpr (Expr_ : node) (Range Offset Step EndPos : Z)
| NNumberLiteral (Val : float64) (PosRange : PositionRange)
| NParenExpr (Expr_ : node) (PosRange : PositionRange)
| NStringLiteral (Val : string) (PosRange : PositionRange)
| NUnaryExpr (Op : Z) (Expr_ : node) (StartPos : Z)
| NVectorSelector (Name : string) (Offset : Z) (LabelMatchers : list (option Labels.Matcher))
    (PosRange : PositionRange).

(** The tree of a node without nil fields. *)
Fixpoint to_Expr (n : node) : option Expr :=
  let to_opt n := match n with
                  | Some n => e ← to_Expr n; Some (Some e)
                  | None => Some None
                  end in
  match n with
  | Expressions_ _ => None
  | NAggregateExpr op e p g w _ =>
      e ← to_opt e; p ← to_opt p; Some (AggregateExpr (item_type op) e p g w)
  | NBinaryExpr op (Some l) (Some r) vm b =>
      l ← to_Expr l; r ← to_Expr r; Some (BinaryExpr (item_type op) l r vm b)
  | NBinaryExpr _ _ _ _ _ => None
  | NCall None _ _ => None
  | NCall (Some f) args _ =>
      let all := (fix all (l : list node) : option (list Expr) :=
        match l with
        | [] => Some []
        | n :: l => e ← to_Expr n; es ← all l; Some (e :: es)
        end) in
      es ← all args; Some (Call f es)
  | NMatrixSelector vs r _ => e ← to_Expr vs; Some (MatrixSelector e r)
  | NSubqueryExpr n r o s _ => e ← to_Expr n; Some (SubqueryExpr e r o s)
  | NNumberLiteral v _ => Some (NumberLiteral v)
  | NParenExpr n _ => ParenExpr <$> to_Expr n
  | NStringLiteral s _ => Some (StringLiteral s)
  | NUnaryExpr op n _ => UnaryExpr (item_type op) <$> to_Expr n
  | NVectorSelector name o ms _ => VectorSelector name o <$> mapM id ms
  end.

(** [PositionRange()] of each node. *)
Fixpoint node_range (n : node) : go PositionRange :=
  match n with
  | Expressions_ l =>
      match l with
      | [] => Done (MkRange (-1) (-1))
      | first :: _ =>
          first ← node_range first;
          last ← (fix last_range (l : list node) : go PositionRange :=
            match l with
            | [] => Panic bad_index
            | [n] => node_range n
            | _ :: l => last_range l
            end) l;
          Done (mergeRanges first last)
      end
  | NAggregateExpr _ _ _ _ _ r | NCall _ _ r | NNumberLiteral _ r | NParenExpr _ r
  | NStringLiteral _ r | NVectorSelector _ _ _ r => Done r
  | NBinaryExpr _ (Some l) (Some r) _ _ =>
      l ← node_range l; r ← node_range r; Done (mergeRanges l r)
  | NBinaryExpr _ _ _ _ _ => Panic nil_dereference
  | NMatrixSelector n _ e | NSubqueryExpr n _ _ _ e =>
      r ← node_range n; Done (MkRange (Start r) e)
  | NUnaryExpr _ n s => r ← node_range n; Done (MkRange s (End_ r))
  end.

(** [Type()] of an expression node. *)
Fixpoint node_Type (n : node) : go ValueType :=
  match n with
  | Expressions_ _ => Panic bad_assertion
  | NAggregateExpr _ _ _ _ _ _ | NVectorSelector _ _ _ _ => Done ValueTypeVector
  | NCall f _ _ => f ← deref f; Done (ReturnType f)
  | NMatrixSelector _ _ _ | NSubqueryExpr _ _ _ _ _ => Done ValueTypeMatrix
  | NNumberLiteral _ _ => Done ValueTypeScalar
  | NStringLiteral _ _ => Done ValueTypeString
  | NParenExpr n _ | NUnaryExpr _ n _ => node_Type n
  | NBinaryExpr _ (Some l) (Some r) _ _ =>
      lt ← node_Type l;
      if bool_decide (lt = ValueTypeScalar) then
        rt ← node_Type r;
        Done (if bool_decide (rt = ValueTypeScalar) then ValueTypeScalar else ValueTypeVector)
      else Done ValueTypeVector
  | NBinaryExpr _ _ _ _ _ => Panic nil_dereference
  end.

(** The verb [%T]. *)
Definition node_kind (n : node) : string :=
  match n with
  | Expressions_ _ => "parser.Expressions"
  | NAggregateExpr _ _ _ _ _ _ => "*parser.AggregateExpr"
  | NBinaryExpr _ _ _ _ _ => "*parser.BinaryExpr"
  | NCall _ _ _ => "*parser.Call"
  | NMatrixSelector _ _ _ => "*parser.MatrixSelector"
  | NSubqueryExpr _ _ _ _ _ => "*parser.SubqueryExpr"
  | NNumberLiteral _ _ => "*parser.NumberLiteral"
  | NParenExpr _ _ => "*parser.ParenExpr"
  | NStringLiteral _ _ => "*parser.StringLiteral"
  | NUnaryExpr _ _ _ => "*parser.UnaryExpr"
  | NVectorSelector _ _ _ _ => "*parser.VectorSelector"
  end.

(** [node.(Expr)]: every node but a list and nil. *)
Definition as_Expr (n : option node) : go node :=
  match n with
  | Some (Expressions_ _) | None => Panic bad_assertion
  | Some n => Done n
  end.
Definition as_Expressions (n : option node) : go (list node) :=
  match n with Some (Expressions_ l) => Done l | _ => Panic bad_assertion end.

(** ** The values of the stack

    The fields of the symbols of the testing language are left out. *)
Record yySymType := MkSym {
  yys : Z;
  node_ : option node;
  item : Item;
  matchers : option (list (option Labels.Matcher));
  matcher : option Labels.Matcher;
  strings : list string;
  duration : Z;
}.
Definition zero_sym : yySymType := MkSym 0 None zero_item None None [] 0.
Definition with_yys (q : Z) (v : yySymType) : yySymType :=
  MkSym q (node_ v) (item v) (matchers v) (matcher v) (strings v) (duration v).
Definition set_node (n : option node) (v : yySymType) : yySymType :=
  MkSym (yys v) n (item v) (matchers v) (matcher v) (strings v) (duration v).
Definition with_node (n : node) : yySymType → yySymType := set_node (Some n).
Definition with_item (i : Item) (v : yySymType) : yySymType :=
  MkSym (yys v) (node_ v) i (matchers v) (matcher v) (strings v) (duration v).
Definition with_matchers (ms : option (list (option Labels.Matcher))) (v : yySymType) : yySymType :=
  MkSym (yys v) (node_ v) (item v) ms (matcher v) (strings v) (duration v).
Definition with_matcher (m : option Labels.Matcher) (v : yySymType) : yySymType :=
  MkSym (yys v) (node_ v) (item v) (matchers v) m (strings v) (duration v).
Definition with_strings (l : list string) (v : yySymType) : yySymType :=
  MkSym (yys v) (node_ v) (item v) (matchers v) (matcher v) l (duration v).
Definition with_duration (d : Z) (v : yySymType) : yySymType :=
  MkSym (yys v) (node_ v) (item v) (matchers v) (matcher v) (strings v) d.

(** ** The parser and its monad

    The lexer writes its items into [lval.item]: the current item is
    [itemp] of the lexer. *)
Record parser := MkParser {
  lex : Lexer;
  inject : Z;
  injecting : bool;
  lastClosing : Z;
  generatedParserResult : option node;
  parseErrors : list ParseErr;
}.

Definition P (A : Type) : Type := parser → go (A * parser).
#[export] Instance P_ret : MRet P := λ A a p, Done (a, p).
#[export] Instance P_bind : MBind P := λ A B f m p, '(a, p) ← m p; f a p.
Definition lift {A} (m : go A) : P A := λ p, a ← m; Done (a, p).
Definition get {A} (f : parser → A) : P A := λ p, Done (f p, p).

Definition set_result (n : option node) : P unit := λ p,
  Done (tt, MkParser (lex p) (inject p) (injecting p) (lastClosing p) n (parseErrors p)).
Definition addParseErr (r : PositionRange) (text : string) : P unit := λ p,
  Done (tt, MkParser (lex p) (inject p) (injecting p) (lastClosing p)
              (generatedParserResult p) (parseErrors p ++ [MkParseErr r text])).
Definition set_lex (l : Lexer) : P unit := λ p,
  Done (tt, MkParser l (inject p) (injecting p) (lastClosing p)
              (generatedParserResult p) (parseErrors p)).
Definition set_inject (typ : Z) (b : bool) : P unit := λ p,
  Done (tt, MkParser (lex p) typ b (lastClosing p) (generatedParserResult p) (parseErrors p)).
Definition set_lastClosing (z : Z) : P unit := λ p,
  Done (tt, MkParser (lex p) (inject p) (injecting p) z (generatedParserResult p) (parseErrors p)).

(** [p.yyParser.lval.item]. *)
Definition current : P Item := get (λ p, itemp (lex p)).

(** [if cond { p.addParseErrf(range, text) }], the range computed on
    demand. *)
Definition error_if (cond : bool) (r : go PositionRange) (text : string) : P unit :=
  if cond then r ← lift r; addParseErr r text else mret tt.

Definition unexpected (context expected : string) : P unit :=
  i ← current;
  if bool_decide (Typ i = ERROR) then mret tt
  else addParseErr (Item_range i)
    ("unexpected " +:+ Item_desc i +:+
     (if bool_decide (context ≠ EmptyString) then " in " +:+ context else EmptyString) +:+
     (if bool_decide (expected ≠ EmptyString) then ", expected " +:+ expected else EmptyString)).

(** ** Helpers of the actions *)
Definition newBinaryExpression (lhs : option node) (op : Item) (modifiers rhs : option node)
    : go node :=
  match modifiers with
  | Some (NBinaryExpr _ _ _ vm b) =>
      l ← as_Expr lhs; r ← as_Expr rhs; Done (NBinaryExpr (Typ op) (Some l) (Some r) vm b)
  | _ => Panic bad_assertion
  end.

Definition assembleVectorSelector (name : string) (ms : list (option Labels.Matcher))
    : go (list (option Labels.Matcher)) :=
  if bool_decide (name ≠ EmptyString) then
    match Labels.NewMatcher Labels.MatchEqual Labels.MetricName name with
    | Ok m => Done (ms ++ [Some m])
    | Error err => Panic err
    end
  else Done ms.

Definition newAggregateExpr (op : Item) (modifier args : option node) : P node :=
  match modifier with
  | Some (NAggregateExpr _ e p g w _) =>
      arguments ← lift (as_Expressions args);
      closing ← get lastClosing;
      let r := MkRange (Pos op) closing in
      match arguments with
      | [] =>
          addParseErr r "no arguments for aggregate expression provided";;
          mret (NAggregateExpr (Typ op) e p g w r)
      | first :: _ =>
          let param := IsAggregatorWithParam (Typ op) in
          let desiredArgs := if param then 2 else 1 in
          let p := if param then Some first else p in
          if bool_decide (length arguments ≠ desiredArgs) then
            addParseErr r ("wrong number of arguments for aggregate expression provided, expected "
              +:+ format_Z (Z.of_nat desiredArgs) +:+ ", got "
              +:+ format_Z (Z.of_nat (length arguments)));;
            mret (NAggregateExpr (Typ op) e p g w r)
          else mret (NAggregateExpr (Typ op) (arguments !! (desiredArgs - 1)) p g w r)
      end
  | _ => lift (Panic bad_assertion)
  end.

Definition number (val : string) : P float64 :=
  match ParseInt val with
  | Some n => mret (of_Z n)
  | None =>
      match ParseFloat val with
      | Ok f => mret f
      | Error err =>
          i ← current;
          addParseErr (Item_range i) ("error parsing number: strconv.ParseFloat: parsing " +:+
            Quote val +:+ ": " +:+ num_error_text err);;
          mret (match err with ErrRange => S754_infinity false | ErrSyntax => S754_zero false end)
      end
  end.

Definition unquoteString (s : string) : P string :=
  match Unquote s with
  | Some t => mret t
  | None =>
      i ← current;
      addParseErr (Item_range i) ("error unquoting string " +:+ Quote s +:+ ": invalid syntax");;
      mret EmptyString
  end.

Definition parseDuration (ds : string) : result string Z :=
  match ParseDuration ds with
  | None => Error ("not a valid duration string: " +:+ Quote ds)
  | Some dur => if bool_decide (dur = 0)%Z then Error "duration must be greater than 0" else Ok dur
  end.

Definition match_type (op : Z) : option Labels.MatchType :=
  map_get op [(EQL, Labels.MatchEqual); (NEQ, Labels.MatchNotEqual);
              (EQL_REGEX, Labels.MatchRegexp); (NEQ_REGEX, Labels.MatchNotRegexp)].

Definition newLabelMatcher (label operator value : Item) : P (option Labels.Matcher) :=
  val ← unquoteString (Val value);
  match match_type (Typ operator) with
  | None => lift (Panic "invalid operator")
  | Some t =>
      match Labels.NewMatcher t (Val label) val with
      | Ok m => mret (Some m)
      | Error err => addParseErr (mergeRanges (Item_range label) (Item_range value)) err;; mret None
      end
  end.

(** [addOffset(e, offset)]: the node it leaves. *)
Definition addOffset (e : option node) (offset : Z) : P (option node) :=
  closing ← get lastClosing;
  let twice old n :=
    r ← lift (node_range n);
    error_if (bool_decide (old ≠ 0)%Z) (Done r) "offset may not be set multiple times" in
  let chosen old := if bool_decide (old ≠ 0)%Z then old else offset in
  match e with
  | None => lift (Panic nil_dereference)
  | Some (NVectorSelector name old ms r as n) =>
      twice old n;;
      mret (Some (NVectorSelector name (chosen old) ms (MkRange (Start r) closing)))
  | Some (NMatrixSelector (NVectorSelector name old ms r) range _ as n) =>
      twice old n;;
      mret (Some (NMatrixSelector (NVectorSelector name (chosen old) ms r) range closing))
  | Some (NMatrixSelector _ _ _) => lift (Panic nil_dereference)
  | Some (NSubqueryExpr n range old step _ as s) =>
      twice old s;; mret (Some (NSubqueryExpr n range (chosen old) step closing))
  | Some n =>
      r ← lift (node_range n);
      addParseErr r ("offset modifier must be preceded by an instant or range selector, " +:+
        "but follows a " +:+ node_kind n +:+ " instead");;
      mret (Some n)
  end.

(** ** checkAST *)
Definition byte_at (s : string) (i : Z) : go Z :=
  if bool_decide (0 ≤ i)%Z then
    match String.get (Z.to_nat i) s with
    | Some c => Done (rune c)
    | None => Panic bad_index
    end
  else Panic bad_index.

(** The loops of [opRange], which step by [d] over spaces; out of fuel they
    are out of the input. *)
Fixpoint skip_space (fuel : nat) (s : string) (d i : Z) : go Z :=
  match fuel with
  | O => Panic bad_index
  | S fuel => c ← byte_at s i;
              if isSpace c then skip_space fuel s d (i + d)%Z else Done i
  end.
Definition opRange (query : string) (l r : node) : go PositionRange :=
  lr ← node_range l;
  start ← skip_space (S (String.length query)) query 1 (End_ lr);
  rr ← node_range r;
  end_ ← skip_space (S (String.length query)) query (-1) (Start rr - 1);
  Done (MkRange start end_).

Definition String_node (n : node) : go string :=
  match to_Expr n with Some e => Promql.String_ e | None => Panic nil_dereference end.

(** A loop over a list for its errors. *)
Definition for_each {A} (f : A → P unit) (l : list A) : P unit :=
  foldr (λ a rest, f a;; rest) (mret tt) l.

Definition set_card (c : VectorMatchCardinality) (vm : VectorMatching) : VectorMatching :=
  MkVectorMatching c (MatchingLabels vm) (On vm) (Include vm).
Definition is_one_to_one (c : VectorMatchCardinality) : bool :=
  match c with CardOneToOne => true | _ => false end.
Definition is_many_to_many (c : VectorMatchCardinality) : bool :=
  match c with CardManyToMany => true | _ => false end.
Definition is_grouped (c : VectorMatchCardinality) : bool :=
  match c with CardOneToMany | CardManyToOne => true | _ => false end.
Definition scalar_or_vector (t : ValueType) : bool :=
  bool_decide (t = ValueTypeScalar) || bool_decide (t = ValueTypeVector).

(** The checks of a binary expression whose operands, of the types [lt]
    and [rt], are checked; [n] is the node. *)
Definition check_binary (op : Z) (l r : node) (lt rt : ValueType) (vm : option VectorMatching)
    (returnBool : bool) : P node :=
  let n vm := NBinaryExpr op (Some l) (Some r) vm returnBool in
  query ← get (λ p, input (lex p));
  let range := opRange query l r in
  error_if (returnBool && negb (IsComparisonOperator op)) range
    "bool modifier can only be used on comparison operators";;
  rscalar ← (if IsComparisonOperator op && negb returnBool then lift (node_Type r)
             else mret ValueTypeNone);
  lscalar ← (if bool_decide (rscalar = ValueTypeScalar) then lift (node_Type l)
             else mret ValueTypeNone);
  error_if (bool_decide (lscalar = ValueTypeScalar)) range
    "comparisons between scalars must use BOOL modifier";;
  vm ← lift (deref vm);
  let vm := if IsSetOperator op && is_one_to_one (Card vm) then set_card CardManyToMany vm else vm in
  for_each (λ l1, for_each (λ l2,
      error_if (bool_decide (l1 = l2) && On vm) range
        ("label " +:+ Quote l1 +:+ " must not occur in ON and GROUP clause at once"))
    (Include vm)) (MatchingLabels vm);;
  let whole := node_range (n None) in
  error_if (negb (IsOperator op)) whole
    ("binary expression does not support operator " +:+ Quote (Typ_String op));;
  let operands := "binary expression must contain only scalar and instant vector types" in
  error_if (negb (scalar_or_vector lt)) (node_range l) operands;;
  error_if (negb (scalar_or_vector rt)) (node_range r) operands;;
  vm ← (if negb (bool_decide (lt = ValueTypeVector)) || negb (bool_decide (rt = ValueTypeVector))
        then error_if (bool_decide (MatchingLabels vm ≠ [])) whole
               "vector matching only allowed between instant vectors";;
             mret None
        else error_if (IsSetOperator op && is_grouped (Card vm)) whole
               ("no grouping allowed for " +:+ Quote (Typ_String op) +:+ " operation");;
             error_if (IsSetOperator op && negb (is_many_to_many (Card vm))) whole
               "set operations must always be many-to-many";;
             mret (Some vm));
  error_if ((bool_decide (lt = ValueTypeScalar) || bool_decide (rt = ValueTypeScalar))
            && IsSetOperator op) whole
    ("set operator " +:+ Quote (Typ_String op) +:+ " not allowed in binary scalar expression");;
  mret (n vm).

(** The number of the arguments of a call. *)
Definition check_arity (f : Function_) (nargs_given : nat) (r : PositionRange) : P unit :=
  let given := Z.of_nat nargs_given in
  let nargs := Z.of_nat (length (ArgTypes f)) in
  let message what n := ("expected " +:+ what +:+ format_Z n +:+ " argument(s) in call to "
                         +:+ Quote (Func_Name f) +:+ ", got " +:+ format_Z given) in
  if bool_decide (Variadic f = 0)%Z then
    error_if (negb (bool_decide (nargs = given))) (Done r) (message EmptyString nargs)
  else
    let na := (nargs - 1)%Z in
    let nargsmax := (na + Variadic f)%Z in
    if bool_decide (given < na)%Z then addParseErr r (message "at least " na)
    else error_if (bool_decide (0 < Variadic f)%Z && bool_decide (nargsmax < given)%Z) (Done r)
           (message "at most " nargsmax).

(** The type the [i]-th argument must have; [Done None] ends the loop. *)
Definition arg_type (f : Function_) (i : nat) : go (option ValueType) :=
  match ArgTypes f !! i with
  | Some t => Done (Some t)
  | None => if bool_decide (Variadic f = 0)%Z then Done None
            else match last (ArgTypes f) with
                 | Some t => Done (Some t)
                 | None => Panic bad_index
                 end
  end.

Fixpoint not_empty (ms : list (option Labels.Matcher)) : go bool :=
  match ms with
  | [] => Done false
  | None :: ms => not_empty ms
  | Some m :: ms => b ← Labels.Matches m EmptyString;
                    if b : bool then not_empty ms else Done true
  end.

Definition check_selector (name : string) (ms : list (option Labels.Matcher)) (r : PositionRange)
    : P unit :=
  notEmpty ← lift (not_empty ms);
  error_if (negb notEmpty) (Done r) "vector selector must contain at least one non-empty matcher";;
  if bool_decide (name ≠ EmptyString) then
    match ms with
    | [] => lift (Panic "runtime error: slice bounds out of range")
    | _ =>
        for_each (λ m, match m with
                       | Some m =>
                           error_if (bool_decide (Labels.Name m = Labels.MetricName)) (Done r)
                             ("metric name must not be set twice: " +:+ Quote name +:+ " or " +:+
                              Quote (Labels.Value m))
                       | None => mret tt
                       end) (removelast ms)
    end
  else mret tt.

(** [expectType], given the check of the node. *)
Definition expect (want : ValueType) (context : string) (check : P (ValueType * node)) : P node :=
  '(t, n) ← check;
  error_if (negb (bool_decide (t = want))) (node_range n)
    ("expected type " +:+ DocumentedType want +:+ " in " +:+ context +:+ ", got " +:+
     DocumentedType t);;
  mret n.

(** [checkAST(node)]: the type and the node it leaves; vector matchings are
    changed in place. *)
Fixpoint checkAST (n : node) : P (ValueType * node) :=
  let check_opt n := match n with
                     | Some n => checkAST n
                     | None => lift (Panic nil_dereference)
                     end in
  typ ← match n with
        | Expressions_ _ => mret ValueTypeNone
        | _ => lift (node_Type n)
        end;
  n ← match n with
      | Expressions_ l =>
          l ← (fix check_all (l : list node) : P (list node) :=
                 match l with
                 | [] => mret []
                 | e :: l =>
                     '(t, e) ← checkAST e;
                     error_if (bool_decide (t = ValueTypeNone)) (node_range e)
                       "expression must have a valid expression type but got none";;
                     l ← check_all l; mret (e :: l)
                 end) l;
          mret (Expressions_ l)
      | NAggregateExpr op e p g w r =>
          error_if (negb (IsAggregator op)) (Done r)
            ("aggregation operator expected in aggregation expression but got " +:+
             Quote (Typ_String op));;
          e ← expect ValueTypeVector "aggregation expression" (check_opt e);
          p ← (if bool_decide (op ∈ [TOPK; BOTTOMK; QUANTILE]) then
                 p ← expect ValueTypeScalar "aggregation parameter" (check_opt p); mret (Some p)
               else if bool_decide (op = COUNT_VALUES) then
                 p ← expect ValueTypeString "aggregation parameter" (check_opt p); mret (Some p)
               else mret p);
          mret (NAggregateExpr op (Some e) p g w r)
      | NBinaryExpr op l r vm b =>
          '(lt, l) ← check_opt l; '(rt, r) ← check_opt r; check_binary op l r lt rt vm b
      | NCall f args r =>
          f' ← lift (deref f);
          check_arity f' (length args) r;;
          args ← (fix check_args (i : nat) (l : list node) : P (list node) :=
                    match l with
                    | [] => mret []
                    | a :: l =>
                        t ← lift (arg_type f' i);
                        match t with
                        | None => mret (a :: l)
                        | Some t =>
                            a ← expect t ("call to function " +:+ Quote (Func_Name f')) (checkAST a);
                            l ← check_args (S i) l; mret (a :: l)
                        end
                    end) 0 args;
          mret (NCall f args r)
      | NParenExpr e r => '(_, e) ← checkAST e; mret (NParenExpr e r)
      | NUnaryExpr op e s =>
          error_if (negb (bool_decide (op = ADD)) && negb (bool_decide (op = SUB))) (node_range n)
            "only + and - operators allowed for unary expressions";;
          '(t, e) ← checkAST e;
          error_if (negb (scalar_or_vector t)) (node_range n)
            ("unary expression only allowed on expressions of type scalar or instant vector, got "
             +:+ Quote (DocumentedType t));;
          mret (NUnaryExpr op e s)
      | NSubqueryExpr e range o step end_ =>
          '(ty, e) ← checkAST e;
          let n := NSubqueryExpr e range o step end_ in
          (if negb (bool_decide (ty = ValueTypeVector)) then
             text ← lift (String_node n);
             error_if true (node_range n)
               ("subquery is only allowed on instant vector, got " +:+ ValueType_text ty +:+
                " in " +:+ Quote text +:+ " instead")
           else mret tt);;
          mret n
      | NMatrixSelector vs range end_ =>
          '(_, vs) ← checkAST vs; mret (NMatrixSelector vs range end_)
      | NVectorSelector name _ ms r => check_selector name ms r;; mret n
      | NNumberLiteral _ _ | NStringLiteral _ _ => mret n
      end;
  mret (typ, n).

(** ** The semantic actions

    [action n d v]: what the action of rule [n] makes of [yyVAL = v], with
    [d i] for [yyDollar[i]].  A rule without an action leaves [yyVAL].  The
    rules of the testing language and of [ParseMetric] are left out. *)
Definition left_out (n : Z) : bool :=
  bool_decide (n ∈ [1; 87; 88]%Z) || bool_decide (107 ≤ n ≤ 128)%Z || bool_decide (172 ≤ n ≤ 175)%Z.

Definition set_vm (f : VectorMatching → VectorMatching) (n : option node) : go node :=
  match n with
  | Some (NBinaryExpr op l r vm b) => vm ← deref vm; Done (NBinaryExpr op l r (Some (f vm)) b)
  | _ => Panic bad_assertion
  end.

Definition action_aggregate (n : Z) (d : Z → yySymType) (v : yySymType) : P yySymType :=
  let fresh g w := NAggregateExpr 0 None None g w (MkRange 0 0) in
  let put n := mret (with_node n v) in
  match n with
  | 19 => e ← newAggregateExpr (item (d 1)) (node_ (d 2)) (node_ (d 3)); put e
  | 20 => e ← newAggregateExpr (item (d 1)) (node_ (d 3)) (node_ (d 2)); put e
  | 21 => e ← newAggregateExpr (item (d 1)) (Some (fresh [] false)) (node_ (d 2)); put e
  | 22 => unexpected "aggregation" EmptyString;;
          e ← newAggregateExpr (item (d 1)) (Some (fresh [] false)) (Some (Expressions_ [])); put e
  | 23 => put (fresh (strings (d 2)) false)
  | _ => put (fresh (strings (d 2)) true)
  end%Z.

Definition action_binary (n : Z) (d : Z → yySymType) (v : yySymType) : P yySymType :=
  let fresh b := NBinaryExpr 0 None None (Some (MkVectorMatching CardOneToOne [] false [])) b in
  let put n := mret (with_node n v) in
  let putg (n : go node) := n ← lift n; mret (with_node n v) in
  match n with
  | 41 => put (fresh false)
  | 42 => put (fresh true)
  | 43 => putg (set_vm (λ vm, MkVectorMatching (Card vm) (strings (d 3)) (On vm) (Include vm))
                  (node_ (d 1)))
  | 44 => putg (set_vm (λ vm, MkVectorMatching (Card vm) (strings (d 3)) true (Include vm))
                  (node_ (d 1)))
  | 47 => putg (set_vm (λ vm, MkVectorMatching CardManyToOne (MatchingLabels vm) (On vm)
                                (strings (d 3))) (node_ (d 1)))
  | 48 => putg (set_vm (λ vm, MkVectorMatching CardOneToMany (MatchingLabels vm) (On vm)
                                (strings (d 3))) (node_ (d 1)))
  | _ => putg (newBinaryExpression (node_ (d 1)) (item (d 2)) (node_ (d 3)) (node_ (d 4)))
  end%Z.

Definition action_grouping (n : Z) (d : Z → yySymType) (v : yySymType) : P yySymType :=
  let put l := mret (with_strings l v) in
  match n with
  | 49 | 50 => put (strings (d 2))
  | 51 => put []
  | 52 => unexpected "grouping opts" (dquote +:+ "(" +:+ dquote);; put []
  | 53 => put (strings (d 1) ++ [Val (item (d 3))])
  | 54 => put [Val (item (d 1))]
  | 55 => unexpected "grouping opts" (dquote +:+ "," +:+ dquote +:+ " or " +:+ dquote +:+ ")" +:+ dquote);;
          put (strings (d 1))
  | 56 => (if negb (isLabel (Val (item (d 1)))) then unexpected "grouping opts" "label"
           else mret tt);;
          mret (with_item (item (d 1)) v)
  | _ => unexpected "grouping opts" "label";; mret (with_item zero_item v)
  end%Z.

Definition action_call (n : Z) (d : Z → yySymType) (v : yySymType) : P yySymType :=
  let put n := mret (with_node n v) in
  match n with
  | 58 =>
      let name := item (d 1) in
      let fn := getFunction (Val name) in
      (if bool_decide (fn = None)
       then addParseErr (Item_range name) ("unknown function with name " +:+ Quote (Val name))
       else mret tt);;
      args ← lift (as_Expressions (node_ (d 2)));
      closing ← get lastClosing;
      put (NCall fn args (MkRange (Pos name) closing))
  | 59 => mret (set_node (node_ (d 2)) v)
  | 60 => put (Expressions_ [])
  | 61 => l ← lift (as_Expressions (node_ (d 1)));
          e ← lift (as_Expr (node_ (d 3)));
          put (Expressions_ (l ++ [e]))
  | 62 => e ← lift (as_Expr (node_ (d 1))); put (Expressions_ [e])
  | 63 => addParseErr (Item_range (item (d 2))) "trailing commas not allowed in function call args";;
          mret (set_node (node_ (d 1)) v)
  | _ => e ← lift (as_Expr (node_ (d 2)));
         put (NParenExpr e (mergeRanges (Item_range (item (d 1))) (Item_range (item (d 3)))))
  end%Z.

(** The error of a range selector on something else than a selector
    without offset. *)
Definition range_error (n : option node) : string :=
  match n with
  | Some (NVectorSelector _ o _ _) =>
      if bool_decide (o ≠ 0)%Z then "no offset modifiers allowed before range" else EmptyString
  | _ => "ranges only allowed for vector selectors"
  end.

Definition action_range (n : Z) (d : Z → yySymType) (v : yySymType) : P yySymType :=
  let put n := mret (with_node n v) in
  let keep := mret (set_node (node_ (d 1%Z)) v) in
  let bracket := dquote +:+ "]" +:+ dquote in
  match n with
  | 65 => e ← addOffset (node_ (d 1%Z)) (duration (d 3%Z));
          mret (set_node e v)
  | 66 => unexpected "offset" "duration";; keep
  | 67 =>
      let errMsg := range_error (node_ (d 1%Z)) in
      error_if (bool_decide (errMsg ≠ EmptyString))
        (Done (mergeRanges (Item_range (item (d 2%Z))) (Item_range (item (d 4%Z))))) errMsg;;
      e ← lift (as_Expr (node_ (d 1%Z)));
      closing ← get lastClosing;
      put (NMatrixSelector e (duration (d 3%Z)) closing)
  | 68 => e ← lift (as_Expr (node_ (d 1%Z)));
          put (NSubqueryExpr e (duration (d 3%Z)) 0 (duration (d 5%Z)) (Pos (item (d 6%Z)) + 1))
  | 69 => unexpected "subquery selector" bracket;; keep
  | 70 => unexpected "subquery selector" ("duration or " +:+ bracket);; keep
  | 71 => unexpected "subquery or range" (dquote +:+ ":" +:+ dquote +:+ " or " +:+ bracket);; keep
  | _ => unexpected "subquery selector" "duration";; keep
  end%Z.

Definition action_selector (n : Z) (d : Z → yySymType) (v : yySymType) : P yySymType :=
  let put n := mret (with_node n v) in
  match n with
  | 74 => match node_ (d 2%Z) with
          | Some (NVectorSelector _ o ms r) =>
              let name := item (d 1%Z) in
              ms ← lift (assembleVectorSelector (Val name) ms);
              put (NVectorSelector (Val name) o ms (mergeRanges (Item_range name) r))
          | _ => lift (Panic bad_assertion)
          end
  | 75 => let name := item (d 1%Z) in
          ms ← lift (assembleVectorSelector (Val name) []);
          put (NVectorSelector (Val name) 0 ms (Item_range name))
  | 76 => match node_ (d 1%Z) with
          | Some (NVectorSelector name o ms r) =>
              ms ← lift (assembleVectorSelector name ms); put (NVectorSelector name o ms r)
          | _ => lift (Panic bad_assertion)
          end
  | 77 => put (NVectorSelector EmptyString 0 (default [] (matchers (d 2%Z)))
                 (mergeRanges (Item_range (item (d 1%Z))) (Item_range (item (d 3%Z)))))
  | 78 => put (NVectorSelector EmptyString 0 (default [] (matchers (d 2%Z)))
                 (mergeRanges (Item_range (item (d 1%Z))) (Item_range (item (d 4%Z)))))
  | _ => put (NVectorSelector EmptyString 0 []
                (mergeRanges (Item_range (item (d 1%Z))) (Item_range (item (d 2%Z)))))
  end%Z.

Definition action_matchers (n : Z) (d : Z → yySymType) (v : yySymType) : P yySymType :=
  match n with
  | 80 => match matchers (d 1%Z) with
          | Some ms => mret (with_matchers (Some (ms ++ [matcher (d 3%Z)])) v)
          | None => mret (with_matchers None v)
          end
  | 81 => mret (with_matchers (Some [matcher (d 1%Z)]) v)
  | 82 => unexpected "label matching" (dquote +:+ "," +:+ dquote +:+ " or " +:+ dquote +:+ "}" +:+ dquote);;
          mret (with_matchers (matchers (d 1%Z)) v)
  | 83 => m ← newLabelMatcher (item (d 1%Z)) (item (d 2%Z)) (item (d 3%Z)); mret (with_matcher m v)
  | 84 => unexpected "label matching" "string";; mret (with_matcher None v)
  | 85 => unexpected "label matching" "label matching operator";; mret (with_matcher None v)
  | _ => unexpected "label matching" ("identifier or " +:+ dquote +:+ "}" +:+ dquote);;
         mret (with_matcher None v)
  end%Z.

Definition action_literal (n : Z) (d : Z → yySymType) (v : yySymType) : P yySymType :=
  let text := Val (item (d 1%Z)) in
  let range := Item_range (item (d 1%Z)) in
  match n with
  | 171 => f ← number text; mret (with_node (NNumberLiteral f range) v)
  | 176 => match parseDuration text with
           | Ok dur => mret (with_duration dur v)
           | Error err => addParseErr range err;; mret (with_duration 0%Z v)
           end
  | _ => s ← unquoteString text; mret (with_node (NStringLiteral s range) v)
  end%Z.

Definition action_unary (d : Z → yySymType) (v : yySymType) : P yySymType :=
  let op := item (d 1%Z) in
  match node_ (d 2%Z) with
  | Some (NNumberLiteral x r) =>
      let x := if bool_decide (Typ op = SUB) then fmul x (of_Z (-1)) else x in
      mret (with_node (NNumberLiteral x (MkRange (Pos op) (End_ r))) v)
  | n => e ← lift (as_Expr n); mret (with_node (NUnaryExpr (Typ op) e (Pos op)) v)
  end.

Definition action (n : Z) (d : Z → yySymType) (v : yySymType) : P yySymType :=
  let between lo hi := bool_decide (lo ≤ n ≤ hi)%Z in
  if left_out n then lift (Panic "left out")
  else if bool_decide (n = 3)%Z
  then addParseErr (MkRange 0 0) "no expression found in input";; mret v
  else if between 4%Z 5%Z then set_result (node_ (d 2%Z));; mret v
  else if bool_decide (n = 7)%Z then unexpected EmptyString EmptyString;; mret v
  else if between 19%Z 24%Z then action_aggregate n d v
  else if between 25%Z 39%Z || between 41%Z 44%Z || between 47%Z 48%Z then action_binary n d v
  else if between 49%Z 57%Z then action_grouping n d v
  else if between 58%Z 64%Z then action_call n d v
  else if between 65%Z 72%Z then action_range n d v
  else if bool_decide (n = 73)%Z then action_unary d v
  else if between 74%Z 79%Z then action_selector n d v
  else if between 80%Z 86%Z then action_matchers n d v
  else if bool_decide (n = 171)%Z || between 176%Z 177%Z then action_literal n d v
  else if bool_decide (n = 178)%Z then mret (with_duration 0%Z v)
  else if bool_decide (n = 180)%Z then mret (with_strings [] v)
  else mret v.

(** ** The driver *)
Definition out_of_fuel : string := "out of fuel".

(** [p.lex.NextItem(&lval.item)] until the item is no comment. *)
Fixpoint next_item (fuel : nat) : P Item :=
  match fuel with
  | O => lift (Panic out_of_fuel)
  | S fuel =>
      l ← get lex;
      match NextItem l with
      | None => lift (Panic out_of_fuel)
      | Some l =>
          set_lex l;;
          if bool_decide (Typ (itemp l) = COMMENT) then next_item fuel else mret (itemp l)
      end
  end.

(** [(p *parser) Lex(lval)].  After its first test nothing is injected, so
    that the guard of [InjectItem] holds. *)
Definition parser_Lex : P Z :=
  inj ← get injecting;
  if inj : bool then
    typ ← get inject; set_inject typ false;; mret typ
  else
    n ← get (λ p, remaining (lex p));
    i ← next_item (S (S n));
    let typ := Typ i in
    if bool_decide (typ = ERROR) then
      l ← get lex;
      addParseErr (MkRange (Z.of_nat (start l)) (Z.of_nat (String.length (input l)))) (Val i);;
      mret 0%Z
    else if bool_decide (typ = EOF) then set_inject 0 true;; mret typ
    else if bool_decide (typ ∈ [RIGHT_BRACE; RIGHT_PAREN; RIGHT_BRACKET; DURATION]) then
      set_lastClosing (Pos i + Z.of_nat (String.length (Val i)));; mret typ
    else mret typ.

(** The internal number of a token ([yylex1]). *)
Definition token_of (char : Z) : Z :=
  if bool_decide (char ≤ 0)%Z then yyEofCode
  else if bool_decide (yyPrivate ≤ char < yyPrivate + yyTok2_len)%Z then (char - yyPrivate + 2)%Z
  else 3%Z.

(** The stack [yyS] up to [yyp], top first, what is above it, and the
    variables of [Parse].  [token] is [None] while [char] is negative. *)
Record yyParser := MkYY {
  yyS : list yySymType;
  above : list yySymType;
  yyVAL : yySymType;
  yystate : Z;
  token : option Z;
  Errflag : Z;
}.

Definition idx (l : list Z) (i : Z) : go Z :=
  if bool_decide (0 ≤ i)%Z then
    match l !! Z.to_nat i with Some x => Done x | None => Panic bad_index end
  else Panic bad_index.

(** [yystack:] *)
Definition yystack (y : yyParser) : yyParser :=
  MkYY (with_yys (yystate y) (yyVAL y) :: yyS y) (drop 1 (above y)) (yyVAL y) (yystate y)
    (token y) (Errflag y).

(** The token, lexed when there is none. *)
Definition lookahead (y : yyParser) : P (Z * yyParser) :=
  match token y with
  | Some t => mret (t, y)
  | None =>
      char ← parser_Lex;
      let t := token_of char in
      mret (t, MkYY (yyS y) (above y) (yyVAL y) (yystate y) (Some t) (Errflag y))
  end.

(** [yynewstate:] the shift of the token, if there is one. *)
Definition try_shift (y : yyParser) : P (option yyParser * yyParser) :=
  yyn ← lift (idx yyPact (yystate y));
  if bool_decide (yyn ≤ yyFlag)%Z then mret (None, y)
  else
    '(t, y) ← lookahead y;
    let yyn := (yyn + t)%Z in
    if bool_decide (yyn < 0)%Z || bool_decide (yyLast ≤ yyn)%Z then mret (None, y)
    else
      s ← lift (idx yyAct yyn);
      chk ← lift (idx yyChk s);
      if bool_decide (chk = t) then
        i ← current;
        let v := with_item i zero_sym in
        let flag := if bool_decide (0 < Errflag y)%Z then (Errflag y - 1)%Z else Errflag y in
        mret (Some (yystack (MkYY (yyS y) (above y) v s None flag)), y)
      else mret (None, y).

(** The scan of the exception table. *)
Fixpoint exca_state (l : list Z) (s : Z) : go (list Z) :=
  match l with
  | a :: b :: l => if bool_decide (a = -1)%Z && bool_decide (b = s) then Done l else exca_state l s
  | _ => Panic bad_index
  end.
Fixpoint exca_token (l : list Z) (t : Z) : go Z :=
  match l with
  | a :: b :: l => if bool_decide (a < 0)%Z || bool_decide (a = t) then Done b else exca_token l t
  | _ => Panic bad_index
  end.

(** [yydefault:] the rule to reduce, zero for an error, negative to
    accept. *)
Definition default_rule (y : yyParser) : P (Z * yyParser) :=
  yyn ← lift (idx yyDef (yystate y));
  if bool_decide (yyn = -2)%Z then
    '(t, y) ← lookahead y;
    l ← lift (exca_state yyExca (yystate y));
    n ← lift (exca_token l t);
    mret (n, y)
  else mret (yyn, y).

(** What a turn of the driver leads to. *)
Inductive turn :=
| Again (y : yyParser)
| Return (code : Z).

(** The loop that pops the stack down to a state that shifts [error]: the
    state and the stack. *)
Fixpoint find_error (s : list yySymType) (popped : list yySymType)
    : go (option (Z * list yySymType * list yySymType)) :=
  match s with
  | [] => Done None
  | top :: rest =>
      p ← idx yyPact (yys top);
      let yyn := (p + yyErrCode)%Z in
      if bool_decide (0 ≤ yyn < yyLast)%Z then
        q ← idx yyAct yyn;
        chk ← idx yyChk q;
        if bool_decide (chk = yyErrCode) then Done (Some (q, s, popped))
        else find_error rest (top :: popped)
      else find_error rest (top :: popped)
  end.

Definition yyerror (y : yyParser) : P turn :=
  if bool_decide (Errflag y = 3)%Z then
    if bool_decide (token y = Some yyEofCode) then mret (Return 1)
    else mret (Again (MkYY (yyS y) (above y) (yyVAL y) (yystate y) None (Errflag y)))
  else
    found ← lift (find_error (yyS y) []);
    match found with
    | None => mret (Return 1)
    | Some (q, s, popped) =>
        mret (Again (yystack (MkYY s (popped ++ above y) (yyVAL y) q (token y) 3)))
    end.

(** The state after a reduction to the nonterminal [nt] over state [q]. *)
Definition goto_state (nt q : Z) : go Z :=
  yyg ← idx yyPgo nt;
  let yyj := (yyg + q + 1)%Z in
  if bool_decide (yyLast ≤ yyj)%Z then idx yyAct yyg
  else
    s ← idx yyAct yyj;
    chk ← idx yyChk s;
    if bool_decide (chk = - nt)%Z then Done s else idx yyAct yyg.

(** The reduction by rule [n]. *)
Definition yyreduce (n : Z) (y : yyParser) : P yyParser :=
  k ← lift (idx yyR2 n);
  nt ← lift (idx yyR1 n);
  let popped := rev (take (Z.to_nat k) (yyS y)) in
  let rest := drop (Z.to_nat k) (yyS y) in
  let above := popped ++ above y in
  match rest with
  | [] => lift (Panic bad_index)
  | below :: _ =>
      s ← lift (goto_state nt (yys below));
      let d i := nth (Z.to_nat i - 1) popped zero_sym in
      v ← action n d (hd zero_sym above);
      mret (yystack (MkYY rest above v s (token y) (Errflag y)))
  end.

Definition yyturn (y : yyParser) : P turn :=
  '(shifted, y) ← try_shift y;
  match shifted with
  | Some y => mret (Again y)
  | None =>
      '(n, y) ← default_rule y;
      if bool_decide (n < 0)%Z then mret (Return 0)
      else if bool_decide (n = 0)%Z then yyerror y
      else y ← yyreduce n y; mret (Again y)
  end.

Fixpoint yyParse (fuel : nat) (y : yyParser) : P Z :=
  match fuel with
  | O => lift (Panic out_of_fuel)
  | S fuel =>
      t ← yyturn y;
      match t with Again y => yyParse fuel y | Return code => mret code end
  end.

(** The stack with state 0, before the first turn. *)
Definition yyinit : yyParser := yystack (MkYY [] [] zero_sym 0 None 0).

(** The turns of an input of [n] bytes, proved enough. *)
Definition turns (n : nat) : nat := 20 * n + 100.

(** ** Entry points *)
Definition newParser (s : string) : parser := MkParser (Lex s) 0 false 0 None [].

(** [parseGenerated(startSymbol)]. *)
Definition parseGenerated (startSymbol : Z) : P (option node) :=
  set_inject startSymbol true;;
  n ← get (λ p, String.length (input (lex p)));
  yyParse (turns n) yyinit;;
  get generatedParserResult.

(** [ParseErrors.Error()], of the first error. *)
Fixpoint line_col (n : nat) (s : string) (i last line : Z) : Z * Z :=
  match n, s with
  | S n, String c s =>
      if bool_decide (c = newline) then line_col n s (i + 1)%Z i (line + 1)%Z
      else line_col n s (i + 1)%Z last line
  | _, _ => (last, line)
  end.
Definition ParseErr_Error (query : string) (e : ParseErr) : string :=
  let pos := Start (Err_range e) in
  (if bool_decide (pos < 0)%Z || bool_decide (Z.of_nat (String.length query) < pos)%Z
   then "invalid position:"
   else let '(last, line) := line_col (Z.to_nat pos) query 0 (-1) 1 in
        format_Z line +:+ ":" +:+ format_Z (pos - last) +:+ ":")
  +:+ " parse error: " +:+ Err_text e.

Definition errUnexpected : error := Foreign "unexpected error".

(** The deferred [recover]: a run-time error becomes [errUnexpected]; the
    errors of the parser are reported in place of the value. *)
Definition recovered {A} (query : string) (m : go (A * parser)) : result error A :=
  match m with
  | Panic _ => Error errUnexpected
  | Done (a, p) => match parseErrors p with
                   | [] => Ok a
                   | e :: _ => Error (Foreign (ParseErr_Error query e))
                   end
  end.

(** The body of [ParseExpr]: the node after its checks. *)
Definition parse_expr : P (option node) :=
  r ← parseGenerated START_EXPRESSION;
  (match r with None => mret tt | Some _ => _ ← lift (as_Expr r); mret tt end);;
  errs ← get parseErrors;
  if bool_decide (length errs = 0) then
    match r with
    | Some e => '(_, e) ← checkAST e; mret (Some e)
    | None => lift (Panic nil_dereference)
    end
  else mret r.

(** A node without errors is a tree ([ParserSpec.parse_expr_tree]), so that
    the conversion loses nothing. *)
Definition ParseExpr (s : string) : result error Expr :=
  match recovered s (parse_expr (newParser s)) with
  | Ok n => match n ≫= to_Expr with Some e => Ok e | None => Error errUnexpected end
  | Error err => Error err
  end.

Definition parse_selector : P (list (option Labels.Matcher)) :=
  r ← parseGenerated START_METRIC_SELECTOR;
  match r with
  | None => mret []
  | Some (NVectorSelector _ _ ms _) => mret ms
  | Some _ => lift (Panic bad_assertion)
  end.

Definition ParseMetricSelector (s : string) : result error (list (option Labels.Matcher)) :=
  recovered s (parse_selector (newParser s)).

End Parser.
