(* ===== verification/ParserDriver.v ===== *)
(** * The parser ends

    [yyParse] ends within [turns] turns, whatever the input: a potential of
    the stack, the tokens to come and the error flag falls with every turn.
    The state on top of the stack holds a credit for the reductions that
    shift nothing; [credits] and [goto_credits] are certificates that are
    checked over the tables. *)
From S2P Require Import Prelude GoStrings GoFloat Regexp Matchers Promql Errors.
From S2P Require Import GoTime Strutil Lexer LexerSpec ParserTables Parser.
From stdpp Require Import options.

Definition credits : list Z := [
  0; 0; 7; 7; 0; 0; 1; 0; 0; 5; 4; 6; 6; 6; 6; 6; 6; 6; 6; 6; 6; 6; 6; 6; 6; 6; 6; 6; 6; 0;
  0; 3; 0; 0; 2; 2; 2; 2; 2; 2; 2; 2; 2; 2; 2; 0; 6; 3; 0; 3; 0; 3; 3; 6; 6; 6; 6; 6; 6; 6;
  6; 6; 6; 6; 1; 1; 0; 0; 2; 0; 3; 1; 0; 2; 0; 1; 5; 5; 5; 5; 5; 5; 5; 5; 5; 5; 5; 5; 5; 5;
  5; 0; 0; 0; 1; 1; 0; 0; 0; 1; 0; 1; 1; 0; 2; 1; 0; 2; 1; 0; 0; 0; 0; 0; 0; 1; 2; 2; 3; 0;
  0; 0; 0; 0; 0; 0; 0; 0; 0; 0; 0; 0; 0; 0; 0; 2; 0; 0; 0; 0; 0; 0; 2; 0; 0; 0; 1; 0; 0; 0;
  0; 0; 0; 1; 1; 1; 1; 0; 0; 0; 0; 0; 1; 1; 2; 2; 2; 3; 0; 0; 0; 0; 0; 3; 3; 0; 0; 0; 0; 0;
  0; 0; 0; 0; 0; 0; 0; 0; 0; 0; 3; 0; 0; 0; 1; 2; 2; 3; 3; 3; 3; 3; 3; 3; 3; 3; 3; 3; 3; 3;
  3; 3; 3; 3; 3; 3; 3; 3; 3; 3; 0; 0; 0; 0; 0; 0; 0; 0; 0; 1; 1; 0; 0; 0; 1; 0; 0; 1; 0; 0;
  0; 0; 0; 0; 1; 0; 0; 0; 0; 0; 0; 0]%Z.

Definition goto_credits : list Z := [
  0; 0; 1; 0; 1; 0; 2; 5; 0; 4; 0; 3; 1; 0; 1; 0; 0; 0; 0; 2; 1; 2; 2; 0; 0; 2; 2; 1; 2; 0;
  1; 1; 3; 2; 2; 2; 2; 2; 2; 2; 2; 2; 1; 0; 0; 0]%Z.

Create HintDb frames.

(** ** The tables *)
Definition entry (l : list Z) (i : Z) : Z := nth (Z.to_nat i) l 0%Z.
Definition credit (s : Z) : Z := entry credits s.
Definition is_state (s : Z) : Prop := (0 ≤ s < 252)%Z.
Definition states : list Z := Z.of_nat <$> seq 0 252.

Lemma elem_of_states s : s ∈ states ↔ is_state s.
Proof.
  unfold states, is_state. rewrite list_elem_of_fmap. setoid_rewrite elem_of_seq.
  split; [intros (n & -> & ?); lia|]. intros. exists (Z.to_nat s). lia.
Qed.

Lemma idx_elem l i x : idx l i = Done x → x ∈ l.
Proof. unfold idx. repeat case_match; try done. intros [= <-]. by eapply list_elem_of_lookup_2. Qed.

Lemma idx_entry l i x : idx l i = Done x → entry l i = x.
Proof.
  unfold idx, entry. repeat case_match; try done. intros [= <-]. by apply nth_lookup_Some.
Qed.

Lemma idx_range l i x : idx l i = Done x → i ∈ Z.of_nat <$> seq 0 (length l).
Proof.
  unfold idx. case_bool_decide; [|done]. destruct (l !! Z.to_nat i) eqn:Hl; [|done]. intros _.
  apply lookup_lt_Some in Hl. apply list_elem_of_fmap. exists (Z.to_nat i). rewrite elem_of_seq. lia.
Qed.

(** A test that holds of all states. *)
Lemma for_states (f : Z → bool) s : forallb f states = true → is_state s → f s = true.
Proof. rewrite forallb_forall. intros Hf Hs%elem_of_states. by apply Hf, list_elem_of_In. Qed.

Lemma act_states s : s ∈ yyAct → is_state s.
Proof.
  assert (forallb (λ s, bool_decide (0 ≤ s < 252)%Z) yyAct = true) as Hf by (vm_compute; reflexivity).
  rewrite forallb_forall in Hf. intros Hs%list_elem_of_In. by apply Hf, bool_decide_eq_true in Hs.
Qed.

Lemma chk_not_end : yyEofCode ∉ yyChk.
Proof. apply (bool_decide_eq_true_1 (_ ∉ _)). vm_compute. reflexivity. Qed.

(** A state that never looks at the token has something to do by default. *)
Definition default_ok (s : Z) : bool :=
  negb (bool_decide (entry yyPact s ≤ yyFlag)%Z && bool_decide (entry yyDef s = 0)%Z).
Lemma default_not_error s :
  is_state s → (entry yyPact s ≤ yyFlag)%Z → entry yyDef s ≠ 0%Z.
Proof.
  intros Hs Hp Hd. assert (default_ok s = true) as Hf.
  { apply for_states; [vm_compute; reflexivity|done]. }
  unfold default_ok in Hf. by rewrite Hd, !bool_decide_eq_true_2 in Hf.
Qed.

Lemma goto_state_act nt q s : goto_state nt q = Done s → is_state s.
Proof.
  unfold goto_state. intros Hg. apply act_states.
  destruct (idx yyPgo nt) as [g|] eqn:Hg1; [|done]. cbn in Hg.
  case_bool_decide; [by eapply idx_elem|].
  destruct (idx yyAct (g + q + 1)) as [s'|] eqn:Hs; [|done]. cbn in Hg.
  destruct (idx yyChk s'); [|done]. cbn in Hg.
  case_bool_decide; [|by eapply idx_elem]. injection Hg as <-. by eapply idx_elem.
Qed.

(** The rules that the default action of a state may reduce. *)
Fixpoint exca_values (l : list Z) : list Z :=
  match l with
  | a :: b :: l => if bool_decide (a < 0)%Z then [b] else b :: exca_values l
  | _ => []
  end.
Definition default_rules (s : Z) : list Z :=
  if bool_decide (entry yyDef s = -2)%Z then exca_values (go_value [] (exca_state yyExca s))
  else [entry yyDef s].

Fixpoint exca_token_values (l : list Z) t n {struct l} : exca_token l t = Done n → n ∈ exca_values l.
Proof.
  destruct l as [|a [|b l]]; cbn; [done..|]. case_bool_decide as Ha; cbn.
  - intros [= <-]. by apply list_elem_of_singleton.
  - case_bool_decide.
    + intros [= <-]. by left.
    + intros Hn. right. by eapply exca_token_values.
Qed.

(** A reduction by [n] in [s] lowers the potential of the stack: two for
    each state below the top and the credit of the top. *)
Definition rule_pays (s n : Z) : bool :=
  bool_decide (n ≤ 0)%Z ||
  if bool_decide (entry yyR2 n = 0)%Z
  then bool_decide (3 + credit (go_value 0%Z (goto_state (entry yyR1 n) s)) ≤ credit s)%Z
  else bool_decide (1 + entry goto_credits (entry yyR1 n) ≤ credit s + 2 * (entry yyR2 n - 1))%Z.

Lemma rules_pay s n : is_state s → n ∈ default_rules s → rule_pays s n = true.
Proof.
  intros Hs Hn.
  assert (forallb (rule_pays s) (default_rules s) = true) as Hf.
  { apply (for_states (λ s, forallb (rule_pays s) (default_rules s))); [|done]. vm_compute. reflexivity. }
  rewrite forallb_forall in Hf. by apply Hf, list_elem_of_In.
Qed.

Lemma rhs_positive n k : idx yyR2 n = Done k → (0 ≤ k)%Z.
Proof.
  intros Hk%idx_elem. assert (forallb (λ k, bool_decide (0 ≤ k)%Z) yyR2 = true) as Hf
    by (vm_compute; reflexivity).
  rewrite forallb_forall in Hf. apply list_elem_of_In in Hk. by apply Hf, bool_decide_eq_true in Hk.
Qed.

Definition credit_ok (s : Z) : bool := bool_decide (0 ≤ credit s)%Z && bool_decide (credit s ≤ 7)%Z.
Lemma credit_bounds s : is_state s → (0 ≤ credit s ≤ 7)%Z.
Proof.
  intros Hs. assert (credit_ok s = true) as Hc by (apply for_states; [vm_compute; reflexivity|done]).
  by apply andb_true_iff in Hc as [?%bool_decide_eq_true ?%bool_decide_eq_true].
Qed.

Lemma goto_credit nt q s :
  goto_state nt q = Done s → is_state q → (credit s ≤ entry goto_credits nt)%Z.
Proof.
  intros Hg Hq. unfold goto_state in Hg.
  assert (nt ∈ Z.of_nat <$> seq 0 46) as Hnt.
  { destruct (idx yyPgo nt) eqn:Hi; [|done]. by apply idx_range in Hi. }
  assert (forallb (λ nt, forallb (λ q, match goto_state nt q with
      | Done s => bool_decide (credit s ≤ entry goto_credits nt)%Z | Panic _ => true end) states)
      (Z.of_nat <$> seq 0 46) = true) as Hf by (vm_compute; reflexivity).
  rewrite forallb_forall in Hf. apply list_elem_of_In in Hnt. specialize (Hf _ Hnt).
  cbn beta in Hf. rewrite forallb_forall in Hf. apply elem_of_states, list_elem_of_In in Hq.
  specialize (Hf _ Hq). cbn beta in Hf. unfold goto_state in Hf. rewrite Hg in Hf.
  by apply bool_decide_eq_true in Hf.
Qed.

(** ** The actions

    An action never runs out of fuel and leaves the lexer and the injected
    item alone; an error stays once it is there, and a new result of the
    parser is one of [R]. *)
Section Driver.
Context `{RE : RegexpEngine, !UnicodeTable}.
Context (R : option node → Prop).

Record framed (p p' : parser) : Prop := Framed {
  framed_lex : lex p' = lex p;
  framed_inject : inject p' = inject p;
  framed_injecting : injecting p' = injecting p;
  framed_errors : parseErrors p' = [] → parseErrors p = [];
  framed_result : generatedParserResult p' = generatedParserResult p ∨ R (generatedParserResult p');
}.

Definition frames {A} (m : P A) : Prop := ∀ p,
  match m p with Panic r => r ≠ out_of_fuel | Done (_, p') => framed p p' end.

Definition quiet {A} (m : go A) : Prop := m ≠ Panic out_of_fuel.

Lemma framed_refl p : framed p p.
Proof. constructor; auto. Qed.

Lemma frames_ret {A} (a : A) : frames (mret a).
Proof. intros p. apply framed_refl. Qed.
Lemma frames_bind {A B} (m : P A) (f : A → P B) :
  frames m → (∀ a, frames (f a)) → frames (m ≫= f).
Proof.
  intros Hm Hf p. unfold mbind, P_bind. specialize (Hm p).
  destruct (m p) as [[a p1]|r]; cbn; [|exact Hm].
  specialize (Hf a p1). destruct (f a p1) as [[b p2]|r]; [|exact Hf].
  destruct Hm as [? ? ? Hm Hr1], Hf as [? ? ? Hf Hr2]. constructor; [congruence..|auto|].
  destruct Hr2 as [Hr2|?]; [rewrite Hr2; tauto|auto].
Qed.
Lemma frames_lift {A} (m : go A) : quiet m → frames (lift m).
Proof. intros Hm p. unfold lift. destruct m; cbn; [apply framed_refl|]. intros ->. by apply Hm. Qed.
Lemma frames_get {A} (f : parser → A) : frames (get f).
Proof. intros p. apply framed_refl. Qed.
Lemma frames_addParseErr r t : frames (addParseErr r t).
Proof. intros p. constructor; cbn; auto. by destruct (parseErrors p). Qed.
Lemma frames_set_result n : R n → frames (set_result n).
Proof. intros Hn p. constructor; cbn; auto. Qed.
Lemma quiet_Done {A} (a : A) : quiet (Done a).
Proof. done. Qed.
Lemma quiet_bind {A B} (m : go A) (f : A → go B) :
  quiet m → (∀ a, quiet (f a)) → quiet (m ≫= f).
Proof. unfold quiet. destruct m; cbn; [auto|]. intros Hr _ [= ->]. by apply Hr. Qed.

#[local] Hint Resolve frames_ret frames_bind frames_lift frames_get frames_addParseErr
  frames_set_result quiet_Done quiet_bind : frames.

(** Induction on nodes, through their lists and nil fields. *)
Definition on_opt (Q : node → Prop) (n : option node) : Prop :=
  match n with Some n => Q n | None => True end.

Lemma node_nested_ind (Q : node → Prop) :
  (∀ l, Forall Q l → Q (Expressions_ l)) →
  (∀ op e p g w r, on_opt Q e → on_opt Q p → Q (NAggregateExpr op e p g w r)) →
  (∀ op l r vm b, on_opt Q l → on_opt Q r → Q (NBinaryExpr op l r vm b)) →
  (∀ f args r, Forall Q args → Q (NCall f args r)) →
  (∀ vs range e, Q vs → Q (NMatrixSelector vs range e)) →
  (∀ n range o s e, Q n → Q (NSubqueryExpr n range o s e)) →
  (∀ v r, Q (NNumberLiteral v r)) →
  (∀ n r, Q n → Q (NParenExpr n r)) →
  (∀ s r, Q (NStringLiteral s r)) →
  (∀ op n s, Q n → Q (NUnaryExpr op n s)) →
  (∀ name o ms r, Q (NVectorSelector name o ms r)) →
  ∀ n, Q n.
Proof.
  intros H1 H2 H3 H4 H5 H6 H7 H8 H9 H10 H11. fix IH 1.
  assert (∀ l, Forall Q l) as Hl by (fix IHl 1; intros [|n l]; constructor; [apply IH|apply IHl]).
  assert (∀ o, on_opt Q o) as Ho by (intros [n|]; [apply IH|exact I]).
  intros []; [apply H1|apply H2|apply H3|apply H4|apply H5|apply H6|apply H7|apply H8|apply H9
             |apply H10|apply H11]; first [apply Hl|apply Ho|apply IH].
Qed.

Lemma quiet_as_Expr n : quiet (as_Expr n).
Proof. by destruct n as [[]|]. Qed.
Lemma quiet_as_Expressions n : quiet (as_Expressions n).
Proof. by destruct n as [[]|]. Qed.
Lemma quiet_deref {A} (p : option A) : quiet (deref p).
Proof. by destruct p. Qed.

Lemma quiet_node_range n : quiet (node_range n).
Proof.
  induction n as [l Hl| | | | | | | | | |] using node_nested_ind; cbn; auto with frames; try done.
  - destruct Hl as [|n l Hn Hl]; [done|]. apply quiet_bind; [done|intros first].
    apply quiet_bind; [|done].
    assert (∀ n l, quiet (node_range n) → Forall (λ n, quiet (node_range n)) l →
      quiet ((fix last_range (l : list node) : go PositionRange :=
        match l with [] => Panic bad_index | [n] => node_range n | _ :: l => last_range l end) (n :: l)))
      as Hlast; [|by apply Hlast].
    clear. intros n l. revert n. induction l as [|m l IH]; intros n Hn Hl; [done|].
    inversion Hl; subst. by apply IH.
  - repeat case_match; cbn in *; auto with frames; done.
Qed.

End Driver.

#[export] Hint Resolve frames_ret frames_bind frames_lift frames_get frames_addParseErr
  frames_set_result quiet_Done quiet_bind quiet_as_Expr quiet_as_Expressions quiet_deref
  quiet_node_range : frames.

Ltac frames_step :=
  match goal with
  | |- ∀ _, _ => intro
  | |- frames _ (mret _) => apply frames_ret
  | |- frames _ (lift _) => apply frames_lift
  | |- frames _ (get _) => apply frames_get
  | |- frames _ current => apply frames_get
  | |- frames _ (addParseErr _ _) => apply frames_addParseErr
  | |- frames _ (set_result _) => apply frames_set_result
  | |- frames _ (_ ≫= _) => apply frames_bind
  | |- quiet (Done _) => apply quiet_Done
  | |- quiet (Panic _) => discriminate
  | |- quiet (_ ≫= _) => apply quiet_bind
  | |- quiet _ => solve [auto with frames]
  | |- frames _ (let '(_, _) := ?x in _) => destruct x
  | |- context [match ?x with _ => _ end] => destruct x
  end.
Ltac frames := repeat frames_step; auto with frames.

Section Actions.
Context `{RE : RegexpEngine, !UnicodeTable}.
Context (R : option node → Prop).

Lemma frames_error_if b r t : quiet r → frames R (error_if b r t).
Proof. intros Hr. unfold error_if. destruct b; frames. Qed.
#[local] Hint Resolve frames_error_if : frames.
Lemma frames_unexpected c e : frames R (unexpected c e).
Proof. unfold unexpected. frames. Qed.
#[local] Hint Resolve frames_unexpected : frames.
Lemma frames_unquoteString s : frames R (unquoteString s).
Proof. unfold unquoteString. frames. Qed.
#[local] Hint Resolve frames_unquoteString : frames.
Lemma frames_number s : frames R (number s).
Proof. unfold number. frames. Qed.
Lemma frames_newLabelMatcher l o v : frames R (newLabelMatcher l o v).
Proof. unfold newLabelMatcher. frames. Qed.
Lemma frames_newAggregateExpr o m a : frames R (newAggregateExpr o m a).
Proof. unfold newAggregateExpr. frames. Qed.
Lemma frames_addOffset e o : frames R (addOffset e o).
Proof. unfold addOffset. frames. Qed.
Lemma quiet_newBinaryExpression l o m r : quiet (newBinaryExpression l o m r).
Proof. unfold newBinaryExpression. frames. Qed.
Lemma quiet_assemble n ms : quiet (assembleVectorSelector n ms).
Proof. unfold assembleVectorSelector, Labels.NewMatcher. by case_bool_decide. Qed.
Lemma quiet_set_vm f n : quiet (set_vm f n).
Proof. unfold set_vm. frames. Qed.
#[local] Hint Resolve frames_number frames_newLabelMatcher frames_newAggregateExpr frames_addOffset
  quiet_newBinaryExpression quiet_assemble quiet_set_vm : frames.

Lemma frames_action_1 n d v :
  frames R (action_aggregate n d v) ∧ frames R (action_binary n d v) ∧ frames R (action_grouping n d v) ∧
  frames R (action_call n d v).
Proof.
  unfold action_aggregate, action_binary, action_grouping, action_call. split_and!; frames.
Qed.
Lemma frames_action_2 n d v :
  frames R (action_range n d v) ∧ frames R (action_selector n d v) ∧ frames R (action_matchers n d v) ∧
  frames R (action_literal n d v) ∧ frames R (action_unary d v).
Proof.
  unfold action_range, action_selector, action_matchers, action_literal, action_unary.
  split_and!; frames.
Qed.

Lemma frames_action n d v : ((4 ≤ n ≤ 5)%Z → R (node_ (d 2%Z))) → frames R (action n d v).
Proof.
  intros HR.
  destruct (frames_action_1 n d v) as (?&?&?&?). destruct (frames_action_2 n d v) as (?&?&?&?&?).
  unfold action. destruct (decide (4 ≤ n ≤ 5)%Z) as [Hn|Hn].
  - specialize (HR Hn). repeat (case_match; auto with frames); frames.
  - rewrite (bool_decide_eq_false_2 _ Hn). repeat (case_match; auto with frames); frames.
Qed.

End Actions.

#[export] Hint Resolve frames_error_if frames_unexpected frames_unquoteString frames_number
  frames_newLabelMatcher frames_newAggregateExpr frames_addOffset quiet_newBinaryExpression
  quiet_assemble quiet_set_vm frames_action : frames.

Section Ends.
Context `{RE : RegexpEngine, !UnicodeTable}.

(** ** Tokens *)
(** Running a bind. *)
Lemma bind_Done {A B} (m : P A) (f : A → P B) p a p' :
  m p = Done (a, p') → (m ≫= f) p = f a p'.
Proof. intros Hm. unfold mbind, P_bind. by rewrite Hm. Qed.
Lemma bind_run {A B} (m : P A) (f : A → P B) p :
  (m ≫= f) p = match m p with Done (a, p') => f a p' | Panic r => Panic r end.
Proof. unfold mbind, P_bind. by destruct (m p) as [[]|]. Qed.
Lemma bind_get {A B} (f : parser → A) (g : A → P B) p : (get f ≫= g) p = g (f p) p.
Proof. reflexivity. Qed.

Definition with_lex (l : Lexer) (p : parser) : parser :=
  MkParser l (inject p) (injecting p) (lastClosing p) (generatedParserResult p) (parseErrors p).

#[local] Arguments NextItem : simpl never.

Lemma next_item_returns fuel p :
  ready (lex p) → remaining (lex p) < fuel →
  ∃ l, next_item fuel p = Done (itemp l, with_lex l p) ∧ item_of (lex p) l.
Proof.
  revert p. induction fuel as [|fuel IH]; intros p Hrd Hf; [lia|].
  cbn. rewrite bind_get. destruct (NextItem_item _ Hrd) as (l & Hn & Hit). rewrite Hn.
  rewrite (bind_Done _ _ _ tt (with_lex l p)) by done.
  destruct (bool_decide (Typ (itemp l) = COMMENT)) eqn:Hc; [|by exists l].
  apply bool_decide_eq_true in Hc. destruct Hit as [Hi Hr Hp He].
  rewrite Hc in He. destruct He as [?|[?|He]]; [done..|].
  destruct (IH (with_lex l p) Hr) as (l' & Hn' & [Hi' Hr' Hp' He']).
  { destruct Hr as [Hin _]. unfold remaining, len in *. cbn. rewrite Hi in *. lia. }
  exists l'. split; [done|]. cbn in *. constructor; [congruence|done|lia|].
  destruct He' as [?|[?|?]]; auto. right; right. lia.
Qed.

(** The tokens still to be lexed, and those to be shifted or dropped; the
    end of the input never is. *)
Definition future (p : parser) : Z :=
  if injecting p then (if bool_decide (inject p ≤ 0) then 0 else Z.of_nat (remaining (lex p)) + 2)%Z
  else (Z.of_nat (remaining (lex p)) + 1)%Z.
Definition tokens_of (t : option Z) (p : parser) : Z :=
  match t with
  | Some t => if bool_decide (t = yyEofCode) then 0 else 1 + future p
  | None => future p
  end%Z.

Lemma future_pos p : (0 ≤ future p)%Z.
Proof. unfold future. repeat case_match; lia. Qed.

Lemma token_of_end char : (char ≤ 0)%Z → token_of char = yyEofCode.
Proof. intros. unfold token_of. by rewrite bool_decide_eq_true_2. Qed.

#[local] Arguments next_item : simpl never.

(** The current item is an error only after an error was recorded. *)
Definition sane (p : parser) : Prop := Typ (itemp (lex p)) = ERROR → parseErrors p ≠ [].

(** What a look at the next token leaves alone. *)
Record lexed (p p' : parser) : Prop := Lexed {
  lexed_ready : ready (lex p');
  lexed_errors : parseErrors p' = [] → parseErrors p = [];
  lexed_result : generatedParserResult p' = generatedParserResult p;
  lexed_sane : sane p → sane p';
}.

Lemma parser_Lex_tokens p :
  ready (lex p) →
  ∃ char p', parser_Lex p = Done (char, p') ∧ lexed p p' ∧
    (tokens_of (Some (token_of char)) p' ≤ future p)%Z.
Proof.
  intros Hrd. unfold parser_Lex. rewrite bind_get.
  destruct (injecting p) eqn:Hinj.
  - eexists _, _. split; [done|]. split; [by constructor|]. unfold tokens_of, future. cbn. rewrite Hinj.
    destruct (decide (inject p ≤ 0)%Z) as [Hle|Hle].
    + rewrite token_of_end by done. by rewrite !bool_decide_eq_true_2.
    + rewrite (bool_decide_eq_false_2 (inject p ≤ 0)%Z) by done. case_match; lia.
  - destruct (next_item_returns (S (S (remaining (lex p)))) p Hrd ltac:(lia)) as (l & Hn & Hit).
    rewrite bind_get, (bind_Done _ _ _ _ _ Hn). destruct Hit as [Hi Hr Hp He].
    assert (∀ c, (1 + (Z.of_nat (remaining l) + 1) ≤ Z.of_nat (remaining (lex p)) + 1)%Z →
      (tokens_of (Some (token_of c)) (with_lex l p) ≤ future p)%Z) as Hless.
    { intros c Hc. unfold tokens_of, future. cbn. rewrite Hinj. case_match; lia. }
    case_bool_decide as Herr.
    + eexists _, _. split; [done|]. split; [|apply future_pos].
      constructor; cbn; [done|by destruct (parseErrors p)|done|].
      intros _ _. by destruct (parseErrors p).
    + case_bool_decide as Heof.
      * eexists _, _. split; [done|]. split; [by constructor; [..|intros _ ?]|]. unfold tokens_of, future. cbn.
        rewrite Hinj, (bool_decide_eq_true_2 (0 ≤ 0)%Z) by lia. case_match; lia.
      * assert (1 + (Z.of_nat (remaining l) + 1) ≤ Z.of_nat (remaining (lex p)) + 1)%Z as Hlt.
        { destruct He as [?|[?|He]]; [done..|]. destruct Hr as [Hin _]. unfold remaining, len in *.
          rewrite Hi in *. lia. }
        case_bool_decide; (eexists _, _; split; [done|];
          split; [by constructor; [..|intros _ ?]|by apply Hless]).
Qed.

(** ** The potential *)
Definition potential (y : yyParser) (p : parser) : Z :=
  (2 * Z.of_nat (length (yyS y)) + credit (yystate y) + 20 * tokens_of (token y) p
   + 10 * (3 - Errflag y))%Z.

Record driver_ok (y : yyParser) (p : parser) : Prop := DriverOk {
  ok_ready : ready (lex p);
  ok_flag : (0 ≤ Errflag y ≤ 3)%Z;
  ok_top : yys <$> head (yyS y) = Some (yystate y);
  ok_states : Forall (λ v, is_state (yys v)) (yyS y);
}.

Definition with_token (t : option Z) (y : yyParser) : yyParser :=
  MkYY (yyS y) (above y) (yyVAL y) (yystate y) t (Errflag y).

Lemma ok_state y p : driver_ok y p → is_state (yystate y).
Proof.
  intros [_ _ Ht Hs]. destruct (yyS y) as [|v l]; [done|]. injection Ht as <-.
  by inversion Hs.
Qed.

Lemma tokens_pos t p : (0 ≤ tokens_of t p)%Z.
Proof. pose proof (future_pos p). unfold tokens_of. repeat case_match; lia. Qed.

Lemma potential_pos y p : driver_ok y p → (0 ≤ potential y p)%Z.
Proof.
  intros Hok. pose proof (credit_bounds _ (ok_state y p Hok)). pose proof (tokens_pos (token y) p).
  destruct Hok as [_ ? _ _]. unfold potential. lia.
Qed.

(** [y'] and [p'] are [y] and [p] after a look at the token. *)
Record looked (y : yyParser) (p : parser) (y' : yyParser) (p' : parser) : Prop := Looked {
  looked_same : y' = with_token (token y') y;
  looked_lexed : lexed p p';
  looked_tokens : (tokens_of (token y') p' ≤ tokens_of (token y) p)%Z;
  looked_positive : (∀ t, token y = Some t → 0 < t)%Z → (∀ t, token y' = Some t → 0 < t)%Z;
}.

Lemma lexed_trans p1 p2 p3 : lexed p1 p2 → lexed p2 p3 → lexed p1 p3.
Proof. intros [? ? ? ?] [? ? ? ?]. constructor; auto; congruence. Qed.

Lemma token_positive char : (0 < token_of char)%Z.
Proof. unfold token_of, yyEofCode. repeat case_bool_decide; lia. Qed.

Lemma looked_refl y p : ready (lex p) → looked y p y p.
Proof. intros Hr. constructor; [by destruct y|by constructor|done|done]. Qed.

Lemma looked_trans y1 p1 y2 p2 y3 p3 : looked y1 p1 y2 p2 → looked y2 p2 y3 p3 → looked y1 p1 y3 p3.
Proof.
  intros [Hs Hr Ht He] [Hs' Hr' Ht' He']. constructor; [|by eapply lexed_trans|lia|auto].
  rewrite Hs', Hs. by destruct y1.
Qed.

Lemma looked_ok y p y' p' : looked y p y' p' → driver_ok y p → driver_ok y' p'.
Proof. intros [-> [Hr _ _ _] _ _] [_ ? ? ?]. by constructor. Qed.

Lemma looked_potential y p y' p' : looked y p y' p' → (potential y' p' ≤ potential y p)%Z.
Proof. intros [-> _ Ht _]. unfold potential in *. cbn in *. lia. Qed.

Lemma lookahead_looked y p :
  ready (lex p) →
  ∃ t y' p', lookahead y p = Done ((t, y'), p') ∧ token y' = Some t ∧ looked y p y' p'.
Proof.
  intros Hr. unfold lookahead. destruct (token y) as [t|] eqn:Ht.
  - exists t, y, p. split; [done|]. split; [done|]. by apply looked_refl.
  - destruct (parser_Lex_tokens p Hr) as (c & p' & Hl & Hlex & Htok).
    rewrite (bind_Done _ _ _ _ _ Hl). eexists _, _, _. split; [done|]. split; [done|].
    constructor; [done|done|by rewrite Ht|]. intros _ t [= <-]. apply token_positive.
Qed.

(** A shift. *)
Lemma yystack_ok y p :
  ready (lex p) → (0 ≤ Errflag y ≤ 3)%Z → is_state (yystate y) →
  Forall (λ v, is_state (yys v)) (yyS y) → driver_ok (yystack y) p.
Proof. intros Hr He Hs Hl. constructor; [done|done|done|]. by constructor. Qed.

Lemma bind_lift {A B} (m : go A) (f : A → P B) p :
  (lift m ≫= f) p = match m with Done a => f a p | Panic r => Panic r end.
Proof. by destruct m. Qed.

Lemma idx_quiet l i r : idx l i = Panic r → r ≠ out_of_fuel.
Proof. unfold idx. repeat case_match; intros [= <-]; done. Qed.

Lemma shift_pays y p s flag t :
  driver_ok y p → token y = Some t → t ≠ yyEofCode → is_state s →
  (0 ≤ flag ≤ 3)%Z → (Errflag y - 1 ≤ flag)%Z → ∀ v a,
  let y' := yystack (MkYY (yyS y) a v s None flag) in
  driver_ok y' p ∧ (potential y' p < potential y p)%Z.
Proof.
  intros Hok Ht Hne Hs Hf Hf' v a. split.
  - destruct Hok. by apply yystack_ok.
  - pose proof (credit_bounds _ Hs). pose proof (credit_bounds _ (ok_state y p Hok)).
    unfold potential. cbn [length yyS yystate token Errflag yystack tokens_of]. rewrite Ht.
    unfold tokens_of. rewrite bool_decide_eq_false_2 by done. lia.
Qed.

Lemma try_shift_pays y p :
  driver_ok y p →
  match try_shift y p with
  | Panic r => r ≠ out_of_fuel
  | Done ((Some y2, _), p') =>
      driver_ok y2 p' ∧ (potential y2 p' < potential y p)%Z ∧ (parseErrors p' = [] → parseErrors p = [])
  | Done ((None, y'), p') =>
      looked y p y' p' ∧ (token y' = None → (entry yyPact (yystate y) ≤ yyFlag)%Z)
  end.
Proof.
  intros Hok. pose proof (ok_ready _ _ Hok) as Hr. unfold try_shift. rewrite bind_lift.
  destruct (idx yyPact (yystate y)) as [n|r] eqn:Hn; [|by eapply idx_quiet].
  case_bool_decide as Hflag.
  { unfold mret, P_ret. split; [by apply looked_refl|]. intros _. by rewrite (idx_entry _ _ _ Hn). }
  destruct (lookahead_looked y p Hr) as (t & y' & p' & Hl & Ht & Hlook).
  rewrite (bind_Done _ _ _ _ _ Hl). cbv beta iota zeta.
  destruct (bool_decide (n + t < 0)%Z || bool_decide (yyLast ≤ n + t)%Z).
  { unfold mret, P_ret. split; [done|]. by rewrite Ht. }
  rewrite bind_lift. destruct (idx yyAct (n + t)) as [s|r] eqn:Hs; [|by eapply idx_quiet].
  rewrite bind_lift. destruct (idx yyChk s) as [chk|r] eqn:Hchk; [|by eapply idx_quiet].
  case_bool_decide as Hc; [|unfold mret, P_ret; split; [done|]; by rewrite Ht].
  unfold current. rewrite bind_get. cbn [mret P_ret].
  assert (chk ≠ yyEofCode) as Hne.
  { intros ->. apply chk_not_end. by eapply idx_elem. }
  pose proof (looked_ok _ _ _ _ Hlook Hok) as Hok'. pose proof (ok_flag _ _ Hok') as Hfl.
  pose proof (looked_potential _ _ _ _ Hlook) as Hpot.
  destruct (shift_pays y' p' s
    (if bool_decide (0 < Errflag y')%Z then Errflag y' - 1 else Errflag y')%Z t
    Hok' Ht) with (v := with_item (itemp (lex p')) zero_sym) (a := above y') as [Hok2 Hlt].
  - congruence.
  - apply act_states. by eapply idx_elem.
  - case_bool_decide; lia.
  - case_bool_decide; lia.
  - split; [done|]. split; [lia|]. by destruct Hlook as [_ [] _ _].
Qed.

(** The default action: a rule of the state, with a token if the state has
    nothing to reduce. *)
Fixpoint exca_state_quiet l s r {struct l} : exca_state l s = Panic r → r ≠ out_of_fuel.
Proof.
  destruct l as [|a [|b l]]; cbn; [by intros [= <-]..|].
  destruct (_ && _); [discriminate|apply exca_state_quiet].
Qed.
Fixpoint exca_token_quiet l t r {struct l} : exca_token l t = Panic r → r ≠ out_of_fuel.
Proof.
  destruct l as [|a [|b l]]; cbn; [by intros [= <-]..|].
  destruct (_ || _); [discriminate|apply exca_token_quiet].
Qed.

Lemma default_rule_ok y p :
  driver_ok y p → (token y = None → (entry yyPact (yystate y) ≤ yyFlag)%Z) →
  match default_rule y p with
  | Panic r => r ≠ out_of_fuel
  | Done ((n, y'), p') =>
      looked y p y' p' ∧ n ∈ default_rules (yystate y) ∧ (n = 0%Z → token y' ≠ None)
  end.
Proof.
  intros Hok Htok. pose proof (ok_ready _ _ Hok) as Hr. unfold default_rule. rewrite bind_lift.
  destruct (idx yyDef (yystate y)) as [n|r] eqn:Hn; [|by eapply idx_quiet].
  apply idx_entry in Hn. unfold default_rules. case_bool_decide as Hdef.
  - rewrite bool_decide_eq_true_2 by congruence.
    destruct (lookahead_looked y p Hr) as (t & y' & p' & Hl & Ht & Hlook).
    rewrite (bind_Done _ _ _ _ _ Hl). cbv beta iota zeta. rewrite bind_lift.
    assert (yystate y' = yystate y) as Hst by (by destruct Hlook as [-> _ _ _]). rewrite Hst.
    destruct (exca_state yyExca (yystate y)) as [l|r] eqn:Hl1; [|by eapply exca_state_quiet].
    rewrite bind_lift. destruct (exca_token l t) as [n'|r] eqn:Hl2; [|by eapply exca_token_quiet].
    unfold mret, P_ret. split; [done|]. split; [by eapply exca_token_values|]. by rewrite Ht.
  - rewrite bool_decide_eq_false_2 by congruence. unfold mret, P_ret.
    split; [by apply looked_refl|]. split; [rewrite Hn; by left|].
    intros -> Hnone. eapply default_not_error; [by eapply ok_state|by apply Htok|done].
Qed.

(** Error recovery. *)
Lemma find_error_suffix s popped :
  match find_error s popped with
  | Panic r => r ≠ out_of_fuel
  | Done None => True
  | Done (Some (q, s', _)) => is_state q ∧ ∃ k, s = k ++ s'
  end.
Proof.
  revert popped. induction s as [|top rest IH]; intros popped; cbn; [done|].
  destruct (idx yyPact (yys top)) as [n|r] eqn:Hn; cbn; [|by eapply idx_quiet].
  assert (∀ (m : go (option (Z * list yySymType * list yySymType))),
    match m with Panic r => r ≠ out_of_fuel | Done None => True
    | Done (Some (q, s', _)) => is_state q ∧ ∃ k, rest = k ++ s' end →
    match m with Panic r => r ≠ out_of_fuel | Done None => True
    | Done (Some (q, s', _)) => is_state q ∧ ∃ k, top :: rest = k ++ s' end) as Hrest.
  { intros [[[[q s'] ?]|]|]; try done. intros (? & k & ->). split; [done|]. by exists (top :: k). }
  case_bool_decide; [|apply Hrest, IH].
  destruct (idx yyAct _) as [q|r] eqn:Hq; cbn; [|by eapply idx_quiet].
  destruct (idx yyChk q) as [chk|r] eqn:Hchk; cbn; [|by eapply idx_quiet].
  case_bool_decide; [|apply Hrest, IH].
  split; [|by exists []]. apply act_states. by eapply idx_elem.
Qed.

Lemma yyerror_pays y p :
  driver_ok y p → token y ≠ None →
  match yyerror y p with
  | Panic r => r ≠ out_of_fuel
  | Done (Return _, p') => p' = p
  | Done (Again y', p') => p' = p ∧ driver_ok y' p ∧ (potential y' p < potential y p)%Z
  end.
Proof.
  intros Hok Htok. unfold yyerror. destruct (Hok) as [Hr Hf Ht Hs]. case_bool_decide as Hflag.
  - case_bool_decide as Hend; [done|]. unfold mret, P_ret. split; [done|]. split; [by constructor|].
    unfold potential, tokens_of. cbn. destruct (token y) as [t|]; [|done].
    rewrite bool_decide_eq_false_2 by congruence. lia.
  - rewrite bind_lift. pose proof (find_error_suffix (yyS y) []) as Hfind.
    destruct (find_error (yyS y) []) as [[[[q s] popped]|]|r]; [|done|done].
    destruct Hfind as (Hq & k & Hk). unfold mret, P_ret. split; [done|]. split.
    + apply yystack_ok; [done|done|done|]. rewrite Hk in Hs. by apply Forall_app in Hs as [_ ?].
    + pose proof (credit_bounds _ Hq). pose proof (credit_bounds _ (ok_state y p Hok)).
      unfold potential. cbn [length yyS yystate token Errflag yystack]. rewrite Hk, length_app. lia.
Qed.

(** Reductions. *)
Lemma take_drop_length {A} (l : list A) (k : Z) (x : A) r :
  (0 ≤ k)%Z → drop (Z.to_nat k) l = x :: r →
  (Z.of_nat (length l) = k + Z.of_nat (length (x :: r)))%Z.
Proof.
  intros Hk Hd. assert (length (drop (Z.to_nat k) l) = length (x :: r)) as Hl by (by rewrite Hd).
  rewrite length_drop in Hl. cbn in *. lia.
Qed.

Lemma goto_quiet nt q r : goto_state nt q = Panic r → r ≠ out_of_fuel.
Proof.
  unfold goto_state. intros Hg.
  destruct (idx yyPgo nt) eqn:H1; [cbn in Hg|injection Hg as <-; by eapply idx_quiet].
  case_bool_decide; [by eapply idx_quiet|].
  destruct (idx yyAct (a + q + 1)) eqn:H2; [cbn in Hg|injection Hg as <-; by eapply idx_quiet].
  destruct (idx yyChk a0) eqn:H3; [cbn in Hg|injection Hg as <-; by eapply idx_quiet].
  case_bool_decide; [done|by eapply idx_quiet].
Qed.

Lemma yyreduce_pays n y p :
  driver_ok y p → (0 < n)%Z → n ∈ default_rules (yystate y) →
  match yyreduce n y p with
  | Panic r => r ≠ out_of_fuel
  | Done (y', p') => driver_ok y' p' ∧ (potential y' p' < potential y p)%Z ∧
                     (parseErrors p' = [] → parseErrors p = [])
  end.
Proof.
  intros Hok Hn Hin. pose proof (rules_pay _ _ (ok_state y p Hok) Hin) as Hpays.
  unfold rule_pays in Hpays. rewrite bool_decide_eq_false_2 in Hpays by lia. cbn [orb] in Hpays.
  unfold yyreduce. rewrite bind_lift.
  destruct (idx yyR2 n) as [k|r] eqn:Hk; [|by eapply idx_quiet].
  pose proof (rhs_positive _ _ Hk) as Hkpos. rewrite (idx_entry _ _ _ Hk) in Hpays.
  rewrite bind_lift. destruct (idx yyR1 n) as [nt|r] eqn:Hnt; [|by eapply idx_quiet].
  rewrite (idx_entry _ _ _ Hnt) in Hpays. cbv zeta.
  destruct (drop (Z.to_nat k) (yyS y)) as [|below rest] eqn:Hd; [done|].
  rewrite bind_lift. destruct (goto_state nt (yys below)) as [s|r] eqn:Hg; [|by eapply goto_quiet].
  set (d := λ i : Z, _). set (v := hd zero_sym _).
  pose proof (frames_action (λ _, True) n d v (λ _, I) p) as Hfr. rewrite bind_run.
  destruct (action n d v p) as [[v' p']|r]; [|exact Hfr]. unfold mret, P_ret.
  destruct Hfr as [Hl Hi Hj He _]. pose proof (goto_state_act _ _ _ Hg) as Hs.
  assert (Forall (λ v, is_state (yys v)) (below :: rest)) as Hall.
  { destruct Hok as [_ _ _ Hall]. rewrite <-(take_drop (Z.to_nat k) (yyS y)), Hd in Hall.
    by apply Forall_app in Hall as [_ ?]. }
  split; [|split; [|done]].
  - destruct Hok as [Hr Hf _ _]. apply yystack_ok; [by rewrite Hl|done|done|done].
  - assert (tokens_of (token y) p' = tokens_of (token y) p) as Htok
      by (unfold tokens_of, future; by rewrite Hl, Hi, Hj).
    pose proof (take_drop_length _ k _ _ Hkpos Hd) as Hlen.
    unfold potential. cbn [yyS yystate token Errflag yystack]. rewrite Htok, Hlen.
    cbn [length]. case_bool_decide as Hk0.
    + subst k. change (yyS y = below :: rest) in Hd. destruct Hok as [_ _ Ht _]. rewrite Hd in Ht. injection Ht as Ht.
      rewrite <-Ht, Hg in Hpays. apply bool_decide_eq_true in Hpays. cbn [go_value] in Hpays.
      rewrite <-Ht in *. lia.
    + apply bool_decide_eq_true in Hpays. inversion Hall as [|?? Hb _]; subst.
      pose proof (goto_credit _ _ _ Hg Hb). lia.
Qed.

(** A turn: errors stay. *)
Lemma yyturn_pays y p :
  driver_ok y p →
  match yyturn y p with
  | Panic r => r ≠ out_of_fuel
  | Done (Return _, p') => parseErrors p' = [] → parseErrors p = []
  | Done (Again y', p') => driver_ok y' p' ∧ (potential y' p' < potential y p)%Z ∧
                           (parseErrors p' = [] → parseErrors p = [])
  end.
Proof.
  intros Hok. unfold yyturn. rewrite bind_run. pose proof (try_shift_pays y p Hok) as Hsh.
  destruct (try_shift y p) as [[[[y2|] y1] p1]|r]; [exact Hsh| |exact Hsh].
  cbv beta iota. destruct Hsh as [Hlook Htok]. pose proof (looked_ok _ _ _ _ Hlook Hok) as Hok1.
  assert (yystate y1 = yystate y) as Hst by (by destruct Hlook as [-> _ _ _]).
  rewrite bind_run. pose proof (default_rule_ok y1 p1 Hok1) as Hdef.
  rewrite Hst in Hdef. specialize (Hdef Htok).
  destruct (default_rule y1 p1) as [[[n y3] p3]|r]; [|exact Hdef]. cbv beta iota.
  destruct Hdef as (Hlook3 & Hin & Hnone).
  pose proof (looked_ok _ _ _ _ Hlook3 Hok1) as Hok3.
  pose proof (looked_potential _ _ _ _ Hlook). pose proof (looked_potential _ _ _ _ Hlook3).
  assert (yystate y3 = yystate y) as Hst3 by (destruct Hlook3 as [-> _ _ _]; done).
  assert (parseErrors p3 = [] → parseErrors p = []) as Herrs.
  { destruct Hlook as [_ [] _ _], Hlook3 as [_ [] _ _]. auto. }
  case_bool_decide; [done|]. case_bool_decide as Hz.
  - pose proof (yyerror_pays y3 p3 Hok3 (Hnone Hz)) as Herr.
    destruct (yyerror y3 p3) as [[[y4|c] p4]|r]; [|by subst p4|done].
    destruct Herr as (-> & ? & ?). split; [done|]. split; [lia|done].
  - rewrite bind_run. rewrite <-Hst3 in Hin.
    pose proof (yyreduce_pays n y3 p3 Hok3 ltac:(lia) Hin) as Hred.
    destruct (yyreduce n y3 p3) as [[y4 p4]|r]; [|exact Hred].
    unfold mret, P_ret. destruct Hred as (? & ? & ?). split; [done|]. split; [lia|auto].
Qed.

(** What a turn that does not shift has done before it returns, recovers or
    reduces by rule [n]. *)
Record defaulted (y : yyParser) (p : parser) (n : Z) (y' : yyParser) (p' : parser) : Prop := Defaulted {
  df_unshifted : ∃ y1 p1, try_shift y p = Done ((None, y1), p1) ∧ driver_ok y1 p1 ∧ looked y p y1 p1 ∧
    default_rule y1 p1 = Done ((n, y'), p');
  df_looked : looked y p y' p';
  df_ok : driver_ok y' p';
  df_rule : n ∈ default_rules (yystate y');
  df_token : n = 0%Z → token y' ≠ None;
}.

Inductive turned (y : yyParser) (p : parser) : turn → parser → Prop :=
| turned_shift y1 y2 p' : try_shift y p = Done ((Some y2, y1), p') → turned y p (Again y2) p'
| turned_accept n y' p' : defaulted y p n y' p' → (n < 0)%Z → turned y p (Return 0) p'
| turned_error y' p1 t p' : defaulted y p 0 y' p1 → yyerror y' p1 = Done (t, p') → turned y p t p'
| turned_reduce n y' p1 y2 p' :
    defaulted y p n y' p1 → (0 < n)%Z → yyreduce n y' p1 = Done (y2, p') → turned y p (Again y2) p'.

Lemma yyturn_turned y p t p' : driver_ok y p → yyturn y p = Done (t, p') → turned y p t p'.
Proof.
  intros Hok. unfold yyturn. rewrite bind_run. pose proof (try_shift_pays y p Hok) as Hsh.
  destruct (try_shift y p) as [[[[y2|] y1] p1]|r] eqn:Hshift; [| |done].
  { unfold mret, P_ret. intros [= <- <-]. by econstructor. }
  cbv beta iota. destruct Hsh as [Hlook Htok]. pose proof (looked_ok _ _ _ _ Hlook Hok) as Hok1.
  assert (yystate y1 = yystate y) as Hst by (by destruct Hlook as [-> _ _ _]).
  rewrite bind_run. pose proof (default_rule_ok y1 p1 Hok1) as Hdef. rewrite Hst in Hdef. specialize (Hdef Htok).
  destruct (default_rule y1 p1) as [[[n y3] p3]|r] eqn:Hrule; [|done]. cbv beta iota.
  destruct Hdef as (Hlook3 & Hin & Hnone). pose proof (looked_ok _ _ _ _ Hlook3 Hok1) as Hok3.
  assert (yystate y3 = yystate y) as Hst3 by (destruct Hlook3 as [-> _ _ _]; done).
  assert (defaulted y p n y3 p3) as Hd.
  { constructor; [by exists y1, p1|by eapply looked_trans|done|by rewrite Hst3|done]. }
  case_bool_decide; [unfold mret, P_ret; intros [= <- <-]; by eapply turned_accept|].
  case_bool_decide as Hz; [subst n; by eapply turned_error|].
  rewrite bind_run. destruct (yyreduce n y3 p3) as [[y4 p4]|r] eqn:Hyr; [|done].
  unfold mret, P_ret. intros [= <- <-]. eapply turned_reduce; [done|lia|done].
Qed.

Lemma yyParse_step f y p :
  yyParse (S f) y p = match yyturn y p with
    | Done (Again y', p') => yyParse f y' p'
    | Done (Return c, p') => Done (c, p')
    | Panic r => Panic r
    end.
Proof. cbn [yyParse]. rewrite bind_run. by destruct (yyturn y p) as [[[] ?]|]. Qed.

Lemma yyParse_errors fuel y p c p' :
  driver_ok y p → yyParse fuel y p = Done (c, p') → parseErrors p' = [] → parseErrors p = [].
Proof.
  revert y p. induction fuel as [|fuel IH]; intros y p Hok; [done|]. rewrite yyParse_step.
  pose proof (yyturn_pays y p Hok) as Ht. destruct (yyturn y p) as [[[y'|c'] p1]|r]; [| |done].
  - destruct Ht as (Hok' & _ & He). intros Hp Hp'. apply He. by eapply IH.
  - by intros [= <- <-].
Qed.

Lemma yyParse_ends fuel y p :
  driver_ok y p → (potential y p < Z.of_nat fuel)%Z →
  yyParse fuel y p ≠ Panic out_of_fuel ∧ ∀ more, yyParse (fuel + more) y p = yyParse fuel y p.
Proof.
  revert y p. induction fuel as [|fuel IH]; intros y p Hok Hf.
  { pose proof (potential_pos y p Hok). lia. }
  cbn [Nat.add]. setoid_rewrite yyParse_step. pose proof (yyturn_pays y p Hok) as Ht.
  destruct (yyturn y p) as [[[y'|c] p']|r]; [|done|].
  - destruct Ht as (Hok' & Hlt & _). apply IH; [done|lia].
  - split; [congruence|done].
Qed.

Lemma yyinit_ok s start :
  driver_ok yyinit (MkParser (Lex s) start true 0 None []) ∧
  (potential yyinit (MkParser (Lex s) start true 0 None []) < Z.of_nat (turns (String.length s)))%Z.
Proof.
  split.
  - constructor; [apply Lex_ready|by cbn|done|]. constructor; [|constructor]. cbn. unfold is_state. lia.
  - unfold potential, tokens_of, future, turns, remaining. cbn [yyinit yystack yyS length token yystate
      Errflag lex inject injecting Lex input pos].
    change (credit 0) with 0%Z. case_bool_decide; lia.
Qed.

(** The parser ends on every input: it takes at most [turns] turns, and
    more would change nothing. *)
Lemma parseGenerated_ends start s more :
  parseGenerated start (newParser s) ≠ Panic out_of_fuel ∧
  yyParse (turns (String.length s) + more) yyinit (MkParser (Lex s) start true 0 None []) =
  yyParse (turns (String.length s)) yyinit (MkParser (Lex s) start true 0 None []).
Proof.
  destruct (yyinit_ok s start) as [Hok Hpot].
  destruct (yyParse_ends _ _ _ Hok Hpot) as [Hne Hmore]. split; [|apply Hmore].
  unfold parseGenerated. rewrite bind_run. cbn [set_inject newParser lex inject injecting
    lastClosing generatedParserResult parseErrors]. rewrite bind_get.
  cbn [lex input Lex]. rewrite bind_run. destruct (yyParse _ _ _) as [[]|r]; [done|]. congruence.
Qed.
End Ends.
