(* ===== verification/Grammar.v ===== *)
(** * The automaton of the parser reads the grammar

    The stack of the driver is a path of the automaton, and a state that
    reduces by a rule ends a path that spells the right-hand side of the
    rule.  [preds] and [rhs] are certificates that are checked over the
    tables of goyacc: [rhs] is the grammar of generated_parser.y, read back
    from them. *)
From S2P Require Import Prelude GoStrings GoFloat Regexp Matchers Promql Errors.
From S2P Require Import GoTime Strutil Lexer LexerSpec ParserTables Parser ParserDriver.
From stdpp Require Import options.

(** The states from which the automaton enters each state. *)
Definition preds : list (list Z) := [
  []; [0]; [0]; [0]; [0]; [0]; [0]; [1]; [2]; [2; 3]; [2; 3]; [2; 3; 5]; [2; 3; 5];
  [2; 3; 4; 5; 48; 50; 98; 114; 119; 120; 121; 122; 123; 124; 125; 126; 127; 128; 129; 130; 131; 132; 221];
  [2; 3; 5]; [2; 3; 5]; [2; 3; 5];
  [2; 3; 4; 5; 48; 50; 98; 114; 119; 120; 121; 122; 123; 124; 125; 126; 127; 128; 129; 130; 131; 132; 221];
  [2; 3; 4; 5; 48; 50; 98; 114; 119; 120; 121; 122; 123; 124; 125; 126; 127; 128; 129; 130; 131; 132; 221];
  [2; 3; 4; 5; 48; 50; 98; 114; 119; 120; 121; 122; 123; 124; 125; 126; 127; 128; 129; 130; 131; 132; 221];
  [2; 3; 5];
  [2; 3; 4; 5; 48; 50; 98; 114; 119; 120; 121; 122; 123; 124; 125; 126; 127; 128; 129; 130; 131; 132; 221];
  [2; 3; 5];
  [2; 3; 4; 5; 48; 50; 98; 114; 119; 120; 121; 122; 123; 124; 125; 126; 127; 128; 129; 130; 131; 132; 221];
  [2; 3; 5]; [2; 3; 5]; [2; 3; 5]; [2; 3; 5]; [2; 3; 5]; [2; 3; 9]; [3]; [3]; [4]; [4];
  [4; 48; 50; 98; 114; 119; 120; 121; 122; 123; 124; 125; 126; 127; 128; 129; 130; 131; 132; 221];
  [4; 48; 50; 98; 114; 119; 120; 121; 122; 123; 124; 125; 126; 127; 128; 129; 130; 131; 132; 221];
  [4; 48; 50; 98; 114; 119; 120; 121; 122; 123; 124; 125; 126; 127; 128; 129; 130; 131; 132; 221];
  [4; 48; 50; 98; 114; 119; 120; 121; 122; 123; 124; 125; 126; 127; 128; 129; 130; 131; 132; 221];
  [4; 48; 50; 98; 114; 119; 120; 121; 122; 123; 124; 125; 126; 127; 128; 129; 130; 131; 132; 221];
  [4; 48; 50; 98; 114; 119; 120; 121; 122; 123; 124; 125; 126; 127; 128; 129; 130; 131; 132; 221];
  [4; 48; 50; 98; 114; 119; 120; 121; 122; 123; 124; 125; 126; 127; 128; 129; 130; 131; 132; 221];
  [4; 48; 50; 98; 114; 119; 120; 121; 122; 123; 124; 125; 126; 127; 128; 129; 130; 131; 132; 221];
  [4; 48; 50; 98; 114; 119; 120; 121; 122; 123; 124; 125; 126; 127; 128; 129; 130; 131; 132; 221];
  [4; 48; 50; 98; 114; 119; 120; 121; 122; 123; 124; 125; 126; 127; 128; 129; 130; 131; 132; 221];
  [4; 48; 50; 98; 114; 119; 120; 121; 122; 123; 124; 125; 126; 127; 128; 129; 130; 131; 132; 221];
  [4; 48; 50; 98; 114; 119; 120; 121; 122; 123; 124; 125; 126; 127; 128; 129; 130; 131; 132; 221];
  [4; 48; 50; 98; 114; 119; 120; 121; 122; 123; 124; 125; 126; 127; 128; 129; 130; 131; 132; 221];
  [4; 48; 50; 98; 114; 119; 120; 121; 122; 123; 124; 125; 126; 127; 128; 129; 130; 131; 132; 221];
  [4; 48; 50; 98; 114; 119; 120; 121; 122; 123; 124; 125; 126; 127; 128; 129; 130; 131; 132; 221];
  [4; 48; 50; 98; 114; 119; 120; 121; 122; 123; 124; 125; 126; 127; 128; 129; 130; 131; 132; 221];
  [4; 48; 50; 98; 114; 119; 120; 121; 122; 123; 124; 125; 126; 127; 128; 129; 130; 131; 132; 221];
  [4; 5; 48; 50; 98; 114; 119; 120; 121; 122; 123; 124; 125; 126; 127; 128; 129; 130; 131; 132; 221];
  [4; 5; 48; 50; 98; 114; 119; 120; 121; 122; 123; 124; 125; 126; 127; 128; 129; 130; 131; 132; 221];
  [4; 48; 50; 98; 114; 119; 120; 121; 122; 123; 124; 125; 126; 127; 128; 129; 130; 131; 132; 221];
  [4; 48; 50; 98; 114; 119; 120; 121; 122; 123; 124; 125; 126; 127; 128; 129; 130; 131; 132; 221];
  [4; 48; 50; 98; 114; 119; 120; 121; 122; 123; 124; 125; 126; 127; 128; 129; 130; 131; 132; 221];
  [4; 48; 50; 98; 114; 119; 120; 121; 122; 123; 124; 125; 126; 127; 128; 129; 130; 131; 132; 221];
  [4; 48; 50; 98; 114; 119; 120; 121; 122; 123; 124; 125; 126; 127; 128; 129; 130; 131; 132; 221];
  [4; 48; 50; 98; 114; 119; 120; 121; 122; 123; 124; 125; 126; 127; 128; 129; 130; 131; 132; 221];
  [4; 48; 50; 98; 114; 119; 120; 121; 122; 123; 124; 125; 126; 127; 128; 129; 130; 131; 132; 221];
  [4; 48; 50; 98; 114; 119; 120; 121; 122; 123; 124; 125; 126; 127; 128; 129; 130; 131; 132; 221];
  [4; 48; 50; 98; 114; 119; 120; 121; 122; 123; 124; 125; 126; 127; 128; 129; 130; 131; 132; 221];
  [4; 48; 50; 98; 114; 119; 120; 121; 122; 123; 124; 125; 126; 127; 128; 129; 130; 131; 132; 221];
  [4; 48; 50; 98; 114; 119; 120; 121; 122; 123; 124; 125; 126; 127; 128; 129; 130; 131; 132; 221];
  [4; 48; 50; 98; 114; 119; 120; 121; 122; 123; 124; 125; 126; 127; 128; 129; 130; 131; 132; 221];
  [4; 48; 50; 98; 114; 119; 120; 121; 122; 123; 124; 125; 126; 127; 128; 129; 130; 131; 132; 221];
  [4; 5; 48; 50; 51; 98; 114; 119; 120; 121; 122; 123; 124; 125; 126; 127; 128; 129; 130; 131; 132; 221];
  [5]; [9]; [29]; [29]; [29]; [29; 109]; [29; 109]; [31]; [31];
  [33; 100; 146; 176; 177; 178; 179; 180; 181; 182; 183; 186; 242];
  [33; 100; 146; 170; 176; 177; 178; 179; 180; 181; 182; 183; 186; 188; 242];
  [33; 100; 146; 179; 180; 183; 242]; [33; 100; 146; 179; 180; 183; 242];
  [33; 100; 146; 179; 180; 183; 242]; [33; 100; 146; 180; 242]; [33; 100; 146; 242];
  [33; 100; 146; 179; 180; 183; 242]; [33; 100; 146; 179; 180; 183; 242];
  [33; 100; 146; 180; 242];
  [33; 100; 146; 170; 176; 177; 178; 179; 180; 181; 182; 183; 186; 188; 242];
  [33; 100; 146; 170; 176; 177; 178; 179; 180; 181; 182; 183; 186; 188; 242];
  [33; 100; 146; 179; 180; 183; 242];
  [33; 100; 101; 146; 170; 175; 176; 177; 178; 179; 180; 181; 182; 183; 184; 185; 186; 187; 188; 242];
  [33; 100; 146; 176; 177; 178; 179; 180; 181; 182; 183; 186; 242];
  [33; 100; 101; 146; 170; 175; 176; 177; 178; 179; 180; 181; 182; 183; 184; 185; 186; 187; 188; 242];
  [33; 100; 101; 146; 170; 175; 176; 177; 178; 179; 180; 181; 182; 183; 184; 185; 186; 187; 188; 242];
  [45]; [45]; [45]; [45; 94]; [45; 94]; [45; 46; 93]; [46]; [48]; [50]; [51]; [66]; [66]; [66];
  [66; 149]; [66; 149]; [69]; [69]; [69]; [72]; [72]; [74]; [76];
  [76; 77; 78; 79; 80; 81; 82; 83; 84; 85; 86; 87; 88; 89; 90];
  [76; 77; 78; 79; 80; 81; 82; 83; 84; 85; 86; 87; 88; 89; 90];
  [76; 77; 78; 79; 80; 81; 82; 83; 84; 85; 86; 87; 88; 89; 90];
  [76; 77; 78; 79; 80; 81; 82; 83; 84; 85; 86; 87; 88; 89; 90]; [77]; [78]; [79]; [80]; [81];
  [82]; [83]; [84]; [85]; [86]; [87]; [88]; [89]; [90]; [91]; [91]; [91; 92; 190]; [92]; [92];
  [93]; [94]; [96]; [96; 97; 171; 172; 173; 174]; [96; 97; 171; 172; 173; 174]; [97]; [98]; [98];
  [98]; [100]; [103]; [103]; [103]; [106]; [106]; [106]; [106]; [106]; [106]; [109]; [109];
  [111]; [111]; [113]; [113]; [113]; [113]; [113]; [113]; [113; 168; 169]; [113; 163];
  [113; 163]; [114]; [116]; [116]; [117]; [117]; [119]; [120]; [121]; [122]; [123]; [124]; [125];
  [126]; [127]; [128]; [129]; [130]; [131]; [132]; [136]; [136]; [136]; [141]; [141]; [141];
  [141; 240]; [141; 240]; [141; 240]; [141; 240]; [141; 240]; [141; 240]; [141; 240]; [141; 240];
  [141; 240]; [141; 240]; [141; 240]; [141; 240]; [141; 240]; [141; 240]; [141; 240]; [141; 240];
  [141; 240]; [141; 240]; [141; 240]; [141; 240]; [141; 240]; [141; 240]; [141; 240]; [141; 240];
  [141; 240]; [144]; [144]; [149]; [149]; [151]; [151]; [162]; [163]; [163]; [168]; [169]; [171];
  [172]; [173]; [173; 174]; [174]; [190]; [190]; [190]; [192]; [192]; [192]; [221]; [226];
  [226; 227; 246]; [227]; [228]; [236]; [237]; [240]; [240]; [246]]%Z.

(** The symbols on the right-hand side of each rule: a token, or minus the
    number of a nonterminal. *)
Definition rhs : list (list Z) := [
  []; [68; -11]; [69; -45]; [70; 10]; [70; -27]; [71; -41]; [-44; 10]; [2]; [-22]; [-25]; [-28];
  [-33]; [-34]; [-35]; [-37]; [-38]; [-39]; [-40]; [-41]; [-3; -23; -30]; [-3; -30; -23];
  [-3; -30]; [-3; 2]; [59; -14]; [65; -14]; [-27; 26; -24; -27]; [-27; 27; -24; -27];
  [-27; 28; -24; -27]; [-27; 30; -24; -27]; [-27; 31; -24; -27]; [-27; 32; -24; -27];
  [-27; 33; -24; -27]; [-27; 34; -24; -27]; [-27; 35; -24; -27]; [-27; 36; -24; -27];
  [-27; 37; -24; -27]; [-27; 38; -24; -27]; [-27; 39; -24; -27]; [-27; 41; -24; -27];
  [-27; 42; -24; -27]; [-31]; []; [58]; [-26; 62; -14]; [-26; 64; -14]; [-26]; [-36];
  [-36; 60; -15]; [-36; 61; -15]; [15; -13; 20]; [15; -13; 7; 20]; [15; 20]; [2]; [-13; 7; -4];
  [-4]; [-13; 2]; [-6]; [2]; [12; -30]; [15; -29; 20]; [15; 20]; [-29; 7; -27]; [-27]; [-29; 7];
  [15; -27; 20]; [-27; 63; -42]; [-27; 63; 2]; [-27; 14; -42; 19]; [-27; 14; -42; 6; -43; 19];
  [-27; 14; -42; 6; -42; 2]; [-27; 14; -42; 6; 2]; [-27; 14; -42; 2]; [-27; 14; 2]; [-8; -27];
  [-7; -32]; [-7]; [-32]; [13; -1; 18]; [13; -1; 7; 18]; [13; 18]; [-1; 7; -2]; [-2]; [-1; 2];
  [12; -5; 23]; [12; -5; 2]; [12; 2]; [2]; [-7; -9]; [-9]; [45]; [46]; [59]; [47]; [48]; [12];
  [32]; [33]; [36]; [49]; [16]; [50]; [63]; [51]; [52]; [53]; [54]; [55]; [13; -10; 18];
  [13; -10; 7; 18]; [13; 18]; []; [-10; 7; -12]; [-12]; [-10; 2]; [12; 28; 23]; [12; 28; 2];
  [12; 2]; [2]; [-11; -17]; []; [-17; 22; -16]; [-17; 22]; [2]; [5]; [5; 24; -18]; [-20];
  [-20; 24; -18]; [-20; -21; 24; -18]; [12]; [-19]; [-21]; [45]; [46]; [47]; [48]; [49]; [50];
  [51]; [52]; [53]; [54]; [55]; [45]; [58]; [46]; [59]; [47]; [48]; [60]; [61]; [12]; [62]; [32];
  [33]; [36]; [49]; [16]; [50]; [63]; [64]; [51]; [52]; [53]; [54]; [55]; [26]; [42]; [28]; [39];
  [29]; [40]; [17]; [17]; [26; -19]; [42; -19]; [17]; [9]; [23]; []; [-42]; []; [-14]]%Z.

Definition preds_of (s : Z) : list Z := nth (Z.to_nat s) preds [].
Definition rhs_of (n : Z) : list Z := nth (Z.to_nat n) rhs [].
Definition rules : list Z := Z.of_nat <$> seq 1 181.

(** The symbol that leads into a state. *)
Definition symbol (s : Z) : Z := entry yyChk s.

#[global] Arguments preds_of : simpl never.
#[global] Arguments rhs_of : simpl never.
#[global] Arguments symbol : simpl never.
#[global] Arguments entry : simpl never.

(** A stack of states, top first. *)
Fixpoint path (l : list Z) : Prop :=
  match l with
  | a :: (b :: _) as rest => b ∈ preds_of a ∧ path rest
  | _ => True
  end.

Lemma path_drop k l : path l → path (drop k l).
Proof.
  revert l. induction k as [|k IH]; intros l Hl; [by destruct l|]. destruct l as [|a l]; [done|].
  cbn [drop]. apply IH. destruct l; [done|]. by destruct Hl.
Qed.

(** The states below [cur] by a path that spells [syms], last symbol
    first. *)
Fixpoint walk_back (syms cur : list Z) : option (list Z) :=
  match syms with
  | [] => Some cur
  | x :: syms =>
      if forallb (λ s, bool_decide (symbol s = x)) cur
      then walk_back syms (remove_dups (cur ≫= preds_of)) else None
  end.

Lemma walk_back_path syms cur cur' s l :
  walk_back syms cur = Some cur' → s ∈ cur → path (s :: l) → length syms ≤ length l →
  symbol <$> take (length syms) (s :: l) = syms ∧
  ∃ q rest, drop (length syms) (s :: l) = q :: rest ∧ q ∈ cur'.
Proof.
  revert cur s l. induction syms as [|x syms IH]; intros cur s l Hw Hs Hp Hlen; cbn in Hw.
  { injection Hw as <-. split; [done|]. by exists s, l. }
  destruct (forallb _ cur) eqn:Hall; [|done].
  rewrite forallb_forall in Hall. apply list_elem_of_In in Hs as Hx.
  apply Hall, bool_decide_eq_true in Hx. destruct l as [|b l]; [cbn in Hlen; lia|].
  destruct Hp as [Hb Hp]. cbn in Hlen.
  assert (b ∈ remove_dups (cur ≫= preds_of)) as Hin
    by (apply elem_of_remove_dups, list_elem_of_bind; eauto).
  destruct (IH _ _ _ Hw Hin Hp ltac:(lia)) as [Hsym Hq]. cbn [length take drop fmap list_fmap] in *.
  split; [by rewrite Hx, Hsym|done].
Qed.

(** ** The checks *)
Definition shift_ok (s : Z) : bool :=
  forallb (λ t,
    let j := (entry yyPact s + t)%Z in
    if bool_decide (yyFlag < entry yyPact s)%Z && bool_decide (0 ≤ j < yyLast)%Z then
      let q := entry yyAct j in
      negb (bool_decide (symbol q = t)) || bool_decide (s ∈ preds_of q)
    else true) (Z.of_nat <$> seq 2 72).

Definition rule_ok (s n : Z) : bool :=
  bool_decide (n ≤ 0)%Z ||
  (bool_decide (n ∈ rules) && bool_decide (entry yyR2 n = Z.of_nat (length (rhs_of n))) &&
   match walk_back (reverse (rhs_of n)) [s] with
   | None => false
   | Some cur => forallb (λ q, match goto_state (entry yyR1 n) q with
       | Done s' => bool_decide (q ∈ preds_of s') && bool_decide (symbol s' = - entry yyR1 n)%Z
       | Panic _ => true
       end) cur
   end).
Definition state_ok (s : Z) : bool := shift_ok s && forallb (rule_ok s) (default_rules s).

Lemma states_ok s : is_state s → state_ok s = true.
Proof. apply for_states. vm_compute. reflexivity. Qed.

Definition token_ok (t : Z) : bool := negb (bool_decide (0 < t)%Z) || bool_decide (t ∈ Z.of_nat <$> seq 2 72).
Lemma symbol_token q t : idx yyChk q = Done t → (0 < t)%Z → t ∈ Z.of_nat <$> seq 2 72.
Proof.
  intros Hq Ht. assert (forallb token_ok yyChk = true) as Hf by (vm_compute; reflexivity).
  rewrite forallb_forall in Hf. apply idx_elem, list_elem_of_In, Hf in Hq. unfold token_ok in Hq.
  rewrite bool_decide_eq_true_2 in Hq by done. by apply bool_decide_eq_true in Hq.
Qed.

(** A shift is a step of the automaton. *)
Lemma shift_edge s n t q :
  is_state s → idx yyPact s = Done n → (yyFlag < n)%Z → (0 < t)%Z →
  (0 ≤ n + t < yyLast)%Z → idx yyAct (n + t) = Done q → idx yyChk q = Done t →
  s ∈ preds_of q ∧ symbol q = t.
Proof.
  intros Hs%states_ok Hn Hflag Ht Hj Hq Hchk. apply andb_true_iff in Hs as [Hs _].
  unfold shift_ok in Hs. rewrite forallb_forall in Hs.
  pose proof (symbol_token _ _ Hchk Ht) as Hin%list_elem_of_In. apply Hs in Hin. cbn zeta in Hin.
  rewrite (idx_entry _ _ _ Hn), (idx_entry _ _ _ Hq) in Hin.
  rewrite !bool_decide_eq_true_2 in Hin by done. cbn [andb] in Hin.
  assert (symbol q = t) as Hsym by (by apply idx_entry). rewrite Hsym in Hin.
  rewrite bool_decide_eq_true_2 in Hin by done. by apply bool_decide_eq_true in Hin.
Qed.

(** What a reduction pops spells the rule, and its result is a step of the
    automaton. *)
Record reduced (s n : Z) (l : list Z) (below s' : Z) : Prop := Reduced {
  reduced_rule : n ∈ rules;
  reduced_popped : symbol <$> take (length (rhs_of n)) (s :: l) = reverse (rhs_of n);
  reduced_edge : below ∈ preds_of s';
  reduced_symbol : symbol s' = (- entry yyR1 n)%Z;
}.

Lemma rule_length s n k :
  is_state s → n ∈ default_rules s → (0 < n)%Z → idx yyR2 n = Done k →
  k = Z.of_nat (length (rhs_of n)).
Proof.
  intros Hs%states_ok Hn Hpos Hk. apply andb_true_iff in Hs as [_ Hs].
  rewrite forallb_forall in Hs. apply list_elem_of_In, Hs in Hn. unfold rule_ok in Hn.
  apply orb_true_iff in Hn as [Hn|Hn]; [apply bool_decide_eq_true in Hn; lia|].
  apply andb_true_iff in Hn as [[_ Hn]%andb_true_iff _]. apply bool_decide_eq_true in Hn.
  by rewrite <-Hn, (idx_entry _ _ _ Hk).
Qed.

Lemma rule_reduces s n l nt below rest s' :
  is_state s → n ∈ default_rules s → (0 < n)%Z → path (s :: l) → idx yyR1 n = Done nt →
  drop (length (rhs_of n)) (s :: l) = below :: rest → goto_state nt below = Done s' →
  reduced s n l below s'.
Proof.
  intros Hs%states_ok Hn Hpos Hp Hnt Hd Hg. apply andb_true_iff in Hs as [_ Hs].
  rewrite forallb_forall in Hs. apply list_elem_of_In, Hs in Hn. unfold rule_ok in Hn.
  apply orb_true_iff in Hn as [Hn|Hn]; [apply bool_decide_eq_true in Hn; lia|].
  apply andb_true_iff in Hn as [[Hin _]%andb_true_iff Hwalk]. apply bool_decide_eq_true in Hin.
  destruct (walk_back _ _) as [cur|] eqn:Hw; [|done].
  assert (length (rhs_of n) ≤ length l) as Hlen.
  { assert (length (drop (length (rhs_of n)) (s :: l)) = S (length rest)) as Hl by (by rewrite Hd).
    rewrite length_drop in Hl. cbn in Hl. lia. }
  destruct (walk_back_path _ _ _ s l Hw ltac:(by left) Hp) as (Hsym & q & rest' & Hd' & Hq);
    [by rewrite length_reverse|].
  rewrite length_reverse in Hsym, Hd'. rewrite Hd in Hd'. injection Hd' as <- <-.
  rewrite forallb_forall in Hwalk. apply list_elem_of_In, Hwalk in Hq.
  rewrite (idx_entry _ _ _ Hnt), Hg in Hq. apply andb_true_iff in Hq as [Hb Hsy].
  apply bool_decide_eq_true in Hb. apply bool_decide_eq_true in Hsy.
  constructor; try done. by rewrite (idx_entry _ _ _ Hnt).
Qed.
