(* ===== verification/ParserSpec.v ===== *)
(** * The trees of the parser

    An input without errors gives a complete, well-formed tree.  While no
    error is recorded, each value of the stack has the kind of the symbol
    that its state was entered by; an action maps the kinds of the
    right-hand side of its rule to the kind of the left-hand side. *)
From S2P Require Import Prelude GoStrings GoFloat Regexp Matchers Promql Rewriting Errors.
From S2P Require Import GoTime Strutil Lexer LexerSpec ParserTables Parser ParserDriver Grammar.
From stdpp Require Import options.

Section Trees.
Context `{RE : RegexpEngine, !UnicodeTable}.

(** ** Trees *)
Definition good_matcher (m : option Labels.Matcher) : Prop := ∃ m', m = Some m' ∧ Labels.wf m'.

(** A node that stands for a complete expression. *)
Definition complete (n : node) : Prop := ∃ e, to_Expr n = Some e ∧ wf_expr e.

Lemma good_matchers_trees ms :
  Forall good_matcher ms ↔ ∃ l, mapM id ms = Some l ∧ Forall Labels.wf l.
Proof.
  split.
  - induction 1 as [|m ms (m' & -> & Hm) _ (l & Hl & Hwf)]; [by exists []|].
    exists (m' :: l). cbn. rewrite Hl. auto.
  - intros (l & Hl & Hwf). apply mapM_Some in Hl. induction Hl as [|m o l ms Hm _ IH]; [done|].
    inversion Hwf; subst. constructor; [by exists o|auto].
Qed.

Lemma complete_selector name o ms r : complete (NVectorSelector name o ms r) ↔ Forall good_matcher ms.
Proof.
  rewrite good_matchers_trees. unfold complete. cbn. split.
  - intros (e & (l & Hl & ->)%fmap_Some & Hwf). by exists l.
  - intros (l & -> & Hwf). eexists. by split.
Qed.
Lemma complete_is_Expr n : complete n → as_Expr (Some n) = Done n.
Proof. intros (e & He & _). by destruct n. Qed.
Lemma complete_vectors name o ms r range e :
  Forall good_matcher ms → complete (NMatrixSelector (NVectorSelector name o ms r) range e).
Proof.
  intros (l & Hl & Hwf)%good_matchers_trees. unfold complete. cbn. rewrite Hl. eexists. by split.
Qed.
Lemma complete_range n range e :
  range_error (Some n) = EmptyString → complete n → complete (NMatrixSelector n range e).
Proof. destruct n; try done. intros _ Hn%complete_selector. by apply complete_vectors. Qed.
Lemma complete_matrix n range e :
  complete (NMatrixSelector n range e) → complete n ∧ ∃ name o ms r, n = NVectorSelector name o ms r.
Proof.
  intros (x & (y & Hy & [= <-])%bind_Some & Hwf). split; [exists y; split; [done|by destruct y]|].
  destruct y; try done. destruct n as [| |? [] []|[]| | | | | | |]; cbn in Hy; simplify_option_eq; eauto.
Qed.
Lemma complete_subquery n r o s e : complete n ↔ complete (NSubqueryExpr n r o s e).
Proof.
  unfold complete. cbn. split.
  - intros (x & -> & Hx). eexists. by split.
  - intros (x & (y & Hy & [= <-])%bind_Some & Hx). by exists y.
Qed.
Lemma complete_paren n r : complete n ↔ complete (NParenExpr n r).
Proof.
  unfold complete. cbn. split.
  - intros (x & -> & Hx). eexists. by split.
  - intros (x & (y & Hy & ->)%fmap_Some & Hx). by exists y.
Qed.
Lemma complete_unary op n s : complete n ↔ complete (NUnaryExpr op n s).
Proof.
  unfold complete. cbn. split.
  - intros (x & -> & Hx). eexists. by split.
  - intros (x & (y & Hy & ->)%fmap_Some & Hx). by exists y.
Qed.
Lemma complete_binary op l r vm b :
  complete (NBinaryExpr op l r vm b) ↔ ∃ l' r', l = Some l' ∧ r = Some r' ∧ complete l' ∧ complete r'.
Proof.
  unfold complete. split.
  - destruct l as [l|], r as [r|]; intros (e & He & Hwf); try done. cbn in He.
    apply bind_Some in He as (x & Hx & He). apply bind_Some in He as (y & Hy & [= <-]).
    destruct Hwf. exists l, r. eauto 10.
  - intros (l' & r' & -> & -> & (x & Hx & Hwx) & (y & Hy & Hwy)). cbn. rewrite Hx, Hy.
    eexists. by split.
Qed.
Definition complete_opt (n : option node) : Prop := match n with Some n => complete n | None => True end.
Lemma complete_aggregate op e p g w r :
  complete (NAggregateExpr op e p g w r) ↔ complete_opt e ∧ complete_opt p.
Proof.
  unfold complete, complete_opt. split.
  - intros (x & Hx & Hwf).
    destruct e as [e|], p as [p|]; cbn in Hx; simplify_option_eq; destruct Hwf; unfold complete; eauto 6.
  - destruct e as [e|], p as [p|]; cbn; unfold complete; intros [He Hp];
      repeat match goal with H : ∃ _, _ |- _ => destruct H as (? & -> & ?) end; eexists; by split.
Qed.
Lemma complete_call f args r :
  complete (NCall f args r) ↔ (∃ f', f = Some f') ∧ Forall complete args.
Proof.
  unfold complete at 1. cbn [to_Expr]. split.
  - destruct f as [f|]; intros (x & Hx & Hwf); [|done]. split; [by exists f|].
    apply bind_Some in Hx as (es & Hes & [= <-]). cbn [wf_expr] in Hwf. revert es Hes Hwf.
    induction args as [|a l IH]; intros es Hes Hwf; [done|].
    apply bind_Some in Hes as (e1 & He1 & Hes). apply bind_Some in Hes as (es1 & Hes1 & [= <-]).
    destruct Hwf. constructor; [by exists e1|eauto].
  - intros [[f' ->] Hargs]. induction Hargs as [|a l (e & He & Hwf) _ (x & Hx & Hwx)].
    { eexists. by split. }
    apply bind_Some in Hx as (es & Hes & [= <-]). exists (Call f' (e :: es)). rewrite He, Hes. by split.
Qed.
Lemma not_complete_list l : ¬ complete (Expressions_ l).
Proof. by intros (e & He & _). Qed.

(** A node as the parser builds it, before the checks: the name of a
    selector is its last matcher, no matching is many to many, and an
    aggregation has a parameter just if its operator takes one. *)
Definition name_last (name : string) (ms : list (option Labels.Matcher)) : Prop :=
  name ≠ EmptyString → ∃ k, ms = k ++ [Some (Labels.MkMatcher Labels.MatchEqual Labels.MetricName name None)].
Definition is_many_to_one_or_one (vm : option VectorMatching) : Prop :=
  ∃ m, vm = Some m ∧ is_many_to_many (Card m) = false.
Fixpoint raw (n : node) : Prop :=
  let raw_opt n := match n with Some n => raw n | None => True end in
  match n with
  | Expressions_ l => foldr (λ n P, raw n ∧ P) True l
  | NAggregateExpr op e p _ _ _ =>
      raw_opt e ∧ raw_opt p ∧ IsAggregatorWithParam op = bool_decide (is_Some p)
  | NBinaryExpr _ l r vm _ => raw_opt l ∧ raw_opt r ∧ is_many_to_one_or_one vm
  | NCall _ args _ => foldr (λ n P, raw n ∧ P) True args
  | NMatrixSelector n _ _ | NSubqueryExpr n _ _ _ _ | NParenExpr n _ | NUnaryExpr _ n _ => raw n
  | NVectorSelector name _ ms _ => name_last name ms
  | NNumberLiteral _ _ | NStringLiteral _ _ => True
  end.
Definition tree (n : node) : Prop := complete n ∧ raw n.

Lemma tree_selector name o ms r : tree (NVectorSelector name o ms r) ↔ Forall good_matcher ms ∧ name_last name ms.
Proof. unfold tree. by rewrite complete_selector. Qed.
Lemma tree_is_Expr n : tree n → as_Expr (Some n) = Done n.
Proof. intros [Hn _]. by apply complete_is_Expr. Qed.
Lemma tree_range n range e :
  range_error (Some n) = EmptyString → tree n → tree (NMatrixSelector n range e).
Proof. intros He [Hn Hr]. split; [by apply complete_range|done]. Qed.
Lemma tree_matrix name o o' ms r range e :
  tree (NMatrixSelector (NVectorSelector name o ms r) range e) →
  tree (NMatrixSelector (NVectorSelector name o' ms r) range e).
Proof.
  intros [Hn Hr]. split; [|done]. apply complete_matrix in Hn as [Hn%complete_selector _]. by apply complete_vectors.
Qed.
Lemma tree_subquery n r o s e : tree n ↔ tree (NSubqueryExpr n r o s e).
Proof. unfold tree. by rewrite <- complete_subquery. Qed.
Lemma tree_paren n r : tree n ↔ tree (NParenExpr n r).
Proof. unfold tree. by rewrite <- complete_paren. Qed.
Lemma tree_unary op n s : tree n ↔ tree (NUnaryExpr op n s).
Proof. unfold tree. by rewrite <- complete_unary. Qed.
Lemma tree_binary op l r vm b :
  tree l → tree r → is_many_to_many (Card vm) = false → tree (NBinaryExpr op (Some l) (Some r) (Some vm) b).
Proof. intros [Hl Hrl] [Hr Hrr] Hvm. split; [apply complete_binary; eauto 10|]. split_and!; [done..|by exists vm]. Qed.
Definition tree_opt (n : option node) : Prop := match n with Some n => tree n | None => True end.
Lemma tree_aggregate op e p g w r :
  tree_opt e → tree_opt p → IsAggregatorWithParam op = bool_decide (is_Some p) →
  tree (NAggregateExpr op e p g w r).
Proof.
  intros He Hp Hw. split; [apply complete_aggregate; split|split_and!; [..|exact Hw]].
  all: by first [destruct e; apply He|destruct p; apply Hp|destruct e|destruct p].
Qed.
Lemma tree_call f args r : Forall tree args → tree (NCall (Some f) args r).
Proof.
  intros Hargs. apply Forall_and in Hargs as [Hc Hr]. split; [apply complete_call; eauto|].
  cbn. by apply (foldr_and raw).
Qed.

(** ** What the actions yield

    [yields Q m]: when [m] returns and no error is recorded, its value
    satisfies [Q]; an erroneous current item stands for an error. *)
Definition yields {A} (Q : A → Prop) (m : P A) : Prop :=
  ∀ p a p', sane p → m p = Done (a, p') → parseErrors p' = [] → Q a.

Lemma framed_sane R p p' : framed R p p' → sane p → sane p'.
Proof. intros [Hl _ _ He _] Hs. unfold sane. rewrite Hl. intros Ht%Hs Hp'. auto. Qed.

Lemma yields_ret {A} (Q : A → Prop) a : Q a → yields Q (mret a).
Proof. intros Hq p b p' _ Hd _. unfold mret, P_ret in Hd. by injection Hd as <- <-. Qed.
Definition frames_any {A} (m : P A) : Prop := frames (λ _, True) m.
Lemma yields_bind {A B} (Q : A → Prop) (R : B → Prop) (m : P A) (f : A → P B) :
  yields Q m → frames_any m → (∀ a, frames_any (f a)) → (∀ a, Q a → yields R (f a)) → yields R (m ≫= f).
Proof.
  intros Hm Hfm Hff Hf p b p2 Hs. rewrite bind_run. specialize (Hfm p).
  destruct (m p) as [[a p1]|r] eqn:Hmp; [|done]. intros Hfp He. try rewrite Hmp in Hfm.
  specialize (Hff a p1). rewrite Hfp in Hff.
  eapply (Hf a); [|exact (framed_sane _ _ _ Hfm Hs)|exact Hfp|done].
  eapply Hm; [exact Hs|exact Hmp|]. by apply Hff.
Qed.
Lemma yields_lift {A} (m : go A) : yields (λ a, m = Done a) (lift m).
Proof. intros p a p' _. unfold lift. destruct m; [|done]. cbn. by intros [= <- <-]. Qed.
Lemma yields_get {A} (f : parser → A) : yields (λ _, True) (get f).
Proof. done. Qed.
Lemma yields_set_result n : yields (λ _, True) (set_result n).
Proof. done. Qed.
Lemma yields_addParseErr r t : yields (λ _, False) (addParseErr r t).
Proof. intros p a p' _. unfold addParseErr. intros [= <- <-]. cbn. by destruct (parseErrors p). Qed.
Lemma yields_error_if b r t : yields (λ _, b = false) (error_if b r t).
Proof.
  destruct b; [|done]. unfold error_if. intros p a p' Hs Hb He. exfalso. revert Hb He.
  rewrite bind_lift. destruct r; [|done]. by apply yields_addParseErr.
Qed.
Lemma yields_unexpected c e : yields (λ _, False) (unexpected c e).
Proof.
  intros p a p' Hs. unfold unexpected, current. rewrite bind_get. case_bool_decide as Ht.
  - intros [= <- <-] He. by apply Hs in Ht.
  - by apply yields_addParseErr.
Qed.
Lemma yields_weaken {A} (Q R : A → Prop) m : yields Q m → (∀ a, Q a → R a) → yields R m.
Proof. intros Hm HQR p a p' ???. eauto. Qed.
Lemma yields_any {A} (m : P A) : yields (λ _, True) m.
Proof. done. Qed.
End Trees.

Create HintDb yields.
#[export] Hint Resolve yields_lift yields_get yields_set_result yields_addParseErr yields_error_if
  yields_unexpected : yields.

(** One step of a sequence: what it yields, and the rest. *)
Ltac yields_step :=
  lazymatch goal with
  | |- yields _ (mret _) => apply yields_ret
  | |- yields _ (_ ≫= _) =>
      eapply yields_bind; [first [solve [eauto with yields]|apply yields_any]|solve [unfold frames_any; frames]|solve [unfold frames_any; frames]|];
      cbv beta; intros ? ?; try contradiction
  | |- yields _ (match ?x with _ => _ end) => destruct x eqn:?
  end.
Ltac yields := repeat yields_step.

(** ** The kinds of the symbols *)
Section Actions.
Context `{RE : RegexpEngine, !UnicodeTable}.

Inductive kind := KExpr | KSelector | KAggregate | KBinary | KArgs | KMatchers | KMatcher | KAny.

(** The kind of a symbol: by the number of its nonterminal. *)
Definition kind_of (c : Z) : kind :=
  if bool_decide (c ∈ [-22; -25; -27; -28; -33; -34; -35; -37; -38; -39; -40; -41]%Z) then KExpr
  else if bool_decide (c = -32)%Z then KSelector
  else if bool_decide (c = -23)%Z then KAggregate
  else if bool_decide (c ∈ [-24; -26; -31; -36]%Z) then KBinary
  else if bool_decide (c ∈ [-29; -30]%Z) then KArgs
  else if bool_decide (c = -1)%Z then KMatchers
  else if bool_decide (c = -2)%Z then KMatcher
  else KAny.

Definition has_kind (k : kind) (v : yySymType) : Prop :=
  match k with
  | KExpr => ∃ n, node_ v = Some n ∧ tree n
  | KSelector => ∃ name o ms r, node_ v = Some (NVectorSelector name o ms r) ∧ Forall good_matcher ms ∧ name_last name ms
  | KAggregate => ∃ g w, node_ v = Some (NAggregateExpr 0 None None g w (MkRange 0 0))
  | KBinary => ∃ vm b, node_ v = Some (NBinaryExpr 0 None None (Some vm) b) ∧ is_many_to_many (Card vm) = false
  | KArgs => ∃ l, node_ v = Some (Expressions_ l) ∧ Forall tree l
  | KMatchers => ∃ ms, matchers v = Some ms ∧ Forall good_matcher ms
  | KMatcher => ∃ m, matcher v = Some m ∧ Labels.wf m
  | KAny => True
  end.

Lemma kind_with_yys k q v : has_kind k v → has_kind k (with_yys q v).
Proof. by destruct k. Qed.

(** ** The helpers of the actions *)
Lemma yields_unless (b : bool) r t :
  yields (λ _, b = false) (if b then addParseErr r t else mret tt).
Proof. destruct b; [|done]. eapply yields_weaken; [apply yields_addParseErr|done]. Qed.

Lemma yields_newLabelMatcher l o v : yields good_matcher (newLabelMatcher l o v).
Proof.
  unfold newLabelMatcher. eapply yields_bind; [apply yields_any|unfold frames_any; frames|unfold frames_any; frames|]. intros val _.
  destruct (match_type (Typ o)) as [t|] eqn:Ht;
    [|intros ???? Hd; discriminate Hd].
  destruct (Labels.NewMatcher t (Val l) val) as [m|err] eqn:Hm.
  - apply yields_ret. exists m. split; [done|]. eapply Labels.NewMatcher_wf; [|exact Hm].
    intros k ->. unfold match_type, map_get in Ht. cbn in Ht. repeat case_match; done.
  - eapply yields_bind; [apply yields_addParseErr|unfold frames_any; frames|unfold frames_any; frames|done].
Qed.

Lemma yields_newAggregateExpr o g w l :
  Forall tree l →
  yields tree (newAggregateExpr o (Some (NAggregateExpr 0 None None g w (MkRange 0 0)))
                 (Some (Expressions_ l))).
Proof.
  intros Hl. unfold newAggregateExpr. yields_step. yields_step.
  match goal with H : as_Expressions _ = Done _ |- _ => injection H as <- end.
  destruct l as [|first rest]; [yields|].
  case_bool_decide as Hlen; [yields|]. apply yields_ret.
  apply Forall_cons in Hl as [Hf Hrest].
  destruct (IsAggregatorWithParam (Typ o)) eqn:Hw; [|by apply tree_aggregate].
  destruct rest as [|second rest]; [done|]. apply Forall_cons in Hrest as [Hs _]. by apply tree_aggregate.
Qed.

Lemma yields_addOffset n o :
  tree n → yields (λ n', ∃ m, n' = Some m ∧ tree m) (addOffset (Some n) o).
Proof.
  intros Hn. unfold addOffset. yields_step.
  destruct n; try (yields; by eexists).
  - destruct n; try (intros ???? Hd; discriminate Hd). yields. eexists. split; [done|]. by eapply tree_matrix.
  - yields. eexists. split; [done|]. apply tree_subquery. by apply tree_subquery in Hn.
  - yields. eexists. split; [done|]. apply tree_selector. by apply tree_selector in Hn.
Qed.

Lemma assemble_good name ms ms' :
  Forall good_matcher ms → assembleVectorSelector name ms = Done ms' → Forall good_matcher ms' ∧ name_last name ms'.
Proof.
  intros Hms. unfold assembleVectorSelector, Labels.NewMatcher.
  case_bool_decide; intros [= <-]; [|by split; [|intros []]]. split; [|by intros _; exists ms].
  apply Forall_app. split; [done|]. constructor; [|done]. eexists. split; [done|]. by apply Labels.wf_equal.
Qed.

Lemma newBinary_tree l op vm b r m :
  newBinaryExpression (Some l) op (Some (NBinaryExpr 0 None None (Some vm) b)) (Some r) = Done m →
  tree l → tree r → is_many_to_many (Card vm) = false → tree m.
Proof.
  unfold newBinaryExpression. intros Hm Hl Hr Hvm. rewrite !tree_is_Expr in Hm by done.
  injection Hm as <-. by apply tree_binary.
Qed.
Lemma set_vm_fresh f vm b m :
  set_vm f (Some (NBinaryExpr 0 None None (Some vm) b)) = Done m →
  m = NBinaryExpr 0 None None (Some (f vm)) b.
Proof. by intros [= <-]. Qed.

(** ** The rules *)

(** The values of the right-hand side of rule [n] have their kinds, and
    [yyVAL] is the first of them. *)
Record dollars (n : Z) (d : Z → yySymType) (v : yySymType) : Prop := Dollars {
  dollar : ∀ i c, rhs_of n !! i = Some c → has_kind (kind_of c) (d (Z.of_nat i + 1)%Z);
  dollar_first : rhs_of n ≠ [] → v = d 1%Z;
}.
Definition result_kind (n : Z) : kind := kind_of (- entry yyR1 n).
End Actions.

Ltac elim_in H :=
  repeat (apply elem_of_cons in H as [->|H]); [..|by apply elem_of_nil in H].

(** The kinds of the values of a rule that is a number. *)
Ltac get_dollars H :=
  let go i j := try (let Hk := fresh "Hk" in pose proof (dollar _ _ _ H i _ eq_refl) as Hk;
                     change (Z.of_nat i + 1)%Z with j in Hk; hnf in Hk) in
  go 0 1%Z; go 1 2%Z; go 2 3%Z; go 3 4%Z; clear H;
  repeat match goal with
    | H : True |- _ => clear H
    | H : ∃ _, _ |- _ => destruct H
    | H : _ ∧ _ |- _ => destruct H
    end;
  repeat match goal with
    | H : node_ _ = Some _ |- _ => rewrite ?H in *; clear H
    | H : matchers _ = Some _ |- _ => rewrite ?H in *; clear H
    | H : matcher _ = Some _ |- _ => rewrite ?H in *; clear H
    end.

(** The results of helpers that return. *)
Ltac returned :=
  repeat match goal with
    | H : lift _ = _ |- _ => clear H
    | H : as_Expressions _ = Done _ |- _ => injection H as <-
    | H : as_Expr (Some _) = Done _ |- _ => rewrite tree_is_Expr in H by assumption; injection H as <-
    | H : newBinaryExpression _ _ _ _ = _ |- _ => apply newBinary_tree in H; [|assumption..]
    | H : set_vm _ _ = _ |- _ => apply set_vm_fresh in H as ->
    | H : bool_decide _ = false |- _ => apply bool_decide_eq_false, dec_stable in H
    | H : assembleVectorSelector _ _ = Done _ |- _ => apply assemble_good in H; [|by auto]
    | H : good_matcher _ |- _ => destruct H
    | H : True |- _ => clear H
    | H : ∃ _, _ |- _ => destruct H
    | H : _ ∧ _ |- _ => destruct H
    end; subst.

#[export] Hint Resolve yields_newAggregateExpr yields_newLabelMatcher yields_addOffset
  yields_unless : yields.

Create HintDb trees.
Section TreeHints.
Context `{RE : RegexpEngine, !UnicodeTable}.
Lemma tree_args l e : Forall tree l → tree e → Forall tree (l ++ [e]).
Proof. intros. apply Forall_app. auto. Qed.
Lemma tree_known_call f l r :
  bool_decide (f = None) = false → Forall tree l → tree (NCall f l r).
Proof.
  intros Hf Hl. apply bool_decide_eq_false in Hf. destruct f as [f|]; [by apply tree_call|done].
Qed.
Lemma tree_number x r : tree (NNumberLiteral x r).
Proof. by split; [eexists|]. Qed.
Lemma tree_selector_intro name o ms r : Forall good_matcher ms → name_last name ms → tree (NVectorSelector name o ms r).
Proof. intros. by apply tree_selector. Qed.
Lemma name_last_empty ms : name_last EmptyString ms.
Proof. by intros []. Qed.
Lemma tree_string s r : tree (NStringLiteral s r).
Proof. by split; [eexists|]. Qed.
Lemma good_snoc ms m : Forall good_matcher ms → Labels.wf m → Forall good_matcher (ms ++ [Some m]).
Proof. intros. apply Forall_app. split; [done|]. constructor; [by exists m|done]. Qed.
Lemma good_single m : Labels.wf m → Forall good_matcher [Some m].
Proof. intros. constructor; [by exists m|done]. Qed.
End TreeHints.
#[export] Hint Resolve good_snoc good_single tree_args tree_known_call tree_range tree_number tree_string tree_selector_intro name_last_empty : trees.
#[export] Hint Resolve -> tree_paren tree_subquery tree_unary : trees.

(** The kind of a value that is written out. *)
Ltac kinds :=
  lazymatch goal with
  | |- has_kind (result_kind ?n) _ =>
      let k := eval vm_compute in (result_kind n) in change (result_kind n) with k; cbn [has_kind]
  end;
  repeat match goal with
    | |- True => exact I
    | |- tree _ => solve [eauto with trees]
    | |- Forall _ _ => solve [eauto with trees]
    | |- Labels.wf _ => eassumption
    | |- name_last _ _ => solve [eauto with trees]
    | |- ∃ _, _ => eexists
    | |- _ ∧ _ => split
    | |- _ = _ => eassumption || reflexivity
    end.

Section Rules.
Context `{RE : RegexpEngine, !UnicodeTable}.
Context (d : Z → yySymType) (v : yySymType).
Notation typed n m := (dollars n d v → yields (has_kind (result_kind n)) m).

Lemma typed_aggregate n : n ∈ [19; 20; 21; 22; 23; 24]%Z → typed n (action_aggregate n d v).
Proof.
  intros Hn Hd. elim_in Hn; unfold action_aggregate; cbv zeta; get_dollars Hd; yields; returned; kinds.
Qed.

Lemma typed_binary n :
  n ∈ [25; 26; 27; 28; 29; 30; 31; 32; 33; 34; 35; 36; 37; 38; 39; 41; 42; 43; 44; 47; 48]%Z →
  typed n (action_binary n d v).
Proof.
  intros Hn Hd. elim_in Hn; unfold action_binary; cbv zeta; get_dollars Hd; yields; returned; kinds.
Qed.

Lemma typed_grouping n :
  n ∈ [49; 50; 51; 52; 53; 54; 55; 56; 57]%Z → typed n (action_grouping n d v).
Proof. intros Hn _. elim_in Hn; done. Qed.

Lemma typed_call n : n ∈ [58; 59; 60; 61; 62; 63; 64]%Z → typed n (action_call n d v).
Proof.
  intros Hn Hd. elim_in Hn; unfold action_call; cbv zeta; get_dollars Hd; yields; returned; kinds.
Qed.

Lemma typed_range n :
  n ∈ [65; 66; 67; 68; 69; 70; 71; 72]%Z → typed n (action_range n d v).
Proof.
  intros Hn Hd. elim_in Hn; unfold action_range; cbv zeta; get_dollars Hd; yields; returned; kinds.
Qed.

Lemma typed_selector n : n ∈ [74; 75; 76; 77; 78; 79]%Z → typed n (action_selector n d v).
Proof.
  intros Hn Hd. elim_in Hn; unfold action_selector; cbv zeta; get_dollars Hd; yields; returned; kinds.
Qed.

Lemma typed_matchers n : n ∈ [80; 81; 82; 83; 84; 85; 86]%Z → typed n (action_matchers n d v).
Proof.
  intros Hn Hd. elim_in Hn; unfold action_matchers; cbv zeta; get_dollars Hd; yields; returned; kinds.
Qed.

Lemma typed_literal n : n ∈ [171; 176; 177]%Z → typed n (action_literal n d v).
Proof.
  intros Hn Hd. elim_in Hn; unfold action_literal; cbv zeta; get_dollars Hd; yields; returned; kinds.
Qed.

Lemma typed_unary : typed 73 (action_unary d v).
Proof.
  intros Hd. unfold action_unary; cbv zeta; get_dollars Hd; yields; returned; kinds.
Qed.

(** A rule without an action, whose left-hand side has the kind of the
    first symbol of its right-hand side. *)
Definition kind_eqb (k1 k2 : kind) : bool :=
  match k1, k2 with
  | KExpr, KExpr | KSelector, KSelector | KAggregate, KAggregate | KBinary, KBinary
  | KArgs, KArgs | KMatchers, KMatchers | KMatcher, KMatcher | KAny, KAny => true
  | _, _ => false
  end.
Definition passes (n : Z) : bool :=
  kind_eqb (result_kind n) KAny ||
  match rhs_of n with [] => false | c :: _ => kind_eqb (result_kind n) (kind_of c) end.
Lemma kind_eqb_true k1 k2 : kind_eqb k1 k2 = true → k1 = k2.
Proof. by destruct k1, k2. Qed.

Lemma typed_pass n : passes n = true → typed n (mret v).
Proof.
  intros Hp Hd. apply yields_ret. apply orb_true_iff in Hp as [Hp|Hp].
  - by rewrite (kind_eqb_true _ _ Hp).
  - destruct (rhs_of n) as [|c l] eqn:Hr; [done|]. rewrite (kind_eqb_true _ _ Hp).
    rewrite (dollar_first _ _ _ Hd) by (by rewrite Hr).
    apply (dollar _ _ _ Hd 0 c). by rewrite Hr.
Qed.
Lemma typed_any n m : result_kind n = KAny → typed n m.
Proof. intros Hn _. rewrite Hn. apply yields_any. Qed.

Lemma action_typed n : n ∈ rules → typed n (action n d v).
Proof.
  intros Hn Hd. assert (forallb (λ n, kind_eqb (result_kind n) KAny || bool_decide (n ∈
      [19; 20; 21; 22; 23; 24] ++
      [25; 26; 27; 28; 29; 30; 31; 32; 33; 34; 35; 36; 37; 38; 39; 41; 42; 43; 44; 47; 48] ++
      [58; 59; 60; 61; 62; 63; 64] ++ [65; 66; 67; 68; 69; 70; 71; 72] ++ [73] ++
      [74; 75; 76; 77; 78; 79] ++ [80; 81; 82; 83; 84; 85; 86] ++ [171; 177])%Z ||
      (bool_decide (n ∈ [8; 9; 10; 11; 12; 13; 14; 15; 16; 17; 18; 40; 45; 46])%Z && passes n)) rules = true) as Hf
    by (vm_compute; reflexivity).
  rewrite forallb_forall in Hf. apply list_elem_of_In, Hf in Hn. clear Hf.
  apply orb_true_iff in Hn as [[Hn|Hn]%orb_true_iff|[Hn Hp]%andb_true_iff].
  - apply typed_any; [|done]. by apply kind_eqb_true.
  - apply bool_decide_eq_true in Hn. rewrite !elem_of_app in Hn.
    destruct Hn as [Hn|[Hn|[Hn|[Hn|[Hn|[Hn|[Hn|Hn]]]]]]].
    + pose proof (typed_aggregate n Hn Hd) as Ht. by elim_in Hn.
    + pose proof (typed_binary n Hn Hd) as Ht. by elim_in Hn.
    + pose proof (typed_call n Hn Hd) as Ht. by elim_in Hn.
    + pose proof (typed_range n Hn Hd) as Ht. by elim_in Hn.
    + elim_in Hn. exact (typed_unary Hd).
    + pose proof (typed_selector n Hn Hd) as Ht. by elim_in Hn.
    + pose proof (typed_matchers n Hn Hd) as Ht. by elim_in Hn.
    + pose proof (typed_literal n) as Ht. elim_in Hn; apply Ht; try done; set_solver.
  - apply bool_decide_eq_true in Hn. pose proof (typed_pass n Hp Hd) as Ht. by elim_in Hn.
Qed.
End Rules.

(** ** The driver *)
Section DriverTrees.
Context `{RE : RegexpEngine, !UnicodeTable}.

Definition typed_entry (v : yySymType) : Prop := has_kind (kind_of (symbol (yys v))) v.
Definition good_result (n : option node) : Prop := ∀ m, n = Some m → tree m.

Record good_stack (y : yyParser) (p : parser) : Prop := GoodStack {
  stack_path : path (yys <$> yyS y);
  stack_typed : Forall typed_entry (yyS y);
  stack_result : good_result (generatedParserResult p);
}.

(** An erroneous item stands for a recorded error ([sane]). *)
Record trees_ok (y : yyParser) (p : parser) : Prop := TreesOk {
  trees_sane : sane p;
  trees_token : ∀ t, token y = Some t → (0 < t)%Z;
  trees_good : parseErrors p = [] → good_stack y p;
}.

Lemma looked_trees y p y' p' : looked y p y' p' → trees_ok y p → trees_ok y' p'.
Proof.
  intros [Hsame [_ He Hres Hsane] _ Hpos] [Hs Ht Hg]. constructor; [auto|auto|].
  intros [Hp Hst Hrs]%He%Hg. rewrite Hsame. by constructor; cbn; rewrite ?Hres.
Qed.

(** A push. *)
Lemma yystack_good l a v s t f p below :
  path (yys <$> l) → Forall typed_entry l → yys <$> head l = Some below → below ∈ preds_of s →
  good_result (generatedParserResult p) → has_kind (kind_of (symbol s)) v →
  good_stack (yystack (MkYY l a v s t f)) p.
Proof.
  intros Hp Hl Hh Hb Hr Hv. constructor; cbn [yystack yyS].
  - destruct l as [|w l]; [done|]. injection Hh as <-. by split.
  - constructor; [|done]. by apply kind_with_yys.
  - done.
Qed.

Lemma kind_token t v : (0 < t)%Z → has_kind (kind_of t) v.
Proof.
  intros Ht. assert (kind_of t = KAny) as ->; [|done]. unfold kind_of.
  repeat match goal with
    | |- context [bool_decide ?P] => rewrite (bool_decide_eq_false_2 P)
        by (rewrite ?elem_of_cons, ?elem_of_nil; lia)
    end.
  done.
Qed.

Lemma try_shift_trees y p y2 y1 p' :
  driver_ok y p → trees_ok y p → try_shift y p = Done ((Some y2, y1), p') → trees_ok y2 p'.
Proof.
  intros Hok Htr. pose proof (ok_ready _ _ Hok) as Hr. pose proof (ok_state _ _ Hok) as Hst.
  pose proof (ok_top _ _ Hok) as Htop. unfold try_shift. rewrite bind_lift.
  destruct (idx yyPact (yystate y)) as [n|r] eqn:Hn; [|done]. case_bool_decide as Hflag; [done|].
  destruct (lookahead_looked y p Hr) as (t & y' & q & Hl & Ht & Hlook).
  rewrite (bind_Done _ _ _ _ _ Hl). cbv beta iota zeta.
  destruct (bool_decide (n + t < 0)%Z || bool_decide (yyLast ≤ n + t)%Z) eqn:Hj; [done|].
  apply orb_false_iff in Hj as [Hj1%bool_decide_eq_false Hj2%bool_decide_eq_false].
  rewrite bind_lift. destruct (idx yyAct (n + t)) as [s|r] eqn:Hs; [|done].
  rewrite bind_lift. destruct (idx yyChk s) as [chk|r] eqn:Hchk; [|done].
  case_bool_decide as Hc; [|done]. unfold current. rewrite bind_get. unfold mret, P_ret.
  intros [= <- <- <-]. destruct (looked_trees _ _ _ _ Hlook Htr) as [Hsa Hpos Hg].
  pose proof (Hpos t Ht) as Htp. subst chk.
  destruct (shift_edge _ _ _ _ Hst Hn ltac:(lia) Htp ltac:(lia) Hs Hchk) as [Hedge Hsym].
  constructor; [done|done|]. intros [Hp Hen Hrs]%Hg. pose proof (looked_same _ _ _ _ Hlook) as Hsame.
  eapply yystack_good; [done|done|by rewrite Hsame|exact Hedge|done|].
  rewrite Hsym. by apply kind_token.
Qed.

Lemma find_error_path s popped q s' popped' :
  Forall (λ v, is_state (yys v)) s → path (yys <$> s) → Forall typed_entry s →
  find_error s popped = Done (Some (q, s', popped')) →
  path (yys <$> s') ∧ Forall typed_entry s' ∧
  ∃ below, yys <$> head s' = Some below ∧ below ∈ preds_of q ∧ symbol q = yyErrCode.
Proof.
  revert popped. induction s as [|top rest IH]; intros popped Hst Hp Hty; cbn [find_error]; [done|].
  apply Forall_cons in Hst as [Htop Hst].
  assert (path (yys <$> rest)) as Hp' by (exact (path_drop 1 _ Hp)).
  pose proof Hty as [_ Hty']%Forall_cons.
  destruct (idx yyPact (yys top)) as [n|r] eqn:Hn; cbn [mbind go_bind]; [|done].
  case_bool_decide as Hj; [|by apply IH].
  destruct (idx yyAct _) as [q'|r] eqn:Hq; cbn [mbind go_bind]; [|done].
  destruct (idx yyChk q') as [chk|r] eqn:Hchk; cbn [mbind go_bind]; [|done].
  case_bool_decide as Hc; [|by apply IH]. intros [= <- <- <-]. subst chk.
  destruct (shift_edge _ _ yyErrCode q' Htop Hn ltac:(unfold yyFlag, yyErrCode in *; lia) ltac:(done) Hj Hq Hchk).
  split; [done|]. split; [done|]. by exists (yys top).
Qed.

Lemma yyerror_trees y p y' p' :
  driver_ok y p → trees_ok y p → yyerror y p = Done (Again y', p') → trees_ok y' p'.
Proof.
  intros Hok [Hs Ht Hg]. unfold yyerror. case_bool_decide.
  - case_bool_decide; [done|]. unfold mret, P_ret. intros [= <- <-]. constructor; [done|done|].
    intros [Hp Hen Hrs]%Hg. by constructor.
  - rewrite bind_lift. destruct (find_error (yyS y) []) as [[[[q s] popped]|]|r] eqn:Hfind; [|done|done].
    unfold mret, P_ret. intros [= <- <-]. constructor; [done|done|].
    intros [Hp Hen Hrs]%Hg. pose proof (ok_states _ _ Hok) as Hst.
    destruct (find_error_path _ _ _ _ _ Hst Hp Hen Hfind) as (Hp' & Hen' & below & Hb & He & Hsym).
    eapply yystack_good; try done. rewrite Hsym. by apply kind_token.
Qed.

(** The values popped by a rule. *)
Lemma popped_dollars n (l a : list yySymType) (below : yySymType) rest :
  symbol <$> (yys <$> take (length (rhs_of n)) l) = reverse (rhs_of n) →
  Forall typed_entry l → drop (length (rhs_of n)) l = below :: rest →
  let popped := rev (take (length (rhs_of n)) l) in
  dollars n (λ i, nth (Z.to_nat i - 1) popped zero_sym) (hd zero_sym (popped ++ a)).
Proof.
  intros Hsym Hl Hd popped.
  assert (symbol <$> (yys <$> popped) = rhs_of n) as Hpop.
  { assert (popped = reverse (take (length (rhs_of n)) l)) as -> by (apply rev_alt).
    by rewrite !fmap_reverse, Hsym, reverse_involutive. }
  assert (Forall typed_entry popped) as Hty by (by apply Forall_rev, Forall_take).
  constructor.
  - intros i c Hi. rewrite <-Hpop, list_lookup_fmap, list_lookup_fmap in Hi.
    destruct (popped !! i) as [w|] eqn:Hw; [|done]. injection Hi as <-.
    replace (Z.to_nat (Z.of_nat i + 1) - 1) with i by lia.
    rewrite (nth_lookup_Some _ _ _ _ Hw). by eapply (Forall_lookup_1 _ _ _ _ Hty).
  - intros Hne. destruct popped as [|w popped']; [|done]. by rewrite <-Hpop in Hne.
Qed.

Lemma stack_reduces n y p nt below rest s :
  driver_ok y p → good_stack y p → (0 < n)%Z → n ∈ default_rules (yystate y) → idx yyR1 n = Done nt →
  drop (length (rhs_of n)) (yyS y) = below :: rest → goto_state nt (yys below) = Done s →
  n ∈ rules ∧ symbol <$> (yys <$> take (length (rhs_of n)) (yyS y)) = reverse (rhs_of n) ∧
  yys below ∈ preds_of s ∧ symbol s = (- entry yyR1 n)%Z.
Proof.
  intros Hok [Hp _ _] Hpos Hin Hnt Hd Hgoto. pose proof (ok_state _ _ Hok) as Hst.
  pose proof (ok_top _ _ Hok) as Htop. destruct (yyS y) as [|top l] eqn:Hy; [done|].
  injection Htop as Htop. change (yys <$> top :: l) with (yys top :: (yys <$> l)) in Hp. rewrite Htop in Hp.
  destruct (rule_reduces _ n _ nt (yys below) (yys <$> rest) s Hst Hin Hpos Hp Hnt) as [Hrule Hpop Hedge Hsym];
    [by rewrite <-Htop, <-fmap_cons, <-fmap_drop, Hd|done|].
  by rewrite <-Htop, <-fmap_cons, <-fmap_take in Hpop.
Qed.

Lemma yyreduce_trees n y p y' p' :
  driver_ok y p → trees_ok y p → (0 < n)%Z → n ∈ default_rules (yystate y) →
  yyreduce n y p = Done (y', p') → trees_ok y' p'.
Proof.
  intros Hok [Hs Ht Hg] Hpos Hin. pose proof (ok_state _ _ Hok) as Hst. unfold yyreduce. rewrite bind_lift.
  destruct (idx yyR2 n) as [k|r] eqn:Hk; [|done].
  pose proof (rule_length _ _ _ Hst Hin Hpos Hk) as ->. rewrite Nat2Z.id. rewrite bind_lift.
  destruct (idx yyR1 n) as [nt|r] eqn:Hnt; [|done]. cbv zeta.
  destruct (drop (length (rhs_of n)) (yyS y)) as [|below rest] eqn:Hd; [done|].
  rewrite bind_lift. destruct (goto_state nt (yys below)) as [s|r] eqn:Hgoto; [|done].
  set (popped := rev (take (length (rhs_of n)) (yyS y))). set (d := λ i : Z, nth (Z.to_nat i - 1) popped zero_sym).
  set (v := hd zero_sym (popped ++ above y)). rewrite bind_run.
  pose proof (frames_action (λ x, (4 ≤ n ≤ 5)%Z ∧ x = node_ (d 2%Z)) n d v (λ H, conj H eq_refl) p) as Hfr.
  destruct (action n d v p) as [[v' q]|r] eqn:Hact; [|done]. unfold mret, P_ret. intros [= <- <-].
  constructor; [by eapply framed_sane|done|]. intros He.
  destruct Hfr as [_ _ _ Hback Hresult]. pose proof (Hg (Hback He)) as Hgood. pose proof Hgood as [Hp Hen Hrs].
  destruct (stack_reduces n y p nt below rest s Hok Hgood Hpos Hin Hnt Hd Hgoto) as (Hrule & Hpop & Hedge & Hsym).
  pose proof (popped_dollars n (yyS y) (above y) below rest Hpop Hen Hd) as Hdol. cbv zeta in Hdol.
  assert (Forall typed_entry (below :: rest)) as Hrest by (rewrite <-Hd; by apply Forall_drop).
  eapply yystack_good; [|done|done|exact Hedge| |].
  - rewrite <-Hd, fmap_drop. by apply path_drop.
  - destruct Hresult as [->|[Hn Hx]]; [done|]. rewrite Hx.
    assert (rhs_of n !! 1 = Some (-27)%Z ∨ rhs_of n !! 1 = Some (-41)%Z) as Hr2
      by (assert (n = 4 ∨ n = 5)%Z as [-> | ->] by lia; [by left|by right]).
    assert (has_kind KExpr (d 2%Z)) as (m & Hm & Htree)
      by (destruct Hr2 as [Hr2|Hr2]; exact (dollar _ _ _ Hdol 1 _ Hr2)).
    intros m'. unfold d in *. rewrite Hm. by intros [= <-].
  - rewrite Hsym. eapply (action_typed d v n Hrule Hdol); [exact Hs|exact Hact|exact He].
Qed.
Lemma yyturn_trees y p t p' :
  driver_ok y p → trees_ok y p → yyturn y p = Done (t, p') →
  match t with
  | Again y' => trees_ok y' p'
  | Return _ => sane p' ∧ (parseErrors p' = [] → good_result (generatedParserResult p'))
  end.
Proof.
  intros Hok Htr Hturn. apply yyturn_turned in Hturn; [|done].
  destruct Hturn as [y1 y2 p' Hs|n y' p' [_ Hlook _ _ _] _|y' p1 t p' [_ Hlook Hok1 _ Htok] He|n y' p1 y2 p' [_ Hlook Hok1 Hin _] Hn Hr].
  - by apply try_shift_trees in Hs.
  - destruct (looked_trees _ _ _ _ Hlook Htr) as [Hs _ Hg]. split; [done|]. intros Hp. by destruct (Hg Hp).
  - pose proof (looked_trees _ _ _ _ Hlook Htr) as Htr1. pose proof (yyerror_pays _ _ Hok1 (Htok eq_refl)) as Hpay.
    rewrite He in Hpay. destruct t as [y2|c]; [by eapply yyerror_trees|].
    subst p'. destruct Htr1 as [Hs _ Hg]. split; [done|]. intros Hp. by destruct (Hg Hp).
  - pose proof (looked_trees _ _ _ _ Hlook Htr) as Htr1. by eapply yyreduce_trees.
Qed.

Lemma yyParse_trees fuel y p c p' :
  driver_ok y p → trees_ok y p → yyParse fuel y p = Done (c, p') →
  sane p' ∧ (parseErrors p' = [] → good_result (generatedParserResult p')).
Proof.
  revert y p. induction fuel as [|fuel IH]; intros y p Hok Htr; [done|]. rewrite yyParse_step.
  pose proof (yyturn_pays y p Hok) as Hpay. destruct (yyturn y p) as [[t p1]|r] eqn:Ht; [|done].
  apply yyturn_trees in Ht; [|done..]. destruct t as [y'|c']; [|by intros [= <- <-]].
  apply IH; [apply Hpay|done].
Qed.

Lemma parseGenerated_trees start s n p' :
  parseGenerated start (newParser s) = Done (n, p') → parseErrors p' = [] → good_result n.
Proof.
  unfold parseGenerated. rewrite bind_run. cbn [set_inject newParser lex inject injecting
    lastClosing generatedParserResult parseErrors]. rewrite bind_get.
  cbn [lex input Lex]. rewrite bind_run.
  destruct (yyParse _ _ _) as [[c q]|] eqn:Hp; [|done]. unfold get. intros [= <- <-].
  destruct (yyinit_ok s start) as [Hok _]. apply yyParse_trees in Hp as [_ Hg]; [done|done|].
  constructor; [done|done|]. intros _. constructor; [done| |done]. by repeat constructor.
Qed.
End DriverTrees.

(** ** The entry points *)
Section Checked.
Context `{RE : RegexpEngine, !UnicodeTable}.

(** [gives Q m]: what [m] returns satisfies [Q], errors or not. *)
Definition gives {A} (Q : A → Prop) (m : P A) : Prop :=
  ∀ p a p', m p = Done (a, p') → Q a.

Lemma gives_ret {A} (Q : A → Prop) a : Q a → gives Q (mret a).
Proof. by intros Hq p b p' [= <- <-]. Qed.
Lemma gives_bind {A B} (Q : A → Prop) (R : B → Prop) (m : P A) (f : A → P B) :
  gives Q m → (∀ a, Q a → gives R (f a)) → gives R (m ≫= f).
Proof.
  intros Hm Hf p b p2. rewrite bind_run. destruct (m p) as [[a p1]|r] eqn:Hmp; [|done].
  apply Hf. by eapply Hm.
Qed.
Lemma gives_then {A B} (R : B → Prop) (m : P A) (f : A → P B) :
  (∀ a, gives R (f a)) → gives R (m ≫= f).
Proof. intros Hf. by apply (gives_bind (λ _, True)). Qed.

(** What the checks may change: the vector matchings. *)
Inductive rematched : node → node → Prop :=
| rematched_refl n : rematched n n
| rematched_list l l' : Forall2 rematched l l' → rematched (Expressions_ l) (Expressions_ l')
| rematched_aggregate op e e' p p' g w r :
    rematched e e' → option_Forall2 rematched p p' →
    rematched (NAggregateExpr op (Some e) p g w r) (NAggregateExpr op (Some e') p' g w r)
| rematched_binary op l l' r r' vm vm' b :
    rematched l l' → rematched r r' →
    rematched (NBinaryExpr op (Some l) (Some r) vm b) (NBinaryExpr op (Some l') (Some r') vm' b)
| rematched_call f args args' r : Forall2 rematched args args' → rematched (NCall f args r) (NCall f args' r)
| rematched_matrix n n' range e : rematched n n' → rematched (NMatrixSelector n range e) (NMatrixSelector n' range e)
| rematched_subquery n n' range o s e :
    rematched n n' → rematched (NSubqueryExpr n range o s e) (NSubqueryExpr n' range o s e)
| rematched_paren n n' r : rematched n n' → rematched (NParenExpr n r) (NParenExpr n' r)
| rematched_unary op n n' s : rematched n n' → rematched (NUnaryExpr op n s) (NUnaryExpr op n' s).

Lemma rematched_selector name o ms r n : rematched (NVectorSelector name o ms r) n → n = NVectorSelector name o ms r.
Proof. by inversion 1. Qed.

Lemma rematched_complete n n' : rematched n n' → complete n → complete n'.
Proof.
  revert n'. induction n as [l Hl|op e p g w r He Hp|op l r vm b Hl Hr|f args r Ha|vs range e Hvs|
    n range o s e Hn|v r|n r Hn|s r|op n s Hn|name o ms r] using node_nested_ind; intros n';
    inversion 1 as [| |? e1 e' ? p' ? ? ? Hee Hpp|? ? l' ? r' ? vm' ? Hll Hrr|? ? args' ? Haa|? ? ? ? Hnn|? ? ? ? ? ? Hnn
      |? ? ? Hnn|? ? ? ? Hnn]; subst; try done.
  - intros [Hte Htp]%complete_aggregate. apply complete_aggregate. split; [by apply He|].
    destruct Hpp as [p1 p2 Hpp|]; [by apply Hp|done].
  - intros (l1 & r1 & [= <-] & [= <-] & Htl & Htr)%complete_binary. apply complete_binary. eauto 10.
  - intros [Hf Hall]%complete_call. apply complete_call. split; [done|].
    eapply Forall_forall. intros a' [i Ha']%list_elem_of_lookup_1.
    destruct (Forall2_lookup_r _ _ _ _ _ Haa Ha') as (a & Hai & Hr).
    by apply (Forall_lookup_1 _ _ _ _ Ha Hai), (Forall_lookup_1 _ _ _ _ Hall Hai).
  - intros Ht. pose proof (complete_matrix _ _ _ Ht) as [_ (name & o & ms & r & ->)].
    apply rematched_selector in Hnn as ->. done.
  - intros Ht%complete_subquery. by apply complete_subquery, Hn.
  - intros Ht%complete_paren. by apply complete_paren, Hn.
  - intros Ht%complete_unary. by apply complete_unary, Hn.
Qed.

Lemma gives_expect want context check n :
  gives (λ r, rematched n r.2) check → gives (rematched n) (expect want context check).
Proof.
  intros Hc. unfold expect. eapply gives_bind; [exact Hc|]. intros [t n'] Hn. cbn in Hn.
  apply gives_then. intros _. by apply gives_ret.
Qed.
Lemma gives_expect_opt want context (o : option node) :
  on_opt (λ n, gives (λ r, rematched n r.2) (checkAST n)) o →
  gives (λ e, ∃ n, o = Some n ∧ rematched n e) (expect want context
    match o with Some n => checkAST n | None => lift (Panic nil_dereference) end).
Proof.
  destruct o as [n|]; intros Ho; [|by intros ???]. intros p a p' Ha.
  apply (gives_expect _ _ _ n) in Ha; [|exact Ho]. by exists n.
Qed.
Lemma gives_check_binary op l r lt rt vm b :
  gives (λ n, ∃ vm', n = NBinaryExpr op (Some l) (Some r) vm' b) (check_binary op l r lt rt vm b).
Proof.
  unfold check_binary. cbv zeta. repeat first [apply gives_then; intros ?]. apply gives_ret. eauto.
Qed.
Lemma gives_typed n typ (m : P node) :
  gives (rematched n) m → gives (λ r : ValueType * node, rematched n r.2) (n' ← m; mret (typ, n')).
Proof. intros Hm. eapply gives_bind; [exact Hm|]. intros n' Hn'. by apply gives_ret. Qed.

Lemma gives_checkAST n : gives (λ r, rematched n r.2) (checkAST n).
Proof.
  induction n as [l Hl|op e p g w r He Hp|op l r vm b Hl Hr|f args r Ha|vs range e Hvs|
    n range o s e Hn|v r|n r Hn|s r|op n s Hn|name o ms r] using node_nested_ind;
    cbn [checkAST]; apply gives_then; intros typ; apply gives_typed;
    try (by apply gives_ret, rematched_refl).
  - eapply (gives_bind (Forall2 rematched l)).
    + induction Hl as [|a l Ha _ IH]; [by apply gives_ret|]. eapply gives_bind; [exact Ha|]. intros [t a'] Ha'.
      apply gives_then. intros _. eapply gives_bind; [apply IH|]. intros l' Hl'. apply gives_ret. by constructor.
    + intros l' Hl'. apply gives_ret. by constructor.
  - apply gives_then. intros _. eapply gives_bind; [by apply gives_expect_opt|]. intros e' (e0 & -> & He').
    eapply (gives_bind (option_Forall2 rematched p)).
    + repeat case_bool_decide; try (apply gives_ret; destruct p; constructor; apply rematched_refl);
        (eapply gives_bind; [by apply gives_expect_opt|]; intros e1 (p0 & -> & Hp1); apply gives_ret; by constructor).
    + intros p' Hp'. apply gives_ret. by constructor.
  - destruct l as [l|]; [|by intros ???]. eapply gives_bind; [exact Hl|]. intros [lt l'] Hcl.
    destruct r as [r|]; [|by intros ???]. eapply gives_bind; [exact Hr|]. intros [rt r'] Hcr.
    cbn in Hcl, Hcr. intros p n' p' Hn. apply gives_check_binary in Hn as (vm' & ->). by constructor.
  - apply gives_then. intros f'. apply gives_then. intros _.
    eapply (gives_bind (Forall2 rematched args)).
    + generalize 0. induction Ha as [|a l Ha _ IH]; intros i; [by apply gives_ret|].
      apply gives_then. intros [t|].
      * eapply gives_bind; [by apply gives_expect|]. intros a' Ha'.
        eapply gives_bind; [apply IH|]. intros l' Hl'. apply gives_ret. by constructor.
      * apply gives_ret. constructor; [apply rematched_refl|].
        clear. induction l; constructor; auto using rematched_refl.
    + intros l' Hl'. apply gives_ret. by constructor.
  - eapply gives_bind; [exact Hvs|]. intros [t vs'] Hc. apply gives_ret. by constructor.
  - eapply gives_bind; [exact Hn|]. intros [t n'] Hc. apply gives_then. intros _. apply gives_ret. by constructor.
  - eapply gives_bind; [exact Hn|]. intros [t n'] Hc. apply gives_ret. by constructor.
  - apply gives_then. intros _. eapply gives_bind; [exact Hn|]. intros [t n'] Hc.
    apply gives_then. intros _. apply gives_ret. by constructor.
  - apply gives_then. intros _. apply gives_ret, rematched_refl.
Qed.

(** What [ParseExpr] returns passed the checks, and is a complete tree, so
    that its conversion loses nothing. *)
Lemma parse_expr_checked s n p' :
  parse_expr (newParser s) = Done (n, p') → parseErrors p' = [] →
  ∃ r t m p1, tree r ∧ checkAST r p1 = Done ((t, m), p') ∧ n = Some m ∧
    parseGenerated START_EXPRESSION (newParser s) = Done (Some r, p1) ∧ parseErrors p1 = [].
Proof.
  unfold parse_expr. rewrite bind_run.
  destruct (parseGenerated START_EXPRESSION (newParser s)) as [[r p1]|] eqn:Hg; [|done].
  pose proof (parseGenerated_trees _ _ _ _ Hg) as Hgood.
  destruct r as [r|]; rewrite bind_run; cbn [mret P_ret];
    [rewrite bind_lift; destruct (as_Expr (Some r)); [|done]|];
    unfold mret at 1, P_ret; rewrite bind_get; case_bool_decide as Hlen; intros Hx He; try done;
    try (injection Hx as <- <-; by rewrite He in Hlen).
  apply length_zero_iff_nil in Hlen. rewrite bind_run in Hx.
  destruct (checkAST r p1) as [[[t e] p2]|] eqn:Hc; [|done]. injection Hx as <- <-.
  exists r, t, e, p1. split_and!; [by apply Hgood|done..].
Qed.

Lemma parse_expr_tree s n p' :
  parse_expr (newParser s) = Done (n, p') → parseErrors p' = [] → ∃ m, n = Some m ∧ complete m.
Proof.
  intros Hp He. destruct (parse_expr_checked _ _ _ Hp He) as (r & t & m & p1 & [Hr _] & Hc & -> & _).
  exists m. split; [done|]. apply gives_checkAST in Hc. by eapply rematched_complete.
Qed.

Lemma parsed_wf s e : ParseExpr s = Ok e → wf_expr e.
Proof.
  unfold ParseExpr, recovered. destruct (parse_expr (newParser s)) as [[n p']|] eqn:Hp; [|done].
  destruct (parseErrors p') eqn:He; [|done].
  destruct (parse_expr_tree _ _ _ Hp He) as (m & -> & x & Hx & Hwf).
  cbn. rewrite Hx. by intros [= <-].
Qed.

Lemma parsed_selector_wf s ms : ParseMetricSelector s = Ok ms → Forall good_matcher ms.
Proof.
  unfold ParseMetricSelector, recovered, parse_selector. rewrite bind_run.
  destruct (parseGenerated START_METRIC_SELECTOR (newParser s)) as [[r p1]|] eqn:Hg; [|done].
  pose proof (parseGenerated_trees _ _ _ _ Hg) as Hgood.
  destruct r as [[]|]; cbn; try done.
  all: destruct (parseErrors p1); [|done]; intros [= <-]; try done.
  eapply complete_selector, (Hgood eq_refl _ eq_refl).
Qed.
End Checked.
