(* ===== verification/Lru.v ===== *)
(** * The cache of the access store (hashicorp/golang-lru and
    k8s.io/apimachinery/pkg/util/cache)

    [AccessStore] keeps its results in an [LRUExpireCache].  The evict list
    is modelled as a list of entries, the front first; the map of items
    that finds an entry by its key is a lookup in that list.  The clock is
    an argument: the current time in nanoseconds. *)
From S2P Require Import Prelude.
From stdpp Require Import options.

Section Lru.
Context {V : Type}.

(** ** simplelru/lru.go *)
#[local] Notation entry := (string * V)%type.

Record LRU := MkLRU {
  size_ : nat;
  evictList : list entry;
}.

(** [c.items[key]]. *)
Definition items (c : LRU) (key : string) : option V :=
  snd <$> List.find (λ e, bool_decide (e.1 = key)) (evictList c).

Definition without (key : string) (l : list entry) : list entry :=
  filter (λ e, e.1 ≠ key) l.

Definition removeOldest (c : LRU) : LRU := MkLRU (size_ c) (removelast (evictList c)).

Definition LRU_Add (c : LRU) (key : string) (value : V) : LRU :=
  match items c key with
  | Some _ => MkLRU (size_ c) ((key, value) :: without key (evictList c))
  | None =>
      let c := MkLRU (size_ c) ((key, value) :: evictList c) in
      if bool_decide (size_ c < length (evictList c)) then removeOldest c else c
  end.

(** A lookup makes its entry the most recent. *)
Definition LRU_Get (c : LRU) (key : string) : option V * LRU :=
  match items c key with
  | Some v => (Some v, MkLRU (size_ c) ((key, v) :: without key (evictList c)))
  | None => (None, c)
  end.

Definition LRU_Remove (c : LRU) (key : string) : LRU :=
  MkLRU (size_ c) (without key (evictList c)).

(** ** Invariant *)
Definition lru_wf (c : LRU) : Prop :=
  0 < size_ c ∧ NoDup (evictList c).*1 ∧ length (evictList c) ≤ size_ c.

(** ** Lemmas *)
Lemma items_elem_of c key v :
  NoDup (evictList c).*1 → items c key = Some v ↔ (key, v) ∈ evictList c.
Proof.
  unfold items. induction (evictList c) as [|[k w] l IH]; cbn; intros Hnd.
  { split; [done|]. by intros ?%elem_of_nil. }
  apply NoDup_cons in Hnd as [Hk Hnd]. rewrite elem_of_cons. case_bool_decide as Hkey; cbn.
  - subst. split; [intros [= ->]; by left|]. intros [[= ->]|Hin]; [done|].
    destruct Hk. apply list_elem_of_fmap. by exists (key, v).
  - rewrite IH by done. naive_solver.
Qed.

Lemma items_None c key : items c key = None ↔ key ∉ (evictList c).*1.
Proof.
  unfold items. induction (evictList c) as [|[k w] l IH]; cbn.
  { split; [intros _ ?%elem_of_nil|]; done. }
  rewrite not_elem_of_cons. case_bool_decide as Hkey; cbn; naive_solver.
Qed.

Lemma without_fst key l : (without key l).*1 = filter (λ k, k ≠ key) l.*1.
Proof.
  induction l as [|[k v] l IH]; [done|]. unfold without in *.
  rewrite fmap_cons, !filter_cons. cbn [fst]. case_decide; cbn; [f_equal|]; exact IH.
Qed.

Lemma front_wf key v l :
  NoDup l.*1 → key ∈ l.*1 →
  NoDup ((key, v) :: without key l).*1 ∧ length ((key, v) :: without key l) ≤ length l.
Proof.
  intros Hnd Hin. cbn. rewrite without_fst. split.
  { apply NoDup_cons. split; [|by apply NoDup_filter]. rewrite list_elem_of_filter. naive_solver. }
  apply list_elem_of_fmap in Hin as ([k w] & Hk & Hin). cbn in Hk. subst k.
  induction l as [|[k u] l IH]; [by apply elem_of_nil in Hin|].
  apply NoDup_cons in Hnd as [Hk Hnd]. unfold without in *. rewrite filter_cons. cbn.
  apply elem_of_cons in Hin as [[= <- <-]|Hin].
  - rewrite decide_False by naive_solver.
    pose proof (length_filter (λ e, e.1 ≠ key) l). lia.
  - specialize (IH Hnd Hin). case_decide; cbn in *; [lia|].
    pose proof (length_filter (λ e, e.1 ≠ key) l). lia.
Qed.

Lemma removelast_sublist {A} (l : list A) : removelast l `sublist_of` l.
Proof.
  induction l as [|x [|y l] IH]; [done|by apply sublist_cons|]. by apply sublist_skip.
Qed.

Lemma removelast_fmap {A B} (f : A → B) l : f <$> removelast l = removelast (f <$> l).
Proof. induction l as [|x [|y l] IH]; [done..|]. cbn in *. by rewrite IH. Qed.

Lemma removelast_length {A} (l : list A) : length (removelast l) = pred (length l).
Proof. induction l as [|x [|y l] IH]; [done..|]. cbn in *. lia. Qed.

Lemma LRU_Get_wf c key : lru_wf c → lru_wf (LRU_Get c key).2.
Proof.
  intros (Hs & Hnd & Hlen). unfold LRU_Get. destruct (items c key) as [v|] eqn:Hv; [|done].
  cbn. destruct (front_wf key v (evictList c)); [done| |unfold lru_wf; cbn in *; split_and!; done || lia].
  apply items_elem_of in Hv; [|done]. apply list_elem_of_fmap. by exists (key, v).
Qed.

Lemma LRU_Remove_wf c key : lru_wf c → lru_wf (LRU_Remove c key).
Proof.
  intros (Hs & Hnd & Hlen). unfold LRU_Remove, lru_wf. cbn.
  rewrite without_fst. split_and!; [done|by apply NoDup_filter|].
  pose proof (length_filter (λ e : entry, e.1 ≠ key) (evictList c)). unfold without. lia.
Qed.

Lemma LRU_Add_wf c key v : lru_wf c → lru_wf (LRU_Add c key v).
Proof.
  intros (Hs & Hnd & Hlen). unfold LRU_Add. destruct (items c key) as [w|] eqn:Hv.
  - destruct (front_wf key v (evictList c)); [done| |unfold lru_wf; cbn in *; split_and!; done || lia].
    apply items_elem_of in Hv; [|done]. apply list_elem_of_fmap. by exists (key, w).
  - apply items_None in Hv. cbn [size_ evictList].
    assert (NoDup ((key, v) :: evictList c).*1) as Hnd' by (by apply NoDup_cons).
    case_bool_decide; unfold lru_wf; cbn [size_ evictList removeOldest]; split_and!; try done.
    + rewrite removelast_fmap. eapply sublist_NoDup; [exact Hnd'|]. apply removelast_sublist.
    + rewrite removelast_length. cbn. lia.
    + lia.
Qed.

(** What the cache holds after an operation it held before, or was added. *)
Lemma elem_of_without key e l : e ∈ without key l → e ∈ l.
Proof. unfold without. rewrite list_elem_of_filter. tauto. Qed.

Lemma LRU_Get_elem c key e :
  NoDup (evictList c).*1 → e ∈ evictList (LRU_Get c key).2 → e ∈ evictList c.
Proof.
  intros Hnd. unfold LRU_Get. destruct (items c key) as [v|] eqn:Hv; [|done].
  cbn. rewrite elem_of_cons. intros [->|He%elem_of_without]; [|done].
  by apply items_elem_of in Hv.
Qed.

Lemma LRU_Add_elem c key v e :
  e ∈ evictList (LRU_Add c key v) → e = (key, v) ∨ e ∈ evictList c.
Proof.
  unfold LRU_Add. destruct (items c key).
  - cbn. rewrite elem_of_cons. intros [->|He%elem_of_without]; auto.
  - cbn [size_ evictList]. case_bool_decide; cbn [removeOldest evictList].
    + intros He. apply (sublist_subseteq _ _ (removelast_sublist _)) in He.
      by apply elem_of_cons in He.
    + by rewrite elem_of_cons.
Qed.

Lemma LRU_Add_front c key v : lru_wf c → (key, v) ∈ evictList (LRU_Add c key v).
Proof.
  intros (Hs & _ & _). unfold LRU_Add. destruct (items c key); [by left|].
  cbn [size_ evictList]. case_bool_decide as Hlen; [|by left].
  cbn in Hlen |- *. destruct (evictList c); [cbn in Hlen; lia|by left].
Qed.
End Lru.
Arguments LRU : clear implicits.

(** ** lruexpirecache.go *)
Section LRUExpireCache.
Context {V : Type}.

(** A value and the time it expires at. *)
Definition cacheEntry : Type := V * Z.

Definition LRUExpireCache : Type := LRU cacheEntry.

Definition NewLRUExpireCache (maxSize : nat) : LRUExpireCache := MkLRU maxSize [].

Definition Cache_Add (now : Z) (c : LRUExpireCache) (key : string) (value : V) (ttl : Z)
    : LRUExpireCache :=
  LRU_Add c key (value, now + ttl)%Z.

Definition Cache_Get (now : Z) (c : LRUExpireCache) (key : string)
    : option V * LRUExpireCache :=
  match LRU_Get c key with
  | (None, c) => (None, c)
  | (Some (value, expireTime), c) =>
      if bool_decide (expireTime < now)%Z then (None, LRU_Remove c key)
      else (Some value, c)
  end.

Lemma Cache_Get_wf now c key : lru_wf c → lru_wf (Cache_Get now c key).2.
Proof.
  intros Hwf. apply (LRU_Get_wf _ key) in Hwf. unfold Cache_Get.
  destruct (LRU_Get c key) as [[[v t]|] c']; [|done]. case_bool_decide; [|done].
  by apply LRU_Remove_wf.
Qed.

Lemma Cache_Get_elem now c key e :
  lru_wf c → e ∈ evictList (Cache_Get now c key).2 → e ∈ evictList c.
Proof.
  intros (_ & Hnd & _). pose proof (LRU_Get_elem c key e Hnd) as Hget. unfold Cache_Get.
  destruct (LRU_Get c key) as [[[v t]|] c']; [|done]. case_bool_decide; [|done].
  intros He. exact (Hget (elem_of_without key _ _ He)).
Qed.

Lemma Cache_Get_Some now c key v c' :
  lru_wf c → Cache_Get now c key = (Some v, c') →
  ∃ t, (key, (v, t)) ∈ evictList c ∧ (now ≤ t)%Z.
Proof.
  intros (_ & Hnd & _). unfold Cache_Get, LRU_Get.
  destruct (items c key) as [[w t]|] eqn:Hv; [|done]. case_bool_decide; [done|].
  intros [= -> _]. exists t. apply items_elem_of in Hv; [|done]. split; [done|lia].
Qed.

Lemma empty_wf maxSize : 0 < maxSize → lru_wf (NewLRUExpireCache maxSize).
Proof. intros. split_and!; [done|constructor|cbn; lia]. Qed.

(** An entry is found until it expires. *)
Lemma Cache_Get_Add now now' c key v ttl :
  lru_wf c →
  (Cache_Get now' (Cache_Add now c key v ttl) key).1 =
    if bool_decide (now + ttl < now')%Z then None else Some v.
Proof.
  intros Hwf. destruct (LRU_Add_wf c key (v, now + ttl)%Z Hwf) as (_ & Hnd & _).
  assert (items (LRU_Add c key (v, now + ttl)%Z) key = Some (v, now + ttl)%Z) as Hi.
  { apply items_elem_of; [done|]. by apply LRU_Add_front. }
  unfold Cache_Get, Cache_Add, LRU_Get, cacheEntry in *. rewrite Hi. by case_bool_decide.
Qed.

(** ** Reachable caches *)
Inductive cache_reachable (maxSize : nat) : LRUExpireCache → Prop :=
| cache_new : cache_reachable maxSize (NewLRUExpireCache maxSize)
| cache_get now c key :
    cache_reachable maxSize c → cache_reachable maxSize (Cache_Get now c key).2
| cache_add now c key value ttl :
    cache_reachable maxSize c → cache_reachable maxSize (Cache_Add now c key value ttl).

Lemma cache_reachable_wf maxSize c : 0 < maxSize → cache_reachable maxSize c → lru_wf c.
Proof.
  intros Hs. induction 1 as [|now c key _ IH|now c key value ttl _ IH].
  - by apply empty_wf.
  - by apply Cache_Get_wf.
  - by apply LRU_Add_wf.
Qed.

Lemma LRU_Add_size c key (v : cacheEntry) : size_ (LRU_Add c key v) = size_ c.
Proof.
  unfold LRU_Add. destruct (items c key); [done|]. cbn. by case_bool_decide.
Qed.

Lemma Cache_Get_size now (c : LRUExpireCache) key : size_ (Cache_Get now c key).2 = size_ c.
Proof.
  unfold Cache_Get, LRU_Get. destruct (items c key) as [[w t]|]; [|done]. by case_bool_decide.
Qed.

Lemma cache_reachable_size maxSize c : cache_reachable maxSize c → size_ c = maxSize.
Proof.
  induction 1 as [|now c key _ IH|now c key value ttl _ IH]; [done| |].
  - by rewrite Cache_Get_size.
  - unfold Cache_Add. by rewrite LRU_Add_size.
Qed.

(** ** Properties *)

(** Whatever the sequence of lookups and additions, the cache holds no
    more entries than its size and one for each key, and an addition is
    found again until it expires. *)
Theorem cache_bounded (maxSize : nat) (c : LRUExpireCache) (now now' ttl : Z) (key : string)
    (v : V) (Hs : 0 < maxSize) (Hc : cache_reachable maxSize c) :
  length (evictList c) ≤ maxSize ∧ NoDup (evictList c).*1 ∧
  (Cache_Get now' (Cache_Add now c key v ttl) key).1 =
    if bool_decide (now + ttl < now')%Z then None else Some v.
Proof.
  pose proof (cache_reachable_wf _ _ Hs Hc) as (Hs' & Hnd & Hlen).
  rewrite (cache_reachable_size _ _ Hc) in Hlen. split_and!; [done..|].
  rewrite Cache_Get_Add; [done|]. by apply cache_reachable_wf with maxSize.
Qed.
End LRUExpireCache.
Arguments LRUExpireCache : clear implicits.
Arguments cacheEntry : clear implicits.

(** ** Witnesses *)
Module LruExamples.

Definition c3 : LRUExpireCache nat :=
  Cache_Add 2 (Cache_Add 1 (Cache_Add 0 (NewLRUExpireCache 2) "a" 10 100) "b" 20 100) "c" 30 100.

Lemma cache_bounded_witness :
  cache_reachable 2 c3 ∧ length (evictList c3) ≤ 2 ∧ (evictList c3).*1 = ["c"; "b"] ∧
  (Cache_Get 50 (Cache_Add 3 c3 "d" 40 7) "d").1 = None ∧
  (Cache_Get 9 (Cache_Add 3 c3 "d" 40 7) "d").1 = Some 40.
Proof.
  assert (cache_reachable 2 c3) as Hc by repeat constructor.
  assert (0 < 2) as H2 by lia.
  split; [exact Hc|]. split; [apply (cache_bounded 2 c3 3 50 7 "d" 40 H2 Hc)|].
  split; [vm_compute; reflexivity|]. split.
  - exact (proj2 (proj2 (cache_bounded 2 c3 3 50 7 "d" 40 H2 Hc))).
  - exact (proj2 (proj2 (cache_bounded 2 c3 3 9 7 "d" 40 H2 Hc))).
Defined.

End LruExamples.
