(* ===== verification/AccessControl.v ===== *)
(** * Access sets of users (github.com/rancher/steve/pkg/accesscontrol)

    The agent asks the access store what a user may do.  The store reads
    the role bindings of the user, of its service account and of its groups
    from the cluster's caches, expands the rules of the bound roles into an
    [AccessSet], and keeps the result in an LRU cache under a digest of the
    bindings and of the revisions of their roles. *)
From S2P Require Import Prelude GoStrings Lru.
From stdpp Require Import gmap sorting.
From stdpp Require Import options.

Definition All : string := "*".

(** ** access_set.go *)
Record GroupResource := MkGroupResource { Group : string; Resource : string }.
Record key := MkKey { verb : string; gr : GroupResource }.
Record Access := MkAccess { Namespace : string; ResourceName : string }.

#[export] Instance GroupResource_eq_dec : EqDecision GroupResource.
Proof. solve_decision. Defined.
#[export] Instance key_eq_dec : EqDecision key.
Proof. solve_decision. Defined.
#[export] Instance Access_eq_dec : EqDecision Access.
Proof. solve_decision. Defined.
#[export] Instance GroupResource_countable : Countable GroupResource.
Proof.
  refine (inj_countable' (λ g, (Group g, Resource g)) (λ '(g, r), MkGroupResource g r) _).
  by intros [].
Defined.
#[export] Instance key_countable : Countable key.
Proof. refine (inj_countable' (λ k, (verb k, gr k)) (λ '(v, g), MkKey v g) _). by intros []. Defined.
#[export] Instance Access_countable : Countable Access.
Proof.
  refine (inj_countable' (λ a, (Namespace a, ResourceName a)) (λ '(n, r), MkAccess n r) _).
  by intros [].
Defined.

(** A [resourceAccessSet] is a map whose values are all [true]; the nil map
    of a fresh [AccessSet] reads and is written like an empty one. *)
Notation resourceAccessSet := (gset Access).
Record AccessSet := MkAccessSet { ID : string; set : gmap key resourceAccessSet }.

Definition nsOK (a : Access) (namespace : string) : bool :=
  bool_decide (Namespace a = All) || bool_decide (Namespace a = namespace).
Definition nameOK (a : Access) (name : string) : bool :=
  bool_decide (ResourceName a = All) || bool_decide (ResourceName a = name).
Definition Access_Grants (a : Access) (namespace name : string) : bool :=
  nsOK a namespace && nameOK a name.

Definition lookup_set (s : gmap key resourceAccessSet) (k : key) : gset Access :=
  default ∅ (s !! k).

Definition Grants (a : AccessSet) (verb : string) (gr : GroupResource)
    (namespace name : string) : bool :=
  existsb (λ v,
    existsb (λ g,
      existsb (λ r,
        existsb (λ k, Access_Grants k namespace name)
          (elements (lookup_set (set a) (MkKey v (MkGroupResource g r)))))
        [All; Resource gr])
      [All; Group gr])
    [All; verb].

Definition Add (a : AccessSet) (verb : string) (gr : GroupResource) (access : Access)
    : AccessSet :=
  let k := MkKey verb gr in
  match set a !! k with
  | Some m => MkAccessSet (ID a) (<[k := {[access]} ∪ m]> (set a))
  | None => MkAccessSet (ID a) (<[k := {[access]}]> (set a))
  end.

(** The loop of [Merge] over the entries of the right set. *)
Definition Merge (a right : AccessSet) : AccessSet :=
  MkAccessSet (ID a)
    (map_fold (λ k accessMap s, <[k := accessMap ∪ lookup_set s k]> s) (set a) (set right)).

(** ** Objects of the cluster (k8s.io/api/rbac/v1) *)
Record PolicyRule := MkPolicyRule {
  Verbs : list string;
  APIGroups : list string;
  Resources : list string;
  ResourceNames : list string;
}.
Record Subject := MkSubject {
  Subject_Kind : string; Subject_Namespace : string; Subject_Name : string }.
Record RoleRef := MkRoleRef { Ref_Kind : string; Ref_Name : string }.
Record ClusterRoleBinding := MkClusterRoleBinding {
  CRB_Name : string; CRB_Subjects : list Subject; CRB_RoleRef : RoleRef }.
Record RoleBinding := MkRoleBinding {
  RB_UID : string; RB_Namespace : string; RB_Subjects : list Subject; RB_RoleRef : RoleRef }.

(** The informer caches: the objects the cluster holds. *)
Record Rbac := MkRbac {
  crCache : gmap string (list PolicyRule);
  rCache : gmap (string * string) (list PolicyRule);
  crbCache : list ClusterRoleBinding;
  rbCache : list RoleBinding;
}.

(** [cache.GetByIndex(index, value)]: the objects the index function maps
    to the value; in no particular order, the callers sort them. *)
Definition GetByIndex {A} (indexer : A → list string) (value : string) (objs : list A)
    : list A :=
  filter (λ o, value ∈ indexer o) objs.

(** ** access_store.go, policy_rule_index.go *)
Definition subjectKindUser : string := "User".
Definition subjectKindGroup : string := "Group".
Definition subjectKindServiceAccount : string := "ServiceAccount".

Definition subjectName (subject : Subject) : string :=
  if bool_decide (Subject_Kind subject = subjectKindServiceAccount)
  then "system:serviceaccount:" +:+ Subject_Namespace subject +:+ ":" +:+ Subject_Name subject
  else Subject_Name subject.

Definition subjects_by_kind (kind : string) (subjects : list Subject) : list string :=
  subjectName <$> filter (λ s, Subject_Kind s = kind) subjects.

Definition clusterRoleBindingBySubjectIndexer (kind : string) (crb : ClusterRoleBinding)
    : list string := subjects_by_kind kind (CRB_Subjects crb).

Definition roleBindingBySubject (kind : string) (rb : RoleBinding) : list string :=
  subjects_by_kind kind (RB_Subjects rb).

Definition addRuleToAccessSet (accessSet : AccessSet) (rule : PolicyRule)
    (namespace : string) : AccessSet :=
  fold_left (λ accessSet group,
    fold_left (λ accessSet resource,
      let names := match ResourceNames rule with [] => [All] | names => names end in
      fold_left (λ accessSet resourceName,
        fold_left (λ accessSet verb,
          Add accessSet verb (MkGroupResource group resource)
            (MkAccess namespace resourceName))
          (Verbs rule) accessSet)
        names accessSet)
      (Resources rule) accessSet)
    (APIGroups rule) accessSet.

(** [user.Info]. *)
Record UserInfo := MkUserInfo { User_Name : string; User_UID : string; User_Groups : list string }.

(** The revisions of the roles by namespace and name (role_revision_index.go). *)
Notation Revisions := (gmap (string * string) string).
Definition roleRevision (revisions : Revisions) (namespace name : string) : string :=
  default EmptyString (revisions !! (namespace, name)).

Section Store.
Variable rbac : Rbac.

Definition getRules (namespace : string) (roleRef : RoleRef) : list PolicyRule :=
  if bool_decide (Ref_Kind roleRef = "ClusterRole")
  then default [] (crCache rbac !! Ref_Name roleRef)
  else if bool_decide (Ref_Kind roleRef = "Role")
  then default [] (rCache rbac !! (namespace, Ref_Name roleRef))
  else [].

Definition addAccess (accessSet : AccessSet) (namespace : string) (roleRef : RoleRef)
    : AccessSet :=
  fold_left (λ accessSet rule, addRuleToAccessSet accessSet rule namespace)
    (getRules namespace roleRef) accessSet.

Definition getClusterRoleBindings (kind subjectName : string) : list ClusterRoleBinding :=
  merge_sort (λ b1 b2, String.le (CRB_Name b1) (CRB_Name b2))
    (GetByIndex (clusterRoleBindingBySubjectIndexer kind) subjectName (crbCache rbac)).

Definition getRoleBindings (kind subjectName : string) : list RoleBinding :=
  merge_sort (λ b1 b2, String.le (RB_UID b1) (RB_UID b2))
    (GetByIndex (roleBindingBySubject kind) subjectName (rbCache rbac)).

Definition get (kind subjectName : string) : AccessSet :=
  let result := MkAccessSet EmptyString ∅ in
  let result := fold_left (λ result binding,
    addAccess result (RB_Namespace binding) (RB_RoleRef binding))
    (getRoleBindings kind subjectName) result in
  fold_left (λ result binding, addAccess result All (CRB_RoleRef binding))
    (getClusterRoleBindings kind subjectName) result.

(** [AccessFor] below its cache. *)
Definition AccessFor_uncached (user : UserInfo) : AccessSet :=
  let result := get subjectKindUser (User_Name user) in
  let result := Merge result (get subjectKindServiceAccount (User_Name user)) in
  fold_left (λ result group, Merge result (get subjectKindGroup group))
    (User_Groups user) result.

Variable revisions : Revisions.
Definition nul : string := String Ascii.zero EmptyString.

(** The bytes written to the digest, appended to [digest]. *)
Definition addRolesToHash (kind digest subjectName : string) : string :=
  let digest := fold_left (λ digest crb,
    let ref := Ref_Name (CRB_RoleRef crb) in
    digest +:+ ref +:+ roleRevision revisions EmptyString ref +:+ nul)
    (getClusterRoleBindings kind subjectName) digest in
  fold_left (λ digest rb,
    let ref := Ref_Name (RB_RoleRef rb) in
    let ns := RB_Namespace rb in
    if bool_decide (Ref_Kind (RB_RoleRef rb) = "Role")
       || bool_decide (Ref_Kind (RB_RoleRef rb) = "ClusterRole")
    then digest +:+ ref +:+ ns +:+ roleRevision revisions ns ref +:+ nul
    else digest)
    (getRoleBindings kind subjectName) digest.

(** What is hashed for a user.  (The code sorts a copy of the groups that
    it then does not read.) *)
Definition CacheKey_bytes (user : UserInfo) : string :=
  let d := addRolesToHash subjectKindUser EmptyString (User_Name user) in
  let d := addRolesToHash subjectKindServiceAccount d (User_Name user) in
  fold_left (λ d group, addRolesToHash subjectKindGroup d group) (User_Groups user) d.

(** crypto/sha256 with encoding/hex. *)
Variable sha256_hex : string → string.
Definition CacheKey (user : UserInfo) : string := sha256_hex (CacheKey_bytes user).

(** [AccessFor] at time [now], with the cache before and after.  The call is
    one step: the code computes the key, reads the indexes one after the
    other and adds to the cache with a second reading of the clock, while
    informers may run; here all of this sees one state of the cluster and
    one time. *)
Definition AccessFor (now : Z) (cache : option (LRUExpireCache AccessSet)) (user : UserInfo)
    : AccessSet * option (LRUExpireCache AccessSet) :=
  match cache with
  | None => (AccessFor_uncached user, None)
  | Some c =>
      let cacheKey := CacheKey user in
      match Cache_Get now c cacheKey with
      | (Some as_, c) => (as_, Some c)
      | (None, c) =>
          let result := MkAccessSet cacheKey (set (AccessFor_uncached user)) in
          (result, Some (Cache_Add now c cacheKey result (24 * 3600 * 1000000000)%Z))
      end
  end.
End Store.

(** ** Specification: role based access control

    A rule allows a request by its verb, group, resource and name; a
    binding gives its subjects the rules of its role, in its namespace or,
    for a cluster role binding, everywhere. *)
Definition any_or (allowed : list string) (s : string) : Prop := All ∈ allowed ∨ s ∈ allowed.

Definition rule_allows (rule : PolicyRule) (verb : string) (gr : GroupResource) (name : string)
    : Prop :=
  any_or (Verbs rule) verb ∧ any_or (APIGroups rule) (Group gr) ∧
  any_or (Resources rule) (Resource gr) ∧
  (ResourceNames rule = [] ∨ any_or (ResourceNames rule) name).

Definition bound (kind name : string) (subjects : list Subject) : Prop :=
  ∃ s, s ∈ subjects ∧ Subject_Kind s = kind ∧ subjectName s = name.

Definition subject_of (user : UserInfo) (kind name : string) : Prop :=
  kind = subjectKindUser ∧ name = User_Name user ∨
  kind = subjectKindServiceAccount ∧ name = User_Name user ∨
  kind = subjectKindGroup ∧ name ∈ User_Groups user.

Definition binding_allows (rbac : Rbac) (kind subject verb : string) (gr : GroupResource)
    (namespace name : string) : Prop :=
  (∃ crb rule, crb ∈ crbCache rbac ∧ bound kind subject (CRB_Subjects crb) ∧
     rule ∈ getRules rbac All (CRB_RoleRef crb) ∧ rule_allows rule verb gr name) ∨
  (∃ rb rule, rb ∈ rbCache rbac ∧ bound kind subject (RB_Subjects rb) ∧
     (RB_Namespace rb = All ∨ RB_Namespace rb = namespace) ∧
     rule ∈ getRules rbac (RB_Namespace rb) (RB_RoleRef rb) ∧ rule_allows rule verb gr name).

Definition rbac_allows (rbac : Rbac) (user : UserInfo) (verb : string) (gr : GroupResource)
    (namespace name : string) : Prop :=
  ∃ kind subject, subject_of user kind subject ∧
    binding_allows rbac kind subject verb gr namespace name.

(** ** Lemmas *)
Definition holds (a : AccessSet) (k : key) (x : Access) : Prop := x ∈ lookup_set (set a) k.

Lemma lookup_set_insert s k m k' :
  lookup_set (<[k := m]> s) k' = if decide (k' = k) then m else lookup_set s k'.
Proof.
  unfold lookup_set. case_decide as Hk; [subst; by rewrite lookup_insert_eq|].
  by rewrite lookup_insert_ne.
Qed.

Lemma Add_holds a v g acc k x :
  holds (Add a v g acc) k x ↔ (k = MkKey v g ∧ x = acc) ∨ holds a k x.
Proof.
  unfold holds, Add. destruct (set a !! MkKey v g) as [m|] eqn:Hm; cbn;
    rewrite lookup_set_insert; case_decide as Hk; try (clear Hm; naive_solver);
    subst; unfold lookup_set; rewrite Hm; cbn; rewrite ?elem_of_union, elem_of_singleton, ?elem_of_empty;
    naive_solver.
Qed.

Lemma Merge_holds a b k x : holds (Merge a b) k x ↔ holds b k x ∨ holds a k x.
Proof.
  unfold holds, Merge. cbn. revert k x.
  apply (map_fold_weak_ind (λ s m, ∀ k x, x ∈ lookup_set s k ↔ x ∈ lookup_set m k ∨ x ∈ lookup_set (set a) k)).
  - intros k x. unfold lookup_set at 2. rewrite lookup_empty. set_solver.
  - intros i m s r Hi IH k x. rewrite !lookup_set_insert.
    case_decide; [|by apply IH]. subst. rewrite elem_of_union, IH.
    unfold lookup_set at 1. rewrite Hi. set_solver.
Qed.

Lemma fold_holds {B} (f : AccessSet → B → AccessSet) (Q : B → key → Access → Prop) :
  (∀ a b k x, holds (f a b) k x ↔ Q b k x ∨ holds a k x) →
  ∀ l a k x, holds (fold_left f l a) k x ↔ (∃ b, b ∈ l ∧ Q b k x) ∨ holds a k x.
Proof.
  intros Hf. induction l as [|b l IH]; intros a k x; cbn.
  - setoid_rewrite elem_of_nil. naive_solver.
  - rewrite IH, Hf. setoid_rewrite elem_of_cons. naive_solver.
Qed.

(** What a rule grants in a namespace. *)
Definition rule_grants (rule : PolicyRule) (namespace : string) (k : key) (x : Access) : Prop :=
  verb k ∈ Verbs rule ∧ Group (gr k) ∈ APIGroups rule ∧ Resource (gr k) ∈ Resources rule ∧
  Namespace x = namespace ∧
  ResourceName x ∈ match ResourceNames rule with [] => [All] | names => names end.

Lemma addRule_holds a rule ns k x :
  holds (addRuleToAccessSet a rule ns) k x ↔ rule_grants rule ns k x ∨ holds a k x.
Proof.
  unfold addRuleToAccessSet. rewrite (fold_holds _ (λ g k x, ∃ r, r ∈ Resources rule ∧
    ∃ n, n ∈ match ResourceNames rule with [] => [All] | names => names end ∧
    ∃ v, v ∈ Verbs rule ∧ k = MkKey v (MkGroupResource g r) ∧ x = MkAccess ns n)).
  - unfold rule_grants. destruct k as [v [g r]], x as [ns' n]. cbn. naive_solver.
  - intros. rewrite (fold_holds _ (λ r k x,
      ∃ n, n ∈ match ResourceNames rule with [] => [All] | names => names end ∧
      ∃ v, v ∈ Verbs rule ∧ k = MkKey v (MkGroupResource b r) ∧ x = MkAccess ns n)); [done|].
    intros. cbn zeta. rewrite (fold_holds _ (λ n k x,
      ∃ v, v ∈ Verbs rule ∧ k = MkKey v (MkGroupResource b b0) ∧ x = MkAccess ns n)); [done|].
    intros. rewrite (fold_holds _ (λ v k x,
      k = MkKey v (MkGroupResource b b0) ∧ x = MkAccess ns b1)); [done|].
    intros. apply Add_holds.
Qed.

Lemma elem_of_subjects_by_kind kind name subjects :
  name ∈ subjects_by_kind kind subjects ↔ bound kind name subjects.
Proof.
  unfold subjects_by_kind, bound. rewrite list_elem_of_fmap.
  setoid_rewrite list_elem_of_filter. naive_solver.
Qed.

Lemma elem_of_GetByIndex {A} (indexer : A → list string) value objs o :
  o ∈ GetByIndex indexer value objs ↔ value ∈ indexer o ∧ o ∈ objs.
Proof. unfold GetByIndex. by rewrite list_elem_of_filter. Qed.

Lemma elem_of_getClusterRoleBindings rbac kind name b :
  b ∈ getClusterRoleBindings rbac kind name ↔
  b ∈ crbCache rbac ∧ bound kind name (CRB_Subjects b).
Proof.
  unfold getClusterRoleBindings. rewrite merge_sort_Permutation, elem_of_GetByIndex.
  unfold clusterRoleBindingBySubjectIndexer. rewrite elem_of_subjects_by_kind. tauto.
Qed.

Lemma elem_of_getRoleBindings rbac kind name b :
  b ∈ getRoleBindings rbac kind name ↔
  b ∈ rbCache rbac ∧ bound kind name (RB_Subjects b).
Proof.
  unfold getRoleBindings. rewrite merge_sort_Permutation, elem_of_GetByIndex.
  unfold roleBindingBySubject. rewrite elem_of_subjects_by_kind. tauto.
Qed.

Lemma addAccess_holds rbac a ns ref k x :
  holds (addAccess rbac a ns ref) k x ↔
  (∃ rule, rule ∈ getRules rbac ns ref ∧ rule_grants rule ns k x) ∨ holds a k x.
Proof. apply (fold_holds _ (λ rule, rule_grants rule ns)). intros. apply addRule_holds. Qed.

(** What the bindings of a subject grant. *)
Definition subject_grants (rbac : Rbac) (kind subject : string) (k : key) (x : Access) : Prop :=
  (∃ b rule, b ∈ getClusterRoleBindings rbac kind subject ∧
     rule ∈ getRules rbac All (CRB_RoleRef b) ∧ rule_grants rule All k x) ∨
  (∃ b rule, b ∈ getRoleBindings rbac kind subject ∧
     rule ∈ getRules rbac (RB_Namespace b) (RB_RoleRef b) ∧
     rule_grants rule (RB_Namespace b) k x).

Lemma get_holds rbac kind subject k x :
  holds (get rbac kind subject) k x ↔ subject_grants rbac kind subject k x.
Proof.
  unfold get. cbn zeta.
  rewrite (fold_holds _ (λ b k x, ∃ rule, rule ∈ getRules rbac All (CRB_RoleRef b) ∧
    rule_grants rule All k x)) by (intros; apply addAccess_holds).
  rewrite (fold_holds _ (λ b k x, ∃ rule, rule ∈ getRules rbac (RB_Namespace b) (RB_RoleRef b) ∧
    rule_grants rule (RB_Namespace b) k x)) by (intros; apply addAccess_holds).
  assert (¬ holds (MkAccessSet EmptyString ∅) k x).
  { unfold holds, lookup_set. cbn [set]. rewrite lookup_empty. apply not_elem_of_empty. }
  unfold subject_grants. naive_solver.
Qed.

Lemma AccessFor_holds rbac user k x :
  holds (AccessFor_uncached rbac user) k x ↔
  ∃ kind subject, subject_of user kind subject ∧ subject_grants rbac kind subject k x.
Proof.
  unfold AccessFor_uncached. cbn zeta.
  rewrite (fold_holds _ (λ group, subject_grants rbac subjectKindGroup group)).
  - rewrite Merge_holds, !get_holds. unfold subject_of. naive_solver.
  - intros a group k' x'. by rewrite Merge_holds, get_holds.
Qed.

Lemma existsb_elem {A} (f : A → bool) l : existsb f l = true ↔ ∃ x, x ∈ l ∧ f x = true.
Proof. rewrite existsb_exists. setoid_rewrite <-list_elem_of_In. done. Qed.

Lemma Grants_holds a v g ns name :
  Grants a v g ns name = true ↔
  ∃ k x, holds a k x ∧ (verb k = All ∨ verb k = v) ∧
    (Group (gr k) = All ∨ Group (gr k) = Group g) ∧
    (Resource (gr k) = All ∨ Resource (gr k) = Resource g) ∧
    (Namespace x = All ∨ Namespace x = ns) ∧ (ResourceName x = All ∨ ResourceName x = name).
Proof.
  unfold Grants, holds. repeat setoid_rewrite existsb_elem.
  setoid_rewrite elem_of_elements. unfold Access_Grants, nsOK, nameOK.
  setoid_rewrite andb_true_iff. setoid_rewrite orb_true_iff.
  setoid_rewrite bool_decide_eq_true.
  setoid_rewrite elem_of_cons. setoid_rewrite list_elem_of_singleton. split.
  - intros (v' & Hv & g' & Hg & r & Hr & x & Hx & Hns & Hn).
    exists (MkKey v' (MkGroupResource g' r)), x. by cbn.
  - intros ([v' [g' r]] & x & Hx & Hv & Hg & Hr & Hns & Hn). cbn in *. eauto 12.
Qed.

(** A rule that grants some key and access that cover the request is a
    rule that allows it. *)
Lemma rule_covers rule scope v g ns name :
  (∃ k x, rule_grants rule scope k x ∧ (verb k = All ∨ verb k = v) ∧
    (Group (gr k) = All ∨ Group (gr k) = Group g) ∧
    (Resource (gr k) = All ∨ Resource (gr k) = Resource g) ∧
    (Namespace x = All ∨ Namespace x = ns) ∧ (ResourceName x = All ∨ ResourceName x = name)) ↔
  rule_allows rule v g name ∧ (scope = All ∨ scope = ns).
Proof.
  unfold rule_grants, rule_allows, any_or. destruct g as [g r]. cbn. split.
  - intros ([v' [g' r']] & [ns' n] & (Hv & Hg & Hr & <- & Hn) & Hkv & Hkg & Hkr & Hxn & Hxr).
    cbn in *. destruct (ResourceNames rule) eqn:Hnames; naive_solver.
  - intros ((Hv & Hg & Hr & Hn) & Hns).
    assert (∃ v', v' ∈ Verbs rule ∧ (v' = All ∨ v' = v)) as (v' & ? & ?) by naive_solver.
    assert (∃ g', g' ∈ APIGroups rule ∧ (g' = All ∨ g' = g)) as (g' & ? & ?) by naive_solver.
    assert (∃ r', r' ∈ Resources rule ∧ (r' = All ∨ r' = r)) as (r' & ? & ?) by naive_solver.
    assert (∃ n', n' ∈ match ResourceNames rule with [] => [All] | names => names end ∧
      (n' = All ∨ n' = name)) as (n' & ? & ?).
    { destruct Hn as [->|Hn]; [exists All; split; [by left|by left]|].
      destruct (ResourceNames rule); [|naive_solver].
      destruct Hn as [Hn|Hn]; by apply elem_of_nil in Hn. }
    exists (MkKey v' (MkGroupResource g' r')), (MkAccess scope n'). by cbn.
Qed.

(** The access set implements the specification. *)
Lemma store_grants rbac user verb gr namespace name :
  Grants (AccessFor_uncached rbac user) verb gr namespace name = true ↔
  rbac_allows rbac user verb gr namespace name.
Proof.
  rewrite Grants_holds. setoid_rewrite AccessFor_holds. unfold rbac_allows. split.
  - intros (k & x & (kind & subject & Hu & Hg) & Hcov). exists kind, subject. split; [done|].
    destruct Hg as [(b & rule & Hb & Hrule & Hg)|(b & rule & Hb & Hrule & Hg)].
    + left. apply elem_of_getClusterRoleBindings in Hb as [Hb Hs].
      exists b, rule. split_and!; try done. apply (rule_covers rule All verb gr namespace name).
      by exists k, x.
    + right. apply elem_of_getRoleBindings in Hb as [Hb Hs].
      assert (rule_allows rule verb gr name ∧ (RB_Namespace b = All ∨ RB_Namespace b = namespace))
        as [? ?] by (apply rule_covers; by exists k, x).
      by exists b, rule.
  - intros (kind & subject & Hu & [(b & rule & Hb & Hs & Hrule & Hallow)|
      (b & rule & Hb & Hs & Hns & Hrule & Hallow)]).
    + destruct (proj2 (rule_covers rule All verb gr namespace name)) as (k & x & Hg & Hcov);
        [by split; [|left]|].
      exists k, x. split; [|done]. exists kind, subject. split; [done|]. left.
      exists b, rule. by rewrite elem_of_getClusterRoleBindings.
    + destruct (proj2 (rule_covers rule (RB_Namespace b) verb gr namespace name))
        as (k & x & Hg & Hcov); [done|].
      exists k, x. split; [|done]. exists kind, subject. split; [done|]. right.
      exists b, rule. by rewrite elem_of_getRoleBindings.
Qed.

(** ** The cache *)
Section Cache.
Variables (rbac : Rbac) (revisions : Revisions) (sha256_hex : string → string).

(** Caches reached by lookups while the cluster does not change. *)
Inductive store_reachable : LRUExpireCache AccessSet → Prop :=
| store_new : store_reachable (NewLRUExpireCache 50)
| store_lookup now c user as_ c' :
    store_reachable c →
    AccessFor rbac revisions sha256_hex now (Some c) user = (as_, Some c') →
    store_reachable c'.

(** Each entry was computed for a user of its key. *)
Definition cache_sound (c : LRUExpireCache AccessSet) : Prop :=
  lru_wf c ∧ ∀ k as_ t, (k, (as_, t)) ∈ evictList c →
    ∃ u, CacheKey rbac revisions sha256_hex u = k ∧ set as_ = set (AccessFor_uncached rbac u).

Lemma AccessFor_sound now c user :
  cache_sound c →
  ∃ as_ c', AccessFor rbac revisions sha256_hex now (Some c) user = (as_, Some c') ∧
    cache_sound c' ∧
    ∃ u, CacheKey rbac revisions sha256_hex u = CacheKey rbac revisions sha256_hex user ∧
         set as_ = set (AccessFor_uncached rbac u).
Proof.
  intros [Hwf Hc]. unfold AccessFor. set (k := CacheKey _ _ _ user).
  pose proof (Cache_Get_wf now c k Hwf) as Hwf'.
  pose proof (λ e, Cache_Get_elem now c k e Hwf) as Helem.
  destruct (Cache_Get now c k) as [[as_|] c'] eqn:Hget; cbn in Hwf', Helem.
  - exists as_, c'. split_and!; [done| |].
    + split; [done|]. intros k' as' t Hin. by apply (Hc k' as' t), Helem.
    + destruct (Cache_Get_Some _ _ _ _ _ Hwf Hget) as (t & Hin & _). by apply (Hc k as_ t).
  - eexists _, _. split_and!; [done| |by exists user].
    split; [by apply LRU_Add_wf|]. intros k' as' t [[= -> -> _]|Hin]%LRU_Add_elem.
    + by exists user.
    + by apply (Hc k' as' t), Helem.
Qed.

Lemma store_reachable_sound c : store_reachable c → cache_sound c.
Proof.
  induction 1 as [|now c user as_ c' _ IH Hstep].
  - split; [split_and!; [cbn; lia|constructor|cbn; lia]|]. by intros ??? ?%elem_of_nil.
  - destruct (AccessFor_sound now c user IH) as (as1 & c1 & Heq & Hc1 & _).
    rewrite Hstep in Heq. by simplify_eq.
Qed.
End Cache.

(** ** Properties *)

(** C18. The access set of a user is its role based access: a request is
    granted exactly when a rule of a role bound to the user, to its service
    account or to one of its groups allows it, in the namespace of the
    binding or everywhere for a cluster role binding. *)
Theorem AccessFor_refines_rbac (rbac : Rbac) (user : UserInfo) (verb : string)
    (gr : GroupResource) (namespace name : string) :
  Grants (AccessFor_uncached rbac user) verb gr namespace name = true ↔
  rbac_allows rbac user verb gr namespace name.
Proof.
  apply store_grants.
Qed.

(** Behind its cache the store answers, after any sequence of lookups,
    with the access of some user whose bindings have the same digest. *)
Theorem AccessFor_cached (rbac : Rbac) (revisions : Revisions) (sha256_hex : string → string)
    (now : Z) (c : LRUExpireCache AccessSet) (user : UserInfo)
    (Hc : store_reachable rbac revisions sha256_hex c) :
  ∃ as_ c' u, AccessFor rbac revisions sha256_hex now (Some c) user = (as_, Some c') ∧
    CacheKey rbac revisions sha256_hex u = CacheKey rbac revisions sha256_hex user ∧
    set as_ = set (AccessFor_uncached rbac u) ∧ length (evictList c') ≤ size_ c'.
Proof.
  destruct (AccessFor_sound rbac revisions sha256_hex now c user) as
    (as_ & c' & Heq & [(_ & _ & Hlen) _] & u & Hu & Hset); [by apply store_reachable_sound|].
  by exists as_, c', u.
Qed.

(** ** Witnesses, and two users the digest confuses *)
Module AccessControlExamples.

(** Alice is bound to the cluster role admin everywhere, Mallory in the
    namespace 123 only; the revision of the role is 123. *)
Definition admin : RoleRef := MkRoleRef "ClusterRole" "admin".
Definition user_subject (name : string) : list Subject :=
  [MkSubject subjectKindUser EmptyString name].
Definition cluster : Rbac := MkRbac
  {["admin" := [MkPolicyRule ["*"] ["*"] ["*"] []]]} ∅
  [MkClusterRoleBinding "alice-admin" (user_subject "alice") admin]
  [MkRoleBinding "uid-1" "123" (user_subject "mallory") admin].
Definition cluster_revisions : Revisions := {[(EmptyString, "admin") := "123"]}.
Definition alice : UserInfo := MkUserInfo "alice" "alice" [].
Definition mallory : UserInfo := MkUserInfo "mallory" "mallory" [].
Definition nodes : GroupResource := MkGroupResource EmptyString "nodes".

Lemma same_key sha256_hex :
  CacheKey cluster cluster_revisions sha256_hex mallory =
  CacheKey cluster cluster_revisions sha256_hex alice.
Proof. apply (f_equal sha256_hex). vm_compute. reflexivity. Qed.

(** The digest does not tell a cluster role binding from a role binding
    in a namespace named like the revision of the role: whatever the hash
    function, once Alice, an administrator, was looked up, the store
    answers that Mallory may list the nodes of the cluster, which no rule
    allows her. *)
Theorem CacheKey_confuses (sha256_hex : string → string) (now : Z) :
  let lookup := AccessFor cluster cluster_revisions sha256_hex now in
  let cache := (lookup (Some (NewLRUExpireCache 50)) alice).2 in
  ¬ rbac_allows cluster mallory "list" nodes EmptyString EmptyString ∧
  Grants (lookup cache mallory).1 "list" nodes EmptyString EmptyString = true.
Proof.
  cbn zeta. rewrite <-store_grants. split.
  { apply not_true_iff_false. vm_compute. reflexivity. }
  unfold AccessFor. rewrite same_key. set (k := CacheKey _ _ _ alice).
  assert (∀ v : AccessSet, (Cache_Get now (Cache_Add now (NewLRUExpireCache 50) k v
    (24 * 3600 * 1000000000)%Z) k).1 = Some v) as Hget.
  { intros v. rewrite Cache_Get_Add by (apply empty_wf; lia). by rewrite bool_decide_false by lia. }
  change (Cache_Get now (NewLRUExpireCache 50) k) with
    (@None AccessSet, NewLRUExpireCache (V := AccessSet) 50).
  cbn [snd]. specialize (Hget (MkAccessSet k (set (AccessFor_uncached cluster alice)))).
  destruct (Cache_Get now _ k) as [o c']. cbn in Hget. subst o. vm_compute. reflexivity.
Qed.

Lemma AccessFor_cached_witness :
  ∃ as_ c', AccessFor cluster cluster_revisions id 0 (Some (NewLRUExpireCache 50)) alice
    = (as_, Some c') ∧ length (evictList c') ≤ size_ c'.
Proof.
  destruct (AccessFor_cached cluster cluster_revisions id 0 (NewLRUExpireCache 50) alice)
    as (as_ & c' & u & Heq & _ & _ & Hlen); [apply store_new|].
  exists as_, c'. split; [exact Heq|exact Hlen].
Defined.

End AccessControlExamples.
