(* ===== verification/Kube.v ===== *)
(** * What a user may see (src/pkg/kube)

    The namespaces a user may query, whether it may list the nodes (and
    then query everything), and the service account behind a bearer token.
    The caches of the cluster (generated code over client-go) are the
    interfaces [NamespaceCache] and [SecretCache]; the access store is the
    interface [AccessSetLookup], whose contract [AccessContract] the store
    of AccessControl meets. *)
From S2P Require Import Prelude GoStrings DataSet Errors Lru AccessControl.
From stdpp Require Import gmap.
From stdpp Require Import options.

(** ** Interfaces *)

(** [accesscontrol.AccessSetLookup]. *)
Class AccessSetLookup := AccessFor : UserInfo → AccessSet.

(** The contract of the access store: its access sets grant what [allows]
    says. *)
Class AccessContract (lookup : AccessSetLookup)
    (allows : UserInfo → string → GroupResource → string → string → Prop) : Prop :=
  AccessFor_grants : ∀ user verb gr namespace name,
    Grants (lookup user) verb gr namespace name = true ↔ allows user verb gr namespace name.

(** The store of steve meets it: role based access control. *)
#[export] Instance store_lookup_contract (rbac : Rbac) :
  AccessContract (AccessFor_uncached rbac) (rbac_allows rbac).
Proof. intros user verb gr ns name. apply store_grants. Qed.

(** Objects of the cluster: what the code reads of them.  An unset deletion
    timestamp is [None]. *)
Record Namespace_ := MkNamespace {
  Ns_Name : string;
  Ns_Namespace : string;
  Ns_DeletionTimestamp : option Z;
  Ns_Labels : option (gmap string string);
}.
Record Secret := MkSecret {
  Sec_Namespace : string;
  Sec_DeletionTimestamp : option Z;
  Sec_Annotations : gmap string string;
  Sec_Type : string;
  Sec_Data : gmap string string;
}.
Record ServiceAccount := MkServiceAccount { SA_Namespace : string; SA_Name : string }.

(** The values an index function may be given: a pointer to an object, nil
    or not, or something else. *)
Inductive obj :=
| ObjNamespace (ns : option Namespace_)
| ObjSecret (sec : option Secret)
| ObjOther.

(** [corev1.NamespaceCache] and [corev1.SecretCache]: the calls the code
    makes. *)
Class NamespaceCache := Namespace_List : list Namespace_ * error.
Class SecretCache := Secret_GetByIndex : string → string → list Secret * error.

(** ** Constants *)
Definition ByTokenIndex : string := "byToken".
Definition ByProjectIDIndex : string := "byProjectID".
Definition annServiceAccount : string := "kubernetes.io/service-account.name".
Definition SecretTypeServiceAccountToken : string := "kubernetes.io/service-account-token".
Definition ServiceAccountTokenKey : string := "token".
Definition projectIDLabel : string := "field.cattle.io/projectId".

(** The group and the resources of github.com/rancher/types/apis/core/v1. *)
Definition GroupName : string := EmptyString.
Definition NamespaceResource : string := "namespaces".
Definition PodResource : string := "pods".
Definition NodeResource : string := "nodes".

(** ** access.go *)
Record UserCachedAccess := MkUserCachedAccess { access : AccessSet }.

Definition NewUserLookupAccess (info : UserInfo) (accessStore : AccessSetLookup)
    : UserCachedAccess := MkUserCachedAccess (accessStore info).

Definition CanDo (a : UserCachedAccess) (verb apiGroup resource name ns : string) : bool :=
  Grants (access a) verb (MkGroupResource apiGroup resource) ns name.

Definition CanAccess (a : UserCachedAccess) (apiGroup resource name ns : string) : bool :=
  CanDo a "get" apiGroup resource name ns || CanDo a "list" apiGroup resource name ns.

(** ** nodes.go *)
Definition CanList (accessStore : AccessSetLookup) (info : UserInfo) : bool :=
  CanDo (NewUserLookupAccess info accessStore) "list" GroupName NodeResource
    EmptyString EmptyString.

(** ** namespaces.go *)
Record namespaces := MkNamespaces {
  monitoringNamespace : string;
  namespaceCache : NamespaceCache;
  accessStore : AccessSetLookup;
}.

(** The body of the loop over the namespaces. *)
Definition query_step (n : namespaces) (accessControl : UserCachedAccess)
    (ret : gset string) (v : Namespace_) : gset string :=
  if bool_decide (Ns_DeletionTimestamp v ≠ None) then ret
  else if CanAccess accessControl GroupName NamespaceResource (Ns_Name v) (Ns_Namespace v) then
    if bool_decide (monitoringNamespace n = Ns_Name v) &&
       negb (CanAccess accessControl GroupName PodResource "*" (Ns_Namespace v))
    then ret
    else {[Ns_Name v]} ∪ ret
  else ret.

Definition queryByUser (n : namespaces) (info : UserInfo) : DataSet.Set_ * error :=
  let '(objs, err) := namespaceCache n in
  if negb (is_nil err) then (None, err)
  else
    let accessControl := NewUserLookupAccess info (accessStore n) in
    (Some (fold_left (query_step n accessControl) objs ∅), ErrNil).

(** The error is logged. *)
Definition QueryByUser (n : namespaces) (info : UserInfo) : DataSet.Set_ :=
  let '(ret, err) := queryByUser n info in ret.

Definition toNamespace (o : obj) : option Namespace_ :=
  match o with
  | ObjNamespace ns => ns
  | _ => Some (MkNamespace EmptyString EmptyString None None)
  end.

Definition getProjectID (ns : option Namespace_) : string * bool :=
  match ns with
  | Some ns =>
      match Ns_Labels ns with
      | Some labels =>
          match labels !! projectIDLabel with
          | Some projectID => (projectID, true)
          | None => (EmptyString, false)
          end
      | None => (EmptyString, false)
      end
  | None => (EmptyString, false)
  end.

Definition NamespaceByProjectID (o : obj) : list string * error :=
  let '(projectID, found) := getProjectID (toNamespace o) in
  if found then ([projectID], ErrNil) else ([], ErrNil).

(** ** secrets.go *)

(** The pointer to the service account, nil with an error; see
    [GetSA_spec] for what else the code returns. *)
Definition GetSA (secretCache : SecretCache) (token : string)
    : option ServiceAccount * error :=
  let '(secList, err) := secretCache ByTokenIndex token in
  if negb (is_nil err) then (None, Annotatef err "unknown token")
  else
    match secList with
    | [sec] =>
        if bool_decide (Sec_DeletionTimestamp sec ≠ None) then (None, New "deleting token")
        else
          let saName := default EmptyString (Sec_Annotations sec !! annServiceAccount) in
          if bool_decide (saName = EmptyString)
          then (None, New ("failed to get serviceAccount for token " +:+ token))
          else (Some (MkServiceAccount (Sec_Namespace sec) saName), ErrNil)
    | _ => (None, Annotatef err "can't find service account for token")
    end.

Definition toSecret (o : obj) : option Secret :=
  match o with
  | ObjSecret sec => sec
  | _ => Some (MkSecret EmptyString None ∅ EmptyString ∅)
  end.

Definition SecretByToken (o : obj) : go (list string * error) :=
  match toSecret o with
  | None => Panic nil_dereference
  | Some sec =>
      if bool_decide (Sec_Type sec = SecretTypeServiceAccountToken) then
        let secretToken := default EmptyString (Sec_Data sec !! ServiceAccountTokenKey) in
        if bool_decide (secretToken ≠ EmptyString) then Done ([secretToken], ErrNil)
        else Done ([], ErrNil)
      else Done ([], ErrNil)
  end.

(** ** Specification *)

(** The index of the secrets by token answers with the secrets, of those
    the cluster holds, that [SecretByToken] gives the token for. *)
Definition token_of (sec : Secret) : option string :=
  match SecretByToken (ObjSecret (Some sec)) with
  | Done ([token], _) => Some token
  | _ => None
  end.
Definition indexed (cache : SecretCache) (secrets : list Secret) : Prop :=
  ∀ token, ∃ found, cache ByTokenIndex token = (found, ErrNil) ∧
    found ≡ₚ filter (λ sec, token_of sec = Some token) secrets.

(** The service account a token authenticates: the one secret that holds
    the token is live and names it. *)
Definition authenticates (secrets : list Secret) (token : string) (sa : ServiceAccount) : Prop :=
  ∃ sec, filter (λ sec, token_of sec = Some token) secrets = [sec] ∧
    Sec_DeletionTimestamp sec = None ∧ SA_Namespace sa = Sec_Namespace sec ∧
    Sec_Annotations sec !! annServiceAccount = Some (SA_Name sa) ∧ SA_Name sa ≠ EmptyString.

(** A user may read a resource: get it or list it. *)
Definition may_read (allows : UserInfo → string → GroupResource → string → string → Prop)
    (info : UserInfo) (resource name ns : string) : Prop :=
  allows info "get" (MkGroupResource GroupName resource) ns name ∨
  allows info "list" (MkGroupResource GroupName resource) ns name.

(** The namespaces visible to a user. *)
Definition visible (allows : UserInfo → string → GroupResource → string → string → Prop)
    (monitoring : string) (info : UserInfo) (v : Namespace_) : Prop :=
  Ns_DeletionTimestamp v = None ∧
  may_read allows info NamespaceResource (Ns_Name v) (Ns_Namespace v) ∧
  (Ns_Name v = monitoring → may_read allows info PodResource "*" (Ns_Namespace v)).

(** ** Lemmas *)
Section Kube.
#[local] Set Default Proof Using "Type*".
Context `{lookup : AccessSetLookup} `{!AccessContract lookup allows}.

Lemma CanAccess_spec info resource name ns :
  CanAccess (NewUserLookupAccess info lookup) GroupName resource name ns = true ↔
  may_read allows info resource name ns.
Proof.
  unfold CanAccess, CanDo, may_read. cbn [access NewUserLookupAccess].
  by rewrite orb_true_iff, !AccessFor_grants.
Qed.

Lemma elem_of_query_step n info ret v x :
  accessStore n = lookup →
  x ∈ query_step n (NewUserLookupAccess info (accessStore n)) ret v ↔
  x ∈ ret ∨ x = Ns_Name v ∧ visible allows (monitoringNamespace n) info v.
Proof.
  intros ->. unfold query_step, visible. rewrite <-!CanAccess_spec.
  repeat case_bool_decide; cbn;
    destruct (CanAccess _ _ NamespaceResource _ _), (CanAccess _ _ PodResource _ _); cbn;
    set_solver.
Qed.

Lemma elem_of_query_loop n info objs ret x :
  accessStore n = lookup →
  x ∈ fold_left (query_step n (NewUserLookupAccess info (accessStore n))) objs ret ↔
  x ∈ ret ∨ ∃ v, v ∈ objs ∧ x = Ns_Name v ∧ visible allows (monitoringNamespace n) info v.
Proof.
  intros Hn. revert ret. induction objs as [|v objs IH]; intros ret; cbn [fold_left].
  - setoid_rewrite elem_of_nil. naive_solver.
  - rewrite IH, elem_of_query_step by done. setoid_rewrite elem_of_cons. naive_solver.
Qed.
End Kube.

Lemma GetSA_authenticates cache secrets token sa :
  indexed cache secrets →
  GetSA cache token = (Some sa, ErrNil) ↔ authenticates secrets token sa.
Proof.
  intros Hcache. destruct (Hcache token) as (found & Hfound & Hperm).
  unfold GetSA, authenticates. rewrite Hfound. cbn.
  destruct found as [|sec [|sec2 found]].
  - symmetry in Hperm. apply Permutation_nil_r in Hperm as ->. naive_solver.
  - apply Permutation_singleton_l in Hperm as <-.
    destruct sa as [sns sname], (Sec_Annotations sec !! annServiceAccount) as [name|] eqn:Hann;
      cbn; repeat case_bool_decide; naive_solver.
  - apply Permutation_length in Hperm. cbn in Hperm. split; [done|].
    intros (sec' & Hsec & _). by rewrite Hsec in Hperm.
Qed.

Lemma QueryByUser_visible (n : namespaces) (info : UserInfo)
    (allows : UserInfo → string → GroupResource → string → string → Prop)
    (Hstore : AccessContract (accessStore n) allows) :
  let '(objs, err) := namespaceCache n in
  if is_nil err then
    ∃ S, QueryByUser n info = Some S ∧
      ∀ x, x ∈ S ↔ ∃ v, v ∈ objs ∧ x = Ns_Name v ∧ visible allows (monitoringNamespace n) info v
  else QueryByUser n info = None.
Proof.
  unfold QueryByUser, queryByUser. destruct (namespaceCache n) as [objs err].
  destruct (is_nil err); [|done]. eexists. split; [done|]. intros x.
  rewrite (elem_of_query_loop (lookup := accessStore n) (allows := allows)) by done. set_solver.
Qed.

Lemma authenticates_one secrets token sa :
  authenticates secrets token sa →
  length (filter (λ sec, token_of sec = Some token) secrets) = 1.
Proof. by intros (sec & -> & _). Qed.

Lemma authenticates_unique secrets token sa1 sa2 :
  authenticates secrets token sa1 → authenticates secrets token sa2 → sa1 = sa2.
Proof.
  intros (sec1 & Hf1 & _ & Hn1 & Ha1 & _) (sec2 & Hf2 & _ & Hn2 & Ha2 & _).
  rewrite Hf1 in Hf2. injection Hf2 as <-. destruct sa1, sa2; cbn in *. congruence.
Qed.

(** ** Properties *)


(** C24. A bearer token gives the service account of the one live secret
    that holds it and names the account, and gives none otherwise.  For a
    token of no secret, or of several, the nil service account comes with a
    nil error: [Annotatef] of the nil error is nil, so the caller takes the
    token as accepted. *)
Theorem GetSA_spec (cache : SecretCache) (secrets : list Secret) (token : string)
    (Hcache : indexed cache secrets) :
  (∀ sa, GetSA cache token = (Some sa, ErrNil) ↔ authenticates secrets token sa) ∧
  (length (filter (λ sec, token_of sec = Some token) secrets) ≠ 1 → GetSA cache token = (None, ErrNil)).
Proof.
  split; [intros sa; by apply GetSA_authenticates|]. intros Hcount.
  destruct (Hcache token) as (found & Hfound & Hperm). apply Permutation_length in Hperm.
  unfold GetSA. rewrite Hfound. cbn. by destruct found as [|sec [|]].
Qed.

(** Only who may list the nodes of the cluster bypasses the filtering. *)
Lemma CanList_spec (lookup : AccessSetLookup) (info : UserInfo)
    (allows : UserInfo → string → GroupResource → string → string → Prop)
    (Hstore : AccessContract lookup allows) :
  CanList lookup info = true ↔
  allows info "list" (MkGroupResource GroupName NodeResource) EmptyString EmptyString.
Proof. unfold CanList, CanDo. cbn [access NewUserLookupAccess]. apply Hstore. Qed.

(** The pods of the monitoring namespace are asked for in the namespace
    field of the namespace object, which is empty: with the store of the
    cluster, and role bindings that live in a namespace, only a cluster
    role binding makes the monitoring namespace visible; a role binding in
    that namespace never does. *)
Theorem monitoring_visible_cluster_wide (rbac : Rbac) (info : UserInfo) (v : Namespace_)
    (Hv : visible (rbac_allows rbac) (Ns_Name v) info v) (Hns : Ns_Namespace v = EmptyString)
    (Hrb : Forall (λ rb, RB_Namespace rb ≠ EmptyString ∧ RB_Namespace rb ≠ All) (rbCache rbac)) :
  ∃ kind subject crb rule verb, subject_of info kind subject ∧ crb ∈ crbCache rbac ∧
    bound kind subject (CRB_Subjects crb) ∧ rule ∈ getRules rbac All (CRB_RoleRef crb) ∧
    (verb = "get" ∨ verb = "list") ∧
    rule_allows rule verb (MkGroupResource GroupName PodResource) "*".
Proof.
  destruct Hv as (_ & _ & Hpods). specialize (Hpods eq_refl). rewrite Hns in Hpods.
  rewrite Forall_forall in Hrb.
  destruct Hpods as [(kind & subject & Hu & Hb)|(kind & subject & Hu & Hb)];
    (destruct Hb as [(crb & rule & ? & ? & ? & ?)|(rb & rule & Hin & _ & Hn & _)];
      [exists kind, subject, crb, rule; eauto 10|destruct (Hrb rb Hin); naive_solver]).
Qed.

(** ** Witnesses *)
Module KubeExamples.

(** Two namespaces and the monitoring one; Bob reads ns-a and the pods. *)
Definition ns (name : string) : Namespace_ := MkNamespace name EmptyString None None.
Definition viewer : RoleRef := MkRoleRef "ClusterRole" "viewer".
Definition bob : UserInfo := MkUserInfo "bob" "bob" [].
Definition rbac1 : Rbac := MkRbac
  {["viewer" := [MkPolicyRule ["get"] [EmptyString] ["namespaces"] ["ns-a"; "monitoring"];
                 MkPolicyRule ["list"] [EmptyString] ["pods"] []]]} ∅
  [MkClusterRoleBinding "bob-viewer" (AccessControlExamples.user_subject "bob") viewer] [].
Definition namespaces1 : namespaces :=
  MkNamespaces "monitoring" ([ns "ns-a"; ns "ns-b"; ns "monitoring"], ErrNil)
    (AccessFor_uncached rbac1).


Lemma bob_lists_no_nodes :
  AccessContract (AccessFor_uncached rbac1) (rbac_allows rbac1) ∧
  ¬ rbac_allows rbac1 bob "list" (MkGroupResource GroupName NodeResource) EmptyString EmptyString.
Proof.
  split; [apply store_lookup_contract|].
  rewrite <-(CanList_spec (AccessFor_uncached rbac1) bob (rbac_allows rbac1)
               (store_lookup_contract rbac1)).
  apply not_true_iff_false. vm_compute. reflexivity.
Defined.

Lemma monitoring_visible_cluster_wide_witness :
  ∃ crb rule, crb ∈ crbCache rbac1 ∧ rule ∈ getRules rbac1 All (CRB_RoleRef crb).
Proof.
  destruct (monitoring_visible_cluster_wide rbac1 bob (ns "monitoring"))
    as (kind & subject & crb & rule & verb & _ & Hcrb & _ & Hrule & _).
  - assert (∀ verb resource name,
      Grants (AccessFor_uncached rbac1 bob) verb (MkGroupResource GroupName resource)
        EmptyString name = true →
      rbac_allows rbac1 bob verb (MkGroupResource GroupName resource) EmptyString name) as H.
    { intros. by apply store_grants. }
    split_and!; [reflexivity|left; apply H; vm_compute; reflexivity|].
    intros _. right. apply H. vm_compute. reflexivity.
  - reflexivity.
  - constructor.
  - exists crb, rule. split; [exact Hcrb|exact Hrule].
Defined.

(** The secrets of a cluster and the cache that indexes them. *)
Definition sec (ns name token : string) : Secret :=
  MkSecret ns None {[annServiceAccount := name]} SecretTypeServiceAccountToken
    {[ServiceAccountTokenKey := token]}.
Definition secrets1 : list Secret :=
  [sec "ns-a" "default" "t1"; sec "ns-b" "robot" "t2"; sec "ns-b" "twin" "t2"].
Definition cache_of (secrets : list Secret) : SecretCache := λ index token,
  (filter (λ sec, token_of sec = Some token) secrets, ErrNil).

Lemma cache_of_indexed secrets : indexed (cache_of secrets) secrets.
Proof. intros token. by eexists. Qed.

Lemma GetSA_spec_witness :
  authenticates secrets1 "t1" (MkServiceAccount "ns-a" "default") ∧
  ¬ authenticates secrets1 "t2" (MkServiceAccount "ns-b" "robot") ∧
  GetSA (cache_of secrets1) "unknown" = (None, ErrNil) ∧
  GetSA (cache_of secrets1) "t2" = (None, ErrNil).
Proof.
  pose proof (λ token, GetSA_spec (cache_of secrets1) secrets1 token (cache_of_indexed secrets1)) as Hspec.
  split_and!.
  - apply (Hspec "t1"). vm_compute. reflexivity.
  - rewrite <- (proj1 (Hspec "t2") _). vm_compute. discriminate.
  - apply (Hspec "unknown"). vm_compute. discriminate.
  - apply (Hspec "t2"). vm_compute. discriminate.
Defined.

End KubeExamples.
