(* ===== verification/Url.v ===== *)
(** * URLs and form values (the parts of net/url the agent uses)

    The handlers of the agent parse the query of a request, replace the
    PromQL expressions in it, encode the values again and put them in the
    URL of the request they send upstream.  A URL is in origin form: the
    path and the query of a request line; the scheme, user and host that a
    request to a proxy may carry are left out, as is the fragment, which a
    URL loses on its way to the server. *)
From S2P Require Import Prelude GoStrings Errors.
From Stdlib Require Import Ascii.
From stdpp Require Import gmap.
From stdpp Require Import options.

(** ** Escaping *)
Inductive encoding := encodePath | encodeQueryComponent.

Definition char_in (c : ascii) (s : string) : bool :=
  bool_decide (c ∈ String.list_ascii_of_string s).

Definition shouldEscape (c : ascii) (mode : encoding) : bool :=
  if is_lower c || is_upper c || is_digit c || char_in c "-_.~" then false
  else if char_in c "$&+,/:;=?@" then
    match mode with
    | encodePath => bool_decide (c = "?"%char)
    | encodeQueryComponent => true
    end
  else true.

Definition escape_char (mode : encoding) (c : ascii) : string :=
  if shouldEscape c mode then
    match mode, bool_decide (c = " "%char) with
    | encodeQueryComponent, true => "+"
    | _, _ => String "%" (String (hex_digit true (N.shiftr (byte_val c) 4))
                (String (hex_digit true (byte_val c mod 16)) EmptyString))
    end
  else String c EmptyString.

Fixpoint escape (s : string) (mode : encoding) : string :=
  match s with
  | EmptyString => EmptyString
  | String c s => escape_char mode c +:+ escape s mode
  end.

(** [EscapeError]: the text of its argument, up to three bytes. *)
Definition EscapeError `{UnicodeTable} (s : string) : error :=
  Foreign ("invalid URL escape " +:+ Quote (take_string 3 s)).

Fixpoint unescape `{UnicodeTable} (s : string) (mode : encoding) : result error string :=
  match s with
  | EmptyString => Ok EmptyString
  | String c s' =>
      if bool_decide (c = "%"%char) then
        match s' with
        | String h (String l s'') =>
            match unhex h, unhex l with
            | Some x, Some y =>
                t ← unescape s'' mode; Ok (String (ascii_of_N (x * 16 + y)) t)
            | _, _ => Error (EscapeError s)
            end
        | _ => Error (EscapeError s)
        end
      else
        let c := match mode with
                 | encodeQueryComponent => if bool_decide (c = "+"%char) then " "%char else c
                 | encodePath => c
                 end in
        t ← unescape s' mode; Ok (String c t)
  end.

Definition QueryEscape (s : string) : string := escape s encodeQueryComponent.
Definition QueryUnescape `{UnicodeTable} (s : string) : result error string :=
  unescape s encodeQueryComponent.

(** ** Values *)
Notation Values := (gmap string (list string)).

(** The values of a key: nil reads as no value. *)
Definition values_of (v : Values) (key : string) : list string := default [] (v !! key).

Definition Values_Get (v : Values) (key : string) : string :=
  match values_of v key with [] => EmptyString | value :: _ => value end.
Definition Values_Set (v : Values) (key value : string) : Values := <[key := [value]]> v.
Definition Values_Add (v : Values) (key value : string) : Values :=
  <[key := values_of v key ++ [value]]> v.
Definition Values_Del (v : Values) (key : string) : Values := delete key v.

(** The pairs of the values, the keys sorted. *)
Definition pairs_of (v : Values) : list (string * string) :=
  List.flat_map (λ k, pair k <$> values_of v k) (sort_Strings (elements (dom v))).

Definition Encode (v : Values) : string :=
  GoStrings.Join ((λ '(k, x), QueryEscape k +:+ "=" +:+ QueryEscape x) <$> pairs_of v) "&".

(** The pieces of a string between the separators. *)
Fixpoint pieces (sep : ascii → bool) (s : string) : list string :=
  match s with
  | EmptyString => [EmptyString]
  | String c s =>
      if sep c then EmptyString :: pieces sep s
      else match pieces sep s with
           | p :: ps => String c p :: ps
           | [] => [String c EmptyString]
           end
  end.

(** The text before and after the first [c]. *)
Fixpoint cut (c : ascii) (s : string) : string * option string :=
  match s with
  | EmptyString => (EmptyString, None)
  | String d s =>
      if bool_decide (d = c) then (EmptyString, Some s)
      else let '(before, after) := cut c s in (String d before, after)
  end.

Section Query.
Context `{UnicodeTable}.

(** One step of the loop of [parseQuery]: a malformed pair is skipped, the
    first error is kept. *)
Definition parse_pair (st : Values * error) (piece : string) : Values * error :=
  let '(m, err) := st in
  let keep e := if is_nil err then e else err in
  if bool_decide (piece = EmptyString) then (m, err)
  else
    let '(key, value) := cut "=" piece in
    match QueryUnescape key with
    | Error e => (m, keep e)
    | Ok key =>
        match QueryUnescape (default EmptyString value) with
        | Error e => (m, keep e)
        | Ok value => (Values_Add m key value, err)
        end
    end.

(** [ParseQuery(query)]: the values that parsed, and the first error. *)
Definition ParseQuery (query : string) : Values * error :=
  fold_left parse_pair (pieces (λ c, char_in c "&;") query) (∅, ErrNil).

(** ** URLs in origin form *)
Record URL := MkURL {
  Path : string;
  RawPath : string;
  ForceQuery : bool;
  RawQuery : string;
}.

Definition validEncodedPath (s : string) : bool :=
  string_forall (λ c, char_in c "!$&'()*+,;=:@[]%" || negb (shouldEscape c encodePath)) s.

Definition EscapedPath (u : URL) : string :=
  let default := if bool_decide (Path u = "*") then "*" else escape (Path u) encodePath in
  if bool_decide (RawPath u ≠ EmptyString) && validEncodedPath (RawPath u) then
    match unescape (RawPath u) encodePath with
    | Ok p => if bool_decide (p = Path u) then RawPath u else default
    | Error _ => default
    end
  else default.

(** [u.String()]; a path whose first segment has a colon cannot start with
    a slash, and is not a path of a request. *)
Definition URL_String (u : URL) : string :=
  EscapedPath u +:+
  (if ForceQuery u || bool_decide (RawQuery u ≠ EmptyString)
   then "?" +:+ RawQuery u else EmptyString).

(** [u.setPath(p)]. *)
Definition setPath (p : string) : result error (string * string) :=
  path ← unescape p encodePath;
  Ok (path, if bool_decide (escape path encodePath = p) then EmptyString else p).

Definition is_CTL (c : ascii) : bool :=
  bool_decide (byte_val c < 32)%N || bool_decide (byte_val c = 127)%N.

(** [url.Parse] of a text in origin form: it starts with one slash.  A
    fragment is checked and dropped. *)
Definition URL_Parse (rawurl : string) : result error URL :=
  let '(u, frag) := cut "#" rawurl in
  if negb (string_forall (λ c, negb (is_CTL c)) u)
  then Error (Foreign ("parse " +:+ rawurl +:+ ": net/url: invalid control character in URL"))
  else
    let '(path, query) := cut "?" u in
    '(path, raw) ← setPath path;
    _ ← unescape (default EmptyString frag) encodePath;
    Ok (MkURL path raw (bool_decide (query = Some EmptyString)) (default EmptyString query)).
End Query.

(** ** Lemmas *)
Section Lemmas.
Context `{UnicodeTable}.

Lemma unescape_char mode c s :
  unescape (escape_char mode c +:+ s) mode = (t ← unescape s mode; Ok (String c t)).
Proof. destruct mode, c as [[] [] [] [] [] [] [] []]; reflexivity. Qed.

(** Unescaping undoes escaping. *)
Lemma unescape_escape s mode : unescape (escape s mode) mode = Ok s.
Proof. induction s as [|c s IH]; [done|]. cbn [escape]. by rewrite unescape_char, IH. Qed.

(** The bytes of an escaped query component. *)
Definition component_char (c : ascii) : bool :=
  is_lower c || is_upper c || is_digit c || char_in c "-_.~%+".

Lemma escape_component s : string_forall component_char (QueryEscape s) = true.
Proof.
  induction s as [|c s IH]; [done|]. unfold QueryEscape in *. cbn [escape].
  rewrite string_forall_app, IH, andb_true_r. by destruct c as [[] [] [] [] [] [] [] []].
Qed.

Lemma pieces_app sep s t c :
  string_forall (λ c, negb (sep c)) s = true → sep c = true →
  pieces sep (s +:+ String c t) = s :: pieces sep t.
Proof.
  intros Hs Hc. induction s as [|d s IH]; rewrite ?string_app_nil_l, ?string_app_cons;
    cbn in *; [by rewrite Hc|].
  apply andb_true_iff in Hs as [Hd Hs]. apply negb_true_iff in Hd. by rewrite Hd, IH.
Qed.

Lemma pieces_single sep s : string_forall (λ c, negb (sep c)) s = true → pieces sep s = [s].
Proof.
  induction s as [|d s IH]; [done|]. cbn. intros [Hd%negb_true_iff Hs]%andb_true_iff.
  by rewrite Hd, IH.
Qed.

Lemma pieces_Join sep c l :
  l ≠ [] → sep c = true → Forall (λ s, string_forall (λ c, negb (sep c)) s = true) l →
  pieces sep (GoStrings.Join l (String c EmptyString)) = l.
Proof.
  intros Hne Hc Hl. induction Hl as [|s l Hs Hl IH]; [done|].
  destruct (decide (l = [])) as [->|Hl']; [by apply pieces_single|].
  rewrite Join_cons by done. rewrite string_app_cons, string_app_nil_l.
  by rewrite pieces_app, IH.
Qed.

Lemma cut_app c s t :
  string_forall (λ d, negb (bool_decide (d = c))) s = true →
  cut c (s +:+ String c t) = (s, Some t).
Proof.
  induction s as [|d s IH]; rewrite ?string_app_nil_l, ?string_app_cons; cbn;
    [by rewrite bool_decide_true|].
  intros [Hd%negb_true_iff Hs]%andb_true_iff. by rewrite Hd, IH.
Qed.

Lemma cut_none c s :
  string_forall (λ d, negb (bool_decide (d = c))) s = true → cut c s = (s, None).
Proof.
  induction s as [|d s IH]; cbn; [done|].
  intros [Hd%negb_true_iff Hs]%andb_true_iff. by rewrite Hd, IH.
Qed.

(** An encoded pair, and what the parser makes of it. *)
Definition encode_pair (kx : string * string) : string :=
  QueryEscape kx.1 +:+ "=" +:+ QueryEscape kx.2.

Lemma component_not (f : ascii → bool) s :
  (∀ c, component_char c = true → f c = true) → string_forall f (QueryEscape s) = true.
Proof. intros Hf. eapply string_forall_impl; [exact Hf|]. apply escape_component. Qed.

Lemma encode_pair_chars (f : ascii → bool) kx :
  (∀ c, component_char c = true → f c = true) → f "="%char = true →
  string_forall f (encode_pair kx) = true.
Proof.
  intros Hf Heq. unfold encode_pair.
  by rewrite !string_forall_app, !component_not by done; cbn; rewrite Heq.
Qed.

Lemma parse_pair_encode m err k x :
  parse_pair (m, err) (encode_pair (k, x)) = (Values_Add m k x, err).
Proof.
  unfold parse_pair, encode_pair. cbn [fst snd].
  rewrite bool_decide_false.
  2: { destruct (QueryEscape k); by rewrite ?string_app_nil_l, ?string_app_cons. }
  rewrite string_app_cons, string_app_nil_l, cut_app.
  2: { apply component_not. intros c. by destruct c as [[] [] [] [] [] [] [] []]. }
  unfold QueryUnescape, QueryEscape. cbn [from_option id]. by rewrite !unescape_escape.
Qed.

Lemma Encode_pairs v :
  pairs_of v ≠ [] →
  pieces (λ c, char_in c "&;") (Encode v) = encode_pair <$> pairs_of v.
Proof.
  intros Hne. unfold Encode.
  replace ((λ '(k, x), QueryEscape k +:+ "=" +:+ QueryEscape x) <$> pairs_of v)
    with (encode_pair <$> pairs_of v) by (apply list_fmap_ext; by intros _ [] _).
  apply pieces_Join; [by destruct (pairs_of v)|done|].
  apply Forall_fmap, Forall_true. intros kx.
  apply encode_pair_chars; [|done]. intros c. by destruct c as [[] [] [] [] [] [] [] []].
Qed.

Definition add_pairs (m : Values) (l : list (string * string)) : Values :=
  fold_left (λ m '(k, x), Values_Add m k x) l m.

Lemma parse_pairs m err l :
  fold_left parse_pair (encode_pair <$> l) (m, err) = (add_pairs m l, err).
Proof.
  revert m. induction l as [|[k x] l IH]; intros m; [done|].
  cbn [fmap list_fmap fold_left]. rewrite parse_pair_encode, IH. done.
Qed.

Lemma values_of_Add m k x k' :
  values_of (Values_Add m k x) k' = values_of m k' ++ (if decide (k = k') then [x] else []).
Proof.
  unfold Values_Add, values_of. case_decide as Hk.
  - subst. by rewrite lookup_insert_eq.
  - by rewrite lookup_insert_ne, app_nil_r.
Qed.

Lemma add_pairs_values m l k :
  values_of (add_pairs m l) k = values_of m k ++ (filter (λ p, p.1 = k) l).*2.
Proof.
  revert m. induction l as [|[k' x] l IH]; intros m; [cbn; by rewrite app_nil_r|].
  change (add_pairs m ((k', x) :: l)) with (add_pairs (Values_Add m k' x) l).
  rewrite IH, values_of_Add, <-app_assoc, filter_cons. cbn [fst]. f_equal. by case_decide.
Qed.

Lemma add_pairs_dom m l k :
  k ∈ dom (add_pairs m l) ↔ k ∈ dom m ∨ k ∈ l.*1.
Proof.
  revert m. induction l as [|[k' x] l IH]; intros m; cbn.
  - rewrite elem_of_nil. tauto.
  - unfold add_pairs in *. rewrite IH. unfold Values_Add. rewrite dom_insert.
    rewrite elem_of_cons. set_solver.
Qed.

(** The values of [v], keys without values dropped. *)
Definition inhabited_values (v : Values) : Prop := map_Forall (λ _ xs, xs ≠ []) v.

Lemma pairs_of_filter v k : (filter (λ p, p.1 = k) (pairs_of v)).*2 = values_of v k.
Proof.
  unfold pairs_of.
  assert (∀ ks, NoDup ks →
    (filter (λ p, p.1 = k) (List.flat_map (λ k, pair k <$> values_of v k) ks)).*2 =
    if decide (k ∈ ks) then values_of v k else []) as Hks.
  { assert (∀ k' xs, (filter (λ p, p.1 = k) (pair k' <$> xs)).*2 =
      if decide (k' = k) then xs else ([] : list string)) as Hone.
    { intros k' xs. induction xs as [|x xs IH]; [by case_decide|].
      rewrite fmap_cons, filter_cons. cbn [fst]. case_decide; cbn; [by rewrite IH|done]. }
    induction ks as [|k' ks IH]; intros Hnd; [by rewrite decide_False by by intros ?%elem_of_nil|].
    apply NoDup_cons in Hnd as [Hk' Hnd]. cbn [List.flat_map].
    rewrite filter_app, fmap_app, Hone, IH by done.
    destruct (decide (k' = k)) as [->|Hk].
    - by rewrite decide_False, app_nil_r, decide_True by (done || by left).
    - cbn [app]. destruct (decide (k ∈ ks)).
      + by rewrite decide_True by (by right).
      + by rewrite decide_False by (by rewrite not_elem_of_cons). }
  rewrite Hks.
  - case_decide as Hk; [done|]. unfold values_of.
    rewrite sort_Strings_perm, elem_of_elements, not_elem_of_dom in Hk. by rewrite Hk.
  - rewrite sort_Strings_perm. apply NoDup_elements.
Qed.

Lemma add_pairs_of v : inhabited_values v → add_pairs ∅ (pairs_of v) = v.
Proof.
  intros Hv. apply map_eq. intros k.
  pose proof (add_pairs_values ∅ (pairs_of v) k) as Hval. rewrite pairs_of_filter in Hval.
  pose proof (add_pairs_dom ∅ (pairs_of v) k) as Hdom.
  unfold values_of in Hval. rewrite lookup_empty in Hval. cbn in Hval.
  destruct (v !! k) as [xs|] eqn:Hk; cbn in Hval.
  - assert (xs ≠ []) as Hne by (by eapply Hv).
    destruct (add_pairs ∅ (pairs_of v) !! k) as [ys|]; cbn in Hval; congruence.
  - apply not_elem_of_dom. rewrite Hdom, dom_empty.
    intros [?|Hin]; [set_solver|].
    apply list_elem_of_fmap in Hin as ([k' x] & -> & Hin).
    unfold pairs_of in Hin. apply list_elem_of_In, in_flat_map in Hin as (k0 & _ & Hin).
    apply list_elem_of_In, list_elem_of_fmap in Hin as (y & [= <- <-] & Hin).
    cbn in Hk. unfold values_of in Hin. rewrite Hk in Hin. by apply elem_of_nil in Hin.
Qed.

Lemma ParseQuery_encode v : inhabited_values v → ParseQuery (Encode v) = (v, ErrNil).
Proof.
  intros Hv. unfold ParseQuery. destruct (decide (pairs_of v = [])) as [Hp|Hp].
  - unfold Encode. rewrite Hp. cbn. f_equal. rewrite <-(add_pairs_of v Hv), Hp. done.
  - by rewrite Encode_pairs, parse_pairs, add_pairs_of.
Qed.
End Lemmas.

(** ** URLs that print and parse *)
Section RoundTrip.
Context `{UnicodeTable}.

Definition path_char (c : ascii) : bool :=
  negb (is_CTL c) && negb (bool_decide (c = "#"%char)) && negb (bool_decide (c = "?"%char)).
Definition query_char (c : ascii) : bool :=
  negb (is_CTL c) && negb (bool_decide (c = "#"%char)).

(** The escaped form of the path that a URL keeps is one it was parsed
    from. *)
Definition path_ok (u : URL) : Prop :=
  Path u ≠ "*" ∧
  (RawPath u = EmptyString ∨
   validEncodedPath (RawPath u) = true ∧ RawPath u ≠ EmptyString ∧
   unescape (RawPath u) encodePath = Ok (Path u) ∧ escape (Path u) encodePath ≠ RawPath u).

Lemma escape_path_chars s : string_forall path_char (escape s encodePath) = true.
Proof.
  induction s as [|c s IH]; [done|]. cbn [escape].
  rewrite string_forall_app, IH, andb_true_r. by destruct c as [[] [] [] [] [] [] [] []].
Qed.

Lemma valid_path_chars s : validEncodedPath s = true → string_forall path_char s = true.
Proof. apply string_forall_impl. intros c. by destruct c as [[] [] [] [] [] [] [] []]. Qed.

Lemma EscapedPath_ok u :
  path_ok u →
  string_forall path_char (EscapedPath u) = true ∧
  setPath (EscapedPath u) = Ok (Path u, RawPath u).
Proof.
  intros (Hstar & Hraw). unfold EscapedPath, setPath.
  rewrite (bool_decide_false (Path u = "*")) by done.
  destruct Hraw as [->|(Hv & Hne & Hun & Hesc)].
  - rewrite bool_decide_false by (by intros []). cbn [andb].
    rewrite unescape_escape. cbn. rewrite bool_decide_true by done.
    split; [apply escape_path_chars|done].
  - rewrite bool_decide_true, Hv, Hun, bool_decide_true by done. cbn [andb].
    rewrite Hun. cbn. rewrite bool_decide_false by done.
    split; [by apply valid_path_chars|done].
Qed.

Lemma URL_Parse_text p q :
  string_forall path_char p = true →
  match q with Some q => string_forall query_char q = true | None => True end →
  URL_Parse (p +:+ match q with Some q => "?" +:+ q | None => EmptyString end) =
  ('(path, raw) ← setPath p;
   Ok (MkURL path raw (bool_decide (q = Some EmptyString)) (default EmptyString q))).
Proof.
  intros Hp Hq. unfold URL_Parse.
  set (t := match q with Some q => "?" +:+ q | None => EmptyString end).
  assert (string_forall query_char (p +:+ t) = true) as Hpt.
  { rewrite string_forall_app. apply andb_true_iff. split.
    - eapply string_forall_impl; [|exact Hp]. intros c. unfold path_char, query_char.
      by intros [? _]%andb_true_iff.
    - unfold t. destruct q as [q|]; [|done]. by rewrite string_app_cons, string_app_nil_l. }
  rewrite cut_none.
  2: { eapply string_forall_impl; [|exact Hpt]. intros c. unfold query_char.
       by intros [_ ?]%andb_true_iff. }
  assert (string_forall (λ c, negb (is_CTL c)) (p +:+ t) = true) as ->.
  { eapply string_forall_impl; [|exact Hpt]. intros c. unfold query_char.
    by intros [? _]%andb_true_iff. }
  cbn [negb].
  assert (cut "?" (p +:+ t) = (p, q)) as ->.
  { assert (string_forall (λ d, negb (bool_decide (d = "?"%char))) p = true).
    { eapply string_forall_impl; [|exact Hp]. intros c. unfold path_char.
      by intros [_ ?]%andb_true_iff. }
    unfold t. destruct q as [q|].
    - rewrite string_app_cons, string_app_nil_l. by apply cut_app.
    - rewrite string_app_nil_r. by apply cut_none. }
  destruct (setPath p) as [[path raw]|]; done.
Qed.

Lemma URL_Parse_String u :
  path_ok u → string_forall query_char (RawQuery u) = true →
  URL_Parse (URL_String u) =
  Ok (MkURL (Path u) (RawPath u) (ForceQuery u && bool_decide (RawQuery u = EmptyString))
        (RawQuery u)).
Proof.
  intros Hu Hq. destruct (EscapedPath_ok u Hu) as [Hchars Hset].
  unfold URL_String.
  set (q := if ForceQuery u || bool_decide (RawQuery u ≠ EmptyString)
            then Some (RawQuery u) else None).
  assert (URL_Parse (EscapedPath u +:+ match q with Some q => "?" +:+ q | None => EmptyString end) =
    Ok (MkURL (Path u) (RawPath u) (bool_decide (q = Some EmptyString)) (default EmptyString q)))
    as Hp.
  { rewrite URL_Parse_text, Hset; [done..|]. unfold q. by destruct (_ || _). }
  unfold q in *. destruct (ForceQuery u); cbn [orb andb] in *.
  - rewrite Hp. cbn [from_option id].
    by rewrite (bool_decide_ext (Some (RawQuery u) = Some EmptyString) (RawQuery u = EmptyString))
      by (split; congruence).
  - destruct (decide (RawQuery u = EmptyString)) as [He|He].
    + rewrite He in *. exact Hp.
    + rewrite bool_decide_true in * by done. rewrite Hp. cbn [from_option id].
      by rewrite (bool_decide_false (Some (RawQuery u) = Some EmptyString)) by congruence.
Qed.

Lemma Encode_query_chars v : string_forall query_char (Encode v) = true.
Proof.
  unfold Encode. apply string_forall_Join; [done|]. apply Forall_fmap, Forall_true.
  intros [k x]. apply (encode_pair_chars query_char (k, x)); [|done].
  intros c. by destruct c as [[] [] [] [] [] [] [] []].
Qed.

(** The URL of a handler's new request: the path of the request with other
    values. *)
Lemma URL_with_values u v :
  path_ok u → inhabited_values v →
  ∃ u', URL_Parse (URL_String (MkURL (Path u) (RawPath u) (ForceQuery u) (Encode v))) = Ok u' ∧
    Path u' = Path u ∧ ParseQuery (RawQuery u') = (v, ErrNil).
Proof.
  intros Hu Hv. rewrite URL_Parse_String; [|exact Hu|apply Encode_query_chars].
  eexists. split; [done|]. split; [done|]. by apply ParseQuery_encode.
Qed.

(** ** Properties *)

(** Form values round trip: parsing the encoded form of values gives
    them back, without an error, whatever bytes the keys and values have
    (each key with at least one value). *)
Theorem ParseQuery_Encode (v : Values) (Hv : inhabited_values v) :
  ParseQuery (Encode v) = (v, ErrNil).
Proof. by apply ParseQuery_encode. Qed.

(** URLs round trip: the text of a request's URL with its query
    replaced by encoded values parses to a URL with the same path and
    those values, so the request sent upstream asks for the same
    resource. *)
Theorem URL_round_trip (u : URL) (v : Values) (Hu : path_ok u) (Hv : inhabited_values v) :
  ∃ u', URL_Parse (URL_String (MkURL (Path u) (RawPath u) (ForceQuery u) (Encode v))) = Ok u' ∧
    Path u' = Path u ∧ ParseQuery (RawQuery u') = (v, ErrNil).
Proof. by apply URL_with_values. Qed.
End RoundTrip.

(** ** Witnesses *)
Module UrlExamples.
#[local] Instance table : UnicodeTable := λ _, true.

Definition form : Values := {["query" := ["a{b=~'c+'} & d"]; "time" := ["1"; "2"]]}.

Lemma form_inhabited : inhabited_values form.
Proof. apply (bool_decide_unpack _). vm_compute. reflexivity. Qed.

Lemma ParseQuery_Encode_witness :
  Encode form = "query=a%7Bb%3D~%27c%2B%27%7D+%26+d&time=1&time=2" ∧
  ParseQuery "query=a%7Bb%3D~%27c%2B%27%7D+%26+d&time=1&time=2" = (form, ErrNil).
Proof.
  split; [vm_compute; reflexivity|].
  exact (ParseQuery_Encode form form_inhabited).
Defined.

Lemma URL_round_trip_witness :
  ∃ u', URL_Parse (URL_String (MkURL "/api/v1/query" "/api/v1/quer%79" false (Encode form)))
    = Ok u' ∧ Path u' = "/api/v1/query" ∧ ParseQuery (RawQuery u') = (form, ErrNil).
Proof.
  apply (URL_round_trip (MkURL "/api/v1/query" "/api/v1/quer%79" false EmptyString) form);
    [|apply form_inhabited].
  split; [discriminate|]. right. split_and!; [reflexivity|discriminate|..].
  - vm_compute. reflexivity.
  - vm_compute. discriminate.
Defined.
End UrlExamples.
