(* ===== verification/RoleRevisions.v ===== *)
(** * The access store while the cluster changes
    (github.com/rancher/steve/pkg/accesscontrol, role_revision_index.go)

    The informers of the roles enqueue the key of each object that changes;
    a worker takes a key, looks the object up in the informer's store and
    calls the handler of the revision index with it, or with nil.  The
    lookups of [AccessControl] go on in between.  This file has the
    handlers, the store as a step relation, and what a lookup answers after
    any sequence of changes, syncs and lookups. *)
From S2P Require Import Prelude GoStrings Lru AccessControl Url.
From Stdlib Require Import Ascii.
From stdpp Require Import gmap relations.
From stdpp Require Import options.

(** ** wrangler/pkg/kv *)

(** [unicode.IsSpace]. *)
Definition IsSpace (r : N) : bool :=
  bool_decide (r ∈ [9; 10; 11; 12; 13; 32; 133; 160; 5760; 8232; 8233; 8239; 8287; 12288]%N) ||
  bool_decide (8192 ≤ r ≤ 8202)%N.

Fixpoint trim_left (fuel : nat) (s : string) : string :=
  match fuel with
  | O => s
  | S fuel =>
      let '(r, w) := DecodeRuneInString s in
      if negb (bool_decide (s = EmptyString)) && IsSpace r then trim_left fuel (drop_string w s) else s
  end.
(** What is left of [s] without the spaces at its end. *)
Fixpoint trim_right (fuel : nat) (s : string) : string :=
  match fuel with
  | O => s
  | S fuel =>
      if bool_decide (s = EmptyString) then s
      else
        let '(r, w) := DecodeRuneInString s in
        let rest := trim_right fuel (drop_string w s) in
        if bool_decide (rest = EmptyString) && IsSpace r then EmptyString else take_string w s +:+ rest
  end.
Definition TrimSpace (s : string) : string :=
  let s := trim_left (String.length s) s in trim_right (String.length s) s.

(** [Split(s, "/")]: [strings.SplitN(s, "/", 2)], both parts trimmed. *)
Definition Split (s : string) : string * string :=
  let '(namespace, name) := cut "/" s in
  (TrimSpace namespace, TrimSpace (default EmptyString name)).

(** ** role_revision_index.go *)
Record ClusterRole := MkClusterRole { CR_ResourceVersion : string; CR_Rules : list PolicyRule }.
Record Role := MkRole {
  Role_Namespace : string; Role_Name : string; Role_ResourceVersion : string; Role_Rules : list PolicyRule }.

Definition onClusterRoleChanged (r : Revisions) (key : string) (cr : option ClusterRole) : Revisions :=
  match cr with
  | None => delete (EmptyString, key) r
  | Some cr => <[(EmptyString, key) := CR_ResourceVersion cr]> r
  end.

Definition onRoleChanged (r : Revisions) (key : string) (cr : option Role) : Revisions :=
  match cr with
  | None => let '(namespace, name) := Split key in delete (namespace, name) r
  | Some cr => <[(Role_Namespace cr, Role_Name cr) := Role_ResourceVersion cr]> r
  end.

(** ** The informers and the queue of their controllers *)
Record Cluster := MkCluster {
  clusterRoles : gmap string ClusterRole;
  roles : gmap (string * string) Role;
  clusterRoleBindings : list ClusterRoleBinding;
  roleBindings : list RoleBinding;
}.

(** The caches that the policy rule indexes read. *)
Definition rbac_of (cl : Cluster) : Rbac :=
  MkRbac (CR_Rules <$> clusterRoles cl) (Role_Rules <$> roles cl) (clusterRoleBindings cl) (roleBindings cl).

(** The key of a role in its informer ([cache.MetaNamespaceKeyFunc]). *)
Definition role_key (namespace name : string) : string := namespace +:+ "/" +:+ name.

Inductive work := SyncClusterRole (name : string) | SyncRole (namespace name : string).
#[export] Instance work_eq_dec : EqDecision work.
Proof. solve_decision. Defined.

Record AccessStore := MkStore {
  informers : Cluster;
  queue : list work;
  revisions : Revisions;
  cache : LRUExpireCache AccessSet;
  clock : Z;
}.

Definition set_cluster_role (name : string) (o : option ClusterRole) (cl : Cluster) : Cluster :=
  MkCluster (partial_alter (λ _, o) name (clusterRoles cl)) (roles cl) (clusterRoleBindings cl) (roleBindings cl).
Definition set_role (namespace name : string) (o : option Role) (cl : Cluster) : Cluster :=
  MkCluster (clusterRoles cl) (partial_alter (λ _, o) (namespace, name) (roles cl))
    (clusterRoleBindings cl) (roleBindings cl).

Definition inform (w : work) (cl : Cluster) (st : AccessStore) : AccessStore :=
  MkStore cl (w :: queue st) (revisions st) (cache st) (clock st).

(** [syncHandler]. *)
Definition sync (w : work) (st : AccessStore) : AccessStore :=
  let revisions :=
    match w with
    | SyncClusterRole name => onClusterRoleChanged (revisions st) name (clusterRoles (informers st) !! name)
    | SyncRole namespace name =>
        onRoleChanged (revisions st) (role_key namespace name) (roles (informers st) !! (namespace, name))
    end in
  MkStore (informers st) (filter (λ x, x ≠ w) (queue st)) revisions (cache st) (clock st).

(** The names of roles: a role lives in a namespace, whose name is a DNS
    label; names hold no spaces. *)
Definition role_names (namespace name : string) : Prop :=
  namespace ≠ EmptyString ∧ string_forall (λ c, byte_in 33 126 c && negb (bool_decide (c = "/"%char))) namespace = true ∧
  string_forall (byte_in 33 126) name = true.

(** A day, the time that an answer is kept. *)
Definition day : Z := (24 * 3600 * 1000000000)%Z.

Section Store.
Variable sha256_hex : string → string.

Definition store_lookup (st : AccessStore) (user : UserInfo) : AccessSet * option (LRUExpireCache AccessSet) :=
  AccessFor (rbac_of (informers st)) (revisions st) sha256_hex (clock st) (Some (cache st)) user.
Definition store_key (st : AccessStore) (user : UserInfo) : string :=
  CacheKey (rbac_of (informers st)) (revisions st) sha256_hex user.

Inductive store_step : AccessStore → AccessStore → Prop :=
| cluster_role_event name o st :
    store_step st (inform (SyncClusterRole name) (set_cluster_role name o (informers st)) st)
| role_event namespace name o st :
    role_names namespace name →
    (∀ r, o = Some r → Role_Namespace r = namespace ∧ Role_Name r = name) →
    store_step st (inform (SyncRole namespace name) (set_role namespace name o (informers st)) st)
| bindings_event crbs rbs st :
    store_step st (MkStore (MkCluster (clusterRoles (informers st)) (roles (informers st)) crbs rbs)
      (queue st) (revisions st) (cache st) (clock st))
| worker_syncs w st : w ∈ queue st → store_step st (sync w st)
| user_looked_up user as_ c st :
    store_lookup st user = (as_, Some c) →
    store_step st (MkStore (informers st) (queue st) (revisions st) c (clock st))
| time_passes d st :
    (0 ≤ d)%Z → store_step st (MkStore (informers st) (queue st) (revisions st) (cache st) (clock st + d)).

(** [NewAccessStore], with results cached. *)
Definition NewAccessStore (now : Z) : AccessStore :=
  MkStore (MkCluster ∅ ∅ [] []) [] ∅ (NewLRUExpireCache 50) now.

Definition reachable (now : Z) (st : AccessStore) : Prop := rtc store_step (NewAccessStore now) st.
End Store.

(** ** Keys *)
Lemma Decode_ascii c s : byte_in 33 126 c = true → DecodeRuneInString (String c s) = (byte_val c, 1) ∧ IsSpace (byte_val c) = false.
Proof.
  unfold byte_in. rewrite andb_true_iff, !bool_decide_eq_true. intros [Hlo Hhi]. split.
  - cbn. by rewrite bool_decide_eq_true_2 by lia.
  - unfold IsSpace. apply orb_false_iff. split; apply bool_decide_eq_false; [|lia].
    rewrite !elem_of_cons, elem_of_nil. lia.
Qed.

Lemma TrimSpace_plain s : string_forall (byte_in 33 126) s = true → TrimSpace s = s.
Proof.
  intros Hs. unfold TrimSpace.
  assert (trim_left (String.length s) s = s) as ->.
  { destruct s as [|c s]; [done|]. cbn [string_forall] in Hs. apply andb_true_iff in Hs as [Hc _].
    destruct (Decode_ascii c s Hc) as [Hd Hsp]. cbn [String.length trim_left]. by rewrite Hd, Hsp, andb_false_r. }
  induction s as [|c s IH]; [done|]. cbn [string_forall] in Hs. apply andb_true_iff in Hs as [Hc Hs].
  destruct (Decode_ascii c s Hc) as [Hd Hsp]. cbn [String.length trim_right]. rewrite Hd. cbn [drop_string].
  by rewrite (IH Hs), Hsp, andb_false_r, bool_decide_eq_false_2.
Qed.

Lemma cut_key namespace name :
  string_forall (λ c, byte_in 33 126 c && negb (bool_decide (c = "/"%char))) namespace = true →
  cut "/" (role_key namespace name) = (namespace, Some name) ∧ string_forall (byte_in 33 126) namespace = true.
Proof.
  unfold role_key. induction namespace as [|c s IH]; [done|]. cbn [string_forall].
  rewrite !andb_true_iff, negb_true_iff, bool_decide_eq_false. intros [[Hc Hne] Hs]. destruct (IH Hs) as [Hcut Hp].
  change (String c s +:+ "/" +:+ name) with (String c (s +:+ "/" +:+ name)). cbn [cut].
  rewrite (bool_decide_eq_false_2 _ Hne), Hcut. by rewrite Hc.
Qed.

Lemma Split_key namespace name : role_names namespace name → Split (role_key namespace name) = (namespace, name).
Proof.
  intros (_ & Hns & Hn). destruct (cut_key namespace name Hns) as [Hcut Hp]. unfold Split. rewrite Hcut.
  cbn [default]. by rewrite !TrimSpace_plain.
Qed.

(** ** The revisions *)
Section Revisions.
Variable sha256_hex : string → string.
Notation step := (store_step sha256_hex).

Record settled (st : AccessStore) : Prop := Settled {
  settled_names : ∀ namespace name r, roles (informers st) !! (namespace, name) = Some r →
    Role_Namespace r = namespace ∧ Role_Name r = name;
  settled_queue : ∀ namespace name, SyncRole namespace name ∈ queue st → role_names namespace name;
  settled_cluster_roles : ∀ name, SyncClusterRole name ∉ queue st →
    revisions st !! (EmptyString, name) = CR_ResourceVersion <$> clusterRoles (informers st) !! name;
  settled_roles : ∀ namespace name, namespace ≠ EmptyString → SyncRole namespace name ∉ queue st →
    revisions st !! (namespace, name) = Role_ResourceVersion <$> roles (informers st) !! (namespace, name);
}.

Lemma settled_sync w st : settled st → w ∈ queue st → settled (sync w st).
Proof.
  intros [Hn Hq Hc Hr] Hw. destruct w as [name|namespace name]; constructor; cbn [sync informers queue revisions]; try done.
  - intros ns n [_ Hin]%list_elem_of_filter. by apply Hq.
  - intros n Hin. unfold onClusterRoleChanged.
    destruct (decide (n = name)) as [->|Hne].
    { destruct (clusterRoles (informers st) !! name); [by rewrite lookup_insert_eq|by rewrite lookup_delete_eq]. }
    rewrite <- Hc by (intros Hin'; apply Hin, list_elem_of_filter; split; [congruence|done]).
    destruct (clusterRoles (informers st) !! name); [rewrite lookup_insert_ne|rewrite lookup_delete_ne]; congruence.
  - intros ns n Hns Hin. rewrite <- Hr; [|done|intros Hin'; apply Hin, list_elem_of_filter; by split].
    unfold onClusterRoleChanged.
    destruct (clusterRoles (informers st) !! name); [rewrite lookup_insert_ne|rewrite lookup_delete_ne]; congruence.
  - intros ns n [_ Hin]%list_elem_of_filter. by apply Hq.
  - intros n Hin. pose proof (Hq _ _ Hw) as Hnames. pose proof Hnames as (Hns & _ & _).
    rewrite <- Hc by (intros Hin'; apply Hin, list_elem_of_filter; by split).
    unfold onRoleChanged. destruct (roles (informers st) !! (namespace, name)) as [r|] eqn:E.
    + destruct (Hn _ _ _ E) as [-> ->]. rewrite lookup_insert_ne; congruence.
    + rewrite Split_key by done. rewrite lookup_delete_ne; congruence.
  - intros ns n Hns Hin. pose proof (Hq _ _ Hw) as Hnames. unfold onRoleChanged.
    destruct (decide ((ns, n) = (namespace, name))) as [[= -> ->]|Hne].
    { destruct (roles (informers st) !! (namespace, name)) as [r|] eqn:E.
      - destruct (Hn _ _ _ E) as [-> ->]. by rewrite lookup_insert_eq.
      - rewrite Split_key by done. by rewrite lookup_delete_eq. }
    rewrite <- Hr; [|done|intros Hin'; apply Hin, list_elem_of_filter; split; [congruence|done]].
    destruct (roles (informers st) !! (namespace, name)) as [r|] eqn:E.
    + destruct (Hn _ _ _ E) as [-> ->]. by rewrite lookup_insert_ne.
    + rewrite Split_key by done. by rewrite lookup_delete_ne.
Qed.

Lemma settled_step st st' : step st st' → settled st → settled st'.
Proof.
  intros [name o s|namespace name o s Hnames Ho|crbs rbs s|w s Hw|user as_ c s _|d s _] Hs; [..|by apply settled_sync|by destruct Hs|by destruct Hs].
  - destruct Hs as [Hn Hq Hc Hr]. constructor; cbn; [done| | |].
    + intros ns n [[=]|Hin]%elem_of_cons. by apply Hq.
    + intros n [Hne Hin]%not_elem_of_cons. rewrite lookup_partial_alter_ne by congruence. by apply Hc.
    + intros ns n Hns [_ Hin]%not_elem_of_cons. by apply Hr.
  - destruct Hs as [Hn Hq Hc Hr]. constructor; cbn.
    + intros ns n r. destruct (decide ((ns, n) = (namespace, name))) as [[= -> ->]|Hne].
      * rewrite lookup_partial_alter_eq. by apply Ho.
      * rewrite lookup_partial_alter_ne by congruence. by apply Hn.
    + intros ns n [[= -> ->]|Hin]%elem_of_cons; [done|by apply Hq].
    + intros n [_ Hin]%not_elem_of_cons. by apply Hc.
    + intros ns n Hns [Hne Hin]%not_elem_of_cons. rewrite lookup_partial_alter_ne by congruence. by apply Hr.
  - by destruct Hs.
Qed.

Lemma reachable_settled now st : reachable sha256_hex now st → settled st.
Proof.
  intros Hst. refine (rtc_ind_r settled _ _ _ st Hst); [|by intros st1 st2 _ Hstep; apply settled_step].
  constructor; cbn; intros *; rewrite ?lookup_empty; try done. by intros ?%elem_of_nil.
Qed.

(** ** The answers *)

(** Each entry is what some user with its key had in the cluster when it
    was added, a day before it expires. *)
Definition dated (now : Z) (st : AccessStore) : Prop :=
  lru_wf (cache st) ∧ ∀ k as_ t, (k, (as_, t)) ∈ evictList (cache st) →
    ∃ st0 u, reachable sha256_hex now st0 ∧ rtc step st0 st ∧ t = (clock st0 + day)%Z ∧
      store_key sha256_hex st0 u = k ∧ set as_ = set (AccessFor_uncached (rbac_of (informers st0)) u).

Lemma lookup_dated now st user :
  reachable sha256_hex now st → dated now st →
  ∃ as_ c, store_lookup sha256_hex st user = (as_, Some c) ∧
    (∃ st0 u, reachable sha256_hex now st0 ∧ rtc step st0 st ∧ (clock st ≤ clock st0 + day)%Z ∧
      store_key sha256_hex st0 u = store_key sha256_hex st user ∧
      set as_ = set (AccessFor_uncached (rbac_of (informers st0)) u)) ∧
    lru_wf c ∧ ∀ e, e ∈ evictList c → e ∈ evictList (cache st) ∨
      e = (store_key sha256_hex st user, (as_, clock st + day)%Z) ∧ set as_ = set (AccessFor_uncached (rbac_of (informers st)) user).
Proof.
  intros Hst [Hwf Hc]. unfold store_lookup, AccessFor. fold (store_key sha256_hex st user). set (k := store_key _ _ user).
  pose proof (Cache_Get_wf (clock st) (cache st) k Hwf) as Hwf'.
  pose proof (λ e, Cache_Get_elem (clock st) (cache st) k e Hwf) as Helem.
  destruct (Cache_Get (clock st) (cache st) k) as [[as_|] c'] eqn:Hget; cbn in Hwf', Helem.
  - exists as_, c'. split; [done|]. split; [|by auto].
    destruct (Cache_Get_Some _ _ _ _ _ Hwf Hget) as (t & Hin & Ht).
    destruct (Hc _ _ _ Hin) as (st0 & u & ? & ? & -> & Hk & ?). by exists st0, u.
  - eexists _, _. split; [done|]. split; [exists st, user; split_and!; try done; unfold day; lia|].
    split; [by apply LRU_Add_wf|]. intros e [->|Hin]%LRU_Add_elem; [by right|left; by apply Helem].
Qed.

Lemma dated_later now st st' :
  step st st' → cache st' = cache st → dated now st → dated now st'.
Proof.
  intros Hstep He [Hwf Hc]. unfold dated. rewrite He. split; [done|]. intros k as_ t Hin.
  destruct (Hc k as_ t Hin) as (st0 & u & Hr & Hs & Hrest). exists st0, u. split; [done|]. split; [by eapply rtc_r|done].
Qed.

Lemma dated_step now st st' : reachable sha256_hex now st → step st st' → dated now st → dated now st'.
Proof.
  intros Hst Hstep Hd. pose proof (dated_later now st st' Hstep) as Hlater.
  destruct Hstep as [| | | |user as_ c st Hl|]; try (apply Hlater; [reflexivity|exact Hd]). clear Hlater.
  destruct (lookup_dated now st user Hst Hd) as (as1 & c1 & Heq & _ & Hwf & Hin). rewrite Hl in Heq. injection Heq as <- <-.
  split; [done|]. intros k a t He. destruct (Hin _ He) as [Hold|[[= -> -> ->] Hset]].
  - destruct Hd as [_ Hc]. destruct (Hc _ _ _ Hold) as (st0 & u & Hr & Hs & Hrest). exists st0, u.
    split; [done|]. split; [|done]. eapply rtc_r; [exact Hs|by eapply user_looked_up].
  - exists st, user. split_and!; try done. by eapply rtc_once, user_looked_up.
Qed.

Lemma reachable_dated now st : reachable sha256_hex now st → dated now st.
Proof.
  intros Hst. refine (rtc_ind_r (dated now) _ _ _ st Hst); [|by intros st1 st2 Hst1 Hstep; apply dated_step].
  split; [apply empty_wf; lia|]. by intros ??? ?%elem_of_nil.
Qed.
End Revisions.

(** ** The digest *)
Definition flat (l : list string) : string := foldr String.append EmptyString l.

Lemma flat_cons s l : flat (s :: l) = s +:+ flat l.
Proof. reflexivity. Qed.
#[local] Arguments flat : simpl never.

Lemma flat_app l l' : flat (l ++ l') = flat l +:+ flat l'.
Proof. induction l as [|s l IH]; [done|]. cbn [app]. by rewrite !flat_cons, IH, string_app_assoc. Qed.

Lemma fold_flat {B} (f : B → string) (l : list B) d : fold_left (λ d b, d +:+ f b) l d = d +:+ flat (f <$> l).
Proof.
  revert d. induction l as [|b l IH]; intros d; [by rewrite string_app_nil_r|]. cbn. by rewrite IH, flat_cons, string_app_assoc.
Qed.

Lemma fold_left_ext {A B} (f g : A → B → A) l a : (∀ a b, f a b = g a b) → fold_left f l a = fold_left g l a.
Proof. intros Hfg. revert a. induction l as [|b l IH]; intros a; [done|]. cbn. by rewrite Hfg. Qed.

Section Digest.
Variables (rbac : Rbac) (r : Revisions).

(** What a binding adds to the digest. *)
Definition cluster_piece (crb : ClusterRoleBinding) : string :=
  let ref := Ref_Name (CRB_RoleRef crb) in ref +:+ roleRevision r EmptyString ref +:+ nul.
Definition role_piece (rb : RoleBinding) : string :=
  let ref := Ref_Name (RB_RoleRef rb) in
  let ns := RB_Namespace rb in
  if bool_decide (Ref_Kind (RB_RoleRef rb) = "Role") || bool_decide (Ref_Kind (RB_RoleRef rb) = "ClusterRole")
  then ref +:+ ns +:+ roleRevision r ns ref +:+ nul else EmptyString.
Definition digest_pieces (subject : string * string) : list string :=
  (cluster_piece <$> getClusterRoleBindings rbac subject.1 subject.2) ++
  (role_piece <$> getRoleBindings rbac subject.1 subject.2).
Definition subjects (user : UserInfo) : list (string * string) :=
  [(subjectKindUser, User_Name user); (subjectKindServiceAccount, User_Name user)] ++
  ((subjectKindGroup,.) <$> User_Groups user).

Lemma addRolesToHash_pieces kind d name :
  addRolesToHash rbac r kind d name = d +:+ flat (digest_pieces (kind, name)).
Proof.
  unfold addRolesToHash, digest_pieces. rewrite flat_app, <- string_app_assoc, <- !fold_flat. cbn [fst snd]. cbv zeta.
  rewrite (fold_left_ext _ (λ d crb, d +:+ cluster_piece crb) (getClusterRoleBindings _ _ _));
    [|intros d' crb; unfold cluster_piece; by rewrite ?string_app_assoc].
  apply fold_left_ext. intros d' rb. unfold role_piece. destruct (_ || _); [by rewrite ?string_app_assoc|by rewrite string_app_nil_r].
Qed.

Lemma CacheKey_pieces user : CacheKey_bytes rbac r user = flat (flat_map digest_pieces (subjects user)).
Proof.
  unfold CacheKey_bytes, subjects. rewrite !addRolesToHash_pieces. cbn [flat_map app].
  rewrite !flat_app, string_app_nil_l, <- string_app_assoc.
  generalize (flat (digest_pieces (subjectKindUser, User_Name user)) +:+ flat (digest_pieces (subjectKindServiceAccount, User_Name user))).
  induction (User_Groups user) as [|g l IH]; intros d; cbn; [by rewrite string_app_nil_r|].
  by rewrite IH, addRolesToHash_pieces, flat_app, string_app_assoc.
Qed.

Lemma elem_of_subjects user kind name : (kind, name) ∈ subjects user ↔ subject_of user kind name.
Proof.
  unfold subjects, subject_of. rewrite elem_of_app, list_elem_of_fmap, !elem_of_cons, elem_of_nil. naive_solver.
Qed.
End Digest.

(** Texts in which [v] is replaced by [v'] here and there are equal only if
    it is nowhere. *)
Definition replaced (v v' p p' : string) : Prop := ∃ a b, p = a +:+ v +:+ b ∧ p' = a +:+ v' +:+ b.
Definition patched (v v' p p' : string) : Prop := p = p' ∨ replaced v v' p p'.

Lemma patched_length v v' l l' :
  Forall2 (patched v v') l l' → String.length v ≤ String.length v' → String.length (flat l) ≤ String.length (flat l').
Proof.
  intros Hl Hv. induction Hl as [|p p' l l' Hp _ IH]; [done|]. rewrite !flat_cons, !length_string_app.
  destruct Hp as [->|(a & b & -> & ->)]; rewrite ?length_string_app; lia.
Qed.
Lemma patched_sym v v' l l' : Forall2 (patched v v') l l' → Forall2 (patched v' v) l' l.
Proof.
  intros Hl. apply Forall2_flip. eapply Forall2_impl; [exact Hl|].
  intros p p' [->|(a & b & -> & ->)]; [by left|right]. by exists a, b.
Qed.
Lemma patched_equal v v' l l' : Forall2 (patched v v') l l' → flat l = flat l' → l = l'.
Proof.
  intros Hl. induction Hl as [|p p' l l' Hp Hl IH]; [done|]. rewrite !flat_cons. intros Heq.
  destruct Hp as [->|(a & b & -> & ->)].
  { apply string_app_inj in Heq as [_ Heq]; [|done]. by rewrite IH. }
  destruct (decide (String.length v = String.length v')) as [Hlen|Hlen].
  { apply string_app_inj in Heq as [Hp Heq]; [|rewrite !length_string_app; lia]. by rewrite Hp, IH. }
  exfalso. assert (String.length (flat l) ≤ String.length (flat l') ∧ String.length v < String.length v' ∨
    String.length (flat l') ≤ String.length (flat l) ∧ String.length v' < String.length v) as Hc.
  { destruct (decide (String.length v ≤ String.length v')); [left|right]; (split; [|lia]).
    - by eapply patched_length.
    - eapply patched_length; [by apply patched_sym|lia]. }
  apply (f_equal String.length) in Heq. rewrite !length_string_app in Heq. lia.
Qed.

Lemma flat_map_pointwise {A B} (f g : A → list B) l :
  (∀ x, length (f x) = length (g x)) → flat_map f l = flat_map g l → ∀ x, x ∈ l → f x = g x.
Proof.
  intros Hlen. induction l as [|y l IH]; intros Heq x Hx; [by apply elem_of_nil in Hx|]. cbn in Heq.
  apply app_inj_1 in Heq as [Hy Heq]; [|done]. apply elem_of_cons in Hx as [->|Hx]; [done|by apply IH].
Qed.

(** The revision of one cluster role changes. *)
Section Tracks.
Variables (rbac : Rbac) (r r' : Revisions) (name : string).
Hypothesis Hother : ∀ namespace n, (namespace, n) ≠ (EmptyString, name) → roleRevision r' namespace n = roleRevision r namespace n.
Hypothesis Hnamespaces : ∀ rb, rb ∈ rbCache rbac → RB_Namespace rb ≠ EmptyString.

(** A cluster role binding of the user to that role. *)
Definition bound_cluster_wide (user : UserInfo) : Prop :=
  ∃ kind subject crb, subject_of user kind subject ∧ crb ∈ crbCache rbac ∧
    bound kind subject (CRB_Subjects crb) ∧ Ref_Name (CRB_RoleRef crb) = name.

Lemma cluster_piece_same crb : Ref_Name (CRB_RoleRef crb) ≠ name → cluster_piece r' crb = cluster_piece r crb.
Proof using Hother. intros Hn. unfold cluster_piece. rewrite Hother; [done|]. intros [=]. done. Qed.
Lemma cluster_piece_changed crb :
  cluster_piece r' crb = cluster_piece r crb → Ref_Name (CRB_RoleRef crb) = name →
  roleRevision r' EmptyString name = roleRevision r EmptyString name.
Proof.
  unfold cluster_piece. intros Heq Hn. rewrite Hn in Heq. apply string_app_inj in Heq as [_ Heq]; [|done].
  pose proof (f_equal String.length Heq) as Hlen. rewrite !length_string_app in Hlen.
  by apply string_app_inj in Heq as [Heq _]; [|lia].
Qed.
Lemma cluster_piece_patched crb :
  patched (roleRevision r EmptyString name) (roleRevision r' EmptyString name) (cluster_piece r crb) (cluster_piece r' crb).
Proof using Hother.
  destruct (decide (Ref_Name (CRB_RoleRef crb) = name)) as [Hn|Hn]; [right|left; symmetry; by apply cluster_piece_same].
  exists name, nul. unfold cluster_piece. by rewrite Hn.
Qed.
Lemma role_piece_same rb : rb ∈ rbCache rbac → role_piece r' rb = role_piece r rb.
Proof using Hother Hnamespaces. intros Hrb%Hnamespaces. unfold role_piece. rewrite Hother; [done|]. intros [=]. done. Qed.

Lemma role_pieces_same kind subject :
  role_piece r' <$> getRoleBindings rbac kind subject = role_piece r <$> getRoleBindings rbac kind subject.
Proof using Hother Hnamespaces. apply list_fmap_ext. intros i rb Hrb%list_elem_of_lookup_2. by apply role_piece_same; apply elem_of_getRoleBindings in Hrb as []. Qed.

Lemma digest_kept user : ¬ bound_cluster_wide user → CacheKey_bytes rbac r' user = CacheKey_bytes rbac r user.
Proof using Hother Hnamespaces.
  intros Hno. rewrite !CacheKey_pieces. f_equal.
  assert (Forall (λ x, subject_of user x.1 x.2) (subjects user)) as Hall.
  { apply Forall_forall. intros [] ?. by apply elem_of_subjects. }
  induction Hall as [|[kind subject] l Hx _ IH]; [done|]. cbn. rewrite IH. f_equal. unfold digest_pieces.
  rewrite role_pieces_same. f_equal. apply list_fmap_ext. intros i crb Hcrb%list_elem_of_lookup_2.
  apply elem_of_getClusterRoleBindings in Hcrb as [Hcrb Hb]. apply cluster_piece_same. intros Hn. apply Hno.
  by exists kind, subject, crb.
Qed.

Lemma digest_changed user :
  CacheKey_bytes rbac r' user = CacheKey_bytes rbac r user → bound_cluster_wide user →
  roleRevision r' EmptyString name = roleRevision r EmptyString name.
Proof using Hother Hnamespaces.
  rewrite !CacheKey_pieces. intros Heq (kind & subject & crb & Hsub & Hin & Hb & Hn). symmetry in Heq.
  assert (Forall2 (patched (roleRevision r EmptyString name) (roleRevision r' EmptyString name))
    (flat_map (digest_pieces rbac r) (subjects user)) (flat_map (digest_pieces rbac r') (subjects user))) as Hp.
  { clear Heq. induction (subjects user) as [|x l IH]; [constructor|]. cbn. apply Forall2_app; [|exact IH]. unfold digest_pieces.
    apply Forall2_app; [apply Forall2_fmap, Forall_Forall2_diag|rewrite role_pieces_same; apply Forall_Forall2_diag, Forall_forall; by left].
    apply Forall_forall. intros b _. apply cluster_piece_patched. }
  apply (patched_equal _ _ _ _ Hp) in Heq.
  eapply (flat_map_pointwise _ _ _) in Heq; [|intros x; unfold digest_pieces; by rewrite !length_app, !length_fmap|by apply elem_of_subjects].
  unfold digest_pieces in Heq. apply app_inj_1 in Heq as [Heq _]; [|by rewrite !length_fmap]. cbn in Heq.
  assert (crb ∈ getClusterRoleBindings rbac kind subject) as Hcrb by by apply elem_of_getClusterRoleBindings.
  apply list_elem_of_lookup_1 in Hcrb as [i Hi]. apply (f_equal (λ l, l !! i)) in Heq. rewrite !list_lookup_fmap, Hi in Heq.
  injection Heq as Heq. by apply (cluster_piece_changed crb).
Qed.
End Tracks.

Lemma onClusterRoleChanged_other r key o namespace n :
  (namespace, n) ≠ (EmptyString, key) → roleRevision (onClusterRoleChanged r key o) namespace n = roleRevision r namespace n.
Proof.
  intros Hne. unfold roleRevision, onClusterRoleChanged.
  destruct o; [rewrite lookup_insert_ne|rewrite lookup_delete_ne]; congruence.
Qed.
Lemma onClusterRoleChanged_this r key o :
  roleRevision (onClusterRoleChanged r key o) EmptyString key = from_option CR_ResourceVersion EmptyString o.
Proof. unfold roleRevision, onClusterRoleChanged. destruct o; [by rewrite lookup_insert_eq|by rewrite lookup_delete_eq]. Qed.

(** ** Properties *)

(** The revision index follows the informers: after any sequence of
    events, syncs and lookups the index holds the revision of each cluster
    role and role whose key is not in the queue, and none of those that are
    gone. *)
Theorem revisions_settle (sha256_hex : string → string) (now : Z) (st : AccessStore)
    (Hst : reachable sha256_hex now st) :
  (∀ name, SyncClusterRole name ∉ queue st →
    revisions st !! (EmptyString, name) = CR_ResourceVersion <$> clusterRoles (informers st) !! name) ∧
  (∀ namespace name, namespace ≠ EmptyString → SyncRole namespace name ∉ queue st →
    revisions st !! (namespace, name) = Role_ResourceVersion <$> roles (informers st) !! (namespace, name)).
Proof. destruct (reachable_settled sha256_hex now st Hst). done. Qed.

(** C25. Bounded staleness: while bindings and roles change, the store
    answers with the role based access that some user with the same digest
    had in the cluster of the informers at most a day before.  A lookup is
    one step of the store, between the events and the syncs. *)
Theorem AccessFor_staleness (sha256_hex : string → string) (now : Z) (st : AccessStore) (user : UserInfo)
    (Hst : reachable sha256_hex now st) :
  ∃ as_ c st0 u, store_lookup sha256_hex st user = (as_, Some c) ∧
    reachable sha256_hex now st0 ∧ rtc (store_step sha256_hex) st0 st ∧ (clock st ≤ clock st0 + day)%Z ∧
    store_key sha256_hex st0 u = store_key sha256_hex st user ∧
    ∀ verb gr namespace name, Grants as_ verb gr namespace name = true ↔
      rbac_allows (rbac_of (informers st0)) u verb gr namespace name.
Proof.
  destruct (lookup_dated sha256_hex now st user Hst (reachable_dated sha256_hex now st Hst))
    as (as_ & c & Hl & (st0 & u & Hr & Hs & Ht & Hk & Hset) & _).
  exists as_, c, st0, u. split_and!; try done. intros verb gr namespace name.
  rewrite <- store_grants. unfold Grants. by rewrite Hset.
Qed.

(** C26. What the digest of a user tells of a cluster role: a change of its
    revision changes the digest exactly when a cluster role binding of the
    user refers to the role.  Role bindings to a cluster role do not count,
    since their revision is looked up in the namespace of the binding, where
    the index has no cluster roles. *)
Theorem CacheKey_tracks (rbac : Rbac) (r : Revisions) (name : string) (o : option ClusterRole) (user : UserInfo)
    (Hnamespaces : ∀ rb, rb ∈ rbCache rbac → RB_Namespace rb ≠ EmptyString)
    (Hchanged : from_option CR_ResourceVersion EmptyString o ≠ roleRevision r EmptyString name) :
  CacheKey_bytes rbac (onClusterRoleChanged r name o) user = CacheKey_bytes rbac r user ↔
  ¬ bound_cluster_wide rbac name user.
Proof.
  pose proof (onClusterRoleChanged_other r name o) as Hother. split.
  - intros Heq Hb. apply Hchanged. rewrite <- (onClusterRoleChanged_this r name o).
    by apply (digest_changed rbac r _ name Hother Hnamespaces user).
  - by apply digest_kept.
Qed.

(** C27. So the access that a role binding gives through a cluster role is
    not revoked for a day: a user without cluster role bindings to the role,
    once looked up, is answered with its old access whatever becomes of the
    role, also after the handler ran. *)
Theorem cluster_role_change_unseen (sha256_hex : string → string) (st : AccessStore) (user : UserInfo)
    (name : string) (o : option ClusterRole) (d : Z)
    (Hwf : lru_wf (cache st)) (Hmiss : items (cache st) (store_key sha256_hex st user) = None)
    (Hnamespaces : ∀ rb, rb ∈ roleBindings (informers st) → RB_Namespace rb ≠ EmptyString)
    (Hno : ¬ bound_cluster_wide (rbac_of (informers st)) name user) (Hd : (0 ≤ d ≤ day)%Z) :
  ∃ as_ c c', store_lookup sha256_hex st user = (as_, Some c) ∧
    (let st1 := MkStore (informers st) (queue st) (revisions st) c (clock st) in
     let st2 := sync (SyncClusterRole name) (inform (SyncClusterRole name) (set_cluster_role name o (informers st)) st1) in
     store_lookup sha256_hex (MkStore (informers st2) (queue st2) (revisions st2) (cache st2) (clock st2 + d)) user
       = (as_, Some c')) ∧
    ∀ verb gr namespace n, Grants as_ verb gr namespace n = true ↔
      rbac_allows (rbac_of (informers st)) user verb gr namespace n.
Proof.
  pose proof (digest_kept (rbac_of (informers st)) (revisions st) _ name (onClusterRoleChanged_other _ name o) Hnamespaces user Hno) as Hkey.
  assert (CacheKey (rbac_of (set_cluster_role name o (informers st)))
    (onClusterRoleChanged (revisions st) name (clusterRoles (set_cluster_role name o (informers st)) !! name)) sha256_hex user =
    store_key sha256_hex st user) as Hkey2.
  { cbn [set_cluster_role clusterRoles]. rewrite lookup_partial_alter_eq. exact (f_equal sha256_hex Hkey). }
  set (k := store_key sha256_hex st user) in *.
  set (a := MkAccessSet k (set (AccessFor_uncached (rbac_of (informers st)) user))).
  exists a, (Cache_Add (clock st) (cache st) k a day).
  pose proof (Cache_Get_Add (clock st) (clock st + d)%Z (cache st) k a day Hwf) as Hget.
  rewrite bool_decide_eq_false_2 in Hget by lia. destruct (Cache_Get (clock st + d) _ k) as [hit c'] eqn:E. cbn in Hget. subst hit.
  exists c'. split_and!.
  - unfold store_lookup, AccessFor. change (CacheKey _ _ _ user) with k. unfold Cache_Get, LRU_Get. by rewrite Hmiss.
  - unfold store_lookup, AccessFor. cbn [sync inform informers revisions cache clock queue]. by rewrite Hkey2, E.
  - intros verb gr namespace n. by rewrite <- store_grants.
Qed.

(** ** Witnesses: a viewer of a namespace *)
Module RoleRevisionsExamples.

Definition viewer : RoleRef := MkRoleRef "ClusterRole" "viewer".
Definition viewer_role (version : string) (rules : list PolicyRule) : ClusterRole := MkClusterRole version rules.
Definition view_rules : list PolicyRule := [MkPolicyRule ["get"] [EmptyString] ["namespaces"] []].
Definition namespaces_gr : GroupResource := MkGroupResource EmptyString "namespaces".

(** Bob views ns-a by a role binding, Ann every namespace by a cluster role
    binding. *)
Definition cluster (role : option ClusterRole) : Cluster := MkCluster
  (partial_alter (λ _, role) "viewer" ∅) ∅
  [MkClusterRoleBinding "ann-views" (AccessControlExamples.user_subject "ann") viewer]
  [MkRoleBinding "uid-1" "ns-a" (AccessControlExamples.user_subject "bob") viewer].
Definition bob : UserInfo := MkUserInfo "bob" "bob" [].
Definition ann : UserInfo := MkUserInfo "ann" "ann" [].
Definition store : AccessStore :=
  MkStore (cluster (Some (viewer_role "7" view_rules))) [] {[(EmptyString, "viewer") := "7"]} (NewLRUExpireCache 50) 0.

Lemma store_namespaces : ∀ rb, rb ∈ roleBindings (informers store) → RB_Namespace rb ≠ EmptyString.
Proof. intros rb Hrb. apply list_elem_of_singleton in Hrb as ->. discriminate. Qed.

Lemma bob_not_bound : ¬ bound_cluster_wide (rbac_of (informers store)) "viewer" bob.
Proof.
  intros (kind & subject & crb & Hs & Hin & (s & Hsub & Hk & Hn) & _). apply list_elem_of_singleton in Hin as ->.
  apply list_elem_of_singleton in Hsub as ->. cbn in Hk, Hn. subst kind subject.
  destruct Hs as [[_ [=]]|[[[=] _]|[[=] _]]].
Qed.

(** The store of the examples is reached. *)
Lemma store_reachable sha256_hex : reachable sha256_hex 0 store.
Proof.
  unfold reachable. eapply rtc_l; [apply (cluster_role_event _ "viewer" (Some (viewer_role "7" view_rules)))|].
  eapply rtc_l; [apply bindings_event|]. eapply rtc_l; [apply (worker_syncs _ (SyncClusterRole "viewer")); by left|].
  apply (rtc_refl _ store).
Qed.

(** A day after the rules of the role were taken away Bob still gets the
    namespace, though no rule allows it; Ann does not. *)
Lemma cluster_role_change_unseen_witness :
  ∃ as_ c c',
    store_lookup id store bob = (as_, Some c) ∧
    (let st := MkStore (cluster (Some (viewer_role "8" []))) [] {[(EmptyString, "viewer") := "8"]} c day in
     store_lookup id st bob = (as_, Some c') ∧
     Grants as_ "get" namespaces_gr "ns-a" "ns-a" = true ∧
     ¬ rbac_allows (rbac_of (informers st)) bob "get" namespaces_gr "ns-a" "ns-a").
Proof.
  destruct (cluster_role_change_unseen id store bob "viewer" (Some (viewer_role "8" [])) day) as (as_ & c & c' & Hl & Hl' & Hg).
  - apply empty_wf. lia.
  - vm_compute. reflexivity.
  - exact store_namespaces.
  - exact bob_not_bound.
  - unfold day. lia.
  - exists as_, c, c'. split; [exact Hl|]. split; [exact Hl'|]. split.
    + apply Hg. apply store_grants. vm_compute. reflexivity.
    + intros Ha. apply store_grants in Ha. vm_compute in Ha. discriminate Ha.
Defined.

Lemma CacheKey_tracks_witness :
  CacheKey_bytes (rbac_of (informers store)) (onClusterRoleChanged (revisions store) "viewer" None) bob =
  CacheKey_bytes (rbac_of (informers store)) (revisions store) bob ∧
  CacheKey_bytes (rbac_of (informers store)) (onClusterRoleChanged (revisions store) "viewer" None) ann ≠
  CacheKey_bytes (rbac_of (informers store)) (revisions store) ann.
Proof.
  split.
  - apply CacheKey_tracks; [exact store_namespaces|discriminate|exact bob_not_bound].
  - intros Heq. apply CacheKey_tracks in Heq; [|exact store_namespaces|discriminate]. apply Heq.
    exists subjectKindUser, "ann", (MkClusterRoleBinding "ann-views" (AccessControlExamples.user_subject "ann") viewer).
    split; [left; by split|]. split; [by left|]. split; [|done].
    exists (MkSubject subjectKindUser EmptyString "ann"). split; [by left|]. by split.
Defined.

Lemma revisions_settle_witness :
  revisions store !! (EmptyString, "viewer") = Some "7" ∧ revisions store !! ("ns-a", "viewer") = None.
Proof.
  destruct (revisions_settle id 0 store (store_reachable id)) as [Hc Hr]. split.
  - rewrite (Hc "viewer" ltac:(by apply not_elem_of_nil)). reflexivity.
  - rewrite (Hr "ns-a" "viewer" ltac:(discriminate) ltac:(by apply not_elem_of_nil)). reflexivity.
Defined.

Lemma AccessFor_staleness_witness :
  ∃ as_ c, store_lookup id store bob = (as_, Some c) ∧ reachable id 0 store.
Proof.
  destruct (AccessFor_staleness id 0 store bob (store_reachable id)) as (as_ & c & st0 & u & Hl & _).
  exists as_, c. split; [exact Hl|exact (store_reachable id)].
Defined.
End RoleRevisionsExamples.
