(* ===== verification/Http.v ===== *)
(** * Requests and responses (the parts of net/http the agent uses)

    A handler is a function of the request and the state of the response
    writer; it returns the new state of the writer also when it panics,
    since what was written before a panic stays written. *)
From S2P Require Import Prelude GoStrings Errors Url.
From Stdlib Require Import Ascii.
From stdpp Require Import gmap.
From stdpp Require Import options.

(** ** Headers *)
Notation Header := (gmap string (list string)).

(** [CanonicalHeaderKey]: capitals after hyphens; a key with a byte that no
    header name has is left as it is. *)
Definition header_char (c : ascii) : bool :=
  is_lower c || is_upper c || is_digit c || char_in c "!#$%&'*+-.^_`|~".
Definition to_upper (c : ascii) : ascii :=
  if is_lower c then ascii_of_N (byte_val c - 32) else c.
Fixpoint canonical (upper : bool) (s : string) : string :=
  match s with
  | EmptyString => EmptyString
  | String c s =>
      String (if upper then to_upper c else to_lower c) (canonical (bool_decide (c = "-"%char)) s)
  end.
Definition CanonicalHeaderKey (key : string) : string :=
  if string_forall header_char key then canonical true key else key.

Definition Header_Get (h : Header) (key : string) : string :=
  match default [] (h !! CanonicalHeaderKey key) with
  | [] => EmptyString
  | value :: _ => value
  end.
Definition Header_Set (h : Header) (key value : string) : Header :=
  <[CanonicalHeaderKey key := [value]]> h.

(** ** Status codes *)
Definition StatusOK : Z := 200.
Definition StatusNoContent : Z := 204.
Definition StatusMovedPermanently : Z := 301.
Definition StatusBadRequest : Z := 400.
Definition StatusUnauthorized : Z := 401.
Definition StatusNotFound : Z := 404.
Definition StatusMethodNotAllowed : Z := 405.
Definition StatusUnprocessableEntity : Z := 422.
Definition StatusInternalServerError : Z := 500.

(** ** Response writers

    [w_header] is the header map the handlers change; [w_sent] the status
    and the headers once they were sent; [w_broken] the error that [Write]
    returns when the connection is gone, nil while it works. *)
Record ResponseWriter := MkWriter {
  w_header : Header;
  w_sent : option (Z * Header);
  w_body : string;
  w_broken : error;
}.

Definition with_header (w : ResponseWriter) (h : Header) : ResponseWriter :=
  MkWriter h (w_sent w) (w_body w) (w_broken w).

Definition SetHeader (w : ResponseWriter) (key value : string) : ResponseWriter :=
  with_header w (Header_Set (w_header w) key value).

(** [w.WriteHeader(code)]; a second call is superfluous. *)
Definition WriteHeader (w : ResponseWriter) (code : Z) : ResponseWriter :=
  match w_sent w with
  | Some _ => w
  | None => MkWriter (w_header w) (Some (code, w_header w)) (w_body w) (w_broken w)
  end.

(** [w.Write(bytes)]: it sends the headers first, with status 200. *)
Definition Write (w : ResponseWriter) (bytes : string) : ResponseWriter * error :=
  let w := WriteHeader w StatusOK in
  if is_nil (w_broken w)
  then (MkWriter (w_header w) (w_sent w) (w_body w +:+ bytes) (w_broken w), ErrNil)
  else (w, w_broken w).

Definition newline : string := String (ascii_of_N 10) EmptyString.

(** [http.Error(w, error, code)]. *)
Definition Http_Error (w : ResponseWriter) (text : string) (code : Z) : ResponseWriter :=
  let w := SetHeader w "Content-Type" "text/plain; charset=utf-8" in
  let w := SetHeader w "X-Content-Type-Options" "nosniff" in
  let w := WriteHeader w code in
  (Write w (text +:+ newline)).1.

(** The writer of a new exchange. *)
Definition new_writer : ResponseWriter := MkWriter ∅ None EmptyString ErrNil.

(** The status the client sees once the handler returned. *)
Definition status (w : ResponseWriter) : Z := default StatusOK (fst <$> w_sent w).

(** ** Requests

    [Form] and [PostForm] are nil until the form is parsed.  The body is
    read completely or not at all. *)
Record Request := MkRequest {
  Method : string;
  Req_URL : URL;
  Req_Header : Header;
  Body : option string;
  Form : option Values;
  PostForm : option Values;
}.

(** mime/multipart: the values of a multipart body, [None] when the request
    has none or it is malformed. *)
Class MultipartReader := ReadForm : Request → option Values.

(** What [mime.ParseMediaType] makes of a content type whose parameters are
    not repeated: the part before them, in lower case. *)
Fixpoint trim_left (s : string) : string :=
  match s with
  | String c s' => if char_in c " " || bool_decide (byte_val c = 9%N) then trim_left s' else s
  | EmptyString => EmptyString
  end.
Definition reverse (s : string) : string :=
  String.string_of_list_ascii (rev (String.list_ascii_of_string s)).
Definition lower (s : string) : string :=
  String.string_of_list_ascii (to_lower <$> String.list_ascii_of_string s).
Definition media_type (s : string) : string :=
  lower (reverse (trim_left (reverse (trim_left (cut ";" s).1)))).

Definition maxFormSize : Z := 10485760.

Section Forms.
Context `{UnicodeTable, MultipartReader}.

Definition copyValues (dst src : Values) : Values :=
  map_fold (λ k vs dst, <[k := values_of dst k ++ vs]> dst) dst src.

(** [parsePostForm(r)]: nil unless the body is an encoded form. *)
Definition parsePostForm (r : Request) : option Values * error :=
  match Body r with
  | None => (None, ErrNil)
  | Some body =>
      let ct := Header_Get (Req_Header r) "Content-Type" in
      if bool_decide (media_type ct = "application/x-www-form-urlencoded") then
        if bool_decide (maxFormSize < Z.of_nat (String.length body))%Z
        then (None, Foreign "http: POST too large")
        else let '(vs, err) := ParseQuery body in (Some vs, err)
      else (None, ErrNil)
  end.

Definition has_form_body (method : string) : bool :=
  bool_decide (method ∈ ["POST"; "PUT"; "PATCH"]).

(** [r.ParseForm()]. *)
Definition ParseForm (r : Request) : Request * error :=
  let '(post, err) :=
    match PostForm r with
    | Some post => (post, ErrNil)
    | None => if has_form_body (Method r)
              then let '(post, err) := parsePostForm r in (default ∅ post, err)
              else (∅, ErrNil)
    end in
  match Form r with
  | Some form => (MkRequest (Method r) (Req_URL r) (Req_Header r) (Body r) (Some form) (Some post), err)
  | None =>
      let '(new, e) := ParseQuery (RawQuery (Req_URL r)) in
      let form := copyValues post new in
      (MkRequest (Method r) (Req_URL r) (Req_Header r) (Body r) (Some form) (Some post),
       if is_nil err then e else err)
  end.

(** [r.ParseMultipartForm(defaultMaxMemory)], as far as the form goes. *)
Definition ParseMultipartForm (r : Request) : Request :=
  let '(r, err) := ParseForm r in
  if negb (is_nil err) then r
  else match ReadForm r with
       | None => r
       | Some values =>
           MkRequest (Method r) (Req_URL r) (Req_Header r) (Body r)
             (Some (copyValues (default ∅ (Form r)) values))
             (Some (copyValues (default ∅ (PostForm r)) values))
       end.

(** [r.FormValue(key)], and the request with its form parsed. *)
Definition FormValue (r : Request) (key : string) : string * Request :=
  let r := match Form r with None => ParseMultipartForm r | Some _ => r end in
  (Values_Get (default ∅ (Form r)) key, r).

(** [http.NewRequest(method, url, body)] for the methods GET and POST. *)
Definition NewRequest (method url : string) (body : option string) : result error Request :=
  u ← URL_Parse url; Ok (MkRequest method u ∅ body None None).
End Forms.

(** ** Handlers *)
Definition Handler : Type := Request → ResponseWriter → ResponseWriter * go unit.

(** [http.NotFoundHandler()]. *)
Definition NotFound : Handler := λ _ w, (Http_Error w "404 page not found" StatusNotFound, Done ()).

(** ** Lemmas *)
Lemma WriteHeader_sent w code : is_Some (w_sent (WriteHeader w code)).
Proof. unfold WriteHeader. destruct (w_sent w) eqn:Hw; cbn; rewrite ?Hw; eauto. Qed.

Lemma WriteHeader_status w code :
  w_sent w = None → w_sent (WriteHeader w code) = Some (code, w_header w).
Proof. unfold WriteHeader. by intros ->. Qed.

Lemma Write_sent w bytes : w_sent w ≠ None → w_sent (Write w bytes).1 = w_sent w.
Proof.
  unfold Write, WriteHeader. destruct (w_sent w) as [[]|] eqn:Hw; [|done]. intros _.
  by destruct (is_nil (w_broken w)).
Qed.

Lemma Http_Error_sent w text code :
  w_sent w = None → ∃ h, w_sent (Http_Error w text code) = Some (code, h) ∧
    h !! "Content-Type" = Some ["text/plain; charset=utf-8"].
Proof.
  intros Hw. unfold Http_Error.
  rewrite Write_sent by (rewrite WriteHeader_status; done).
  rewrite WriteHeader_status by done. eexists. split; [done|].
  unfold SetHeader, with_header, Header_Set. cbn [w_header].
  change (CanonicalHeaderKey "X-Content-Type-Options") with "X-Content-Type-Options".
  change (CanonicalHeaderKey "Content-Type") with "Content-Type".
  by rewrite lookup_insert_ne, lookup_insert_eq.
Qed.

Lemma Http_Error_status w text code : w_sent w = None → status (Http_Error w text code) = code.
Proof. intros Hw. unfold status. by destruct (Http_Error_sent w text code Hw) as (h & -> & _). Qed.

(** A form value is the first one of the form, which the call parses at
    most once. *)
Lemma FormValue_parsed `{UnicodeTable, MultipartReader} r key :
  is_Some (Form (FormValue r key).2).
Proof.
  unfold FormValue. cbn. destruct (Form r) as [f|] eqn:Hf; [rewrite Hf; by eexists|].
  unfold ParseMultipartForm, ParseForm. rewrite Hf.
  repeat case_match; simplify_eq; cbn; by eexists.
Qed.

Lemma FormValue_again `{UnicodeTable, MultipartReader} r key key' :
  FormValue (FormValue r key).2 key' =
  (Values_Get (default ∅ (Form (FormValue r key).2)) key', (FormValue r key).2).
Proof.
  destruct (FormValue_parsed r key) as [f Hf]. revert Hf. generalize (FormValue r key).2.
  intros r' Hf. unfold FormValue. rewrite Hf. cbn. by rewrite Hf.
Qed.
