(* ===== verification/Json.v ===== *)
(** * JSON texts (the parts of encoding/json the agent uses)

    Only values that always encode are built: strings, integers, arrays and
    objects with fixed fields, so [Marshal] returns no error. *)
From S2P Require Import Prelude GoStrings Errors.
From Stdlib Require Import Ascii.
From stdpp Require Import options.

Inductive json :=
| JString (s : string)
| JNumber (z : Z)
| JArray (l : list json)
| JObject (fields : list (string * json)).

(** ** Strings *)

(** What [encoding/json] writes for a rune of a string, HTML characters
    escaped. *)
Definition json_rune (r : N) (w : nat) (s : string) : string :=
  let low := "\u" +:+ hex_digits 4 r in
  if bool_decide (r = 34)%N then String "\" dquote
  else if bool_decide (r = 92)%N then "\\"
  else if bool_decide (r = 10)%N then "\n"
  else if bool_decide (r = 13)%N then "\r"
  else if bool_decide (r = 9)%N then "\t"
  else if bool_decide (r < 32)%N || bool_decide (r = 60)%N || bool_decide (r = 62)%N
          || bool_decide (r = 38)%N then low
  else if bool_decide (r = RuneError) && bool_decide (w = 1) then "\ufffd"
  else if bool_decide (r = 8232)%N || bool_decide (r = 8233)%N then low
  else take_string w s.

Fixpoint json_body (skip : nat) (s : string) : string :=
  match s with
  | EmptyString => EmptyString
  | String _ s' =>
      match skip with
      | S k => json_body k s'
      | O => let '(r, w) := DecodeRuneInString s in json_rune r w s +:+ json_body (w - 1) s'
      end
  end.

Definition json_string (s : string) : string := dquote +:+ json_body 0 s +:+ dquote.

(** ** Values *)
Fixpoint json_text (v : json) : string :=
  match v with
  | JString s => json_string s
  | JNumber z => format_Z z
  | JArray l => "[" +:+ Join (List.map json_text l) "," +:+ "]"
  | JObject fields =>
      "{" +:+ Join (List.map (λ '(k, v), json_string k +:+ ":" +:+ json_text v) fields) ","
      +:+ "}"
  end.

(** [json.Marshal(v)]. *)
Definition Marshal (v : json) : result error string := Ok (json_text v).
