(* ===== verification/ApiContext.v ===== *)
(** * The context of a request and its responses
    (src/pkg/agent/http_api_context.go)

    A hijack handler works on an [apiContext]: it may answer at most once
    (the embedded [sync.Once]), by a JSON, protobuf or metrics response or
    by handing a request to the proxy; or it returns an error, from which
    [ServeHTTP] makes the response. *)
From S2P Require Import Prelude GoStrings DataSet Matchers Errors Url Http Json.
From stdpp Require Import gmap.
From stdpp Require Import options.

(** ** Interfaces to third-party code *)

(** prompb: the messages of a remote read, as far as the code looks into
    them. *)
Class PromMessages := {
  ReadHints : Type;
  TimeSeries : Type;
  MetricFamily : Type;
}.
Section Messages.
Context `{PromMessages}.
Record Query := MkQuery {
  StartTimestampMs : Z;
  EndTimestampMs : Z;
  Q_Matchers : list Prompb.LabelMatcher;
  Hints : option ReadHints;
}.
Record ReadRequest := MkReadRequest { Queries : list Query; AcceptedResponseTypes : list Z }.
Record QueryResult := MkQueryResult { Timeseries : list TimeSeries }.
Record ReadResponse := MkReadResponse { Results : list QueryResult }.
End Messages.

(** protobuf, snappy and expfmt. *)
Class Codecs `{PromMessages} := {
  DecodeReadRequest : Request → result error ReadRequest;
  MarshalReadRequest : ReadRequest → result error string;
  MarshalReadResponse : ReadResponse → result error string;
  snappy_Encode : string → string;
  Negotiate : Header → string;
  EncodeMetrics : string → MetricFamily → ResponseWriter → ResponseWriter * error;
}.

(** The values the query API of Prometheus returns (model.Value): nil, a
    vector, given by the labels of its samples, or another value. *)
Inductive ModelValue :=
| NilValue
| VectorValue (metrics : list (gmap string string))
| OtherValue.

(** ** const.go *)
Definition contentTypeHeader : string := "Content-Type".
Definition contentEncodingHeader : string := "Content-Encoding".
Definition acceptHeader : string := "Accept".
Definition jsonContentType : string := "application/json".
Definition protoContentType : string := "application/x-protobuf".

(** ** State *)

(** The fields that do not change; [remoteAPI] answers instant queries. *)
Record apiContext := MkApiContext {
  tag : string;
  proxyHandler : Handler;
  filterReaderLabelSet : DataSet.Set_;
  namespaceSet : DataSet.Set_;
  remoteAPI : string → ModelValue * error;
}.

(** What changes: whether the once was done, the response writer, and the
    request, whose form is parsed on demand. *)
Record state := MkState {
  once : bool;
  response : ResponseWriter;
  request : Request;
}.

(** Computations on the state, which stays when they panic. *)
Definition M (A : Type) : Type := state → state * go A.
#[export] Instance M_ret : MRet M := λ A a s, (s, Done a).
#[export] Instance M_bind : MBind M := λ A B f m s,
  match m s with
  | (s, Done a) => f a s
  | (s, Panic r) => (s, Panic r)
  end.
#[export] Instance M_fmap : FMap M := λ A B f m s,
  match m s with
  | (s, Done a) => (s, Done (f a))
  | (s, Panic r) => (s, Panic r)
  end.

Definition lift {A} (m : go A) : M A := λ s, (s, m).
Definition modify_response (f : ResponseWriter → ResponseWriter) : M unit := λ s,
  (MkState (once s) (f (response s)) (request s), Done ()).
Definition write (bytes : string) : M error := λ s,
  let '(w, err) := Write (response s) bytes in (MkState (once s) w (request s), Done err).
Definition get_response : M ResponseWriter := λ s, (s, Done (response s)).
Definition get_request : M Request := λ s, (s, Done (request s)).
Definition put_request (r : Request) : M unit := λ s, (MkState (once s) (response s) r, Done ()).

(** [c.Do(f)], with the error variable that [f] sets: nil when the once was
    done before.  The once is done also when [f] panics. *)
Definition Do (f : M error) : M error := λ s,
  if once s then (s, Done ErrNil)
  else let '(s, r) := f s in (MkState true (response s) (request s), r).

(** A handler of the proxy on the response of the context. *)
Definition serve (h : Handler) (r : Request) : M unit := λ s,
  let '(w, res) := h r (response s) in (MkState (once s) w (request s), res).

(** ** Responses *)
Record jsonResponseData := MkJsonResponse {
  Status : string;
  Data : option json;
  ErrorType : string;
  Error_text : string;
}.

(** The fields marked [omitempty] are left out when they are empty. *)
Definition response_json (d : jsonResponseData) : json :=
  JObject ([("status", JString (Status d))] ++
    match Data d with Some v => [("data", v)] | None => [] end ++
    (if bool_decide (ErrorType d = EmptyString) then [] else [("errorType", JString (ErrorType d))]) ++
    (if bool_decide (Error_text d = EmptyString) then [] else [("error", JString (Error_text d))])).

Definition responseJSON (data : json) : M error :=
  Do (modify_response (λ w, SetHeader w contentTypeHeader jsonContentType);;
      let responseData := MkJsonResponse "success" (Some data) EmptyString EmptyString in
      match Marshal (response_json responseData) with
      | Error marshalErr => mret (Wrap marshalErr errInternal)
      | Ok respBytes =>
          writeErr ← write respBytes;
          mret (if is_nil writeErr then ErrNil else Wrap writeErr errInternal)
      end).

Section Api.
Context `{Codecs}.

Definition responseProto (data : option ReadResponse) : M error :=
  Do (modify_response (λ w, SetHeader w contentTypeHeader protoContentType);;
      modify_response (λ w, SetHeader w contentEncodingHeader "snappy");;
      match data with
      | None => modify_response (λ w, WriteHeader w StatusNoContent);; mret ErrNil
      | Some data =>
          match MarshalReadResponse data with
          | Error marshalErr => mret (Wrap marshalErr errInternal)
          | Ok responseData =>
              writeErr ← write (snappy_Encode responseData);
              mret (if is_nil writeErr then ErrNil else Wrap writeErr errInternal)
          end
      end).

Definition encode_metrics (format : string) (data : MetricFamily) : M error := λ s,
  let '(w, err) := EncodeMetrics format data (response s) in
  (MkState (once s) w (request s), Done err).

Definition responseMetrics (data : option MetricFamily) : M error :=
  Do (req ← get_request;
      let respFormat := Negotiate (Req_Header req) in
      modify_response (λ w, SetHeader w contentTypeHeader respFormat);;
      match data with
      | None => mret ErrNil
      | Some data =>
          encodeErr ← encode_metrics respFormat data;
          mret (if is_nil encodeErr then ErrNil else Wrap encodeErr errInternal)
      end).

Definition proxy (c : apiContext) : M error :=
  _ ← Do (req ← get_request; serve (proxyHandler c) req;; mret ErrNil);
  mret ErrNil.

Definition proxyWith (c : apiContext) (r : Request) : M error :=
  _ ← Do (serve (proxyHandler c) r;; mret ErrNil);
  mret ErrNil.

(** ** apiContextHandler *)

(** [runtime.HandleCrash(handler)] of k8s.io/apimachinery, deferred: it
    recovers a panic, runs the handler and, with [reallyCrash], panics
    again. *)
Definition HandleCrash (reallyCrash : bool) (handler : M unit) (body : M unit) : M unit := λ s,
  match body s with
  | (s, Panic r) =>
      match handler s with
      | (s, Panic r') => (s, Panic r')
      | (s, Done _) => if reallyCrash then (s, Panic r) else (s, Done ())
      end
  | (s, Done a) => (s, Done a)
  end.

(** [createAgent] sets [utilruntime.ReallyCrash] to false. *)
Definition ReallyCrash : bool := false.

(** The message, the code and the type of the response to an error. *)
Definition cause_message (err : error) : go string :=
  match err with
  | Err TErr _ _ _ => Error_ (Underlying err)
  | _ => Error_ err
  end.
Definition response_code (err : error) : Z * string :=
  if IsBadRequest err then (StatusBadRequest, "bad_data")
  else if IsNotProvisioned err then (StatusUnprocessableEntity, "execution")
  else (StatusInternalServerError, EmptyString).

Definition respond_error (r : Request) (err : error) : M unit :=
  causeErrMsg ← lift (cause_message err);
  let '(responseCode, responseErrType) := response_code err in
  let acceptHeaderValue := Header_Get (Req_Header r) acceptHeader in
  w ← get_response;
  let contentTypeHeaderValue := Header_Get (w_header w) contentTypeHeader in
  if negb (Contains acceptHeaderValue jsonContentType) &&
     negb (EqualFold contentTypeHeaderValue jsonContentType)
  then modify_response (λ w, Http_Error w causeErrMsg responseCode)
  else
    let responseData := MkJsonResponse "error" None responseErrType causeErrMsg in
    match Marshal (response_json responseData) with
    | Error _ => modify_response (λ w, Http_Error w "internal error" StatusInternalServerError)
    | Ok respBytes =>
        modify_response (λ w, SetHeader w contentTypeHeader jsonContentType);;
        modify_response (λ w, WriteHeader w responseCode);;
        writeErr ← write respBytes;
        if is_nil writeErr then mret ()
        else modify_response (λ w, Http_Error w "internal error" StatusInternalServerError)
    end.

Definition apiContextHandler : Type := apiContext → M error.

(** [f.ServeHTTP(w, r)]: the context value must be an [apiContext]. *)
Definition ServeHTTP (f : apiContextHandler) (apiCtx : option apiContext) : Handler := λ r w,
  let body : M unit :=
    match apiCtx with
    | None => lift (Panic "interface conversion: interface {} is nil, not *agent.apiContext")
    | Some apiCtx =>
        err ← f apiCtx;
        if is_nil err then mret () else respond_error r err
    end in
  let crashed := modify_response (λ w,
    Http_Error w "unknown internal error" StatusInternalServerError) in
  let '(s, res) := HandleCrash ReallyCrash crashed body (MkState false w r) in
  (response s, res).
End Api.

(** ** Specification: the reply to an error *)
Inductive failure := BadData | Execution | Internal.

Definition failure_of (err : error) : failure :=
  match Cause err with
  | Err TBadRequest _ _ _ => BadData
  | Err TNotProvisioned _ _ _ => Execution
  | _ => Internal
  end.
Definition failure_status (f : failure) : Z :=
  match f with BadData => 400 | Execution => 422 | Internal => 500 end.
Definition failure_type (f : failure) : string :=
  match f with BadData => "bad_data" | Execution => "execution" | Internal => EmptyString end.

(** The text of the error that [err] was made from, if [err] is one that
    [Wrap] or [Annotate] makes, or else of [err]. *)
Definition reply_text (err : error) : go string :=
  match err with
  | Err TErr _ _ previous => Error_ previous
  | _ => Error_ err
  end.
Definition reply_json (type text : string) : string :=
  json_text (response_json (MkJsonResponse "error" None type text)).

(** ** Lemmas *)
Section Lemmas.
Context `{Codecs}.

Lemma M_bind_Done {A B} (m : M A) (f : A → M B) s s' a :
  m s = (s', Done a) → (m ≫= f) s = f a s'.
Proof. intros Hm. unfold mbind, M_bind. by rewrite Hm. Qed.

Lemma M_bind_Panic {A B} (m : M A) (f : A → M B) s s' r :
  m s = (s', Panic r) → (m ≫= f) s = (s', Panic r).
Proof. intros Hm. unfold mbind, M_bind. by rewrite Hm. Qed.

Lemma Do_done f s : once s = true → Do f s = (s, Done ErrNil).
Proof. unfold Do. by intros ->. Qed.

Lemma Do_once f s : once (Do f s).1 = true.
Proof. unfold Do. destruct (once s) eqn:Ho; [done|]. by destruct (f s). Qed.

Lemma write_broken w bytes :
  w_sent w ≠ None → w_sent (Write w bytes).1 = w_sent w.
Proof. apply Write_sent. Qed.

(** A superfluous error response does not change what was sent. *)
Lemma Http_Error_keeps w text code :
  w_sent w ≠ None → w_sent (Http_Error w text code) = w_sent w.
Proof.
  intros Hw. unfold Http_Error.
  assert (∀ w c, w_sent w ≠ None → WriteHeader w c = w) as Hk.
  { intros w' c. unfold WriteHeader. by destruct (w_sent w'). }
  by rewrite Write_sent; rewrite Hk.
Qed.

(** The response to an error whose text exists: its status, and that it is
    a JSON envelope for a client that accepts JSON. *)
Definition wants_json (r : Request) (w : ResponseWriter) : bool :=
  Contains (Header_Get (Req_Header r) acceptHeader) jsonContentType ||
  EqualFold (Header_Get (w_header w) contentTypeHeader) jsonContentType.

Definition error_body (r : Request) (w : ResponseWriter) (err : error) (text : string) : string :=
  if wants_json r w
  then json_text (response_json (MkJsonResponse "error" None (response_code err).2 text))
  else text +:+ newline.

Lemma respond_error_spec r err text s :
  cause_message err = Done text → w_sent (response s) = None →
  ∃ w', respond_error r err s = (MkState (once s) w' (request s), Done ()) ∧
    status w' = (response_code err).1 ∧
    (w_broken (response s) = ErrNil →
     w_body w' = w_body (response s) +:+ error_body r (response s) err text).
Proof.
  intros Htext Hsent. unfold respond_error, error_body, wants_json.
  rewrite (M_bind_Done _ _ s s text) by (unfold lift; by rewrite Htext).
  destruct (response_code err) as [code type]. cbn [fst snd].
  rewrite (M_bind_Done _ _ s s (response s)) by done. rewrite <-negb_orb.
  destruct (Contains _ _ || EqualFold _ _); cbn [negb].
  - cbv beta iota zeta delta [Marshal].
    generalize (json_text (response_json (MkJsonResponse "error" None type text))) as body.
    intros body. unfold mbind, M_bind, mret, M_ret, modify_response, write, SetHeader,
      with_header, WriteHeader, Write. cbn. rewrite Hsent. cbn. destruct (is_nil (w_broken (response s))) eqn:Hb; cbn.
    + eexists. split_and!; [reflexivity|reflexivity|intros _; reflexivity].
    + rewrite Hb. eexists. split_and!; [reflexivity| |by intros Hw; rewrite Hw in Hb].
      unfold status. rewrite Http_Error_keeps; done.
  - eexists. split_and!; [done|by apply Http_Error_status|].
    intros Hb. unfold Http_Error, SetHeader, with_header, WriteHeader, Write. cbn.
    rewrite Hsent. cbn. by rewrite Hb.
Qed.

Lemma cause_message_Wrap e c : cause_message (Wrap e c) = Error_ e.
Proof. done. Qed.

(** The JSON answer on a response that was not sent yet. *)
Lemma responseJSON_run data s :
  once s = false → w_sent (response s) = None → w_broken (response s) = ErrNil →
  let h := Header_Set (w_header (response s)) contentTypeHeader jsonContentType in
  responseJSON data s =
  (MkState true (MkWriter h (Some (StatusOK, h))
     (w_body (response s) +:+ json_text (response_json (MkJsonResponse "success" (Some data)
        EmptyString EmptyString))) ErrNil) (request s), Done ErrNil).
Proof.
  intros Ho Hsent Hb. unfold responseJSON, Do. rewrite Ho. cbv beta iota zeta delta [Marshal].
  generalize (json_text (response_json (MkJsonResponse "success" (Some data) EmptyString
    EmptyString))) as body.
  intros body. unfold mbind, M_bind, mret, M_ret, modify_response, write, SetHeader,
    with_header, WriteHeader, Write. cbn. rewrite Hsent. cbn. rewrite Hb. done.
Qed.

(** What [ServeHTTP] makes of the outcome of the handler. *)
Lemma ServeHTTP_outcome f c r w s res :
  f c (MkState false w r) = (s, res) →
  ServeHTTP f (Some c) r w =
  match res with
  | Done err =>
      if is_nil err then (response s, Done ())
      else match respond_error r err s with
           | (s, Done _) => (response s, Done ())
           | (s, Panic _) =>
               (Http_Error (response s) "unknown internal error" StatusInternalServerError, Done ())
           end
  | Panic _ => (Http_Error (response s) "unknown internal error" StatusInternalServerError, Done ())
  end.
Proof.
  intros Hf. unfold ServeHTTP, HandleCrash, ReallyCrash. destruct res as [err|p].
  - rewrite (M_bind_Done _ _ _ _ _ Hf). destruct (is_nil err); [done|].
    destruct (respond_error r err s) as [s' [[]|]]; done.
  - by rewrite (M_bind_Panic _ _ _ _ _ Hf).
Qed.

Lemma respond_error_panics r err s p :
  cause_message err = Panic p → respond_error r err s = (s, Panic p).
Proof. intros Hp. unfold respond_error. apply M_bind_Panic. unfold lift. by rewrite Hp. Qed.

(** [ServeHTTP] always returns. *)
Lemma ServeHTTP_Done (f : apiContextHandler) (c : option apiContext) (r : Request)
    (w : ResponseWriter) :
  ∃ w', ServeHTTP f c r w = (w', Done ()).
Proof.
  destruct c as [c|]; [|by eexists].
  destruct (f c (MkState false w r)) as [s res] eqn:Hf.
  rewrite (ServeHTTP_outcome f c r w s res Hf). destruct res as [err|]; [|by eexists].
  destruct (is_nil err); [by eexists|].
  destruct (respond_error r err s) as [s' [[]|]]; by eexists.
Qed.

(** The response to an error, by the definitions of the handler. *)
Lemma ServeHTTP_responds (f : apiContextHandler) (c : apiContext) (r : Request)
    (w : ResponseWriter) (s : state) (res : go error) :
  f c (MkState false w r) = (s, res) → w_sent (response s) = None →
  let w' := (ServeHTTP f (Some c) r w).1 in
  match res with
  | Done err =>
      if is_nil err then w' = response s
      else
        match cause_message err with
        | Done text =>
            status w' = (response_code err).1 ∧
            (w_broken (response s) = ErrNil →
             w_body w' = w_body (response s) +:+ error_body r (response s) err text)
        | Panic _ => status w' = StatusInternalServerError
        end
  | Panic _ => status w' = StatusInternalServerError
  end.
Proof.
  intros Hf Hsent. cbn zeta. rewrite (ServeHTTP_outcome f c r w s res Hf).
  destruct res as [err|]; [|by apply Http_Error_status].
  destruct (is_nil err); [done|]. destruct (cause_message err) as [text|p] eqn:Htext.
  - destruct (respond_error_spec r err text s Htext Hsent) as (w' & -> & Hst & Hbody). done.
  - rewrite (respond_error_panics r err s p Htext). by apply Http_Error_status.
Qed.

Lemma response_code_failure err :
  response_code err = (failure_status (failure_of err), failure_type (failure_of err)).
Proof.
  unfold response_code, IsBadRequest, IsNotProvisioned, failure_of. by destruct (Cause err) as [| |[]].
Qed.

(** ** Properties *)

(** The ways a handler answers. *)
Inductive answer :=
| AnswerJSON (data : json)
| AnswerProto (data : option ReadResponse)
| AnswerMetrics (data : option MetricFamily)
| AnswerProxy
| AnswerProxyWith (r : Request).

Definition give (c : apiContext) (a : answer) : M error :=
  match a with
  | AnswerJSON data => responseJSON data
  | AnswerProto data => responseProto data
  | AnswerMetrics data => responseMetrics data
  | AnswerProxy => proxy c
  | AnswerProxyWith r => proxyWith c r
  end.

(** C28. A request is answered at most once: after one answer was given,
    even one that failed or panicked, every further answer changes neither
    the response nor the request and reports no error. *)
Theorem answers_once (c : apiContext) (a b : answer) (s : state) :
  let s1 := (give c a s).1 in
  once s1 = true ∧ give c b s1 = (s1, Done ErrNil).
Proof.
  cbn zeta.
  assert (∀ f : M error, ∀ s, once ((_ ← Do f; mret ErrNil) s).1 = true) as Hbind.
  { intros f s0. unfold mbind, M_bind. pose proof (Do_once f s0) as Ho.
    by destruct (Do f s0) as [s1 [|]]. }
  assert (once (give c a s).1 = true) as Ha by (destruct a; apply Do_once || apply Hbind).
  split; [done|]. destruct b; cbn [give]; try by apply Do_done.
  - unfold proxy. rewrite (M_bind_Done _ _ _ (give c a s).1 ErrNil); [done|by apply Do_done].
  - unfold proxyWith. rewrite (M_bind_Done _ _ _ (give c a s).1 ErrNil); [done|by apply Do_done].
Qed.

(** The server survives every handler: [ServeHTTP] returns, whatever
    the handler does, a missing context included. *)
Theorem ServeHTTP_returns (f : apiContextHandler) (c : option apiContext) (r : Request)
    (w : ResponseWriter) :
  ∃ w', ServeHTTP f c r w = (w', Done ()).
Proof. exact (ServeHTTP_Done f c r w). Qed.

(** C29. The response to a handler that sent nothing yet.  No error leaves it
    as it is.  An error gives status 400 if its cause is a bad request, 422
    if it is an execution error, and 500 otherwise; the text is the one of
    the error that was wrapped or annotated, not of its cause or
    annotation, or else the error's own, in a JSON envelope with the type of
    the failure for a client that accepts JSON.  A panic of the handler,
    or an error of this package that was made from no other, gives status
    500. *)
Theorem ServeHTTP_response (f : apiContextHandler) (c : apiContext) (r : Request)
    (w : ResponseWriter) (s : state) (res : go error)
    (Hf : f c (MkState false w r) = (s, res)) (Hsent : w_sent (response s) = None) :
  let w' := (ServeHTTP f (Some c) r w).1 in
  match res with
  | Done ErrNil => w' = response s
  | Done err =>
      match reply_text err with
      | Done text =>
          status w' = failure_status (failure_of err) ∧
          (w_broken (response s) = ErrNil →
           w_body w' = w_body (response s) +:+
             if wants_json r (response s) then reply_json (failure_type (failure_of err)) text
             else text +:+ newline)
      | Panic _ => status w' = 500%Z
      end
  | Panic _ => status w' = 500%Z
  end.
Proof.
  cbn zeta. pose proof (ServeHTTP_responds f c r w s res Hf Hsent) as Hresp. cbn zeta in Hresp.
  destruct res as [err|]; [|exact Hresp]. unfold error_body in Hresp.
  rewrite response_code_failure in Hresp.
  by destruct err as [|text|[] message cause previous].
Qed.
End Lemmas.
