(* ===== verification/Hijack.v ===== *)
(** * The hijack handlers (src/pkg/agent/http_hijack.go)

    Each handler checks the parameters of a Prometheus API call, answers by
    itself when the user may see no namespace, and otherwise rewrites the
    PromQL or the matchers of the call for the user's namespaces and hands
    a new request to the proxy. *)
From S2P Require Import Prelude GoStrings GoFloat Regexp DataSet Matchers Prom Restriction.
From S2P Require Import Promql Rewriting Errors GoTime Url Http Json ApiContext.
From stdpp Require Import gmap.
From stdpp Require Import options.

(** The PromQL parser of the prometheus module, which [PromParser]
    implements. *)
Class Parser `{RegexpEngine} := {
  ParseExpr : string → result error Expr;
  ParseMetricSelector : string → result error (list Labels.Matcher);
}.

(** The trees it builds are well formed. *)
Class ParserLaws `(Parser) : Prop :=
  ParseExpr_wf : ∀ s e, ParseExpr s = Ok e → wf_expr e.

Section Hijack.
Context `{RE : RegexpEngine, !Parser, !UnicodeTable, !Machine, MR : MultipartReader}.
Context `{PM : PromMessages, !Codecs}.

(** ** Common steps *)
Definition form_value (key : string) : M string :=
  req ← get_request;
  let '(value, req) := FormValue req key in
  put_request req;; mret value.

Definition bad (err : error) : M error := mret (Wrap err badRequestErr).

Definition set_json_content_type : M unit :=
  modify_response (λ w, SetHeader w contentTypeHeader jsonContentType).

(** [stats.NewQueryStats(stats.NewQueryTimers())] and the answer of a query
    without series. *)
Definition empty_stats : json :=
  JObject [("timings", JObject
    [("evalTotalTime", JNumber 0); ("resultSortTime", JNumber 0);
     ("queryPreparationTime", JNumber 0); ("innerEvalTime", JNumber 0);
     ("execQueueTime", JNumber 0); ("execTotalTime", JNumber 0)])].
Definition emptyRespData (t : ValueType) (stats : bool) : json :=
  JObject ([("resultType", JString (ValueType_text t)); ("result", JArray [])] ++
           (if stats then [("stats", empty_stats)] else [])).

(** The new request with other values in the query, sent to the proxy. *)
Definition proxy_values (c : apiContext) (u : URL) (values : Values) : M error :=
  let reqURL := MkURL (Path u) (RawPath u) (ForceQuery u) (Encode values) in
  match NewRequest "GET" (URL_String reqURL) None with
  | Error err => mret (Wrap err errInternal)
  | Ok newReq => proxyWith c newReq
  end.

(** [req.Form.Del("query")], the rewriting, [req.Form.Set("query", ...)],
    and the new request. *)
Definition put_form (req : Request) (form : Values) : M unit :=
  put_request (MkRequest (Method req) (Req_URL req) (Req_Header req) (Body req)
                 (Some form) (PostForm req)).

Definition hijack_form (c : apiContext) (queryExpr : Expr) : M error :=
  req ← get_request;
  let form := default ∅ (Form req) in
  put_form req (Values_Del form "query");;
  hjkValue ← lift (ModifyExpression queryExpr (namespaceSet c));
  req ← get_request;
  match Form req with
  | None => lift (Panic "assignment to entry in nil map")
  | Some form =>
      let form := Values_Set form "query" hjkValue in
      put_form req form;;
      proxy_values c (Req_URL req) form
  end.

(** The quick response of [hijackQuery] and [hijackQueryRange]: [None] when
    the handler goes on.  [vector_as] is the type it answers a vector
    with. *)
Definition quick_response (c : apiContext) (queryExpr : Expr) (vector_as : ValueType)
    : M (option error) :=
  if bool_decide (DataSet.len (namespaceSet c) = 0) then
    stats ← form_value "stats";
    let qs := bool_decide (stats ≠ EmptyString) in
    if bool_decide (Type_ queryExpr ≠ ValueTypeScalar) then
      match Type_ queryExpr with
      | ValueTypeVector => Some <$> responseJSON (emptyRespData vector_as qs)
      | ValueTypeMatrix => Some <$> responseJSON (emptyRespData ValueTypeMatrix qs)
      | t => Some <$> bad (Errorf ("unexpected expression type " +:+ Quote (ValueType_text t)))
      end
    else mret None
  else mret None.

Definition after {A} (m : M (option A)) (k : M A) : M A :=
  r ← m; match r with Some a => mret a | None => k end.

(** ** hijackQuery *)

(** The check of [timeout]: [None] when it passes. *)
Definition check_timeout : M (option error) :=
  to ← form_value "timeout";
  if bool_decide (to = EmptyString) then mret None
  else match parseDuration to with
       | Error err => Some <$> bad err
       | Ok _ => mret None
       end.

(** From the form value [query] on. *)
Definition hijack_query_value (c : apiContext) (vector_as : ValueType) : M error :=
  queryFormValue ← form_value "query";
  if bool_decide (queryFormValue = EmptyString)
  then bad (New "unable to get 'query' value from request")
  else match ParseExpr queryFormValue with
       | Error err => bad err
       | Ok queryExpr => after (quick_response c queryExpr vector_as) (hijack_form c queryExpr)
       end.

Definition hijackQuery (c : apiContext) : M error :=
  set_json_content_type;;
  after check_timeout (hijack_query_value c ValueTypeVector).

(** ** hijackQueryRange *)

(** The checks of the range; [None] when they pass. *)
Definition resolution_text : string :=
  "exceeded maximum resolution of 11,000 points per timeseries. Try decreasing the query resolution (?step=XX)".
Definition step_text : string :=
  "zero or negative query resolution step widths are not accepted. Try a positive integer".

Definition check_range : M (option error) :=
  start ← form_value "start";
  match parseTime start with
  | Error err => Some <$> bad err
  | Ok start =>
    end_ ← form_value "end";
    match parseTime end_ with
    | Error err => Some <$> bad err
    | Ok end_ =>
      if Before end_ start
      then Some <$> bad (New "end timestamp must not be before start time")
      else
        step ← form_value "step";
        match parseDuration step with
        | Error err => Some <$> bad err
        | Ok step =>
            if bool_decide (step ≤ 0)%Z then Some <$> bad (New step_text)
            else if bool_decide (Z.quot (Sub end_ start) step > 11000)%Z
            then Some <$> bad (New resolution_text)
            else mret None
        end
    end
  end.

Definition hijackQueryRange (c : apiContext) : M error :=
  set_json_content_type;;
  after check_timeout
    (after check_range (hijack_query_value c ValueTypeMatrix)).

(** ** hijackFederate, hijackSeries *)

(** The check of the selectors: the first error. *)
Fixpoint check_selectors (values : list string) : error :=
  match values with
  | [] => ErrNil
  | rawValue :: values =>
      match ParseMetricSelector rawValue with
      | Error err => err
      | Ok _ => check_selectors values
      end
  end.

(** The loop that rewrites them into [queries]. *)
Fixpoint hijack_matches (S : DataSet.Set_) (values : list string) (queries : Values)
    : go (result error Values) :=
  match values with
  | [] => Done (Ok queries)
  | rawValue :: values =>
      match ParseExpr rawValue with
      | Error err => Done (Error err)
      | Ok expr =>
          hjkValue ← ModifyExpression expr S;
          hijack_matches S values (Values_Add queries "match[]" hjkValue)
      end
  end.

Definition hijack_selectors (c : apiContext) (queries : Values) : M error :=
  r ← lift (hijack_matches (namespaceSet c) (values_of queries "match[]")
              (Values_Del queries "match[]"));
  match r with
  | Error err => bad err
  | Ok queries => req ← get_request; proxy_values c (Req_URL req) queries
  end.

Definition hijackFederate (c : apiContext) : M error :=
  req ← get_request;
  let '(queries, err) := ParseQuery (RawQuery (Req_URL req)) in
  if negb (is_nil err) then bad err
  else
    let matchFormValues := values_of queries "match[]" in
    let err := check_selectors matchFormValues in
    if negb (is_nil err) then bad err
    else if bool_decide (length matchFormValues = 0) || bool_decide (DataSet.len (namespaceSet c) = 0)
    then responseMetrics None
    else hijack_selectors c queries.

Definition check_time (t : string) : error :=
  if bool_decide (t = EmptyString) then ErrNil
  else match parseTime t with Error err => err | Ok _ => ErrNil end.

Definition hijackSeries (c : apiContext) : M error :=
  set_json_content_type;;
  req ← get_request;
  let '(queries, err) := ParseQuery (RawQuery (Req_URL req)) in
  if negb (is_nil err) then bad err
  else
    let err := check_time (Values_Get queries "start") in
    if negb (is_nil err) then bad err
    else
      let err := check_time (Values_Get queries "end") in
      if negb (is_nil err) then bad err
      else
        let matchFormValues := values_of queries "match[]" in
        if bool_decide (length matchFormValues = 0)
        then bad (New "no match[] parameter provided")
        else
          let err := check_selectors matchFormValues in
          if negb (is_nil err) then bad err
          else if bool_decide (DataSet.len (namespaceSet c) = 0) then responseJSON (JArray [])
          else hijack_selectors c queries.

(** ** hijackRead *)
Definition modifyQuery (originalQuery : Query) (namespaceSet filterReaderLabelSet : DataSet.Set_)
    : go Query :=
  let rawMatchers := Q_Matchers originalQuery in
  let filteredMatchers :=
    filter (λ m, DataSet.exist (Prompb.Name m) filterReaderLabelSet = false) rawMatchers in
  matchers ← FilterLabelMatchers namespaceSet filteredMatchers;
  Done (MkQuery (StartTimestampMs originalQuery) (EndTimestampMs originalQuery) matchers
          (Hints originalQuery)).

Definition hijackRead (c : apiContext) : M error :=
  req ← get_request;
  match DecodeReadRequest req with
  | Error err => bad err
  | Ok pbreq =>
      let rawQueries := Queries pbreq in
      if bool_decide (DataSet.len (namespaceSet c) = 0) then
        responseProto (Some (MkReadResponse (replicate (length rawQueries) (MkQueryResult []))))
      else
        hjkQueries ← lift (go_map (λ q, modifyQuery q (namespaceSet c) (filterReaderLabelSet c))
                             rawQueries);
        match MarshalReadRequest (MkReadRequest hjkQueries (AcceptedResponseTypes pbreq)) with
        | Error err => bad err
        | Ok marshaledData =>
            match NewRequest "POST" (URL_String (Req_URL req))
                    (Some (snappy_Encode marshaledData)) with
            | Error err => mret (Wrap err errInternal)
            | Ok newReq => proxyWith c newReq
            end
        end
  end.

(** ** hijackLabelNamespaces, hijackLabelName *)
Definition hijackLabelNamespaces (c : apiContext) : M error :=
  if bool_decide (DataSet.len (namespaceSet c) = 0) then responseJSON (JArray [])
  else responseJSON (JArray (JString <$> DataSet.Values (namespaceSet c))).

Definition hijackLabelName (c : apiContext) : M error :=
  set_json_content_type;;
  if bool_decide (DataSet.len (namespaceSet c) = 0) then responseJSON (JArray [])
  else
    expr ← lift (NewExprForCountAllLabels (DataSet.Values (namespaceSet c)));
    let '(vals, err) := remoteAPI c expr in
    if negb (is_nil err) then mret (Wrap err notProvisionedErr)
    else match vals with
         | VectorValue vectorVals =>
             responseJSON (JArray ((λ metric : gmap string string,
               JString (default EmptyString (metric !! "__name__"))) <$> vectorVals))
         | _ => mret (Wrap err notProvisionedErr)
         end.
End Hijack.
