(* ===== verification/PromParser.v ===== *)
(** * The parser the handlers use

    The parser of [Parser] as the interface of the hijack handlers, and what
    [ParserSpec] shows of it: the law of the interface. *)
From S2P Require Import Prelude GoStrings GoFloat Regexp Matchers Promql Rewriting Errors.
From S2P Require Import GoTime Strutil Lexer LexerSpec ParserTables Parser ParserDriver.
From S2P Require Import ParserSpec Hijack.
From stdpp Require Import options.

Section PromParser.
Context `{RE : RegexpEngine, !UnicodeTable}.

(** The matchers of a selector without errors are not nil
    ([parsed_matchers]). *)
Definition ParseMetricSelector_matchers (s : string) : result error (list Labels.Matcher) :=
  match Parser.ParseMetricSelector s with
  | Ok ms => match mapM id ms with Some ms => Ok ms | None => Error errUnexpected end
  | Error err => Error err
  end.

#[export] Instance prom_parser : Hijack.Parser := {|
  Hijack.ParseExpr := Parser.ParseExpr;
  Hijack.ParseMetricSelector := ParseMetricSelector_matchers;
|}.

#[export] Instance prom_parser_laws : ParserLaws prom_parser.
Proof. intros s e. apply parsed_wf. Qed.

Lemma parsed_matchers s ms :
  Parser.ParseMetricSelector s = Ok ms →
  ∃ l, mapM id ms = Some l ∧ ParseMetricSelector_matchers s = Ok l ∧ Forall Labels.wf l.
Proof.
  intros Hs. pose proof (parsed_selector_wf _ _ Hs) as (l & Hl & Hwf)%good_matchers_trees.
  exists l. split; [done|]. split; [|done]. unfold ParseMetricSelector_matchers. by rewrite Hs, Hl.
Qed.

(** ** Properties *)

(** C22. The parser ends on every input: the turns of its driver suffice,
    whatever the start symbol and the text. *)
Theorem parser_terminates (start : Z) (s : string) :
  parseGenerated start (newParser s) ≠ Panic out_of_fuel ∧
  ∀ more, yyParse (turns (String.length s) + more) yyinit (MkParser (Lex s) start true 0 None []) =
    yyParse (turns (String.length s)) yyinit (MkParser (Lex s) start true 0 None []).
Proof. split; [apply (parseGenerated_ends start s 0)|intros more; apply parseGenerated_ends]. Qed.

(** C13. What [ParseExpr] accepts is a complete tree: no nil operand,
    function or matcher is left, each range selector holds a vector
    selector, each matcher a compiled expression; and what it refuses
    carries the first error of the parser, or the error of the recovered
    panic. *)
Theorem ParseExpr_outcomes (s : string) :
  match parse_expr (newParser s) with
  | Panic _ => Parser.ParseExpr s = Error errUnexpected
  | Done (n, p) =>
      match parseErrors p with
      | [] => ∃ m e, n = Some m ∧ to_Expr m = Some e ∧ wf_expr e ∧ Parser.ParseExpr s = Ok e
      | err :: _ => Parser.ParseExpr s = Error (Foreign (ParseErr_Error s err))
      end
  end.
Proof.
  unfold Parser.ParseExpr, recovered.
  destruct (parse_expr (newParser s)) as [[n p']|] eqn:Hp; [|done].
  destruct (parseErrors p') eqn:He; [|done].
  destruct (parse_expr_tree _ _ _ Hp He) as (m & -> & x & Hx & Hwf).
  exists m, x. cbn. by rewrite Hx.
Qed.
End PromParser.
