(* ===== verification/Quoting.v ===== *)
(** * Quoted texts are read back

    [Unquote] gives back what [Quote] quoted, and no longer or shorter
    literal of a text that goes on after a quoted string can be unquoted: a
    value cannot break out of its quotes. *)
From S2P Require Import Prelude GoStrings GoFloat Strutil Lexer LexerSpec.
From Stdlib Require Import Ascii.
From stdpp Require Import options.

(** ** Strings and bytes *)
Lemma take_drop_string n s : take_string n s +:+ drop_string n s = s.
Proof. revert s. induction n as [|n IH]; intros [|c s]; cbn; try done. by rewrite string_app_cons, IH. Qed.

Lemma drop_string_app s t : drop_string (String.length s) (s +:+ t) = t.
Proof. induction s as [|c s IH]; [done|]. by rewrite string_app_cons. Qed.

Lemma take_string_app s t : take_string (String.length s) (s +:+ t) = s.
Proof. induction s as [|c s IH]; [done|]. rewrite string_app_cons. cbn. by rewrite IH. Qed.

Lemma drop_string_drop n m s : drop_string n (drop_string m s) = drop_string (m + n) s.
Proof. revert s. induction m as [|m IH]; intros [|c s]; cbn; try done. by destruct n. Qed.

Lemma length_take_string n s : String.length (take_string n s) = n `min` String.length s.
Proof. revert s. induction n as [|n IH]; intros [|c s]; cbn; try done. by rewrite IH. Qed.

Lemma byte_val_bound c : (byte_val c < 256)%N.
Proof. apply N_ascii_bounded. Qed.

Lemma byte_of_val c z : z = Z.of_N (byte_val c) → byte_of z = c.
Proof.
  intros ->. unfold byte_of. pose proof (byte_val_bound c).
  rewrite Z.mod_small by lia. rewrite N2Z.id. apply ascii_N_embedding.
Qed.

Lemma byte_val_inj c d : byte_val c = byte_val d → c = d.
Proof. intros Hcd. rewrite <- (ascii_N_embedding c), <- (ascii_N_embedding d). by f_equal. Qed.

(** ** Runes *)
Lemma cont_byte lo hi c x :
  cont lo hi c = Some x → (128 ≤ lo)%N → (hi < 192)%N →
  byte_val c = (128 + x)%N ∧ (lo ≤ 128 + x ≤ hi)%N.
Proof.
  unfold cont. case_match eqn:Hb; [|done]. apply byte_in_true in Hb. intros [= <-] Hlo Hhi.
  rewrite (N.mod_eq (byte_val c) 64) by done.
  assert (byte_val c / 64 = 2)%N as -> by (symmetry; apply (N.div_unique _ 64 2 (byte_val c - 128)); lia). lia.
Qed.

(** What [DecodeRuneInString] reads at the head of a text: an ASCII byte, an
    invalid byte, or the encoding of a rune. *)
Inductive decoded (s : string) : N → nat → Prop :=
| decoded_ascii c t : s = String c t → (byte_val c < 128)%N → decoded s (byte_val c) 1
| decoded_invalid c t : s = String c t → (128 ≤ byte_val c)%N → decoded s RuneError 1
| decoded_rune r w :
    (128 ≤ r)%N → 2 ≤ w ≤ String.length s → bool_decide (Z.of_N r ≤ MaxRune)%Z = true →
    surrogate (Z.of_N r) = false →
    EncodeRune (Z.of_N r) = take_string w s →
    (∀ t, DecodeRuneInString (take_string w s +:+ t) = (r, w)) → decoded s r w.

(** The bounds of the second byte depend on the first. *)
Definition lead_lo (c : ascii) (k : N) (x : N) : N := if bool_decide (byte_val c = k) then x else 128%N.
Definition lead_hi (c : ascii) (k : N) (x : N) : N := if bool_decide (byte_val c = k) then x else 191%N.
Lemma lead_lo_bound c k x : (128 ≤ x)%N → (128 ≤ lead_lo c k x)%N.
Proof. unfold lead_lo. case_bool_decide; lia. Qed.
Lemma lead_hi_bound c k x : (x < 192)%N → (lead_hi c k x < 192)%N.
Proof. unfold lead_hi. case_bool_decide; lia. Qed.

(** A run of lead and continuation bytes, whose payloads are digits in
    base 64, is the encoding of the rune they spell. *)
Ltac byte_bounds :=
  repeat match goal with
    | H : byte_in _ _ _ = true |- _ => apply byte_in_true in H
    | H : cont _ _ _ = Some _ |- _ => apply cont_byte in H as [? ?]; [|solve [lia|apply lead_lo_bound; lia|apply lead_hi_bound; lia]..]
    end.
Ltac split_bools :=
  repeat match goal with H : context [bool_decide ?P] |- _ => destruct (bool_decide_reflect P) end;
  cbv iota in *.
Ltac rune_byte :=
  apply byte_of_val; rewrite ?Z.shiftr_div_pow2 by lia;
  change (2 ^ (6 * 0))%Z with 1%Z; change (2 ^ (6 * 1))%Z with 64%Z;
  change (2 ^ (6 * 2))%Z with 4096%Z; change (2 ^ 6)%Z with 64%Z;
  change (2 ^ 12)%Z with 4096%Z; change (2 ^ 18)%Z with 262144%Z;
  Z.div_mod_to_equations; lia.

Lemma encode_2 c0 c1 x1 :
  byte_in 194 223 c0 = true → cont 128 191 c1 = Some x1 →
  let r := ((byte_val c0 - 192) * 64 + x1)%N in
  (128 ≤ r < 2048)%N ∧ EncodeRune (Z.of_N r) = String c0 (String c1 EmptyString).
Proof.
  intros Hc0 Hc1 r. byte_bounds. assert (128 ≤ r < 2048)%N as Hr by lia. split; [done|].
  unfold EncodeRune, surrogate, MaxRune.
  rewrite (bool_decide_eq_true_2 (0 ≤ _ ≤ _)%Z), (bool_decide_eq_false_2 (_ ≤ _ < _)%Z) by lia. cbn [negb andb].
  rewrite (bool_decide_eq_false_2 (_ < 128)%Z), (bool_decide_eq_true_2 (_ < 2048)%Z) by lia.
  cbn [String.string_of_list_ascii]. repeat f_equal; rune_byte.
Qed.


Lemma encode_3 c0 c1 c2 x1 x2 :
  byte_in 224 239 c0 = true → cont (lead_lo c0 224 160) (lead_hi c0 237 159) c1 = Some x1 →
  cont 128 191 c2 = Some x2 →
  let r := ((byte_val c0 - 224) * 4096 + x1 * 64 + x2)%N in
  (2048 ≤ r < 65536)%N ∧ surrogate (Z.of_N r) = false ∧
  EncodeRune (Z.of_N r) = String c0 (String c1 (String c2 EmptyString)).
Proof.
  intros Hc0 Hc1 Hc2 r. byte_bounds. unfold lead_lo, lead_hi in *.
  assert (x1 < 64)%N by (split_bools; lia).
  assert (2048 ≤ r < 65536 ∧ ¬ (55296 ≤ r < 57344))%N as [Hr Hs] by (split_bools; lia).
  split; [done|]. unfold EncodeRune, surrogate, MaxRune.
  rewrite (bool_decide_eq_true_2 (0 ≤ _ ≤ _)%Z), (bool_decide_eq_false_2 (_ ≤ _ < _)%Z) by lia. cbn [negb andb].
  split; [done|].
  rewrite (bool_decide_eq_false_2 (_ < 128)%Z), (bool_decide_eq_false_2 (_ < 2048)%Z),
    (bool_decide_eq_true_2 (_ < 65536)%Z) by lia.
  cbn [String.string_of_list_ascii]. repeat f_equal; rune_byte.
Qed.

Lemma encode_4 c0 c1 c2 c3 x1 x2 x3 :
  byte_in 240 244 c0 = true → cont (lead_lo c0 240 144) (lead_hi c0 244 143) c1 = Some x1 →
  cont 128 191 c2 = Some x2 → cont 128 191 c3 = Some x3 →
  let r := ((byte_val c0 - 240) * 262144 + x1 * 4096 + x2 * 64 + x3)%N in
  (65536 ≤ r < 1114112)%N ∧
  EncodeRune (Z.of_N r) = String c0 (String c1 (String c2 (String c3 EmptyString))).
Proof.
  intros Hc0 Hc1 Hc2 Hc3 r. byte_bounds. unfold lead_lo, lead_hi in *.
  assert (x1 < 64)%N by (split_bools; lia).
  assert (65536 ≤ r < 1114112)%N as Hr by (split_bools; lia).
  split; [done|]. unfold EncodeRune, surrogate, MaxRune.
  rewrite (bool_decide_eq_true_2 (0 ≤ _ ≤ _)%Z), (bool_decide_eq_false_2 (_ ≤ _ < _)%Z) by lia. cbn [negb andb].
  rewrite (bool_decide_eq_false_2 (_ < 128)%Z), (bool_decide_eq_false_2 (_ < 2048)%Z),
    (bool_decide_eq_false_2 (_ < 65536)%Z) by lia.
  cbn [String.string_of_list_ascii]. repeat f_equal; rune_byte.
Qed.

Lemma decode_cases c0 s1 :
  decoded (String c0 s1) (DecodeRuneInString (String c0 s1)).1 (DecodeRuneInString (String c0 s1)).2.
Proof.
  cbn. case_bool_decide as Hb; [by eapply decoded_ascii|].
  assert (decoded (String c0 s1) RuneError 1) as Hinv by (eapply decoded_invalid; [done|lia]).
  destruct s1 as [|c1 s2]; [done|].
  destruct (byte_in 194 223 c0) eqn:H2.
  { destruct (cont 128 191 c1) as [x1|] eqn:Hc1; [|done]. cbn.
    destruct (encode_2 _ _ _ H2 Hc1) as [Hr He].
    apply decoded_rune; [lia|cbn; lia|apply bool_decide_eq_true_2; unfold MaxRune; lia| |done|].
    - unfold surrogate. apply bool_decide_eq_false_2. lia.
    - intros t. cbn [take_string]. rewrite !string_app_cons. cbn. by rewrite bool_decide_eq_false_2, H2, Hc1 by lia. }
  destruct s2 as [|c2 s3]; [done|].
  destruct (byte_in 224 239 c0) eqn:H3.
  { fold (lead_lo c0 224 160) (lead_hi c0 237 159).
    destruct (cont _ _ c1) as [x1|] eqn:Hc1; [|done]. destruct (cont _ _ c2) as [x2|] eqn:Hc2; [|done].
    cbn. destruct (encode_3 _ _ _ _ _ H3 Hc1 Hc2) as (Hr & Hs & He).
    apply decoded_rune; [lia|cbn; lia|apply bool_decide_eq_true_2; unfold MaxRune; lia|done|done|].
    intros t. cbn [take_string]. rewrite !string_app_cons. cbn. rewrite bool_decide_eq_false_2, H2, H3 by lia.
    fold (lead_lo c0 224 160) (lead_hi c0 237 159). by rewrite Hc1, Hc2. }
  destruct s3 as [|c3 s4]; [done|].
  destruct (byte_in 240 244 c0) eqn:H4; [|done].
  fold (lead_lo c0 240 144) (lead_hi c0 244 143).
  destruct (cont _ _ c1) as [x1|] eqn:Hc1; [|done]. destruct (cont _ _ c2) as [x2|] eqn:Hc2; [|done].
  destruct (cont 128 191 c3) as [x3|] eqn:Hc3; [|done].
  cbn. destruct (encode_4 _ _ _ _ _ _ _ H4 Hc1 Hc2 Hc3) as (Hr & He).
  apply decoded_rune; [lia|cbn; lia|apply bool_decide_eq_true_2; unfold MaxRune; lia| |done|].
  - unfold surrogate. apply bool_decide_eq_false_2. lia.
  - intros t. cbn [take_string]. rewrite !string_app_cons. cbn. rewrite bool_decide_eq_false_2, H2, H3, H4 by lia.
    fold (lead_lo c0 240 144) (lead_hi c0 244 143). by rewrite Hc1, Hc2, Hc3.
Qed.

(** ** Units: what [Quote] prints of a rune or an invalid byte *)
Definition simple_escapes : list (ascii * N) :=
  [("a", 7); ("b", 8); ("f", 12); ("n", 10); ("r", 13); ("t", 9); ("v", 11)]%N%char.

(** [unit_of p u]: the bytes [p] are quoted as [u]. *)
Inductive unit_of : string → string → Prop :=
| unit_plain c :
    (32 ≤ byte_val c < 127)%N → c ≠ dquote_char → c ≠ backslash →
    unit_of (String c EmptyString) (String c EmptyString)
| unit_rune c p r :
    (128 ≤ byte_val c)%N → EncodeRune (Z.of_N r) = String c p → (128 ≤ r)%N →
    (∀ t, DecodeRuneInString (String c p +:+ t) = (r, S (String.length p))) →
    unit_of (String c p) (String c p)
| unit_escaped c :
    c = dquote_char ∨ c = backslash →
    unit_of (String c EmptyString) (String backslash (String c EmptyString))
| unit_simple e n :
    (e, n) ∈ simple_escapes →
    unit_of (String (ascii_of_N n) EmptyString) (String backslash (String e EmptyString))
| unit_x c :
    unit_of (String c EmptyString) ("\x" +:+ hex_digits 2 (byte_val c))
| unit_u p r :
    (r < 65536)%N → p = EncodeRune (Z.of_N r) → unit_of p ("\u" +:+ hex_digits 4 r)
| unit_U p r :
    (Z.of_N r ≤ MaxRune)%Z → p = EncodeRune (Z.of_N r) → unit_of p ("\U" +:+ hex_digits 8 r).

(** Membership in a concrete list. *)
Ltac member := vm_compute; repeat first [apply list_elem_of_here|apply list_elem_of_further].

Section Quoting.
Context `{UnicodeTable}.

Lemma quote_body_skip k s : quote_body k s = quote_body 0 (drop_string k s).
Proof. revert k. induction s as [|c s IH]; intros [|k]; cbn [quote_body drop_string]; done. Qed.

Lemma quote_body_step c s :
  let d := DecodeRuneInString (String c s) in
  quote_body 0 (String c s) =
    quote_rune d.1 d.2 (String c s) +:+ quote_body 0 (drop_string d.2 (String c s)).
Proof.
  cbn [quote_body]. destruct (DecodeRuneInString (String c s)) as [r w] eqn:Hd. cbn [fst snd].
  apply Decode_width in Hd as [Hw _]. destruct w as [|w]; [lia|].
  rewrite quote_body_skip. cbn [drop_string Nat.sub]. by rewrite Nat.sub_0_r.
Qed.

Lemma control_unit c :
  (byte_val c < 32)%N → unit_of (String c EmptyString) (escapeRune (byte_val c)).
Proof.
  intros Hc. assert (c ∈ (λ n, ascii_of_N (N.of_nat n)) <$> seq 0 32) as Hin.
  { apply list_elem_of_fmap. exists (N.to_nat (byte_val c)). rewrite N2Nat.id, elem_of_seq.
    split; [by rewrite ascii_N_embedding|lia]. }
  clear Hc. revert c Hin. apply Forall_forall. unfold fmap; cbn [list_fmap seq].
  repeat (apply Forall_cons; split;
    [first [apply unit_x|eapply unit_simple; member]|]).
  constructor.
Qed.

Lemma ascii_unit c s :
  (byte_val c < 128)%N →
  unit_of (String c EmptyString) (quote_rune (byte_val c) 1 (String c s)).
Proof.
  intros Hc. unfold quote_rune. rewrite (bool_decide_eq_false_2 (_ = RuneError)), andb_false_r
    by (unfold RuneError; lia).
  destruct (bool_decide (byte_val c = 34)%N || bool_decide (byte_val c = 92)%N) eqn:He.
  { apply orb_true_iff in He. rewrite !bool_decide_eq_true in He. apply unit_escaped.
    destruct He as [He|He]; [left|right]; by apply byte_val_inj. }
  apply orb_false_iff in He. rewrite !bool_decide_eq_false in He. destruct He as [H1 H2].
  unfold IsPrint. rewrite (bool_decide_eq_true_2 (_ < 128)%N) by done.
  case_bool_decide as H3; cbn [andb]; [|apply control_unit; lia].
  case_bool_decide as H4.
  - apply unit_plain; [lia|by intros ->..].
  - assert (c = ascii_of_N 127) as -> by (apply byte_val_inj; cbn; lia).
    by apply (unit_u _ 127).
Qed.

Lemma escapeRune_large r :
  (128 ≤ r)%N →
  escapeRune r = if bool_decide (r < 65536)%N then "\u" +:+ hex_digits 4 r
                 else "\U" +:+ hex_digits 8 r.
Proof.
  intros Hr. unfold escapeRune. rewrite (bool_decide_eq_false_2 (r < 32)%N) by lia.
  destruct r as [|p]; [lia|]. do 4 (try destruct p as [p|p|]); try reflexivity; lia.
Qed.

Lemma quote_unit c s :
  let d := DecodeRuneInString (String c s) in
  unit_of (take_string d.2 (String c s)) (quote_rune d.1 d.2 (String c s)).
Proof.
  cbn zeta. destruct (decode_cases c s) as [c' t [= <- <-] Hc|c' t [= <- <-] Hc|r w Hr Hw Hmax Hs He Hd].
  - by apply ascii_unit.
  - cbn. apply unit_x.
  - unfold quote_rune. rewrite (bool_decide_eq_false_2 (w = 1)) by lia. cbn [andb].
    rewrite !(bool_decide_eq_false_2 (r = _)) by lia. cbn [orb].
    destruct (IsPrint r).
    + destruct w as [|w]; [lia|]. cbn [take_string] in *. apply (unit_rune _ _ r); try done.
      * destruct (decide (byte_val c < 128)%N) as [Hlt|]; [|lia].
        specialize (Hd EmptyString). rewrite string_app_cons in Hd. cbn in Hd.
        rewrite bool_decide_eq_true_2 in Hd by done. injection Hd. lia.
      * intros t. rewrite Hd. cbn in Hw. by rewrite length_take_string, Nat.min_l by lia.
    + apply bool_decide_eq_true in Hmax. rewrite escapeRune_large by done.
      case_bool_decide; [by apply unit_u|by apply unit_U].
Qed.

(** ** Reading units back *)
Definition piece (v : Z) (multibyte : bool) : string :=
  if bool_decide (v < 128)%Z || negb multibyte then String (byte_of v) EmptyString else EncodeRune v.

(** A test of the sixteen digits. *)
Lemma for_digits (f : N → bool) d :
  forallb f (N.of_nat <$> seq 0 16) = true → (d < 16)%N → f d = true.
Proof.
  rewrite forallb_forall. intros Hf Hd. apply Hf, list_elem_of_In, list_elem_of_fmap.
  exists (N.to_nat d). rewrite elem_of_seq. lia.
Qed.

Lemma unhex_digit d : (d < 16)%N → unhex (hex_digit false d) = Some d.
Proof.
  intros Hd. eapply bool_decide_eq_true_1.
  exact (for_digits (λ d, bool_decide (unhex (hex_digit false d) = Some d)) d eq_refl Hd).
Qed.

(** One digit more. *)
Lemma shift_digit v d :
  (0 ≤ v)%Z → (d < 16)%N → (v * 16 + Z.of_N d < 2 ^ 31)%Z →
  wrap32 (Z.lor (wrap32 (Z.shiftl v 4)) (Z.of_N d)) = (v * 16 + Z.of_N d)%Z.
Proof.
  intros Hv Hd Hlt. rewrite Z.shiftl_mul_pow2 by lia. change (2 ^ 4)%Z with 16%Z.
  assert (∀ z, (0 ≤ z < 2 ^ 31)%Z → wrap32 z = z) as Hw.
  { intros z Hz. unfold wrap32. rewrite Z.mod_small by lia. lia. }
  rewrite (Hw (v * 16)%Z) by lia.
  assert (Z.lor (v * 16) (Z.of_N d) = v * 16 + Z.of_N d)%Z as ->; [|apply Hw; lia].
  assert (Z.land (v * 16) (Z.of_N d) = 0)%Z as Hl; [|pose proof (Z.add_lor_land (v * 16) (Z.of_N d)); lia].
  apply Z.bits_inj'. intros i Hi. rewrite Z.land_spec, Z.bits_0. change 16%Z with (2 ^ 4)%Z.
  destruct (decide (i < 4)%Z); [by rewrite Z.mul_pow2_bits_low|].
  apply andb_false_iff. right. rewrite <- (Z.mod_small (Z.of_N d) (2 ^ 4)) by lia.
  apply Z.mod_pow2_bits_high. lia.
Qed.

Lemma hex_run_digits n v r rest :
  (0 ≤ v)%Z → (v * 16 ^ Z.of_nat n + Z.of_N r mod 16 ^ Z.of_nat n < 2 ^ 31)%Z →
  hex_run n v (hex_digits n r +:+ rest) =
    Some (v * 16 ^ Z.of_nat n + Z.of_N r mod 16 ^ Z.of_nat n, rest)%Z.
Proof.
  revert v. induction n as [|n IH]; intros v Hv Hn.
  { cbn. rewrite Z.mod_1_r. do 2 f_equal. lia. }
  cbn [hex_digits]. rewrite string_app_cons. cbn [hex_run].
  set (d := (N.shiftr r (4 * N.of_nat n) mod 16)%N).
  assert (d < 16)%N as Hd by (apply N.mod_lt; lia).
  rewrite unhex_digit by done. cbn [mbind option_bind].
  assert (0 < 16 ^ Z.of_nat n)%Z as Hp by (apply Z.pow_pos_nonneg; lia).
  assert (Z.of_N d = Z.of_N r / 16 ^ Z.of_nat n mod 16)%Z as Hdr.
  { unfold d. rewrite N2Z.inj_mod, N.shiftr_div_pow2, N2Z.inj_div, N2Z.inj_pow, N2Z.inj_mul, nat_N_Z.
    by rewrite Z.pow_mul_r by lia. }
  assert (v * 16 ^ Z.of_nat (S n) + Z.of_N r mod 16 ^ Z.of_nat (S n) =
    (v * 16 + Z.of_N d) * 16 ^ Z.of_nat n + Z.of_N r mod 16 ^ Z.of_nat n)%Z as E.
  { rewrite Hdr, Nat2Z.inj_succ, Z.pow_succ_r by lia.
    rewrite (Z.mul_comm 16 (16 ^ _)), Z.rem_mul_r by lia. ring. }
  rewrite E in *. pose proof (Z.mod_pos_bound (Z.of_N r) _ Hp).
  rewrite shift_digit, IH by nia. done.
Qed.

Lemma EncodeRune_ascii v : (0 ≤ v < 128)%Z → EncodeRune v = String (byte_of v) EmptyString.
Proof.
  intros Hv. unfold EncodeRune, surrogate, MaxRune.
  rewrite (bool_decide_eq_true_2 (0 ≤ _ ≤ _)%Z), (bool_decide_eq_false_2 (_ ≤ _ < _)%Z) by lia.
  cbn [negb andb]. by rewrite (bool_decide_eq_true_2 (_ < 128)%Z) by lia.
Qed.

Lemma piece_rune v : (0 ≤ v)%Z → piece v true = EncodeRune v.
Proof.
  intros Hv. unfold piece. cbn [negb]. rewrite orb_false_r.
  case_bool_decide; [|done]. by rewrite EncodeRune_ascii by lia.
Qed.

Lemma piece_byte c : piece (Z.of_N (byte_val c)) false = String c EmptyString.
Proof. unfold piece. rewrite orb_true_r. by rewrite (byte_of_val c). Qed.

(** The forms of a hexadecimal escape sequence. *)
Lemma unquote_hex e n r rest :
  (e, n) ∈ [("x", 2); ("u", 4); ("U", 8)]%char →
  (Z.of_N r < 16 ^ Z.of_nat n)%Z → (Z.of_N r ≤ MaxRune)%Z →
  unquoteChar (String backslash (String e (hex_digits n r +:+ rest))) dquote_char =
    Some (Z.of_N r, negb (bool_decide (e = "x"%char)), rest).
Proof.
  intros He Hr Hmax.
  assert (hex_run n 0 (hex_digits n r +:+ rest) = Some (Z.of_N r, rest)) as Hrun.
  { unfold MaxRune in Hmax. rewrite hex_run_digits; rewrite ?Z.mod_small; auto with lia. }
  assert (bool_decide (Z.of_N r > MaxRune)%Z = false) as Hle by (apply bool_decide_eq_false_2; lia).
  repeat (apply elem_of_cons in He as [[= -> ->]|He];
    [unfold unquoteChar; cbn -[hex_run hex_digits]; rewrite Hrun; cbn; by rewrite ?Hle|]).
  inversion He.
Qed.

Lemma unquote_unit p u rest :
  unit_of p u → ∃ v mb, unquoteChar (u +:+ rest) dquote_char = Some (v, mb, rest) ∧ piece v mb = p.
Proof.
  intros [c Hc Hq Hb|c q r Hc He Hr Hd|c [->| ->]|e n He|c|q r Hr ->|q r Hr ->];
    rewrite ?string_app_cons, ?string_app_nil_l.
  - exists (Z.of_N (byte_val c)), false. split; [|apply piece_byte]. cbn.
    by rewrite (bool_decide_eq_false_2 (c = _)), (bool_decide_eq_false_2 (128 ≤ _)%N),
      (bool_decide_eq_false_2 (c = backslash)) by (done || lia).
  - exists (Z.of_N r), true. split; [|by rewrite piece_rune by lia].
    assert (c ≠ dquote_char) as Hq by (intros ->; cbn in Hc; lia).
    unfold unquoteChar. rewrite (bool_decide_eq_false_2 (c = _)), (bool_decide_eq_true_2 (128 ≤ _)%N) by done.
    cbn [andb]. rewrite <- string_app_cons, Hd. do 2 f_equal. apply (drop_string_app (String c q)).
  - by exists 34%Z, false.
  - by exists 92%Z, false.
  - repeat (apply elem_of_cons in He as [[= -> ->]|He];
      [eexists _, false; split; [cbn; reflexivity|reflexivity]|]). inversion He.
  - exists (Z.of_N (byte_val c)), false. split; [|apply piece_byte].
    pose proof (byte_val_bound c). apply (unquote_hex "x" 2); [member|cbn; lia|unfold MaxRune; lia].
  - exists (Z.of_N r), true. split; [|by apply piece_rune; lia].
    apply (unquote_hex "u" 4); [member|cbn; lia|unfold MaxRune; lia].
  - exists (Z.of_N r), true. split; [|by apply piece_rune; lia].
    apply (unquote_hex "U" 8); [member|cbn; unfold MaxRune in Hr; lia|done].
Qed.

(** Induction on a quoted text, unit by unit. *)
Lemma quote_units_ind (Q : string → string → Prop) :
  Q EmptyString EmptyString →
  (∀ p u s, unit_of p u → Q s (quote_body 0 s) → Q (p +:+ s) (u +:+ quote_body 0 s)) →
  ∀ s, Q s (quote_body 0 s).
Proof.
  intros H0 HS s. induction s as [s IH] using (induction_ltof1 _ String.length). unfold ltof in IH.
  destruct s as [|c s]; [done|]. rewrite quote_body_step.
  pose proof (quote_unit c s) as Hu. cbn zeta in Hu.
  destruct (DecodeRuneInString (String c s)) as [r w] eqn:Hd. cbn [fst snd] in *.
  apply Decode_width in Hd as [Hw _].
  rewrite <- (take_drop_string w (String c s)) at 1.
  apply HS; [done|]. apply IH. rewrite length_drop_string. cbn [String.length]. lia.
Qed.

Lemma unit_nonempty p u : unit_of p u → ∃ c t, u = String c t ∧ c ≠ dquote_char.
Proof.
  intros [c Hc Hq Hb|c q r Hc He Hr Hd|c Hc|e n He|c|q r Hr ->|q r Hr ->]; eexists _, _;
    (split; [reflexivity|done || idtac]).
  intros ->. cbn in Hc. lia.
Qed.

(** The loop of [Unquote] runs through a quoted text. *)
Lemma unquote_loop_body v rest fuel buf :
  String.length (quote_body 0 v +:+ rest) ≤ fuel →
  ∃ fuel', String.length rest ≤ fuel' ∧
    unquote_loop fuel (quote_body 0 v +:+ rest) dquote_char buf =
    unquote_loop fuel' rest dquote_char (buf +:+ v).
Proof.
  revert fuel buf.
  apply (quote_units_ind (λ v b, ∀ fuel buf, String.length (b +:+ rest) ≤ fuel →
    ∃ fuel', String.length rest ≤ fuel' ∧
      unquote_loop fuel (b +:+ rest) dquote_char buf = unquote_loop fuel' rest dquote_char (buf +:+ v))).
  { intros fuel buf Hf. exists fuel. by rewrite string_app_nil_r. }
  clear v. intros p u s Hu IH fuel buf Hf.
  destruct (unquote_unit p u (quote_body 0 s +:+ rest) Hu) as (x & mb & Hx & <-).
  destruct (unit_nonempty _ _ Hu) as (c & t & -> & _).
  rewrite string_app_assoc in *. rewrite string_app_cons in *. cbn [String.length] in Hf.
  destruct fuel as [|fuel]; [lia|]. cbn [unquote_loop]. rewrite Hx. cbn [mbind option_bind].
  destruct (IH fuel (buf +:+ piece x mb)) as (fuel' & Hf' & E).
  { rewrite !length_string_app in *. lia. }
  exists fuel'. split; [done|]. rewrite string_app_assoc in E. exact E.
Qed.

(** ** The bytes of a quoted text *)
Lemma contains_app s t c : contains (s +:+ t) c = contains s c || contains t c.
Proof. induction s as [|d s IH]; [done|]. rewrite string_app_cons. cbn. by rewrite IH, orb_assoc. Qed.

Lemma contains_forall (f : ascii → bool) s c : string_forall f s = true → f c = false → contains s c = false.
Proof.
  intros Hs Hc. induction s as [|d s IH]; [done|]. cbn in *. apply andb_true_iff in Hs as [Hd Hs].
  rewrite IH by done. rewrite bool_decide_eq_false_2; [done|]. intros ->. congruence.
Qed.

Lemma byte_val_of z : (0 ≤ z < 256)%Z → byte_val (byte_of z) = Z.to_N z.
Proof. intros Hz. unfold byte_of, byte_val. rewrite Z.mod_small by lia. apply N_ascii_embedding. lia. Qed.

(** A rune beyond ASCII has no ASCII bytes. *)
Definition high (c : ascii) : bool := bool_decide (128 ≤ byte_val c)%N.
Lemma EncodeRune_high r : (128 ≤ r)%Z → string_forall high (EncodeRune r) = true.
Proof.
  intros Hr. unfold EncodeRune. 
  set (x := if bool_decide (0 ≤ r ≤ MaxRune)%Z && negb (surrogate r) then r else Z.of_N RuneError).
  assert (128 ≤ x ≤ 1114111)%Z as Hx.
  { unfold x. destruct (bool_decide_reflect (0 ≤ r ≤ MaxRune)%Z) as [Hm|]; cbn; unfold RuneError; [|lia].
    destruct (surrogate r); cbn; unfold MaxRune in Hm; lia. }
  clearbody x.
  assert (∀ z, (128 ≤ z < 256)%Z → high (byte_of z) = true) as Hh.
  { intros z Hz. apply bool_decide_eq_true. rewrite byte_val_of; lia. }
  rewrite (bool_decide_eq_false_2 (x < 128)%Z) by lia.
  rewrite !Z.shiftr_div_pow2 by lia. change (2 ^ 6)%Z with 64%Z.
  change (2 ^ 12)%Z with 4096%Z; change (2 ^ 18)%Z with 262144%Z.
  assert (∀ k, (128 ≤ 128 + x / 2 ^ k mod 64 < 256)%Z) as Ht.
  { intros k. pose proof (Z.mod_pos_bound (x / 2 ^ k) 64). lia. }
  repeat case_bool_decide; cbn [String.string_of_list_ascii string_forall];
    rewrite !Hh; try done; try apply Ht; Z.div_mod_to_equations; lia.
Qed.

Lemma string_hex (f : ascii → bool) n r :
  (∀ d, (d < 16)%N → f (hex_digit false d) = true) → string_forall f (hex_digits n r) = true.
Proof.
  intros Hf. induction n as [|n IH]; [done|]. cbn [hex_digits string_forall].
  by rewrite IH, Hf by (apply N.mod_lt; lia).
Qed.

Definition hex_byte (c : ascii) : bool := is_digit c || byte_in 97 102 c.
Lemma hex_digit_byte d : (d < 16)%N → hex_byte (hex_digit false d) = true.
Proof. by apply (for_digits (λ d, hex_byte (hex_digit false d))). Qed.

(** What a unit is made of: its two forms. *)
Lemma unit_forms p u :
  unit_of p u →
  u = p ∧ string_forall (λ c, negb (bool_decide (c ∈ [dquote_char; backslash; newline]))) u = true ∨
  ∃ e t, u = String backslash (String e t) ∧
    (e = dquote_char ∧ t = EmptyString ∨ e ≠ dquote_char) ∧ e ≠ newline ∧
    string_forall hex_byte t = true.
Proof.
  assert (∀ c, high c = true → negb (bool_decide (c ∈ [dquote_char; backslash; newline])) = true) as Hh.
  { intros c Hc%bool_decide_eq_true. apply negb_true_iff, bool_decide_eq_false.
    intros Hin. repeat (apply elem_of_cons in Hin as [->|Hin]; [cbn in Hc; lia|]). inversion Hin. }
  assert (∀ n r, string_forall hex_byte (hex_digits n r) = true) as Hx.
  { intros n r. apply string_hex, hex_digit_byte. }
  intros [c Hc Hq Hb|c q r Hc He Hr Hd|c Hc|e n He|c|q r Hr ->|q r Hr ->].
  - left. split; [done|]. cbn. rewrite andb_true_r. apply negb_true_iff, bool_decide_eq_false.
    rewrite !elem_of_cons, elem_of_nil. intros [?|[?|[->|[]]]]; try done. cbn in Hc. lia.
  - left. split; [done|]. rewrite <- He. eapply string_forall_impl; [exact Hh|]. apply EncodeRune_high. lia.
  - right. exists c, EmptyString. split; [done|]. destruct Hc as [-> | ->]; auto.
  - right. exists e, EmptyString. split; [done|].
    repeat (apply elem_of_cons in He as [[= -> ->]|He]; [by auto|]). inversion He.
  - right. exists "x"%char, (hex_digits 2 (byte_val c)). auto.
  - right. exists "u"%char, (hex_digits 4 r). auto.
  - right. exists "U"%char, (hex_digits 8 r). auto.
Qed.

Lemma body_no_newline v : contains (quote_body 0 v) newline = false.
Proof.
  apply (quote_units_ind (λ _ b, contains b newline = false)); [done|]. clear v.
  intros p u s Hu IH. rewrite contains_app, IH, orb_false_r.
  destruct (unit_forms _ _ Hu) as [[_ Hf]|(e & t & -> & _ & He & Ht)].
  - by eapply contains_forall.
  - cbn. rewrite (bool_decide_eq_false_2 (e = _)) by done. by apply (contains_forall hex_byte).
Qed.

Lemma body_plain v : contains (quote_body 0 v) backslash = false → quote_body 0 v = v.
Proof.
  apply (quote_units_ind (λ v b, contains b backslash = false → b = v)); [done|]. clear v.
  intros p u s Hu IH. rewrite contains_app. intros [Hc ?%IH]%orb_false_iff.
  destruct (unit_forms _ _ Hu) as [[-> _]|(e & t & -> & _)]; [congruence|done].
Qed.

Lemma app_inv_length s s' t t' :
  String.length s = String.length t → s +:+ s' = t +:+ t' → s = t ∧ s' = t'.
Proof.
  revert t. induction s as [|c s IH]; intros [|d t]; cbn [String.length]; try done.
  rewrite !string_app_cons. intros [= Hl] [= -> E]. by destruct (IH t Hl E) as [-> ->].
Qed.

(** Two cuts of one text: one is a prefix of the other. *)
Lemma app_cuts s s' t t' :
  s +:+ s' = t +:+ t' →
  (∃ m, t = s +:+ m ∧ s' = m +:+ t') ∨ (∃ c m, s = t +:+ String c m ∧ t' = String c (m +:+ s')).
Proof.
  revert t. induction s as [|c s IH]; intros [|d t]; rewrite ?string_app_cons, ?string_app_nil_l; intros E.
  - left. by exists EmptyString.
  - left. exists (String d t). by rewrite string_app_cons.
  - right. exists c, s. by rewrite <- E.
  - injection E as -> E. destruct (IH _ E) as [(m & -> & ->)|(c & m & -> & ->)].
    + left. exists m. by rewrite string_app_cons.
    + right. exists c, m. by rewrite string_app_cons.
Qed.

(** A quoted text cut before a quote ends within an escape sequence. *)
Lemma unit_cut p u s x : unit_of p u → u = s +:+ String dquote_char x → s = String backslash EmptyString.
Proof.
  intros Hu E. pose proof (f_equal (λ s, contains s dquote_char) E) as Hc. cbv beta in Hc.
  rewrite contains_app in Hc. cbn [contains] in Hc.
  rewrite (bool_decide_eq_true_2 (dquote_char = _)), orb_true_r in Hc by done.
  destruct (unit_forms _ _ Hu) as [[_ Hf]|(e & t & -> & He & _ & Ht)].
  { by rewrite (contains_forall _ _ _ Hf) in Hc. }
  assert (contains t dquote_char = false) as Hdt by (by apply (contains_forall hex_byte)).
  cbn [contains] in Hc. rewrite Hdt, orb_false_r in Hc. cbn [orb] in Hc. apply bool_decide_eq_true in Hc. subst e.
  destruct He as [[_ ->]|]; [|done].
  destruct s as [|c [|d s]]; rewrite ?string_app_cons, ?string_app_nil_l in E.
  - discriminate E.
  - by injection E as <-.
  - injection E as _ _ E. by destruct s.
Qed.

Lemma body_cut v s x :
  quote_body 0 v = s +:+ String dquote_char x →
  contains s backslash = true ∧ ∀ fuel buf, unquote_loop fuel s dquote_char buf = None.
Proof.
  revert s. apply (quote_units_ind (λ _ b, ∀ s, b = s +:+ String dquote_char x →
    contains s backslash = true ∧ ∀ fuel buf, unquote_loop fuel s dquote_char buf = None)).
  { by intros [|c s]. }
  clear v. intros p u v Hu IH s E.
  destruct (app_cuts _ _ _ _ E) as [(m & -> & E')|(c & m & Hs & E')].
  - destruct (IH _ E') as [Hc Hl]. split; [by rewrite contains_app, Hc, orb_true_r|].
    intros fuel buf. destruct (unit_nonempty _ _ Hu) as (c & t & Hct & _).
    destruct (unquote_unit p u m Hu) as (y & mb & Hy & _).
    destruct fuel as [|fuel]; rewrite Hct, string_app_cons in *; [done|].
    cbn [unquote_loop]. rewrite Hy. cbn [mbind option_bind]. apply Hl.
  - injection E' as <- _. apply (unit_cut _ _ _ _ Hu) in Hs as ->. split; [done|]. by intros [].
Qed.

(** ** Literals *)
Definition literal (s : string) : string := dquote +:+ s +:+ dquote.

Lemma last_byte_app s c : last_byte (s +:+ String c EmptyString) = Some c.
Proof.
  unfold last_byte, chars. induction s as [|d s IH]; [done|]. rewrite string_app_cons.
  cbn. destruct s; [done|]. exact IH.
Qed.

Lemma Unquote_literal s :
  Unquote (literal s) =
    if contains s newline then None
    else if negb (contains s backslash) && negb (contains s dquote_char) then Some s
    else unquote_loop (String.length s) s dquote_char EmptyString.
Proof.
  unfold literal, dquote. rewrite string_app_cons, string_app_nil_l.
  pose proof (last_byte_app (String dquote_char s) dquote_char) as Hl. rewrite string_app_cons in Hl.
  assert (String.length (s +:+ String dquote_char EmptyString) = S (String.length s)) as Hlen.
  { rewrite length_string_app. cbn. lia. }
  change (ascii_of_N 34) with dquote_char in *.
  pose proof (take_string_app s (String dquote_char EmptyString)) as Ht.
  destruct (s +:+ String dquote_char EmptyString) as [|c t]; [done|].
  unfold Unquote. rewrite Hl, (bool_decide_eq_true_2 (Some _ = _)) by done. cbn [negb].
  cbn [String.length drop_string Nat.sub] in *. injection Hlen as ->. rewrite Nat.sub_0_r, Ht.
  reflexivity.
Qed.

(** [Unquote] gives back what was quoted. *)
Lemma Unquote_quoted v : Unquote (Quote v) = Some v.
Proof.
  change (Quote v) with (literal (quote_body 0 v)). rewrite Unquote_literal, body_no_newline.
  destruct (contains (quote_body 0 v) backslash) eqn:Hb; cbn [negb andb].
  - destruct (unquote_loop_body v EmptyString (String.length (quote_body 0 v)) EmptyString) as (f & _ & E).
    { by rewrite string_app_nil_r. }
    rewrite string_app_nil_r in E. rewrite E. by destruct f.
  - rewrite (body_plain _ Hb). destruct (contains v dquote_char) eqn:Hq; cbn [negb]; [|done].
    destruct (unquote_loop_body v EmptyString (String.length v) EmptyString) as (f & _ & E).
    { by rewrite string_app_nil_r, body_plain. }
    rewrite string_app_nil_r, body_plain in E by done. rewrite E. by destruct f.
Qed.

(** A literal that starts a text which goes on after a quoted value is that
    value, or has a syntax error: a value cannot break out of its quotes. *)
Lemma literal_of_quoted v t rest more :
  Quote v +:+ rest = literal t +:+ more → t = quote_body 0 v ∨ Unquote (literal t) = None.
Proof.
  unfold Quote, literal, dquote. rewrite !string_app_assoc, !string_app_cons, !string_app_nil_l.
  intros [= E]. fold (literal t). change (ascii_of_N 34) with dquote_char in *.
  destruct (app_cuts _ _ _ _ E) as [(m & -> & E')|(c & m & Hv & E')].
  - destruct m as [|c m]; [left; by rewrite string_app_nil_r|]. right.
    rewrite string_app_cons in E'. injection E' as <- E'.
    assert (contains (quote_body 0 v +:+ String dquote_char m) dquote_char = true) as Hq.
    { rewrite contains_app. cbn [contains]. by rewrite (bool_decide_eq_true_2 (dquote_char = _)), orb_true_r. }
    change (Unquote (literal (quote_body 0 v +:+ String dquote_char m)) = None).
    rewrite Unquote_literal, Hq, andb_false_r. case_match; [done|].
    destruct (unquote_loop_body v (String dquote_char m)
      (String.length (quote_body 0 v +:+ String dquote_char m)) EmptyString) as (f & _ & ->); [done|].
    by destruct f.
  - right. injection E' as <- E'. destruct (body_cut _ _ _ Hv) as [Hb Hl].
    change (Unquote (literal t) = None). rewrite Unquote_literal, Hb, Hl. by case_match.
Qed.

(** ** Properties *)

(** Quoting is read back: [Unquote] gives every string that [Quote]
    printed, valid UTF-8 or not; and of a text that goes on after a quoted
    value no other literal can be unquoted, so that a value cannot break
    out of its quotes. *)
Theorem quoted_value_read (v : string) :
  Unquote (Quote v) = Some v ∧
  ∀ rest t more, Quote v +:+ rest = literal t +:+ more →
    literal t = Quote v ∨ Unquote (literal t) = None.
Proof.
  split; [apply Unquote_quoted|]. intros rest t more E.
  destruct (literal_of_quoted v t rest more E) as [->|]; [by left|by right].
Qed.
End Quoting.
