(* ===== verification/SelectorLex.v ===== *)
(** * The lexer on a printed selector

    The items that [NextItem] gives on the text of a vector selector, one
    lemma for each kind of token.  A quoted value gives the string that
    [Quote] printed, or an item that the parser refuses. *)
From S2P Require Import Prelude GoStrings GoFloat Strutil Lexer LexerSpec Quoting.
From Stdlib Require Import Ascii.
From stdpp Require Import options.

#[local] Arguments skip : simpl never.

(** A rune is none of the characters tested before. *)
Ltac other_rune :=
  repeat match goal with
    | |- context [is_rune ?r ?c] =>
        let v := eval vm_compute in (rune c) in
        replace (is_rune r c) with false
          by (symmetry; apply bool_decide_eq_false; change (rune c) with v; lia)
    | |- context [isSpace ?r] =>
        replace (isSpace r) with false
          by (symmetry; apply bool_decide_eq_false; rewrite !elem_of_cons, elem_of_nil; lia)
    | |- context [bool_decide (?r = eof)] =>
        rewrite (bool_decide_eq_false_2 (r = eof)) by (unfold eof; lia)
    end; cbn [orb].

Section SelectorLex.
Context `{UnicodeTable}.

(** ** Scans *)
Definition scans (l l' : Lexer) : Prop := ∃ fuel, scan fuel l = Some l'.

Lemma scan_more fuel l l' more : scan fuel l = Some l' → scan (fuel + more) l = Some l'.
Proof.
  revert l. induction fuel as [|fuel IH]; intros l; cbn.
  - destruct (scannedItem l) eqn:Hs; [|done]. intros [= <-]. destruct more; cbn; by rewrite Hs.
  - destruct (scannedItem l); [done|]. destruct (state l); [apply IH|done].
Qed.

Lemma scans_done l : scannedItem l = true → scans l l.
Proof. intros Hs. exists 0. cbn. by rewrite Hs. Qed.

Lemma scans_step s l l' :
  scannedItem l = false → state l = Some s → scans (lex_step s l) l' → scans l l'.
Proof. intros Hs Hst [f Hf]. exists (S f). cbn. by rewrite Hs, Hst. Qed.

Lemma scans_NextItem l l' :
  ready l → state l ≠ None → scans (set_scanned false l) l' → NextItem l = Some l'.
Proof.
  intros Hrd Hst [f Hf]. destruct (NextItem_item l Hrd) as (l2 & Hn & _). rewrite Hn. f_equal.
  unfold NextItem in Hn. change (state (set_scanned false l)) with (state l) in Hn.
  destruct (state l); [|done]. apply (scan_more _ _ _ (steps (set_scanned false l))) in Hf.
  apply (scan_more _ _ _ f) in Hn. rewrite Nat.add_comm in Hn. congruence.
Qed.

(** ** Runes *)
Definition rest (l : Lexer) : string := drop_string (pos l) (input l).
Definition advance (n : nat) (l : Lexer) : Lexer := set_pos (pos l + n) 1 l.

(** A position that is written twice. *)
Lemma set_pos_twice n m k w1 w2 l : n = m → set_pos n w1 (set_pos k w2 l) = set_pos m w1 l.
Proof. by intros ->. Qed.

Lemma next_ascii l c R :
  rest l = String c R → (byte_val c < 128)%N → next l = (rune c, advance 1 l).
Proof.
  unfold rest. intros Hr Hc. unfold next. rewrite bool_decide_eq_false_2.
  - rewrite Hr. cbn. by rewrite bool_decide_eq_true_2.
  - intros Hle. pose proof (length_drop_string (pos l) (input l)) as Hl. rewrite Hr in Hl. cbn in Hl. lia.
Qed.

Lemma next_end l : rest l = EmptyString → next l = (eof, set_pos (pos l) 0 l).
Proof.
  unfold rest. intros Hr. unfold next. rewrite bool_decide_eq_true_2; [done|].
  pose proof (length_drop_string (pos l) (input l)) as Hl. rewrite Hr in Hl. cbn in Hl. lia.
Qed.

Lemma rest_app w R l n : rest l = w +:+ R → n = String.length w → drop_string (pos l + n) (input l) = R.
Proof. unfold rest. intros Hr ->. by rewrite <- drop_string_drop, Hr, drop_string_app. Qed.

Lemma rest_pos R l : rest l = R → R ≠ EmptyString → pos l < len l.
Proof.
  unfold rest, len. intros Hr Hne. pose proof (length_drop_string (pos l) (input l)) as Hl.
  rewrite Hr in Hl. destruct R; [done|]. cbn in Hl. lia.
Qed.

(** ** A lexer before a token

    Outside of braces and brackets, inside braces, behind a left bracket or
    further on in brackets, behind a colon or not. *)
Inductive mode := Outside | Inside | Ranging | Bracketed (colon : bool).

Definition in_braces_mode (m : mode) : bool := match m with Inside => true | _ => false end.
Definition in_brackets_mode (m : mode) : bool :=
  match m with Ranging | Bracketed _ => true | _ => false end.
Definition mode_colon (m : mode) (colon : bool) : Prop :=
  match m with Ranging => colon = false | Bracketed c => colon = c | _ => True end.
Definition mode_state (m : mode) (s : option stateFn) : Prop :=
  match m with
  | Outside | Bracketed _ => s = Some lexStatements
  | Inside => s = Some lexInsideBraces ∨ s = Some lexStatements
  | Ranging => s = Some lexDuration
  end.

(** Under [d] parentheses. *)
Record at_token (d : Z) (m : mode) (R : string) (l : Lexer) : Prop := AtToken {
  at_rest : rest l = R;
  at_pos : pos l ≤ len l;
  at_start : start l = pos l;
  at_brace : braceOpen l = in_braces_mode m;
  at_paren : parenDepth l = d;
  at_bracket : bracketOpen l = in_brackets_mode m;
  at_colon : mode_colon m (gotColon l);
  at_state : mode_state m (state l);
}.

Lemma at_token_ready d m R l : at_token d m R l → ready l.
Proof.
  intros [_ Hp _ _ _ _ _ Hst]. split; [done|].
  destruct m; cbn in Hst; [by rewrite Hst|by destruct Hst as [-> | ->]|by rewrite Hst..].
Qed.

Lemma Lex_at_token s : at_token 0 Outside s (Lex s).
Proof. constructor; cbn; auto with lia. Qed.

(** The item that is lexed, and where the lexer is after it. *)
Definition token_of_text (t : Z) (text : string) (d : Z) (m : mode) (R : string) (l : Lexer) : Prop :=
  Typ (itemp l) = t ∧ Val (itemp l) = text ∧ at_token d m R l.
Definition lexes (l : Lexer) (Q : Lexer → Prop) : Prop := ∃ l', NextItem l = Some l' ∧ Q l'.
Definition scans_to (l : Lexer) (Q : Lexer → Prop) : Prop := ∃ l', scans l l' ∧ Q l'.

(** The leaf of a state function: an item is emitted. *)
Record emitted (t : Z) (l l1 l2 : Lexer) : Prop := Emitted {
  em_item : itemp l2 = MkItem t (Z.of_nat (start l1)) (pending l1);
  em_scanned : scannedItem l2 = true;
  em_input : input l2 = input l1;
  em_pos : pos l2 = pos l1;
  em_start : start l2 = pos l1;
  em_input1 : input l1 = input l;
  em_start1 : start l1 = start l;
}.

Lemma emitted_pending d m w R t l l1 l2 :
  at_token d m (w +:+ R) l → emitted t l l1 l2 → pos l1 = pos l + String.length w → pending l1 = w.
Proof.
  intros [Hr _ Hst _ _ _ _ _] Hem Hp. unfold pending. rewrite (em_input1 _ _ _ _ Hem), (em_start1 _ _ _ _ Hem), Hst, Hp.
  replace (pos l + String.length w - pos l) with (String.length w) by lia.
  unfold rest in Hr. by rewrite Hr, take_string_app.
Qed.

(** Where the flags of a lexer put it. *)
Record in_mode (d : Z) (m : mode) (l : Lexer) : Prop := InMode {
  im_brace : braceOpen l = in_braces_mode m;
  im_paren : parenDepth l = d;
  im_bracket : bracketOpen l = in_brackets_mode m;
  im_colon : mode_colon m (gotColon l);
  im_state : mode_state m (state l);
}.

Lemma emitted_token d m d' m' w R t l l1 l2 :
  at_token d m (w +:+ R) l → emitted t l l1 l2 → pos l1 = pos l + String.length w → in_mode d' m' l2 →
  scans_to l2 (token_of_text t w d' m' R).
Proof.
  intros Hat Hem Hp [Hb Hpa Hbr Hc Hs]. pose proof (emitted_pending _ _ _ _ _ _ _ _ Hat Hem Hp) as Hpend.
  destruct Hat as [Hr Hle Hst _ _ _ _ _], Hem as [Hi Hsc Hin Hpo Hsta Hi1 Hs1].
  pose proof (rest_app _ _ _ _ Hr eq_refl) as Hrest.
  exists l2. split; [by apply scans_done|]. split; [by rewrite Hi|]. split.
  - by rewrite Hi.
  - constructor; try congruence.
    + unfold rest. by rewrite Hin, Hi1, Hpo, Hp.
    + unfold len. rewrite Hin, Hi1, Hpo, Hp.
      pose proof (length_drop_string (pos l) (input l)) as Hl. unfold rest in Hr.
      rewrite Hr, length_string_app in Hl. unfold len in Hle. lia.
Qed.

(** The step of a token: the state function of the braces, or of the
    statements, runs on the lexer. *)
Lemma scans_to_step s l Q :
  scannedItem l = false → state l = Some s → scans_to (lex_step s l) Q → scans_to l Q.
Proof. intros Hs Hst (l' & Hl & HQ). exists l'. split; [by eapply scans_step|done]. Qed.

Lemma lexes_inside d R l Q :
  at_token d Inside R l →
  (∀ l0, at_token d Inside R l0 → scannedItem l0 = false → scans_to (lex_inside_braces l0) Q) →
  lexes l Q.
Proof.
  intros Hat Hrun.
  assert (scans_to (set_scanned false l) Q) as (l' & Hl & HQ).
  { assert (at_token d Inside R (set_scanned false l)) as [Hr Hp Hs Hb Hpar Hbr Hc [Hst|Hst]] by (by destruct Hat).
    - apply (scans_to_step lexInsideBraces); [done|done|]. apply Hrun; [|done]. constructor; cbn; auto.
    - apply (scans_to_step lexStatements); [done|done|]. unfold lex_step, lex_statements. rewrite Hb.
      apply (scans_to_step lexInsideBraces); [done|done|]. apply Hrun; [|done]. constructor; cbn; auto. }
  exists l'. split; [|done]. apply scans_NextItem; [by eapply at_token_ready| |done].
  destruct Hat as [_ _ _ _ _ _ _ [-> | ->]]; done.
Qed.

(** Text that [lexStatements] scans; the rules for tokens outside of braces
    have this form. *)
Definition statement (d : Z) (m : mode) (R : string) (Q : Lexer → Prop) : Prop :=
  ∀ l, at_token d m R l → scannedItem l = false → scans_to (lex_statements l) Q.
Definition in_statements (m : mode) : Prop := match m with Outside | Bracketed _ => True | _ => False end.

Lemma lexes_statement d m R l Q : in_statements m → statement d m R Q → at_token d m R l → lexes l Q.
Proof.
  intros Hm Hrun Hat. assert (state l = Some lexStatements) as Hst by (destruct Hat; by destruct m).
  assert (scans_to (set_scanned false l) Q) as (l' & Hl & HQ).
  { apply (scans_to_step lexStatements); [done|done|]. apply Hrun; [|done]. by destruct Hat. }
  exists l'. split; [|done]. apply scans_NextItem; [by eapply at_token_ready|by rewrite Hst|done].
Qed.

Lemma no_comment c R l : rest l = String c R → c ≠ "#"%char →
  HasPrefix (drop_string (pos l) (input l)) "#" = false.
Proof. unfold rest. intros -> Hc. cbn. by rewrite bool_decide_eq_false_2. Qed.

Lemma rest_advance w R l : rest l = w +:+ R → rest (advance (String.length w) l) = R.
Proof. intros Hr. by apply (rest_app w R l). Qed.

(** The first rune of a statement. *)
Lemma statement_rune d m c R Q :
  (byte_val c < 128)%N → c ≠ "#"%char → in_statements m →
  (∀ l, at_token d m (String c R) l → scannedItem l = false → rest (advance 1 l) = R →
    HasPrefix (drop_string (pos l) (input l)) "#" = false → next l = (rune c, advance 1 l) →
    braceOpen l = false → scans_to (lex_statements l) Q) →
  statement d m (String c R) Q.
Proof.
  intros Hc Hne Hm Hrun l Hat Hsc. pose proof (at_rest _ _ _ _ Hat) as Hr. apply Hrun; [done|done|..].
  - by apply (rest_advance (String c EmptyString)).
  - by eapply no_comment.
  - by eapply next_ascii.
  - rewrite (at_brace _ _ _ _ Hat). by destruct m.
Qed.

(** ** Punctuation *)
Lemma lexes_comma d R l :
  at_token d Inside (String "," R) l → lexes l (token_of_text COMMA "," d Inside R).
Proof.
  intros Hat. eapply lexes_inside; [exact Hat|]. clear Hat l. intros l Hat Hsc. 
  unfold lex_inside_braces. rewrite (no_comment "," R), (next_ascii _ "," R) by (apply Hat || done).
  change (scans_to (goto lexInsideBraces (emit COMMA (advance 1 l))) (token_of_text COMMA "," d Inside R)).
  eapply (emitted_token d Inside d Inside "," R); [exact Hat|by apply Emitted|done|].
  destruct Hat. constructor; cbn; auto.
Qed.

Lemma lexes_close d R l :
  at_token d Inside (String "}" R) l → lexes l (token_of_text RIGHT_BRACE "}" d Outside R).
Proof.
  intros Hat. eapply lexes_inside; [exact Hat|]. clear Hat l. intros l Hat Hsc. 
  unfold lex_inside_braces. rewrite (no_comment "}" R), (next_ascii _ "}" R) by (apply Hat || done).
  change (scans_to (goto lexStatements (set_braceOpen false (emit RIGHT_BRACE (advance 1 l))))
    (token_of_text RIGHT_BRACE "}" d Outside R)).
  eapply (emitted_token d Inside d Outside "}" R); [exact Hat|by apply Emitted|done|].
  destruct Hat. constructor; cbn; auto.
Qed.

Lemma state_open d R : statement d Outside (String "{" R) (token_of_text LEFT_BRACE "{" d Inside R).
Proof.
  apply statement_rune; [done..|]. intros l Hat Hsc Hr Hcom Hn Hb. unfold lex_statements. rewrite Hb, Hcom, Hn.
  change (scans_to (goto lexInsideBraces (set_braceOpen true (emit LEFT_BRACE (advance 1 l))))
    (token_of_text LEFT_BRACE "{" d Inside R)).
  eapply (emitted_token d Outside d Inside "{" R); [exact Hat|by apply Emitted|done|].
  destruct Hat. constructor; cbn; auto.
Qed.

Lemma lexes_open d R l :
  at_token d Outside (String "{" R) l → lexes l (token_of_text LEFT_BRACE "{" d Inside R).
Proof. apply lexes_statement; [done|]. apply state_open. Qed.

Lemma lexes_end l : at_token 0 Outside EmptyString l → lexes l (λ l', Typ (itemp l') = EOF).
Proof.
  apply lexes_statement; [done|]. clear l. intros l Hat Hsc. 
  unfold lex_statements. rewrite (at_brace _ _ _ _ Hat), (next_end l) by apply Hat.
  pose proof (at_rest _ _ _ _ Hat) as Hr. unfold rest in Hr. rewrite Hr.
  change (scans_to (if bool_decide (parenDepth l ≠ 0)%Z then fail "unclosed left parenthesis" (set_pos (pos l) 0 l)
    else if bracketOpen l then fail "unclosed left bracket" (set_pos (pos l) 0 l)
    else set_state None (emit EOF (set_pos (pos l) 0 l))) (λ l', Typ (itemp l') = EOF)).
  rewrite (at_paren _ _ _ _ Hat), (at_bracket _ _ _ _ Hat). eexists. split; [by apply scans_done|done].
Qed.

(** ** Words *)
Definition stops (f : Z → bool) (R : string) : Prop :=
  match R with EmptyString => f eof = false | String c _ => (byte_val c < 128)%N ∧ f (rune c) = false end.
Definition in_class (f : Z → bool) (c : ascii) : bool := bool_decide (byte_val c < 128)%N && f (rune c).

Lemma skip_while_run f w R fuel l :
  rest l = w +:+ R → string_forall (in_class f) w = true → stops f R → String.length w < fuel →
  ∃ k, skip_while fuel f l = set_pos (pos l + String.length w) k l.
Proof.
  intros Hr Hw Hs. revert fuel l Hr. induction w as [|c w IH]; intros [|fuel] l Hr Hf; cbn in Hf; try lia.
  - cbn [skip_while String.length]. rewrite string_app_nil_l in Hr. destruct R as [|c R].
    + rewrite (next_end l Hr), Hs. exists 0. unfold backup. cbn. by rewrite Nat.sub_0_r, Nat.add_0_r.
    + destruct Hs as [Hc Hs]. rewrite (next_ascii l c R Hr Hc), Hs. exists 1. unfold backup, advance. apply set_pos_twice. cbn. lia.
  - cbn [string_forall] in Hw. apply andb_true_iff in Hw as [[Hc Hfc]%andb_true_iff Hw].
    apply bool_decide_eq_true in Hc. rewrite string_app_cons in Hr. cbn [skip_while].
    rewrite (next_ascii l c (w +:+ R) Hr Hc), Hfc.
    destruct (IH Hw fuel (advance 1 l)) as [k ->]; [|lia|].
    + by apply (rest_advance (String c EmptyString)).
    + exists k. unfold advance. apply set_pos_twice. cbn. lia.
Qed.

Lemma skip_run f w R l :
  rest l = w +:+ R → string_forall (in_class f) w = true → stops f R →
  ∃ k, skip f l = set_pos (pos l + String.length w) k l.
Proof.
  intros Hr Hw Hs. apply (skip_while_run f w R); [done..|]. unfold remaining.
  pose proof (length_drop_string (pos l) (input l)) as Hl. unfold rest in Hr.
  rewrite Hr, length_string_app in Hl. lia.
Qed.

Lemma isAlpha_ascii c : isAlpha (rune c) = true → (byte_val c < 128)%N.
Proof.
  unfold isAlpha, rune. rewrite !orb_true_iff, !bool_decide_eq_true. lia.
Qed.
Lemma word_ascii c : isAlphaNumeric (rune c) = true → in_class isAlphaNumeric c = true.
Proof.
  intros Hc. unfold in_class. rewrite Hc, andb_true_r. apply bool_decide_eq_true.
  apply orb_true_iff in Hc as [Hc|Hc]; [by apply isAlpha_ascii|].
  unfold isDigit, rune in Hc. apply bool_decide_eq_true in Hc. lia.
Qed.

Lemma isLabel_word s : isLabel s = true →
  ∃ c t, s = String c t ∧ isAlpha (rune c) = true ∧ string_forall (in_class isAlphaNumeric) s = true.
Proof.
  destruct s as [|c t]; [done|]. cbn [isLabel]. intros [Hc Ht]%andb_true_iff. exists c, t.
  split; [done|]. split; [done|]. cbn [string_forall]. apply andb_true_iff. split.
  - apply word_ascii. unfold isAlphaNumeric. by rewrite Hc.
  - eapply string_forall_impl; [|exact Ht]. apply word_ascii.
Qed.

Lemma lexes_label d w R l :
  isLabel w = true → stops isAlphaNumeric R →
  at_token d Inside (w +:+ R) l → lexes l (token_of_text IDENTIFIER w d Inside R).
Proof.
  intros Hw Hs Hat. eapply lexes_inside; [exact Hat|]. clear Hat l. intros l Hat Hsc.
  destruct (isLabel_word w Hw) as (c & t & -> & Hc & Hall). clear Hw.
  pose proof (isAlpha_ascii _ Hc) as Hca.
  pose proof (at_rest _ _ _ _ Hat) as Hr. rewrite string_app_cons in Hr.
  unfold lex_inside_braces. rewrite (no_comment c (t +:+ R)), (next_ascii _ c (t +:+ R)) by
    (exact Hr || done || (intros ->; vm_compute in Hc; done)).
  assert (rune c = 95 ∨ 97 ≤ rune c ≤ 122 ∨ 65 ≤ rune c ≤ 90)%Z as Hrange.
  { unfold isAlpha in Hc. rewrite !orb_true_iff, !bool_decide_eq_true in Hc. lia. }
  other_rune. rewrite Hc.
  assert (backup (advance 1 l) = advance 0 l) as -> by (apply set_pos_twice; cbn; lia).
  apply (scans_to_step lexIdentifier); [done|done|]. unfold lex_step.
  destruct (skip_run isAlphaNumeric (String c t) R (goto lexIdentifier (advance 0 l))) as [k Hk];
    [|done|done|].
  { rewrite string_app_cons, <- Hr. unfold rest. cbn. by rewrite Nat.add_0_r. }
  rewrite Hk. eapply (emitted_token d Inside d Inside _ R _ l
    (set_pos (pos (goto lexIdentifier (advance 0 l)) + String.length (String c t)) k
       (goto lexIdentifier (advance 0 l)))); [exact Hat|by apply Emitted|cbn; lia|].
  destruct Hat. constructor; cbn; auto.
Qed.

(** The operators of matchers, before a quote. *)
Definition operators : list (string * Z) :=
  [("=", EQL); ("!=", NEQ); ("=~", EQL_REGEX); ("!~", NEQ_REGEX)].

Lemma lexes_operator d op t R l :
  (op, t) ∈ operators → at_token d Inside (op +:+ String dquote_char R) l →
  lexes l (token_of_text t op d Inside (String dquote_char R)).
Proof.
  intros Hop Hat. eapply lexes_inside; [exact Hat|]. clear Hat l. intros l Hat Hsc.
  pose proof (at_rest _ _ _ _ Hat) as Hr. unfold lex_inside_braces.
  assert (∀ l1, emitted t l l1 (goto lexInsideBraces (emit t l1)) → pos l1 = pos l + String.length op →
    braceOpen l1 = braceOpen l → parenDepth l1 = parenDepth l → bracketOpen l1 = bracketOpen l →
    scans_to (goto lexInsideBraces (emit t l1)) (token_of_text t op d Inside (String dquote_char R))) as Hleaf.
  { intros l1 Hem Hp Hb Hpar Hbr. eapply (emitted_token d Inside d Inside op); [exact Hat|exact Hem|done|].
    destruct Hat. constructor; cbn in *; auto; congruence. }
  assert (∀ c R0, rest l = String c R0 → rest (advance 1 l) = R0) as Hadv.
  { intros c R0 Hc. by apply (rest_advance (String c EmptyString)). }
  repeat (apply elem_of_cons in Hop as [[= -> ->]|Hop];
    [rewrite ?string_app_cons, string_app_nil_l in Hr;
     rewrite (no_comment _ _ _ Hr), (next_ascii _ _ _ Hr) by done; cbv beta iota zeta;
     apply Hadv in Hr|]).
  - change (scans_to (let '(t, l) := next (advance 1 l) in
      if is_rune t "~" then goto lexInsideBraces (emit EQL_REGEX l)
      else goto lexInsideBraces (emit EQL (backup l))) (token_of_text EQL "=" d Inside (String dquote_char R))).
    rewrite (next_ascii _ _ _ Hr) by done. cbv beta iota zeta.
    change (is_rune (rune dquote_char) "~") with false. cbv beta iota.
    assert (backup (advance 1 (advance 1 l)) = advance 1 l) as ->
      by (apply (set_pos_twice _ _ (pos l + 2) 1 1 l); cbn; lia).
    by apply Hleaf.
  - change (scans_to (let '(t, l) := next (advance 1 l) in
      if is_rune t "~" then goto lexInsideBraces (emit NEQ_REGEX l)
      else if is_rune t "=" then goto lexInsideBraces (emit NEQ l)
      else fail ("unexpected character after '!' inside braces: " +:+ QuoteRune t) l)
      (token_of_text NEQ "!=" d Inside (String dquote_char R))).
    rewrite (next_ascii _ _ _ Hr) by done. apply Hleaf; [done|cbn; lia|done..].
  - change (scans_to (let '(t, l) := next (advance 1 l) in
      if is_rune t "~" then goto lexInsideBraces (emit EQL_REGEX l)
      else goto lexInsideBraces (emit EQL (backup l))) (token_of_text EQL_REGEX "=~" d Inside (String dquote_char R))).
    rewrite (next_ascii _ _ _ Hr) by done. apply Hleaf; [done|cbn; lia|done..].
  - change (scans_to (let '(t, l) := next (advance 1 l) in
      if is_rune t "~" then goto lexInsideBraces (emit NEQ_REGEX l)
      else if is_rune t "=" then goto lexInsideBraces (emit NEQ l)
      else fail ("unexpected character after '!' inside braces: " +:+ QuoteRune t) l)
      (token_of_text NEQ_REGEX "!~" d Inside (String dquote_char R))).
    rewrite (next_ascii _ _ _ Hr) by done. apply Hleaf; [done|cbn; lia|done..].
  - inversion Hop.
Qed.

(** Words: names and keywords. *)
Definition name_rune (r : Z) : bool := isAlphaNumeric r || is_rune r ":".
Definition is_word (s : string) : bool :=
  match s with
  | EmptyString => false
  | String c _ => (isAlpha (rune c) || is_rune (rune c) ":") && string_forall (in_class name_rune) s
  end.
Definition word_type (w : string) : Z :=
  match keyword w with
  | Some kw => kw
  | None => if negb (Contains w ":") then IDENTIFIER else METRIC_IDENTIFIER
  end.

(** A metric name that is no keyword. *)
Definition is_name (s : string) : bool := is_word s && bool_decide (keyword s = None).

Lemma state_word d w R :
  is_word w = true → stops name_rune R →
  statement d Outside (w +:+ R) (token_of_text (word_type w) w d Outside R).
Proof.
  intros Hw Hs. destruct w as [|c t]; [done|]. apply andb_true_iff in Hw as [Hc Hall].
  assert (rune c = 95 ∨ 97 ≤ rune c ≤ 122 ∨ 65 ≤ rune c ≤ 90 ∨ rune c = 58)%Z as Hrange.
  { unfold isAlpha, is_rune in Hc. rewrite !orb_true_iff, !bool_decide_eq_true in Hc.
    change (rune ":") with 58%Z in Hc. lia. }
  assert (byte_val c < 128)%N as Hca by (unfold rune in Hrange; lia). rewrite string_app_cons.
  apply statement_rune; [done|intros ->; by vm_compute in Hc|done|]. intros l Hat Hsc _ Hcom Hn Hb.
  pose proof (at_rest _ _ _ _ Hat) as Hr.
  unfold lex_statements. rewrite Hb, Hcom, Hn. cbv beta iota zeta. rewrite Hc. other_rune.
  replace (isDigit (rune c)) with false by (symmetry; apply bool_decide_eq_false; lia).
  cbv beta iota. change (bracketOpen (advance 1 l)) with (bracketOpen l). rewrite (at_bracket _ _ _ _ Hat).
  cbn [negb in_brackets_mode].
  assert (backup (advance 1 l) = advance 0 l) as -> by (apply set_pos_twice; cbn; lia).
  apply (scans_to_step lexKeywordOrIdentifier); [done|done|]. unfold lex_step, lex_keyword_or_identifier.
  fold name_rune.
  destruct (skip_run name_rune (String c t) R (goto lexKeywordOrIdentifier (advance 0 l))) as [k Hk];
    [|done|done|].
  { rewrite string_app_cons, <- Hr. unfold rest. cbn. by rewrite Nat.add_0_r. }
  change (λ r : Z, isAlphaNumeric r || is_rune r ":") with name_rune. rewrite Hk.
  set (l1 := set_pos _ _ _). fold (word_type (pending l1)).
  rewrite <- string_app_cons in Hat.
  assert (pending l1 = String c t) as ->.
  { eapply emitted_pending; [exact Hat|by apply (Emitted 0 l l1 (goto lexStatements (emit 0 l1)))|cbn; lia]. }
  eapply emitted_token; [exact Hat|by apply Emitted|cbn; lia|]. destruct Hat. constructor; cbn; auto.
Qed.

Lemma lexes_name d w R l :
  is_name w = true → stops name_rune R → at_token d Outside (w +:+ R) l →
  lexes l (λ l', (Typ (itemp l') = IDENTIFIER ∨ Typ (itemp l') = METRIC_IDENTIFIER) ∧
                 Val (itemp l') = w ∧ at_token d Outside R l').
Proof.
  intros [Hw Hkey%bool_decide_eq_true]%andb_true_iff Hs Hat.
  destruct (lexes_statement d Outside _ l _ I (state_word d w R Hw Hs) Hat) as (l' & Hn & Ht & Hv & Hat').
  exists l'. split; [done|]. split; [|done]. rewrite Ht. unfold word_type. rewrite Hkey.
  destruct (negb (Contains w ":")); [by left|by right].
Qed.

(** ** Quoted values

    Within a string that starts at [start l0]. *)
Record in_string (l0 l : Lexer) : Prop := InString {
  is_input : input l = input l0;
  is_start : start l = start l0;
  is_scanned : scannedItem l = false;
  is_brace : braceOpen l = braceOpen l0;
  is_paren : parenDepth l = parenDepth l0;
  is_bracket : bracketOpen l = bracketOpen l0;
  is_colon : gotColon l = gotColon l0;
  is_quote : stringOpen l = 34%Z;
  is_pos : start l < pos l ≤ len l;
}.

Lemma in_string_moved l0 l l' :
  in_string l0 l → moved l l' → braceOpen l' = braceOpen l → parenDepth l' = parenDepth l →
  bracketOpen l' = bracketOpen l → gotColon l' = gotColon l → stringOpen l' = stringOpen l → in_string l0 l'.
Proof.
  intros [] [Hi ???] ?????. constructor; try congruence. unfold len in *. rewrite Hi. lia.
Qed.

Lemma in_string_next l0 l r l' : in_string l0 l → next l = (r, l') → in_string l0 l'.
Proof.
  intros Hin Hn. destruct (next_cases l r l') as [Hm _]; [by destruct Hin as [_ _ _ _ _ _ _ _ []]|done|].
  unfold next in Hn. apply (in_string_moved l0 l); [done|done|..];
    (case_bool_decide; [|destruct (DecodeRuneInString _)]); by injection Hn as _ <-.
Qed.

Lemma in_string_goto l0 l s : in_string l0 l → in_string l0 (goto s l).
Proof. by intros []. Qed.

Lemma next_quote l l' : next l = (34%Z, l') → ∃ R, rest l = String dquote_char R ∧ l' = advance 1 l.
Proof.
  unfold next. case_bool_decide as Hlen; [done|]. pose proof (length_drop_string (pos l) (input l)) as Hl.
  fold (rest l) in *. destruct (rest l) as [|c R] eqn:Hr; [cbn in Hl; lia|].
  destruct (DecodeRuneInString (String c R)) as [r w] eqn:Hd. intros [= Hrune <-].
  pose proof (decode_cases c R) as Hc. rewrite Hd in Hc. cbn [fst snd] in Hc. exists R.
  inversion Hc as [c' t [= <- <-] Hb| |]; subst; [|by unfold RuneError in Hrune|lia].
  split; [|done]. f_equal. apply byte_val_inj. change (byte_val dquote_char) with 34%N. lia.
Qed.

(** How the scan of a string ends. *)
Definition string_end (l0 l' : Lexer) : Prop :=
  Typ (itemp l') = ERROR ∨
  ∃ l R, in_string l0 l ∧ rest l = String dquote_char R ∧
         l' = goto lexStatements (emit STRING (advance 1 l)).
Definition string_goes_on (l0 l : Lexer) : Prop :=
  in_string l0 l ∧ (state l = Some lexString ∨ state l = Some lexEscape).
Definition string_step (l0 l : Lexer) : Prop :=
  scannedItem l = true ∧ string_end l0 l ∨ string_goes_on l0 l.

Lemma string_error l0 l text s : string_step l0 (set_state s (errorf text l)).
Proof. left. split; [done|]. by left. Qed.

Lemma string_loop_step l0 fuel l : in_string l0 l → string_step l0 (string_loop fuel l).
Proof.
  revert l. induction fuel as [|fuel IH]; intros l Hin; cbn.
  { right. split; [by apply in_string_goto|by left]. }
  destruct (next l) as [r l1] eqn:Hn. pose proof (in_string_next _ _ _ _ Hin Hn) as Hin1.
  destruct (is_rune r "\"); [right; split; [by apply in_string_goto|by right]|].
  case_bool_decide; [apply string_error|].
  destruct (_ || _); [apply string_error|].
  case_bool_decide as Hq; [|by apply IH].
  rewrite (is_quote _ _ Hin1) in Hq. subst r. destruct (next_quote _ _ Hn) as (R & Hr & ->).
  left. split; [done|]. right. by exists l, R.
Qed.

Lemma escape_digits_string l0 n base x ch l :
  in_string l0 l →
  let '(res, l') := escape_digits n base x ch l in
  match res with
  | Some _ => in_string l0 l'
  | None => ∃ l1 text, l' = errorf text l1
  end.
Proof.
  revert x ch l. induction n as [|n IH]; intros x ch l Hin; cbn; [done|].
  case_bool_decide; [case_bool_decide; by eexists _, _|].
  destruct (next l) as [r l1] eqn:Hn. apply IH. by eapply in_string_next.
Qed.

Lemma lex_escape_step l0 l : in_string l0 l → string_step l0 (lex_escape l).
Proof.
  intros Hin. unfold lex_escape. destruct (next l) as [ch l1] eqn:Hn.
  pose proof (in_string_next _ _ _ _ Hin Hn) as Hin1.
  assert (∀ l2, in_string l0 l2 → string_step l0 (goto lexString l2)) as Hgo.
  { intros l2 Hin2. right. split; [by apply in_string_goto|by left]. }
  assert (∀ n base max ch l2, in_string l0 l2 → string_step l0
    (let '(x, l) := escape_digits n base 0 ch l2 in
     match x with
     | None => goto lexString l
     | Some x => goto lexString
         (if bool_decide (max < x)%Z || surrogate x
          then errorf "escape sequence is an invalid Unicode code point" l else l)
     end)) as Hnum.
  { intros n base max ch' l2 Hin2. pose proof (escape_digits_string l0 n base 0 ch' l2 Hin2) as He.
    destruct (escape_digits _ _ _ _ _) as [[x|] l3]; [|destruct He as (l4 & text & ->); apply string_error].
    destruct (_ || _); [apply string_error|by apply Hgo]. }
  destruct (_ || _); [by apply Hgo|].
  case_bool_decide; [by apply Hnum|].
  destruct (next l1) as [ch' l2] eqn:Hn'. pose proof (in_string_next _ _ _ _ Hin1 Hn').
  destruct (is_rune ch "x"); [by apply Hnum|].
  destruct (is_rune ch "u"); [by apply Hnum|].
  destruct (is_rune ch "U"); [by apply Hnum|].
  case_bool_decide; apply string_error.
Qed.

Lemma scan_string l0 fuel l l' :
  string_goes_on l0 l → scan fuel l = Some l' → string_end l0 l'.
Proof.
  revert l. induction fuel as [|fuel IH]; intros l [Hin Hst]; cbn; rewrite (is_scanned _ _ Hin); [done|].
  assert (∃ s, state l = Some s ∧ string_step l0 (lex_step s l)) as (s & -> & Hstep).
  { destruct Hst as [-> | ->]; eexists; (split; [done|]); [by apply string_loop_step|by apply lex_escape_step]. }
  destruct Hstep as [[Hs He]|Hgo]; [|by apply IH]. destruct fuel; cbn; rewrite Hs; by intros [= <-].
Qed.

(** The text between two quotes. *)
Lemma quoted_pending l l2 s R2 :
  rest l = String dquote_char s → input l2 = input l → start l2 = pos l → pos l < pos l2 →
  rest l2 = String dquote_char R2 →
  ∃ t, pending (advance 1 l2) = literal t ∧ rest l = literal t +:+ R2.
Proof.
  unfold rest, pending, advance. cbn [pos input start set_pos]. intros Hr -> -> Hp Hr2.
  destruct (pos l2 - pos l) as [|n] eqn:Hn; [lia|].
  replace (pos l2) with (pos l + S n) in * by lia. rewrite <- drop_string_drop, Hr in Hr2.
  cbn [drop_string] in Hr2. exists (take_string n s).
  assert (String dquote_char s = literal (take_string n s) +:+ R2) as E.
  { rewrite <- (take_drop_string n s) at 1. rewrite Hr2. unfold literal, dquote.
    rewrite !string_app_cons, !string_app_nil_l, string_app_assoc, string_app_cons. done. }
  split; [|by rewrite Hr]. rewrite Hr.
  assert (String.length (literal (take_string n s)) = pos l + S n + 1 - pos l) as <-.
  { unfold literal. rewrite !length_string_app, length_take_string. cbn.
    pose proof (length_drop_string n s) as Hl. rewrite Hr2 in Hl. cbn in Hl. lia. }
  rewrite E. apply take_string_app.
Qed.

(** *** Plain values

    A value that is valid UTF-8 without the replacement character and whose
    runes are printed as they are or as [\a] to [\r] is always accepted:
    [lexEscape] reads one rune too many only after a number. *)
Definition plain_rune (r : N) : bool :=
  negb (bool_decide (r = RuneError)) && (IsPrint r || bool_decide (7 ≤ r ≤ 13)%N).
Fixpoint plain_from (skip : nat) (s : string) : bool :=
  match s with
  | EmptyString => true
  | String c s' =>
      match skip with
      | S k => plain_from k s'
      | O => let '(r, w) := DecodeRuneInString s in plain_rune r && plain_from (w - 1) s'
      end
  end.
Definition plain (s : string) : bool := plain_from 0 s.

Lemma plain_from_skip k s : plain_from k s = plain (drop_string k s).
Proof. revert k. induction s as [|c s IH]; intros [|k]; cbn [plain_from drop_string]; done. Qed.

Lemma plain_step c s :
  let d := DecodeRuneInString (String c s) in
  plain (String c s) = plain_rune d.1 && plain (drop_string d.2 (String c s)).
Proof.
  unfold plain. cbn [plain_from]. destruct (DecodeRuneInString (String c s)) as [r w] eqn:Hd. cbn [fst snd].
  apply Decode_width in Hd as [Hw _]. destruct w as [|w]; [lia|].
  rewrite plain_from_skip. cbn [drop_string Nat.sub]. by rewrite Nat.sub_0_r.
Qed.

(** What the unit of a plain rune looks like to the lexer: one rune that
    [lexString] skips, or a backslash and a character that [lexEscape]
    skips. *)
Inductive plain_unit (u : string) : Prop :=
| plain_skipped r :
    (∀ t, DecodeRuneInString (u +:+ t) = (r, String.length u)) →
    r ≠ 92%N → r ≠ RuneError → r ≠ 10%N → r ≠ 34%N → u ≠ EmptyString → plain_unit u
| plain_escaped e :
    u = String backslash (String e EmptyString) → (byte_val e < 128)%N →
    ContainsRune "abfnrtv\" (rune e) || bool_decide (rune e = 34)%Z = true → plain_unit u.

Lemma plain_unit_of c s :
  let d := DecodeRuneInString (String c s) in
  plain_rune d.1 = true → plain_unit (quote_rune d.1 d.2 (String c s)).
Proof.
  cbn zeta. intros [Hne%negb_true_iff Hp]%andb_true_iff. apply bool_decide_eq_false in Hne.
  destruct (decode_cases c s) as [c' t [= <- <-] Hc|c' t [= <- <-] Hc|r w Hr Hw Hmax Hs He Hd]; [|done|].
  - unfold quote_rune. rewrite (bool_decide_eq_false_2 (_ = RuneError)), andb_false_r by done.
    destruct (bool_decide (byte_val c = 34)%N || bool_decide (byte_val c = 92)%N) eqn:H1.
    { apply (plain_escaped _ c); [done|done|]. apply orb_true_iff in H1. rewrite !bool_decide_eq_true in H1.
      destruct H1 as [H1|H1]; unfold rune; by rewrite H1. }
    apply orb_false_iff in H1. rewrite !bool_decide_eq_false in H1. destruct H1 as [H1 H2].
    destruct (IsPrint (byte_val c)) eqn:Hpr.
    + unfold IsPrint in Hpr. rewrite bool_decide_eq_true_2 in Hpr by done.
      apply andb_true_iff in Hpr as [?%bool_decide_eq_true ?%bool_decide_eq_true].
      apply (plain_skipped _ (byte_val c)); try done; [|lia].
      intros t. cbn [take_string]. rewrite string_app_cons. cbn. by rewrite bool_decide_eq_true_2.
    + cbn [orb] in Hp. apply bool_decide_eq_true in Hp.
      assert (byte_val c ∈ [7; 8; 9; 10; 11; 12; 13]%N) as Hin.
      { rewrite !elem_of_cons. lia. }
      repeat (apply elem_of_cons in Hin as [->|Hin];
        [by eapply (plain_escaped _ _); [reflexivity|..]|]). inversion Hin.
  - unfold quote_rune. rewrite (bool_decide_eq_false_2 (w = 1)) by lia. cbn [andb].
    rewrite !(bool_decide_eq_false_2 (r = _)) by lia. cbn [orb].
    destruct (IsPrint r); [|cbn [orb] in Hp; apply bool_decide_eq_true in Hp; lia].
    apply (plain_skipped _ r); [|lia|done|lia|lia|].
    + intros t. rewrite Hd. by rewrite length_take_string, Nat.min_l by lia.
    + destruct w; [lia|done].
Qed.

(** The end of a string before [R]. *)
Definition closed_before (l0 : Lexer) (R : string) (l' : Lexer) : Prop :=
  ∃ l, in_string l0 l ∧ rest l = String dquote_char R ∧ l' = goto lexStatements (emit STRING (advance 1 l)).

Lemma next_rest l u t r R :
  rest l = u +:+ R → u ≠ EmptyString → 
  (∀ t, DecodeRuneInString (u +:+ t) = (r, String.length u)) → t = Z.of_N r →
  next l = (t, set_pos (pos l + String.length u) (String.length u) l).
Proof.
  intros Hr Hu Hd ->. pose proof (rest_pos _ _ Hr) as Hp. unfold next, rest, len in *.
  rewrite bool_decide_eq_false_2, Hr, Hd; [done|]. destruct u; [done|].
  rewrite string_app_cons in Hp. specialize (Hp ltac:(done)). lia.
Qed.

(** A rune that the scanner skips. *)
Lemma scan_skipped u r T l0 l fuel P :
  (∀ t, DecodeRuneInString (u +:+ t) = (r, String.length u)) →
  r ≠ 92%N → r ≠ RuneError → r ≠ 10%N → r ≠ 34%N → u ≠ EmptyString →
  in_string l0 l → rest l = u +:+ T → remaining l < S fuel →
  (∀ l1, in_string l0 l1 → rest l1 = T → remaining l1 < fuel → scans_to (string_loop fuel l1) P) →
  scans_to (string_loop (S fuel) l) P.
Proof.
  intros Hx H92 Hre H10 H34 Hne Hin Hr Hf Hrun.
  pose proof (next_rest l u (Z.of_N r) r T Hr Hne Hx eq_refl) as Hn. cbn [string_loop]. rewrite Hn.
  set (l1 := set_pos _ _ l) in *. unfold is_rune.
  rewrite (bool_decide_eq_false_2 (_ = rune "\")) by (change (rune "\") with 92%Z; lia).
  rewrite (bool_decide_eq_false_2 (_ = Z.of_N RuneError)) by lia.
  rewrite (bool_decide_eq_false_2 (_ = eof)) by (unfold eof; lia).
  rewrite (bool_decide_eq_false_2 (_ = 10)%Z) by lia. cbn [orb].
  change (stringOpen l1) with (stringOpen l). rewrite (is_quote _ _ Hin).
  rewrite (bool_decide_eq_false_2 (_ = 34)%Z) by lia. apply Hrun.
  - by eapply in_string_next.
  - by apply (rest_app _ _ _ _ Hr).
  - pose proof (rest_pos _ _ Hr) as Hp. destruct u; [done|].
    rewrite string_app_cons in Hp. specialize (Hp ltac:(done)). unfold remaining, len in *. cbn. lia.
Qed.

(** An escape of one character: [lexEscape] takes it and goes back to
    [lexString]. *)
Lemma scan_escaped e T l0 l fuel P :
  (byte_val e < 128)%N → ContainsRune "abfnrtv\" (rune e) || bool_decide (rune e = 34)%Z = true →
  in_string l0 l → rest l = String backslash (String e T) →
  (∀ l1 f, in_string l0 l1 → rest l1 = T → remaining l1 < f → scans_to (string_loop f l1) P) →
  scans_to (string_loop (S fuel) l) P.
Proof.
  intros He Hesc Hin Hr Hrun. cbn [string_loop].
  rewrite (next_ascii _ _ _ Hr) by done. cbv beta iota zeta.
  change (is_rune (rune backslash) "\") with true. cbv iota.
  apply (scans_to_step lexEscape); [apply Hin|done|]. cbn [lex_step]. unfold lex_escape.
  assert (rest (goto lexEscape (advance 1 l)) = String e T) as Hr1.
  { by apply (rest_advance (String backslash EmptyString) _ l). }
  rewrite (next_ascii _ _ _ Hr1 He). cbv beta iota zeta.
  change (stringOpen (advance 1 (goto lexEscape (advance 1 l)))) with (stringOpen l).
  rewrite (is_quote _ _ Hin), Hesc.
  set (l2 := advance 1 (goto lexEscape (advance 1 l))).
  assert (in_string l0 l2) as Hin2.
  { eapply in_string_next; [|by apply (next_ascii _ _ _ Hr1 He)]. apply in_string_goto.
    eapply in_string_next; [exact Hin|]. by apply (next_ascii _ _ _ Hr). }
  apply (scans_to_step lexString); [apply Hin2|done|]. cbn [lex_step]. apply Hrun.
  - by apply in_string_goto.
  - by apply (rest_advance (String e EmptyString) _ _ Hr1).
  - lia.
Qed.

Lemma scan_plain v l0 R l fuel :
  plain v = true → in_string l0 l → rest l = quote_body 0 v +:+ String dquote_char R → remaining l < fuel →
  scans_to (string_loop fuel l) (closed_before l0 R).
Proof.
  revert l fuel. induction v as [v IH] using (induction_ltof1 _ String.length). unfold ltof in IH.
  intros l [|fuel] Hv Hin Hr Hf; [lia|]. destruct v as [|c v].
  - cbn [quote_body] in Hr. rewrite string_app_nil_l in Hr. cbn [string_loop].
    rewrite (next_ascii _ _ _ Hr) by done. cbv beta iota zeta.
    change (stringOpen (advance 1 l)) with (stringOpen l). rewrite (is_quote _ _ Hin).
    eexists. split; [by apply scans_done|]. by exists l.
  - rewrite quote_body_step in Hr. rewrite plain_step in Hv. cbn zeta in Hr, Hv.
    apply andb_true_iff in Hv as [Hc Hv]. pose proof (plain_unit_of c v Hc) as Hu. cbn zeta in Hu.
    destruct (DecodeRuneInString (String c v)) as [r w] eqn:Hd. cbn [fst snd] in *.
    apply Decode_width in Hd as [Hw _]. rewrite string_app_assoc in Hr.
    specialize (IH (drop_string w (String c v))). rewrite length_drop_string in IH. cbn [String.length] in IH.
    specialize (IH ltac:(lia)).
    destruct Hu as [x Hx H92 Hre H10 H34 Hne|e Hu He Hesc].
    + eapply scan_skipped; [exact Hx|done..|exact Hr|done|]. by auto.
    + rewrite Hu, !string_app_cons, string_app_nil_l in Hr. eapply scan_escaped; by eauto.
Qed.

(** The start of a quoted value, as [lexInsideBraces] leaves it. *)
Definition string_start (l : Lexer) : Lexer := goto lexString (set_stringOpen 34 (advance 1 l)).

Lemma quote_text v R : Quote v +:+ R = String dquote_char (quote_body 0 v +:+ String dquote_char R).
Proof. unfold Quote, dquote. by rewrite !string_app_cons, !string_app_nil_l, string_app_assoc, string_app_cons. Qed.

Lemma string_start_in d m R l :
  at_token d m (String dquote_char R) l → scannedItem l = false → in_string (string_start l) (string_start l).
Proof.
  intros [Hr Hp Hs Hb Hpar Hbr _ _] Hsc. pose proof (rest_pos _ _ Hr ltac:(done)).
  constructor; try done. cbn. unfold len in *. cbn. rewrite Hs. lia.
Qed.

(** A string is read inside braces and outside. *)
Definition string_mode (m : mode) : Prop := match m with Inside | Outside => True | _ => False end.

(** The item of a string that was closed is a literal at the start of the
    text; if it is the printed value, the lexer is behind it. *)
Lemma closed_token d m v R l l2 R2 :
  string_mode m →
  at_token d m (Quote v +:+ R) l → in_string (string_start l) l2 → rest l2 = String dquote_char R2 →
  let l' := goto lexStatements (emit STRING (advance 1 l2)) in
  ∃ t, Val (itemp l') = literal t ∧ Quote v +:+ R = literal t +:+ R2 ∧
       (literal t = Quote v → token_of_text STRING (Quote v) d m R l').
Proof.
  intros Hm Hat Hin2 Hr2 l'. pose proof (at_rest _ _ _ _ Hat) as Hr. rewrite quote_text in Hr.
  destruct (quoted_pending l l2 (quote_body 0 v +:+ String dquote_char R) R2) as (t & Ht & Hlit); [done|..|done|].
  { by rewrite (is_input _ _ Hin2). }
  { rewrite (is_start _ _ Hin2). apply (at_start _ _ _ _ Hat). }
  { pose proof (is_pos _ _ Hin2). rewrite (is_start _ _ Hin2) in *. pose proof (at_start _ _ _ _ Hat) as Hs.
    cbn in *. rewrite Hs in *. lia. }
  rewrite (at_rest _ _ _ _ Hat) in Hlit. exists t. split; [exact Ht|]. split; [done|]. intros E.
  split; [done|]. split; [exact (eq_trans Ht E)|].
  rewrite E in Hlit. apply (app_inv_length (Quote v) _ (Quote v)) in Hlit as [_ <-]; [|done].
  pose proof (rest_pos _ _ Hr2 ltac:(done)) as Hlen. destruct Hin2, Hat.
  constructor; cbn in *; try congruence;
    [by apply (rest_advance dquote _ l2)|unfold len in *; lia|].
  destruct m; try done. by right.
Qed.

(** A quoted value gives the text that was printed; if it is not plain it
    may give an error, or a text that cannot be unquoted. *)
Definition value_token (v : string) (d : Z) (m : mode) (R : string) (l' : Lexer) : Prop :=
  token_of_text STRING (Quote v) d m R l' ∨
  plain v = false ∧ (Typ (itemp l') = ERROR ∨ Typ (itemp l') = STRING ∧ Unquote (Val (itemp l')) = None).

Lemma scan_value d m v R l :
  string_mode m → at_token d m (Quote v +:+ R) l → scannedItem l = false →
  scans_to (string_start l) (value_token v d m R).
Proof.
  intros Hm Hat Hsc.
  assert (in_string (string_start l) (string_start l)) as Hin1
    by (eapply string_start_in; [|done]; rewrite quote_text in Hat; exact Hat).
  pose proof (at_rest _ _ _ _ Hat) as Hr. rewrite quote_text in Hr. destruct (plain v) eqn:Hp.
  - destruct (scan_plain v (string_start l) R (string_start l) (S (remaining (string_start l))))
      as (l' & Hscan & l2 & Hin2 & Hr2 & ->); [done|done| |lia|].
    { by apply (rest_advance dquote _ l). }
    eexists. split; [eapply (scans_step lexString); [apply Hin1|done|exact Hscan]|]. left.
    destruct (closed_token d m v R l l2 R Hm Hat Hin2 Hr2) as (t & _ & Hlit & Htok). apply Htok.
    apply app_inv_length in Hlit as [-> _]; [done|].
    apply (f_equal String.length) in Hlit. rewrite !length_string_app in Hlit. lia.
  - destruct (scan_returns (S (measure lexString (string_start l))) (string_start l) lexString)
      as (l' & Hscan & _); [split; [by destruct Hin1 as [_ _ _ _ _ _ _ _ []]|done]|done|done|lia|].
    exists l'. split; [by eexists|]. unfold value_token. rewrite Hp.
    destruct (scan_string (string_start l) _ (string_start l) l' ltac:(by split; [|left]) Hscan)
      as [He|(l2 & R2 & Hin2 & Hr2 & ->)]; [by auto|].
    destruct (closed_token d m v R l l2 R2 Hm Hat Hin2 Hr2) as (t & Ht & Hlit & Htok).
    destruct (literal_of_quoted _ _ _ _ Hlit) as [->|Hnone]; [left; by apply Htok|].
    right. split; [done|]. right. split; [done|]. by rewrite Ht.
Qed.

Lemma lexes_value d v R l : at_token d Inside (Quote v +:+ R) l → lexes l (value_token v d Inside R).
Proof.
  intros Hat. eapply lexes_inside; [exact Hat|]. clear Hat l. intros l Hat Hsc.
  pose proof (at_rest _ _ _ _ Hat) as Hr. rewrite quote_text in Hr.
  unfold lex_inside_braces. rewrite (no_comment _ _ _ Hr), (next_ascii _ _ _ Hr) by done.
  match goal with |- scans_to _ ?Q => change (scans_to (string_start l) Q) end. by apply scan_value.
Qed.

Lemma state_value d v R : statement d Outside (Quote v +:+ R) (value_token v d Outside R).
Proof.
  rewrite quote_text. apply statement_rune; [done..|]. intros l Hat Hsc _ Hcom Hn Hb.
  unfold lex_statements. rewrite Hb, Hcom, Hn. rewrite <- quote_text in Hat.
  match goal with |- scans_to _ ?Q => change (scans_to (string_start l) Q) end. by apply scan_value.
Qed.
End SelectorLex.
