(* ===== verification/SelectorParse.v ===== *)
(** * The parser on a printed selector

    The driver of [Parser] run on the text of a vector selector: the
    matchers come back, or the parser reports an error.

    [runs st t p Q] says that the driver ends with an outcome in [Q] from
    the stack [st] with the token [t] read ahead; its rules are the turns of
    an LALR driver: read a token, shift it, reduce, accept.  The tables are
    evaluated at the states of the stack. *)
From S2P Require Import Prelude GoStrings GoFloat Regexp Matchers Promql Errors.
From S2P Require Import GoTime Strutil Lexer LexerSpec ParserTables Parser ParserDriver.
From S2P Require Import Quoting SelectorLex.
From stdpp Require Import options.

(** ** The decisions of the tables *)
Definition shift_of (q t : Z) : option Z :=
  let n := entry yyPact q in
  if bool_decide (n ≤ yyFlag)%Z then None
  else if bool_decide (n + t < 0)%Z || bool_decide (yyLast ≤ n + t)%Z then None
  else let s := entry yyAct (n + t) in if bool_decide (entry yyChk s = t) then Some s else None.

(** The rule of a state, given the token if it has been read; some states
    look it up in the exception table. *)
Definition default_of (q : Z) (t : option Z) : Z :=
  if bool_decide (entry yyDef q = -2)%Z then
    match t with
    | Some t => match (l ← exca_state yyExca q; exca_token l t) with Done n => n | Panic _ => 0%Z end
    | None => 0%Z
    end
  else entry yyDef q.
Definition rule_of (q : Z) (t : option Z) : option Z :=
  if bool_decide (0 < default_of q t)%Z &&
     (bool_decide (entry yyPact q ≤ yyFlag)%Z ||
      match t with Some t => bool_decide (shift_of q t = None) | None => false end)
  then Some (default_of q t) else None.

(** The tokens a state shifts are among [ts]. *)
Definition shifts_among (q : Z) (ts : list Z) : bool :=
  forallb (λ j, negb (bool_decide (entry yyChk (entry yyAct j) = j - entry yyPact q)) ||
                bool_decide (j - entry yyPact q ∈ ts))%Z (Z.of_nat <$> seq 0 (Z.to_nat yyLast)).

Lemma shift_none q ts t : shifts_among q ts = true → t ∉ ts → shift_of q t = None.
Proof.
  unfold shifts_among, shift_of. rewrite forallb_forall. intros Hall Ht. case_bool_decide; [done|].
  destruct (bool_decide_reflect (entry yyPact q + t < 0)%Z); [done|].
  destruct (bool_decide_reflect (yyLast ≤ entry yyPact q + t)%Z); [done|]. cbn [orb].
  case_bool_decide as Hchk; [|done]. destruct Ht.
  specialize (Hall (entry yyPact q + t)%Z). rewrite Hchk in Hall.
  replace (entry yyPact q + t - entry yyPact q)%Z with t in Hall by lia.
  rewrite (bool_decide_eq_true_2 (t = t)) in Hall by done. apply (bool_decide_eq_true_1 (t ∈ ts)), Hall.
  apply list_elem_of_In, list_elem_of_fmap. exists (Z.to_nat (entry yyPact q + t)).
  split; [lia|]. apply elem_of_seq. lia.
Qed.

Lemma rule_of_unshifted q t :
  shift_of q t = None → (0 < entry yyDef q)%Z → rule_of q (Some t) = Some (entry yyDef q).
Proof.
  intros Ht Hd. unfold rule_of. assert (default_of q (Some t) = entry yyDef q) as ->
    by (unfold default_of; by rewrite bool_decide_eq_false_2 by lia).
  rewrite Ht, (bool_decide_eq_true_2 (0 < _)%Z) by done.
  by rewrite (bool_decide_eq_true_2 (None = None)), orb_true_r by done.
Qed.

Lemma rule_of_other q ts t :
  shifts_among q ts = true → t ∉ ts → (0 < entry yyDef q)%Z → rule_of q (Some t) = Some (entry yyDef q).
Proof. intros Hq Ht. by apply rule_of_unshifted, (shift_none q ts). Qed.

Lemma token_of_inj c c' : (yyPrivate ≤ c' < yyPrivate + yyTok2_len)%Z → (c' ≠ yyPrivate + 1)%Z →
  token_of c = token_of c' → c = c'.
Proof.
  unfold token_of, yyPrivate, yyTok2_len, yyEofCode. intros Hc Hne.
  rewrite (bool_decide_eq_false_2 (c' ≤ 0)%Z), (bool_decide_eq_true_2 (57344 ≤ c' < 57344 + 71)%Z) by lia.
  repeat case_bool_decide; lia.
Qed.

Section Runs.
Context `{RE : RegexpEngine, !UnicodeTable}.

Definition outcome : Type := go (Z * parser).
Implicit Types Q : outcome → Prop.

Definition runs (st : list yySymType) (t : option Z) (p : parser) Q : Prop :=
  ∀ y, driver_ok y p → yyS y = st → token y = t → Errflag y = 0%Z →
  ∃ fuel, yyParse fuel y p ≠ Panic out_of_fuel ∧ Q (yyParse fuel y p).

Lemma yyParse_more fuel more y p :
  yyParse fuel y p ≠ Panic out_of_fuel → yyParse (fuel + more) y p = yyParse fuel y p.
Proof.
  revert y p. induction fuel as [|fuel IH]; intros y p; [by intros []|]. cbn [Nat.add].
  rewrite !yyParse_step. destruct (yyturn y p) as [[[y'|c] p']|r]; [apply IH|done|done].
Qed.

(** One turn. *)
Lemma runs_turn st t p st' t' p' Q :
  (∀ y, driver_ok y p → yyS y = st → token y = t → Errflag y = 0%Z →
    ∃ y', yyturn y p = Done (Again y', p') ∧ yyS y' = st' ∧ token y' = t' ∧ Errflag y' = 0%Z) →
  runs st' t' p' Q → runs st t p Q.
Proof.
  intros Hturn Hrun y Hok Hst Ht Hf. destruct (Hturn y Hok Hst Ht Hf) as (y' & Hy & Hst' & Ht' & Hf').
  pose proof (yyturn_pays y p Hok) as Hpay. rewrite Hy in Hpay. destruct Hpay as (Hok' & _ & _).
  destruct (Hrun y' Hok' Hst' Ht' Hf') as (fuel & Hne & HQ). exists (S fuel). by rewrite yyParse_step, Hy.
Qed.

(** After an error nothing is promised but that the driver ends, with an
    error. *)
Lemma runs_errors st t p Q :
  parseErrors p ≠ [] →
  (∀ r, Q (Panic r)) → (∀ c p', parseErrors p' ≠ [] → Q (Done (c, p'))) → runs st t p Q.
Proof.
  intros Hp Hpanic Hdone y Hok _ _ _. set (fuel := S (Z.to_nat (potential y p))).
  destruct (yyParse_ends fuel y p Hok) as [Hne _]; [unfold fuel; lia|]. exists fuel. split; [done|].
  destruct (yyParse fuel y p) as [[c p']|r] eqn:Hy; [|done]. apply Hdone. intros He. apply Hp.
  by eapply yyParse_errors.
Qed.

Lemma idx_states (l : list Z) q n : length l = n → (0 ≤ q < Z.of_nat n)%Z → idx l q = Done (entry l q).
Proof.
  intros Hl Hq. unfold idx, entry. rewrite bool_decide_eq_true_2 by lia.
  destruct (l !! Z.to_nat q) eqn:Hlk; [by apply nth_lookup_Some with (d := 0%Z) in Hlk as ->|].
  apply lookup_ge_None in Hlk. lia.
Qed.

Lemma top_state y p v st : driver_ok y p → yyS y = v :: st → yystate y = yys v ∧ is_state (yys v).
Proof. intros [_ _ Ht Hs] E. rewrite E in *. injection Ht as <-. by inversion Hs. Qed.

Lemma pact_of q : is_state q → idx yyPact q = Done (entry yyPact q).
Proof. apply (idx_states yyPact q 252). by vm_compute. Qed.
Lemma def_of q : is_state q → idx yyDef q = Done (entry yyDef q).
Proof. apply (idx_states yyDef q 252). by vm_compute. Qed.
Lemma chk_of q : is_state q → idx yyChk q = Done (entry yyChk q).
Proof. apply (idx_states yyChk q 252). by vm_compute. Qed.
Lemma act_of n : (0 ≤ n < yyLast)%Z → idx yyAct n = Done (entry yyAct n).
Proof. apply (idx_states yyAct n (Z.to_nat yyLast)). by vm_compute. Qed.

(** A turn that looks at the token starts by reading it. *)
Lemma yyturn_read y p char p' :
  driver_ok y p → bool_decide (entry yyPact (yystate y) ≤ yyFlag)%Z = false → token y = None →
  parser_Lex p = Done (char, p') →
  yyturn y p = yyturn (with_token (Some (token_of char)) y) p' ∧
  driver_ok (with_token (Some (token_of char)) y) p'.
Proof.
  intros Hok Hq Ht Hlex. pose proof (ok_state _ _ Hok) as Hs.
  destruct (lookahead_looked y p (ok_ready _ _ Hok)) as (t & y' & p1 & Hl & Ht' & Hlook).
  assert (lookahead y p = Done (token_of char, with_token (Some (token_of char)) y, p')) as Hl'.
  { unfold lookahead. by rewrite Ht, (bind_Done _ _ _ _ _ Hlex). }
  rewrite Hl in Hl'. injection Hl' as -> -> ->. split; [|by apply (looked_ok _ _ _ _ Hlook Hok)].
  unfold yyturn. rewrite !bind_run. unfold try_shift. rewrite !bind_lift. cbn [yystate with_token].
  rewrite (pact_of _ Hs), Hq. by rewrite (bind_Done _ _ _ _ _ Hl).
Qed.

Lemma runs_read v st p char p' Q :
  bool_decide (entry yyPact (yys v) ≤ yyFlag)%Z = false → parser_Lex p = Done (char, p') →
  runs (v :: st) (Some (token_of char)) p' Q → runs (v :: st) None p Q.
Proof.
  intros Hq Hlex Hrun y Hok Hst Ht Hf. destruct (top_state y p v st Hok Hst) as [Hys _].
  destruct (yyturn_read y p char p' Hok) as [E Hok']; [by rewrite Hys|done..|].
  destruct (Hrun _ Hok' Hst eq_refl Hf) as (fuel & Hne & HQ).
  destruct fuel as [|fuel]; [by destruct Hne|]. exists (S fuel). by rewrite yyParse_step, E, <- yyParse_step.
Qed.

(** What runs from before the token runs from behind it. *)
Lemma runs_unread v st p char p' Q :
  bool_decide (entry yyPact (yys v) ≤ yyFlag)%Z = false → ready (lex p) → parser_Lex p = Done (char, p') →
  runs (v :: st) None p Q → runs (v :: st) (Some (token_of char)) p' Q.
Proof.
  intros Hq Hready Hlex Hrun y Hok Hst Ht Hf. destruct (top_state y p' v st Hok Hst) as [Hys _].
  assert (driver_ok (with_token None y) p) as Hok0 by (destruct Hok as [_ ? ? ?]; by constructor).
  destruct (yyturn_read (with_token None y) p char p' Hok0) as [E _]; [by cbn; rewrite Hys|done..|].
  assert (with_token (Some (token_of char)) (with_token None y) = y) as Ey by (destruct y; cbn in *; by subst).
  rewrite Ey in E. destruct (Hrun _ Hok0 Hst eq_refl Hf) as (fuel & Hne & HQ).
  destruct fuel as [|fuel]; [by destruct Hne|]. exists (S fuel). by rewrite yyParse_step, <- E, <- yyParse_step.
Qed.

(** A token is read to choose the rule. *)
Lemma runs_read_rule v st p char p' Q :
  bool_decide (entry yyPact (yys v) ≤ yyFlag)%Z = true → entry yyDef (yys v) = (-2)%Z →
  parser_Lex p = Done (char, p') →
  runs (v :: st) (Some (token_of char)) p' Q → runs (v :: st) None p Q.
Proof.
  intros Hq Hd Hlex Hrun y Hok Hst Ht Hf. destruct (top_state y p v st Hok Hst) as [Hys Hs].
  destruct (lookahead_looked y p (ok_ready _ _ Hok)) as (t & y' & p1 & Hl & Ht' & Hlook).
  assert (lookahead y p = Done (token_of char, with_token (Some (token_of char)) y, p')) as Hl'.
  { unfold lookahead. by rewrite Ht, (bind_Done _ _ _ _ _ Hlex). }
  rewrite Hl in Hl'. injection Hl' as -> -> ->. pose proof (looked_ok _ _ _ _ Hlook Hok) as Hok'.
  destruct (Hrun _ Hok' Hst eq_refl Hf) as (fuel & Hne & HQ).
  destruct fuel as [|fuel]; [by destruct Hne|]. exists (S fuel).
  assert (yyturn y p = yyturn (with_token (Some (token_of char)) y) p') as E;
    [|by rewrite yyParse_step, E, <- yyParse_step].
  assert (∀ z p, yystate z = yys v → try_shift z p = Done (None, z, p)) as Hshift.
  { intros z q Hz. unfold try_shift. by rewrite bind_lift, Hz, (pact_of _ Hs), Hq. }
  unfold yyturn. rewrite !bind_run, !Hshift by done. cbv beta iota.
  rewrite !bind_run. unfold default_rule. rewrite !bind_lift. cbn [yystate with_token].
  rewrite Hys, (def_of _ Hs), Hd, (bool_decide_eq_true_2 (-2 = -2)%Z) by done.
  by rewrite (bind_Done _ _ _ _ _ Hl).
Qed.

Lemma try_shift_known y p v st t :
  driver_ok y p → yyS y = v :: st → token y = Some t → 
  try_shift y p =
    match shift_of (yys v) t with
    | Some s => Done (Some (yystack (MkYY (yyS y) (above y) (with_item (itemp (lex p)) zero_sym) s None
                  (if bool_decide (0 < Errflag y)%Z then Errflag y - 1 else Errflag y)%Z)), y, p)
    | None => Done (None, y, p)
    end.
Proof.
  intros Hok Hst Ht. destruct (top_state y p v st Hok Hst) as [Hys Hs].
  unfold try_shift, shift_of. rewrite bind_lift, Hys, (pact_of _ Hs).
  case_bool_decide; [done|]. unfold lookahead. rewrite Ht.
  rewrite (bind_Done _ _ _ (t, y) p) by done. cbv beta iota zeta.
  destruct (bool_decide_reflect (entry yyPact (yys v) + t < 0)%Z); [done|].
  destruct (bool_decide_reflect (yyLast ≤ entry yyPact (yys v) + t)%Z); [done|]. cbn [orb].
  rewrite bind_lift, act_of by lia.
  assert (is_state (entry yyAct (entry yyPact (yys v) + t))) as Hs'.
  { apply act_states. eapply idx_elem. apply act_of. lia. }
  rewrite bind_lift, chk_of by done. by case_bool_decide.
Qed.

(** The value a shift pushes. *)
Definition leaf (s : Z) (i : Item) : yySymType := MkSym s None i None None [] 0.

Lemma runs_shift v st t p s Q :
  shift_of (yys v) t = Some s →
  runs (leaf s (itemp (lex p)) :: v :: st) None p Q → runs (v :: st) (Some t) p Q.
Proof.
  intros Hs. apply runs_turn. intros y Hok Hst Ht Hf. eexists. split.
  - unfold yyturn. rewrite bind_run, (try_shift_known y p v st t Hok Hst Ht), Hs. done.
  - cbn. rewrite Hst, Hf. done.
Qed.

(** A reduction: the action runs on the popped values [vs], and on what is
    left above the stack when there are none. *)
Lemma runs_reduce_values vs below st t p n nt s Q :
  rule_of (yys (hd below vs)) t = Some n → idx yyR2 n = Done (Z.of_nat (length vs)) → idx yyR1 n = Done nt →
  goto_state nt (yys below) = Done s →
  (∀ a, ∃ w p', action n (λ i, nth (Z.to_nat i - 1) (rev vs) zero_sym) (hd zero_sym (rev vs ++ a)) p =
       Done (w, p') ∧ runs (with_yys s w :: below :: st) t p' Q) →
  runs (vs ++ below :: st) t p Q.
Proof.
  intros Hrule Hk Hnt Hg Hact y Hok Hst Ht Hf. destruct (Hact (above y)) as (w & p' & Hw & Hrun).
  assert (∃ v st', yyS y = v :: st' ∧ v = hd below vs) as (v & st' & Hst' & ->) by (destruct vs; eauto).
  destruct (top_state y p _ _ Hok Hst') as [Hys Hs]. set (v := hd below vs) in *.
  assert (∃ y', yyturn y p = Done (Again y', p') ∧ yyS y' = with_yys s w :: below :: st ∧ token y' = t ∧
    Errflag y' = 0%Z) as (y' & Hy & Hst2 & Ht' & Hf').
  { assert (try_shift y p = Done (None, y, p) ∧ default_rule y p = Done (n, y, p) ∧ (0 < n)%Z) as (Hsh & Hdef & Hn).
    { unfold rule_of in Hrule. destruct (_ && _) eqn:Hc; [|done]. injection Hrule as <-.
      apply andb_true_iff in Hc as [H0%bool_decide_eq_true Hc].
      split; [|split; [|done]].
      - apply orb_true_iff in Hc as [Hc|Hc].
        + unfold try_shift. rewrite bind_lift, Hys, (pact_of _ Hs), Hc. done.
        + destruct t as [t|]; [|done]. apply bool_decide_eq_true in Hc.
          by rewrite (try_shift_known y p _ _ t Hok Hst' Ht), Hc.
      - unfold default_rule. rewrite bind_lift, Hys, (def_of _ Hs). revert H0. unfold default_of.
        destruct (bool_decide_reflect (entry yyDef (yys v) = -2)%Z); [|intros _; reflexivity].
        destruct t as [t|]; [|done]. unfold lookahead. rewrite Ht.
        rewrite (bind_Done _ _ _ (t, y) p) by done. cbv beta iota. rewrite !bind_lift, Hys.
        destruct (exca_state yyExca (yys v)) as [l|]; [|done]. cbn [mbind go_bind]. rewrite bind_lift.
        by destruct (exca_token l t). }
    eexists. split.
    - unfold yyturn. rewrite bind_run, Hsh. cbv beta iota. rewrite bind_run, Hdef. cbv beta iota.
      rewrite !bool_decide_eq_false_2 by lia. rewrite bind_run. unfold yyreduce. rewrite bind_lift, Hk.
      rewrite bind_lift, Hnt, Nat2Z.id, Hst, take_app_length, drop_app_length.
      rewrite bind_lift, Hg, bind_run, Hw. done.
    - by cbn. }
  pose proof (yyturn_pays y p Hok) as Hpay. rewrite Hy in Hpay. destruct Hpay as (Hok' & _ & _).
  destruct (Hrun y' Hok' Hst2 Ht' Hf') as (fuel & Hne & HQ). exists (S fuel). by rewrite yyParse_step, Hy.
Qed.

Lemma runs_reduce v vs below st t p n nt s Q :
  rule_of (yys v) t = Some n → idx yyR2 n = Done (Z.of_nat (S (length vs))) → idx yyR1 n = Done nt →
  goto_state nt (yys below) = Done s →
  (∃ w p', action n (λ i, nth (Z.to_nat i - 1) (rev (v :: vs)) zero_sym) (hd zero_sym (rev (v :: vs))) p =
       Done (w, p') ∧ runs (with_yys s w :: below :: st) t p' Q) →
  runs (v :: vs ++ below :: st) t p Q.
Proof.
  intros Hr H2 H1 Hg (w & p' & Hw & Hrun). apply (runs_reduce_values (v :: vs) below st t p n nt s); [done..|].
  intros a. exists w, p'. split; [|done]. rewrite <- Hw. cbn [rev]. by destruct (rev vs).
Qed.

(** The reduction of an empty production. *)
Lemma runs_reduce_empty below st t p n nt s Q :
  rule_of (yys below) t = Some n → idx yyR2 n = Done 0%Z → idx yyR1 n = Done nt →
  goto_state nt (yys below) = Done s →
  (∀ v, ∃ w p', action n (λ i, nth (Z.to_nat i - 1) [] zero_sym) v p = Done (w, p') ∧ runs (with_yys s w :: below :: st) t p' Q) →
  runs (below :: st) t p Q.
Proof.
  intros Hr H2 H1 Hg Hact. apply (runs_reduce_values [] below st t p n nt s); [done..|]. intros a.
  destruct (Hact (hd zero_sym ([] ++ a))) as (w & p' & Hw & Hrun). exists w, p'. split; [|done].
  by rewrite <- Hw.
Qed.

(** The end: state 1 accepts the end of the input. *)
Lemma runs_accept v st p Q :
  yys v = 1%Z → Q (Done (0%Z, p)) → runs (v :: st) (Some yyEofCode) p Q.
Proof.
  intros Hv HQ y Hok Hst Ht Hf. destruct (top_state y p _ _ Hok Hst) as [Hys Hs].
  exists 1. rewrite yyParse_step.
  assert (yyturn y p = Done (Return 0, p)) as ->; [|done].
  unfold yyturn. rewrite bind_run, (try_shift_known y p _ _ _ Hok Hst Ht), Hv.
  change (shift_of 1 yyEofCode) with (@None Z). cbv iota beta. rewrite bind_run.
  unfold default_rule. rewrite bind_lift, Hys, Hv. cbn [idx].
  rewrite (def_of 1) by (unfold is_state; lia). change (bool_decide (entry yyDef 1 = -2)%Z) with true.
  cbv iota. unfold lookahead. rewrite Ht. rewrite (bind_Done _ _ _ (yyEofCode, y) p) by done.
  cbv beta iota. rewrite bind_lift, Hys, Hv. done.
Qed.

(** ** Tokens *)

(** A parser without errors whose lexer is [l]. *)
Record at_lex (l : Lexer) (g : option node) (p : parser) : Prop := AtLex {
  al_lex : lex p = l;
  al_injecting : injecting p = false;
  al_errors : parseErrors p = [];
  al_result : generatedParserResult p = g;
}.

#[local] Arguments NextItem : simpl never.

Lemma next_item_at l l' g p fuel :
  at_lex l g p → NextItem l = Some l' → Typ (itemp l') ≠ COMMENT →
  next_item (S fuel) p = Done (itemp l', with_lex l' p).
Proof.
  intros [Hl _ _ _] Hn Hc. cbn. rewrite bind_get, Hl, Hn, (bind_Done _ _ _ tt (with_lex l' p)) by done.
  by rewrite bool_decide_eq_false_2.
Qed.

#[local] Arguments next_item : simpl never.

Lemma parser_Lex_token l l' g p :
  at_lex l g p → NextItem l = Some l' → Typ (itemp l') ∉ [COMMENT; ERROR; EOF] →
  ∃ p', parser_Lex p = Done (Typ (itemp l'), p') ∧ at_lex l' g p'.
Proof.
  intros Hat Hn Ht. rewrite !not_elem_of_cons in Ht. destruct Ht as (Hc & He & Hf & _).
  pose proof (next_item_at l l' g p (S (remaining (lex p))) Hat Hn Hc) as Hi.
  destruct Hat as [Hl Hj Her Hg]. unfold parser_Lex. rewrite bind_get, Hj, bind_get, (bind_Done _ _ _ _ _ Hi).
  rewrite !bool_decide_eq_false_2 by done.
  case_bool_decide; (eexists; split; [reflexivity|by constructor]).
Qed.

Lemma parser_Lex_error l l' g p :
  at_lex l g p → NextItem l = Some l' → Typ (itemp l') = ERROR →
  ∃ c p', parser_Lex p = Done (c, p') ∧ parseErrors p' ≠ [].
Proof.
  intros Hat Hn Ht.
  pose proof (next_item_at l l' g p (S (remaining (lex p))) Hat Hn ltac:(by rewrite Ht)) as Hi.
  destruct Hat as [Hl Hj Her Hg]. unfold parser_Lex. rewrite bind_get, Hj, bind_get, (bind_Done _ _ _ _ _ Hi).
  rewrite Ht. eexists _, _. split; [reflexivity|]. cbn. by destruct (parseErrors p).
Qed.

(** The end of the input: the parser makes up tokens from now on. *)
Record at_end (g : option node) (p : parser) : Prop := AtEnd {
  ae_inject : inject p = 0%Z;
  ae_injecting : injecting p = true;
  ae_errors : parseErrors p = [];
  ae_result : generatedParserResult p = g;
}.

Lemma parser_Lex_end l l' g p :
  at_lex l g p → NextItem l = Some l' → Typ (itemp l') = EOF →
  ∃ p', parser_Lex p = Done (EOF, p') ∧ at_end g p'.
Proof.
  intros Hat Hn Ht.
  pose proof (next_item_at l l' g p (S (remaining (lex p))) Hat Hn ltac:(by rewrite Ht)) as Hi.
  destruct Hat as [Hl Hj Her Hg]. unfold parser_Lex. rewrite bind_get, Hj, bind_get, (bind_Done _ _ _ _ _ Hi).
  rewrite Ht. eexists. split; [reflexivity|]. by constructor.
Qed.

Lemma parser_Lex_injected g p :
  at_end g p → ∃ p', parser_Lex p = Done (0%Z, p') ∧ parseErrors p' = [] ∧ generatedParserResult p' = g.
Proof.
  intros [Hi Hj He Hg]. unfold parser_Lex. rewrite bind_get, Hj, bind_get, Hi. by eexists.
Qed.

(** A token is read and shifted. *)
Lemma runs_token v st p l g l' t s Q :
  at_lex l g p → NextItem l = Some l' → Typ (itemp l') = t →
  bool_decide (t ∈ [COMMENT; ERROR; EOF]) = false →
  bool_decide (entry yyPact (yys v) ≤ yyFlag)%Z = false → shift_of (yys v) (token_of t) = Some s →
  (∀ p', at_lex l' g p' → runs (leaf s (itemp l') :: v :: st) None p' Q) → runs (v :: st) None p Q.
Proof.
  intros Hat Hn <- Ht%bool_decide_eq_false Hq Hs Hrun.
  destruct (parser_Lex_token l l' g p Hat Hn Ht) as (p' & Hlex & Hat').
  apply (runs_read v st p _ p' Q Hq Hlex). apply (runs_shift v st _ p' s Q Hs).
  rewrite (al_lex _ _ _ Hat'). by apply Hrun.
Qed.

(** ** Matchers *)
Definition bad Q : Prop := (∀ r, Q (Panic r)) ∧ (∀ c p', parseErrors p' ≠ [] → Q (Done (c, p'))).

(** A matcher that the parser can have read. *)
Definition operator_of (t : Labels.MatchType) : string * Z :=
  match t with
  | Labels.MatchEqual => ("=", EQL)
  | Labels.MatchNotEqual => ("!=", NEQ)
  | Labels.MatchRegexp => ("=~", EQL_REGEX)
  | Labels.MatchNotRegexp => ("!~", NEQ_REGEX)
  | Labels.MatchTypeOther _ => ("", 0%Z)
  end.
Definition printable (m : Labels.Matcher) : Prop := Labels.wf m ∧ isLabel (Labels.Name m) = true.

Lemma matcher_text m :
  Labels.wf m →
  Labels.String_ m = Labels.Name m +:+ (operator_of (Labels.Type_ m)).1 +:+ Quote (Labels.Value m) ∧
  operator_of (Labels.Type_ m) ∈ operators ∧
  match_type (operator_of (Labels.Type_ m)).2 = Some (Labels.Type_ m).
Proof.
  intros [_ Ht]. unfold Labels.String_. destruct (Labels.Type_ m); cbn in *; try done;
    (split; [done|split; [member|done]]).
Qed.

(** The operator states, and the rules that reduce them. *)
Definition operator_state (t : Z) : Z * Z :=
  (if bool_decide (t = EQL) then (153, 167) else if bool_decide (t = NEQ) then (154, 168)
   else if bool_decide (t = EQL_REGEX) then (155, 169) else (156, 170))%Z.

Lemma runs_operator op t i st p Q v :
  (op, t) ∈ operators → yys v = 106%Z →
  runs (leaf 151 i :: v :: st) None p Q → runs (leaf (operator_state t).1 i :: v :: st) None p Q.
Proof.
  intros Hop Hv Hrun. 
  repeat (apply elem_of_cons in Hop as [[= -> ->]|Hop];
    [eapply (runs_reduce _ []); [reflexivity|reflexivity|reflexivity|rewrite Hv; reflexivity|];
     eexists _, _; split; [reflexivity|exact Hrun]|]).
  inversion Hop.
Qed.

Lemma newLabelMatcher_printed m label op value p :
  Labels.wf m → Val label = Labels.Name m → Typ op = (operator_of (Labels.Type_ m)).2 →
  Val value = Quote (Labels.Value m) → newLabelMatcher label op value p = Done (Some m, p).
Proof.
  intros Hwf Hl Ho Hv. pose proof (matcher_text m Hwf) as (_ & _ & Ht). destruct Hwf as [Hnew _].
  unfold newLabelMatcher, unquoteString. rewrite Hv, Unquote_quoted.
  rewrite (bind_Done _ _ _ (Labels.Value m) p) by done. by rewrite Ho, Ht, Hl, Hnew.
Qed.

Lemma newLabelMatcher_bad label op value p t :
  Unquote (Val value) = None → match_type (Typ op) = Some t →
  ∃ m p', newLabelMatcher label op value p = Done (m, p') ∧ parseErrors p' ≠ [].
Proof.
  intros Hv Ho.
  assert (∃ p1, unquoteString (Val value) p = Done (EmptyString, p1) ∧ parseErrors p1 ≠ []) as (p1 & Hu & He).
  { unfold unquoteString. rewrite Hv. eexists. split; [reflexivity|]. cbn. by destruct (parseErrors p). }
  unfold newLabelMatcher. rewrite (bind_Done _ _ _ _ _ Hu), Ho.
  destruct (Labels.NewMatcher t (Val label) EmptyString); eexists _, _; (split; [reflexivity|]); [done|].
  cbn. by destruct (parseErrors p1).
Qed.

Definition matcher_state (q : Z) : Z := if bool_decide (q = 66)%Z then 105%Z else 223%Z.

(** The token of the value, with the operator and the label on the stack:
    the reduction builds the matcher. *)
Lemma runs_value v st label op l2 l3 g p Q :
  yys v ∈ [66; 149]%Z → at_lex l2 g p → NextItem l2 = Some l3 → Typ (itemp l3) = STRING →
  (∀ p3, at_lex l3 g p3 →
    ∃ w p4, newLabelMatcher label op (itemp l3) p3 = Done (w, p4) ∧
      runs (with_yys (matcher_state (yys v)) (with_matcher w (leaf 106 label)) :: v :: st) None p4 Q) →
  runs (leaf 151 op :: leaf 106 label :: v :: st) None p Q.
Proof.
  intros Hv Hat2 Hn3 Ht3 Hnew.
  apply (runs_token _ _ p l2 g l3 STRING 224 Q Hat2 Hn3 Ht3); [reflexivity..|]. intros p3 Hat3.
  destruct (Hnew p3 Hat3) as (w & p4 & Hw & Hr).
  eapply (runs_reduce _ [leaf 151 op; leaf 106 label] v st None p3 83 _ (matcher_state (yys v)));
    [reflexivity..| |].
  - clear -Hv. repeat (apply elem_of_cons in Hv as [->|Hv]; [reflexivity|]). inversion Hv.
  - eexists _, p4. split; [|exact Hr].
    change (action 83 _ _ _) with ((newLabelMatcher label op (itemp l3) ≫=
      (λ m, mret (with_matcher m (leaf 106 label)))) p3).
    by rewrite (bind_Done _ _ _ _ _ Hw).
Qed.

Lemma runs_matcher m v st d R l g p Q :
  printable m → yys v ∈ [66; 149]%Z → at_lex l g p → at_token d Inside (Labels.String_ m +:+ R) l →
  (plain (Labels.Value m) = false → bad Q) →
  (∀ w p' l', matcher w = Some m → yys w = matcher_state (yys v) → at_token d Inside R l' → at_lex l' g p' →
     runs (w :: v :: st) None p' Q) →
  runs (v :: st) None p Q.
Proof.
  intros [Hwf Hlabel] Hv Hat Htok Hbad Hrun.
  destruct (matcher_text m Hwf) as (Htext & Hop & Hmt). rewrite Htext, !string_app_assoc in Htok.
  set (op := operator_of (Labels.Type_ m)) in *.
  assert (stops isAlphaNumeric (op.1 +:+ Quote (Labels.Value m) +:+ R)) as Hstop.
  { clear -Hop. destruct op as [o t]. cbn [fst].
    repeat (apply elem_of_cons in Hop as [[= -> ->]|Hop]; [by split|]). inversion Hop. }
  destruct (lexes_label _ _ _ l Hlabel Hstop Htok) as (l1 & Hn1 & Ht1 & Hv1 & Htok1).
  assert (bool_decide (entry yyPact (yys v) ≤ yyFlag)%Z = false ∧
          shift_of (yys v) (token_of IDENTIFIER) = Some 106%Z) as [Hq Hs].
  { repeat (apply elem_of_cons in Hv as [->|Hv]; [by split|]). inversion Hv. }
  apply (runs_token v st p l g l1 IDENTIFIER 106 Q Hat Hn1 Ht1); [reflexivity|done|done|]. intros p1 Hat1.
  rewrite quote_text in Htok1.
  assert ((op.1, op.2) ∈ operators) as Hop' by (by destruct op).
  destruct (lexes_operator _ op.1 op.2 _ l1 Hop' Htok1) as (l2 & Hn2 & Ht2 & Hv2 & Htok2).
  assert (bool_decide (op.2 ∈ [COMMENT; ERROR; EOF]) = false ∧
          shift_of 106 (token_of op.2) = Some (operator_state op.2).1) as [Ho1 Ho2].
  { clear -Hop. destruct op as [o t]. cbn [snd].
    repeat (apply elem_of_cons in Hop as [[= -> ->]|Hop]; [by split|]). inversion Hop. }
  apply (runs_token (leaf 106 (itemp l1)) _ p1 l1 g l2 op.2 (operator_state op.2).1 Q Hat1 Hn2 Ht2 Ho1 eq_refl Ho2).
  intros p2 Hat2. apply (runs_operator op.1 op.2); [done|reflexivity|].
  rewrite <- quote_text in Htok2.
  destruct (lexes_value _ _ _ l2 Htok2) as (l3 & Hn3 & Hcase).
  destruct Hcase as [(Ht3 & Hv3 & Htok3)|[Hnp [Ht3|[Ht3 Hun]]]].
  - apply (runs_value v st _ _ l2 l3 g p2 Q Hv Hat2 Hn3 Ht3). intros p3 Hat3. eexists _, p3. split.
    + by apply newLabelMatcher_printed.
    + by apply (Hrun _ p3 l3).
  - destruct (parser_Lex_error l2 l3 g p2 Hat2 Hn3 Ht3) as (c & p3 & Hlex & Herr).
    destruct (Hbad Hnp). by apply (runs_read _ _ _ c p3); [reflexivity|done|apply runs_errors].
  - apply (runs_value v st _ _ l2 l3 g p2 Q Hv Hat2 Hn3 Ht3). intros p3 Hat3. destruct (Hbad Hnp).
    destruct (newLabelMatcher_bad (itemp l1) (itemp l2) (itemp l3) p3 (Labels.Type_ m)) as (w & p4 & Hw & Herr);
      [done|by rewrite Ht2|].
    exists w, p4. split; [done|]. by apply runs_errors.
Qed.

(** The list of matchers: state 103 holds those read so far. *)
Fixpoint tail_text (ms : list Labels.Matcher) : string :=
  match ms with [] => EmptyString | m :: ms => "," +:+ Labels.String_ m +:+ tail_text ms end.
Lemma Join_tail m ms : Join (Labels.String_ <$> (m :: ms)) "," = Labels.String_ m +:+ tail_text ms.
Proof.
  revert m. induction ms as [|m' ms IH]; intros m; [by cbn; rewrite string_app_nil_r|].
  rewrite !fmap_cons, Join_cons by done. rewrite <- fmap_cons, IH. done.
Qed.

Definition all_plain (ms : list Labels.Matcher) : bool := forallb (λ m, plain (Labels.Value m)) ms.

Lemma all_plain_cons m ms : all_plain (m :: ms) = plain (Labels.Value m) && all_plain ms.
Proof. reflexivity. Qed.

Lemma runs_list ms done v b st d R l g p Q :
  Forall printable ms → yys v = 103%Z → matchers v = Some (Some <$> done) → yys b = 66%Z →
  at_lex l g p → at_token d Inside (tail_text ms +:+ R) l → (all_plain ms = false → bad Q) →
  (∀ v' p' l', yys v' = 103%Z → matchers v' = Some (Some <$> (done ++ ms)) → at_token d Inside R l' →
     at_lex l' g p' → runs (v' :: b :: st) None p' Q) →
  runs (v :: b :: st) None p Q.
Proof.
  intros Hms. revert done v l p. induction Hms as [|m ms Hm _ IH]; intros done v l p Hv Hvs Hb Hat Htok Hbad Hrun.
  { apply (Hrun v p l); rewrite ?app_nil_r; done. }
  cbn [tail_text] in Htok. rewrite !string_app_assoc, string_app_cons, string_app_nil_l in Htok.
  destruct (lexes_comma _ _ l Htok) as (l1 & Hn1 & Ht1 & _ & Htok1).
  apply (runs_token v (b :: st) p l g l1 COMMA 149 Q Hat Hn1 Ht1); [reflexivity|by rewrite Hv..|].
  intros p1 Hat1. eapply (runs_matcher m (leaf 149 (itemp l1))); [exact Hm|cbn; member|exact Hat1|exact Htok1| |].
  { intros Hp. apply Hbad. rewrite all_plain_cons. by rewrite Hp. }
  intros w p2 l2 Hw Hws Htok2 Hat2.
  eapply (runs_reduce w [leaf 149 (itemp l1); v] b st None p2 80 _ 103);
    [by rewrite Hws|reflexivity|reflexivity|by rewrite Hb|].
  eexists _, p2. split.
  - change (action 80 _ _ p2) with (action_matchers 80
      (λ i, nth (Z.to_nat i - 1) [v; leaf 149 (itemp l1); w] zero_sym) v p2).
    unfold action_matchers. change (nth (Z.to_nat 1 - 1) _ _) with v. rewrite Hvs. reflexivity.
  - apply (IH (done ++ [m]) _ l2 p2); [done| |done|done|done| |].
    + transitivity (Some ((Some <$> done) ++ [matcher w])); [reflexivity|]. by rewrite Hw, fmap_app.
    + intros Hp. apply Hbad. rewrite all_plain_cons. by rewrite Hp, andb_false_r.
    + intros v' p' l'. rewrite <- app_assoc. apply Hrun.
Qed.

(** From behind the opening brace to the node of the selector. *)
Lemma runs_braces m ms i below st d R l g p Q s :
  Forall printable (m :: ms) → goto_state 32 (yys below) = Done s →
  at_lex l g p → at_token d Inside (Join (Labels.String_ <$> (m :: ms)) "," +:+ "}" +:+ R) l →
  (all_plain (m :: ms) = false → bad Q) →
  (∀ w r p' l', yys w = s → node_ w = Some (NVectorSelector EmptyString 0 (Some <$> (m :: ms)) r) →
     at_token d Outside R l' → at_lex l' g p' → runs (w :: below :: st) None p' Q) →
  runs (leaf 66 i :: below :: st) None p Q.
Proof.
  intros Hms Hg Hat Htok Hbad Hrun. inversion Hms as [|?? Hm Hms']; subst.
  rewrite Join_tail, !string_app_assoc in Htok.
  eapply (runs_matcher m (leaf 66 i)); [exact Hm|cbn; member|exact Hat|exact Htok| |].
  { intros Hp. apply Hbad. rewrite all_plain_cons. by rewrite Hp. }
  intros w p2 l2 Hw Hws Htok2 Hat2.
  eapply (runs_reduce w [] (leaf 66 i) _ None p2 81 _ 103); [by rewrite Hws|reflexivity..|].
  eexists _, p2. split; [reflexivity|].
  eapply (runs_list ms [m]); [exact Hms'|reflexivity|transitivity (Some [matcher w]); [reflexivity|by rewrite Hw]
    |reflexivity|exact Hat2|exact Htok2| |].
  { intros Hp. apply Hbad. rewrite all_plain_cons. by rewrite Hp, andb_false_r. }
  intros v p3 l3 Hv Hvs Htok3 Hat3. rewrite string_app_cons, string_app_nil_l in Htok3.
  destruct (lexes_close _ _ l3 Htok3) as (l4 & Hn4 & Ht4 & _ & Htok4).
  apply (runs_token v _ p3 l3 g l4 RIGHT_BRACE 148 Q Hat3 Hn4 Ht4); [reflexivity|by rewrite Hv..|].
  intros p4 Hat4.
  eapply (runs_reduce _ [v; leaf 66 i] below st None p4 77 _ s); [reflexivity..|exact Hg|].
  eexists _, p4. split; [reflexivity|]. eapply Hrun; [done| |exact Htok4|exact Hat4].
  match goal with |- _ = Some (NVectorSelector _ _ _ ?r) =>
    transitivity (Some (NVectorSelector EmptyString 0 (default [] (matchers v)) r)) end;
    [reflexivity|by rewrite Hvs].
Qed.

(** ** What follows

    [follows g d R c K]: on the text [R], under [d] parentheses, the parser
    reads the token [c] and is left in [K].  [ahead]: that token has been
    read, or comes next. *)
Definition follows (g : option node) (d : Z) (R : string) (c : Z) (K : parser → Prop) : Prop :=
  ∀ l p, at_lex l g p → at_token d Outside R l → ∃ p', parser_Lex p = Done (c, p') ∧ K p'.
Definition ahead g d R c K (t : option Z) (p : parser) : Prop :=
  t = Some (token_of c) ∧ K p ∨ t = None ∧ ∃ l, at_lex l g p ∧ at_token d Outside R l.

Lemma runs_ahead v st g d R c K t p Q :
  bool_decide (entry yyPact (yys v) ≤ yyFlag)%Z = false → follows g d R c K → ahead g d R c K t p →
  (∀ p', K p' → runs (v :: st) (Some (token_of c)) p' Q) → runs (v :: st) t p Q.
Proof.
  intros Hq Hf [[-> HK]|[-> (l & Hat & Htok)]] Hrun; [by apply Hrun|].
  destruct (Hf l p Hat Htok) as (p' & Hlex & HK). by eapply runs_read; [..|apply Hrun].
Qed.

(** A token that leaves the lexer in [J]. *)
Definition after_token g (J : Lexer → Prop) (p : parser) : Prop := ∃ l, at_lex l g p ∧ J l.

Lemma follows_token g d R c J :
  bool_decide (c ∈ [COMMENT; ERROR; EOF]) = false →
  (∀ l, at_token d Outside R l → lexes l (λ l', Typ (itemp l') = c ∧ J l')) →
  follows g d R c (after_token g J).
Proof.
  intros Hc%bool_decide_eq_false Hlex l p Hat Htok. destruct (Hlex l Htok) as (l' & Hn & Ht & HJ).
  destruct (parser_Lex_token l l' g p Hat Hn) as (p' & Hl & Hat'); [by rewrite Ht|].
  exists p'. rewrite <- Ht. split; [done|]. by exists l'.
Qed.

Lemma follows_end g : follows g 0 EmptyString EOF (at_end g).
Proof.
  intros l p Hat Htok. destruct (lexes_end l Htok) as (l' & Hn & Ht). by eapply parser_Lex_end.
Qed.
Definition ended g : option Z → parser → Prop := ahead g 0 EmptyString EOF (at_end g).

Lemma runs_ended v st g t p Q :
  bool_decide (entry yyPact (yys v) ≤ yyFlag)%Z = false → ended g t p →
  (∀ p', at_end g p' → runs (v :: st) (Some (token_of EOF)) p' Q) → runs (v :: st) t p Q.
Proof. intros Hq. by apply runs_ahead, follows_end. Qed.

(** ** Selectors *)

(** The states where an expression starts, and the state of the start
    symbol of a selector. *)
Definition expr_states : list Z := [4; 48; 50; 98; 114; 221]%Z ++ (Z.of_nat <$> seq 119 14).
Definition after_selector (q : Z) : Z := if bool_decide (q = 5)%Z then 67%Z else 44%Z.

Record selector_state (q : Z) : Prop := SelectorState {
  ss_reads : bool_decide (entry yyPact q ≤ yyFlag)%Z = false;
  ss_identifier : shift_of q (token_of IDENTIFIER) = Some (if bool_decide (q = 5)%Z then 16 else 46)%Z;
  ss_metric : shift_of q (token_of METRIC_IDENTIFIER) = Some 21%Z;
  ss_open : shift_of q (token_of LEFT_BRACE) = Some 66%Z;
  ss_name : goto_state 7 q = Done 51%Z;
  ss_braces : goto_state 32 q = Done 52%Z;
  ss_selector : goto_state 41 q = Done (after_selector q);
}.

Lemma selector_states q : q ∈ (5 :: expr_states)%Z → selector_state q.
Proof.
  intros Hq. repeat (apply elem_of_cons in Hq as [->|Hq]; [constructor; vm_compute; reflexivity|]). inversion Hq.
Qed.

(** A metric name; a parenthesis behind it would make it a function. *)
Lemma runs_name v st name d R g c K l p Q :
  yys v ∈ (5 :: expr_states)%Z → is_name name = true → stops name_rune R → c ≠ LEFT_PAREN →
  at_lex l g p → at_token d Outside (name +:+ R) l → follows g d R c K →
  (∀ w t p', yys w = 51%Z → Val (item w) = name → ahead g d R c K t p' → runs (w :: v :: st) t p' Q) →
  runs (v :: st) None p Q.
Proof.
  intros Hv%selector_states Hname Hstops Hc Hat Htok Hf Hrun.
  destruct (lexes_name d name R l Hname Hstops Htok) as (l1 & Hn1 & Ht1 & Hv1 & Htok1).
  assert (∀ s n p1, at_lex l1 g p1 → rule_of s None = Some n → idx yyR2 n = Done 1%Z → idx yyR1 n = Done 7%Z →
    (∀ d v p, action n d v p = Done (v, p)) → runs (leaf s (itemp l1) :: v :: st) None p1 Q) as Hreduce.
  { intros s n p1 Hat1 Hr H2 H1 Ha. eapply (runs_reduce _ [] v st None p1 n); [done|done|done|apply Hv|].
    eexists _, p1. split; [apply Ha|]. apply Hrun; [done|done|]. right. split; [done|]. by exists l1. }
  destruct Ht1 as [Ht1|Ht1].
  - pose proof (ss_identifier _ Hv) as Hs. case_bool_decide.
    + apply (runs_token v st p l g l1 IDENTIFIER 16 Q Hat Hn1 Ht1); [reflexivity|apply Hv|done|].
      intros p1 Hat1. by apply (Hreduce 16%Z 94%Z p1).
    + apply (runs_token v st p l g l1 IDENTIFIER 46 Q Hat Hn1 Ht1); [reflexivity|apply Hv|done|].
      intros p1 Hat1. destruct (Hf l1 p1 Hat1 Htok1) as (p2 & Hlex & HK).
      eapply runs_read; [reflexivity|exact Hlex|].
      eapply (runs_reduce _ [] v st _ p2 94); [|reflexivity|reflexivity|apply Hv|].
      { apply (rule_of_other 46 [token_of LEFT_PAREN]); [by vm_compute| |by vm_compute].
        rewrite list_elem_of_singleton. intros E. by apply token_of_inj in E. }
      eexists _, p2. split; [reflexivity|]. apply Hrun; [done|done|by left].
  - apply (runs_token v st p l g l1 METRIC_IDENTIFIER 21 Q Hat Hn1 Ht1); [reflexivity|apply Hv..|].
    intros p1 Hat1. by apply (Hreduce 21%Z 99%Z p1).
Qed.

Definition name_matcher (name : string) : Labels.Matcher :=
  Labels.MkMatcher Labels.MatchEqual Labels.MetricName name None.

Lemma assemble_named name ms :
  name ≠ EmptyString → assembleVectorSelector name ms = Done (ms ++ [Some (name_matcher name)]).
Proof. intros Hn. unfold assembleVectorSelector. by rewrite bool_decide_eq_true_2. Qed.

Lemma is_name_nonempty name : is_name name = true → name ≠ EmptyString.
Proof. by intros Hn ->. Qed.

(** The text of a selector: its name, if it has one, and its other matchers
    in braces. *)
Definition braces_text (ms : list Labels.Matcher) : string := "{" +:+ Join (Labels.String_ <$> ms) "," +:+ "}".
Definition selector_body (name : string) (k : list Labels.Matcher) : string :=
  name +:+ match k with [] => EmptyString | _ => braces_text k end.
Definition named (name : string) (k : list Labels.Matcher) : list Labels.Matcher :=
  if bool_decide (name = EmptyString) then k else k ++ [name_matcher name].

Lemma follows_open g d R : follows g d ("{" +:+ R) LEFT_BRACE (after_token g (at_token d Inside R)).
Proof.
  apply follows_token; [done|]. intros l Htok. destruct (lexes_open d R l Htok) as (l' & Hn & Ht & _ & Htok').
  by exists l'.
Qed.

Lemma runs_nameless v st m ms d R g l p Q :
  yys v ∈ (5 :: expr_states)%Z → Forall printable (m :: ms) →
  at_lex l g p → at_token d Outside (braces_text (m :: ms) +:+ R) l → (all_plain (m :: ms) = false → bad Q) →
  (∀ w r p' l', yys w = after_selector (yys v) → node_ w = Some (NVectorSelector EmptyString 0 (Some <$> (m :: ms)) r) →
     at_lex l' g p' → at_token d Outside R l' → runs (w :: v :: st) None p' Q) →
  runs (v :: st) None p Q.
Proof.
  intros Hv%selector_states Hms Hat Htok Hbad Hrun.
  unfold braces_text in Htok. rewrite !string_app_assoc in Htok.
  destruct (follows_open g d _ l p Hat Htok) as (p2 & Hlex & l2 & Hat2 & Htok2).
  eapply runs_read; [apply Hv|exact Hlex|]. eapply (runs_shift v _ _ p2 66); [apply Hv|].
  eapply (runs_braces m ms _ v _ d R l2 g p2 Q 52); [done|apply Hv|exact Hat2|exact Htok2|done|].
  intros w r p3 l3 Hw Hn Htok3 Hat3.
  eapply (runs_reduce w [] v st _ p3 76); [by rewrite Hw|reflexivity..|apply Hv|].
  eexists _, p3. split.
  - change (action 76 _ _ p3) with ((match node_ w with
      | Some (NVectorSelector name o ms r) =>
          ms ← lift (assembleVectorSelector name ms); mret (with_node (NVectorSelector name o ms r) w)
      | _ => lift (Panic bad_assertion)
      end) p3).
    rewrite Hn, bind_lift. reflexivity.
  - by eapply Hrun.
Qed.

Lemma runs_named v st name m ms d R g l p Q :
  yys v ∈ (5 :: expr_states)%Z → is_name name = true → Forall printable (m :: ms) →
  at_lex l g p → at_token d Outside (name +:+ braces_text (m :: ms) +:+ R) l →
  (all_plain (m :: ms) = false → bad Q) →
  (∀ w r p' l', yys w = after_selector (yys v) →
     node_ w = Some (NVectorSelector name 0 (Some <$> ((m :: ms) ++ [name_matcher name])) r) →
     at_lex l' g p' → at_token d Outside R l' → runs (w :: v :: st) None p' Q) →
  runs (v :: st) None p Q.
Proof.
  intros Hv Hname Hms Hat Htok Hbad Hrun. unfold braces_text in Htok. rewrite !string_app_assoc in Htok.
  eapply (runs_name v st name d _ g LEFT_BRACE _ l p Q Hv Hname); [|done|exact Hat|exact Htok|apply follows_open|]; [by split|].
  intros w t p1 Hw Hname' Hah.
  apply (runs_ahead w (v :: st) _ _ _ _ _ t p1 Q) with (2 := follows_open g d _) (3 := Hah); [by rewrite Hw|].
  intros p2 (l2 & Hat2 & Htok2). eapply (runs_shift w _ _ p2 66); [by rewrite Hw|].
  eapply (runs_braces m ms _ w _ d R l2 g p2 Q 102); [done|by rewrite Hw|exact Hat2|exact Htok2|done|].
  apply selector_states in Hv. intros w' r p3 l3 Hw' Hn Htok3 Hat3.
  eapply (runs_reduce w' [w] v st _ p3 74); [by rewrite Hw'|reflexivity..|apply Hv|].
  eexists _, p3. split.
  - change (action 74 _ _ p3) with ((match node_ w' with
      | Some (NVectorSelector _ o ms r) =>
          ms ← lift (assembleVectorSelector (Val (item w)) ms);
          mret (with_node (NVectorSelector (Val (item w)) o ms (mergeRanges (Item_range (item w)) r)) w)
      | _ => lift (Panic bad_assertion)
      end) p3).
    rewrite Hn, bind_lift, Hname', (assemble_named _ _ (is_name_nonempty _ Hname)). reflexivity.
  - eapply Hrun; [done| |done|done]. rewrite fmap_app. reflexivity.
Qed.

Lemma runs_selector v st name k d R g c K l p Q :
  yys v ∈ (5 :: expr_states)%Z → is_name name = true ∨ name = EmptyString ∧ k ≠ [] → Forall printable k →
  stops name_rune R → c ≠ LEFT_PAREN → c ≠ LEFT_BRACE →
  at_lex l g p → at_token d Outside (selector_body name k +:+ R) l → follows g d R c K →
  (all_plain k = false → bad Q) →
  (∀ w r t p', yys w = after_selector (yys v) →
     node_ w = Some (NVectorSelector name 0 (Some <$> named name k) r) → ahead g d R c K t p' →
     runs (w :: v :: st) t p' Q) →
  runs (v :: st) None p Q.
Proof.
  intros Hv Hname Hk Hstops Hc1 Hc2 Hat Htok Hf Hbad Hrun. unfold selector_body in Htok.
  rewrite string_app_assoc in Htok. unfold named in Hrun.
  destruct Hname as [Hname|[-> Hne]]; [rewrite bool_decide_eq_false_2 in Hrun by by apply is_name_nonempty|].
  - destruct k as [|m k].
    + eapply (runs_name v st name); [done..|exact Hat|exact Htok|exact Hf|]. intros w t p1 Hw Hname' Hah.
      apply (runs_ahead w (v :: st) g d R c K t p1 Q); [by rewrite Hw|done|done|]. intros p2 HK.
      eapply (runs_reduce w [] v st _ p2 75); [rewrite Hw|reflexivity..|by apply selector_states|].
      { apply (rule_of_other 51 [token_of LEFT_BRACE]); [by vm_compute| |by vm_compute].
        rewrite list_elem_of_singleton. intros E. by apply token_of_inj in E. }
      eexists _, p2. split.
      * change (action 75 _ _ p2) with ((ms ← lift (assembleVectorSelector (Val (item w)) []);
          mret (with_node (NVectorSelector (Val (item w)) 0 ms (Item_range (item w))) w)) p2).
        rewrite bind_lift, Hname', (assemble_named _ _ (is_name_nonempty _ Hname)). reflexivity.
      * eapply Hrun; [done|reflexivity|by left].
    + eapply (runs_named v st name m k); [done..|exact Hat|exact Htok|done|].
      intros w r p' l' Hw Hn Hat' Htok'. eapply Hrun; [done|exact Hn|right; eauto].
  - destruct k as [|m k]; [done|]. rewrite string_app_nil_l in Htok.
    eapply (runs_nameless v st m k); [done..|exact Hat|exact Htok|done|].
    intros w r p' l' Hw Hn Hat' Htok'. eapply Hrun; [done|exact Hn|right; eauto].
Qed.

(** ** The whole text *)
Definition accepts_result (n : node) Q : Prop :=
  ∀ p, parseErrors p = [] → generatedParserResult p = Some n → Q (Done (0%Z, p)).

Lemma runs_accepted v v0 n t p Q :
  yys v = 1%Z → yys v0 = 0%Z → ended (Some n) t p → accepts_result n Q → runs [v; v0] t p Q.
Proof.
  intros Hv Hv0 Hend HQ. eapply runs_ended; [by rewrite Hv|exact Hend|]. clear p Hend. intros p Hend.
  apply (runs_shift v [v0] (token_of EOF) p 7); [by rewrite Hv|].
  eapply (runs_reduce _ [v] v0 [] None p 6 _ 1); [reflexivity..|by rewrite Hv0|].
  eexists _, p. split; [reflexivity|].
  destruct (parser_Lex_injected _ _ Hend) as (p' & Hlex & He & Hg).
  eapply runs_read; [reflexivity|exact Hlex|]. apply runs_accept; [done|]. by apply HQ.
Qed.

Lemma ended_result g n t p : ended g t p →
  ended n t (MkParser (lex p) (inject p) (injecting p) (lastClosing p) n (parseErrors p)).
Proof. intros [[-> []]|[-> (l & [] & Htok)]]; [left|right; split; [done|exists l]]; done. Qed.

(** The state of each start symbol. *)
Definition start_state (start : Z) : Z :=
  if bool_decide (start = START_METRIC_SELECTOR) then 5%Z else 4%Z.
Definition is_start (start : Z) : Prop := start = START_METRIC_SELECTOR ∨ start = START_EXPRESSION.

Lemma runs_init start s Q :
  runs [with_yys 0 zero_sym] None (MkParser (Lex s) start true 0 None []) Q →
  Q (yyParse (turns (String.length s)) yyinit (MkParser (Lex s) start true 0 None [])).
Proof.
  intros Hrun. destruct (yyinit_ok s start) as [Hok _].
  destruct (Hrun yyinit Hok eq_refl eq_refl eq_refl) as (fuel & Hne & HQ).
  destruct (parseGenerated_ends start s fuel) as [_ Hmore]. rewrite <- Hmore, Nat.add_comm.
  by rewrite yyParse_more.
Qed.

(** The start symbol is shifted. *)
Lemma runs_start start s Q :
  is_start start →
  (∀ b v0 p, yys b = start_state start → yys v0 = 0%Z → at_lex (Lex s) None p → runs [b; v0] None p Q) →
  runs [with_yys 0 zero_sym] None (MkParser (Lex s) start true 0 None []) Q.
Proof.
  intros Hstart Hrun. eapply runs_read; [reflexivity|reflexivity|].
  assert (shift_of 0 (token_of start) = Some (start_state start)) as Hs by (by destruct Hstart as [-> | ->]).
  eapply runs_shift; [exact Hs|]. apply Hrun; [done|done|]. by constructor.
Qed.

(** The expression, or the selector, is all of the text: state 33 holds an
    expression, 67 a selector. *)
Lemma runs_expression_end w b v0 n t p Q :
  yys w = 33%Z → yys b = 4%Z → yys v0 = 0%Z → node_ w = Some n → ended None t p → accepts_result n Q →
  runs [w; b; v0] t p Q.
Proof.
  intros Hw Hb Hv0 Hn Hend HQ. eapply runs_ended; [by rewrite Hw|exact Hend|]. clear p Hend. intros p Hend.
  eapply (runs_reduce w [b] v0 [] _ p 4 _ 1); [by rewrite Hw|reflexivity|reflexivity|by rewrite Hv0|].
  eexists _, _. split; [reflexivity|]. eapply runs_accepted; [done|done| |exact HQ].
  match goal with |- ended _ _ (MkParser _ _ _ _ ?r _) => change r with (node_ w) end. rewrite Hn.
  apply (ended_result None). by left.
Qed.

Lemma runs_finish start w b v0 n t p Q :
  is_start start → yys w = after_selector (yys b) → yys b = start_state start → yys v0 = 0%Z →
  node_ w = Some n → ended None t p → accepts_result n Q → runs [w; b; v0] t p Q.
Proof.
  intros [-> | ->] Hw Hb Hv0 Hn Hend HQ; rewrite Hb in Hw; cbn in Hw, Hb.
  - eapply (runs_reduce w [b] v0 [] t p 5 _ 1); [rewrite Hw; by destruct Hend as [[-> _]|[-> _]]|reflexivity..
      |by rewrite Hv0|].
    eexists _, _. split; [reflexivity|]. eapply runs_accepted; [done|done| |exact HQ].
    match goal with |- ended _ _ (MkParser _ _ _ _ ?r _) => change r with (node_ w) end. rewrite Hn.
    by eapply ended_result.
  - eapply (runs_reduce w [] b [v0] t p 18 _ 33); [rewrite Hw; by destruct Hend as [[-> _]|[-> _]]|reflexivity..
      |by rewrite Hb|].
    eexists _, p. split; [reflexivity|]. by eapply runs_expression_end.
Qed.

Definition reads_selector (name : string) (ms : list Labels.Matcher) Q : Prop :=
  ∀ r, accepts_result (NVectorSelector name 0 (Some <$> ms) r) Q.

(** A selector that is all of the text. *)
Lemma runs_whole_selector start name k Q :
  is_start start → is_name name = true ∨ name = EmptyString ∧ k ≠ [] → Forall printable k →
  (all_plain k = false → bad Q) → reads_selector name (named name k) Q →
  runs [with_yys 0 zero_sym] None (MkParser (Lex (selector_body name k)) start true 0 None []) Q.
Proof.
  intros Hstart Hname Hk Hbad HQ. apply runs_start; [done|]. intros b v0 p Hb Hv0 Hat.
  eapply (runs_selector b [v0] name k 0 EmptyString None EOF (at_end None)); [|done..|exact Hat| |apply follows_end|done|].
  - rewrite Hb. destruct Hstart as [-> | ->]; [left|right; left].
  - rewrite string_app_nil_r. apply Lex_at_token.
  - intros w r t p' Hw Hn Hah. by eapply (runs_finish start).
Qed.
End Runs.
