(* ===== verification/Rereading.v ===== *)
(** * A printed selector is read back

    What the hijack handlers print of a selector is read by Prometheus with
    the same parser: the matchers it reads are those of the selector, or it
    refuses the text.  It refuses no plain text. *)
From S2P Require Import Prelude GoStrings GoFloat Regexp DataSet Matchers Prom Restriction Promql Rewriting Errors.
From S2P Require Import GoTime Strutil Lexer LexerSpec ParserTables Parser ParserDriver.
From S2P Require Import ParserSpec Hijack PromParser Quoting SelectorLex SelectorParse.
From Stdlib Require Import Ascii.
From stdpp Require Import options.

Section Rereading.
Context `{RE : RegexpEngine, !UnicodeTable}.

(** A selector that the parser can have read: its labels are label names,
    its name is a metric name and one of the matchers, or there is none. *)
Definition readable (name : string) (ms : list Labels.Matcher) : Prop :=
  Forall printable ms ∧
  (is_name name = true ∧ name_matcher name ∈ ms ∨
   name = EmptyString ∧ name_matcher EmptyString ∉ ms ∧ ms ≠ []).

(** The matchers in the braces: all but the name. *)
Definition is_name_matcher (name : string) (m : Labels.Matcher) : Prop :=
  Labels.Name m = Labels.MetricName ∧ Labels.Type_ m = Labels.MatchEqual ∧ Labels.Value m = name.
#[export] Instance is_name_matcher_dec name m : Decision (is_name_matcher name m).
Proof. apply _. Defined.

Lemma is_name_matcher_eq name m : Labels.wf m → is_name_matcher name m ↔ m = name_matcher name.
Proof.
  intros [Hm _]. destruct m as [t n v r]. unfold is_name_matcher, name_matcher. cbn in *. split.
  - intros (-> & -> & ->). unfold Labels.NewMatcher in Hm. by injection Hm as <-.
  - by intros [= -> -> -> ->].
Qed.

Definition in_braces (name : string) (ms : list Labels.Matcher) : list Labels.Matcher :=
  filter (λ m, ¬ is_name_matcher name m) ms.

(** The text, in which the matchers are sorted. *)
Lemma selector_text name ms s :
  VectorSelector_String name 0 ms = Done s →
  ∃ k, k ≡ₚ in_braces name ms ∧ s = selector_body name k.
Proof.
  unfold VectorSelector_String. destruct ms as [|m0 ms]; [done|]. generalize (m0 :: ms). clear m0 ms. intros ms.
  change (filter _ ms) with (in_braces name ms). intros Hs.
  destruct (Permutation_map_inv Labels.String_ (l1 := sort_Strings (Labels.String_ <$> in_braces name ms))
    (in_braces name ms)) as (k & Hk & Hperm); [by rewrite sort_Strings_perm|].
  exists k. split; [done|]. change (map Labels.String_ k) with (Labels.String_ <$> k) in Hk.
  destruct (in_braces name ms) as [|m l] eqn:Hl.
  - apply Permutation_nil in Hperm as ->. cbn in Hs. by injection Hs as <-.
  - destruct k as [|m' k]; [by apply Permutation_sym, Permutation_nil in Hperm|].
    unfold selector_body, braces_text. rewrite <- Hk. cbn in Hs. injection Hs as <-. by rewrite !string_app_nil_r.
Qed.

(** What the driver leaves. *)
Definition reread (name : string) (ms : list Labels.Matcher) (safe : bool) (o : outcome) : Prop :=
  match o with
  | Done (_, p) =>
      parseErrors p = [] ∧ (∃ r, generatedParserResult p = Some (NVectorSelector name 0 (Some <$> ms) r)) ∨
      parseErrors p ≠ [] ∧ safe = false
  | Panic _ => safe = false
  end.

Lemma reread_bad name ms safe : safe = false → bad (reread name ms safe).
Proof. intros ->. split; [done|]. intros c p Hp. by right. Qed.
Lemma reread_selector name ms safe : reads_selector name ms (reread name ms safe).
Proof. intros r p Hp Hg. left. eauto. Qed.

Lemma all_plain_perm ms k : ms ≡ₚ k → all_plain ms = all_plain k.
Proof.
  induction 1 as [|m l k _ IH|m m' l|l k j _ IH1 _ IH2]; [done|by rewrite !all_plain_cons, IH| |congruence].
  rewrite !all_plain_cons, !andb_assoc. f_equal. apply andb_comm.
Qed.

(** The matchers that are read: the same ones, with the name behind the
    others. *)
Definition same_matchers (name : string) (ms l : list Labels.Matcher) : Prop :=
  (∀ m, m ∈ l ↔ m ∈ ms) ∧
  (name ≠ EmptyString → ∃ k, l = k ++ [name_matcher name] ∧ Forall (λ m, ¬ is_name_matcher name m) k).

Lemma readable_text name ms s :
  readable name ms → VectorSelector_String name 0 ms = Done s →
  ∃ k, s = selector_body name k ∧ (is_name name = true ∨ name = EmptyString ∧ k ≠ []) ∧ Forall printable k ∧
       all_plain k = all_plain (in_braces name ms) ∧ same_matchers name ms (named name k).
Proof.
  intros [Hms Hname] Hs. destruct (selector_text name ms s Hs) as (k & Hk & ->).
  assert (∀ m, m ∈ k ↔ m ∈ ms ∧ ¬ is_name_matcher name m) as Hin.
  { intros m. rewrite Hk. unfold in_braces. rewrite list_elem_of_filter. tauto. }
  rewrite Forall_forall in Hms. exists k. split; [done|].
  assert (Forall (λ m, ¬ is_name_matcher name m) k) as Hnot.
  { apply Forall_forall. by intros m [_ Hm]%Hin. }
  assert (∀ m, m ∈ ms → is_name_matcher name m → m = name_matcher name) as Heq.
  { intros m Hm Hn. apply is_name_matcher_eq; [|done]. by apply Hms. }
  assert (same_matchers name ms (named name k) ∧ (is_name name = true ∨ name = EmptyString ∧ k ≠ [])) as [Hsame Hn];
    [|split_and!; [done| |by rewrite (all_plain_perm _ _ Hk)|apply Hsame..];
      apply Forall_forall; intros m [Hm _]%Hin; by apply Hms].
  unfold named, same_matchers. destruct Hname as [[Hname Hmem]|(-> & Hmem & Hne)].
  - rewrite bool_decide_eq_false_2 by by apply is_name_nonempty. split; [split; [|by exists k]|by left].
    intros m. rewrite elem_of_app, Hin, list_elem_of_singleton. split; [intros [[]| ->]; done|].
    intros Hm. destruct (decide (is_name_matcher name m)); [right; auto|by left].
  - assert (∀ m, m ∈ k ↔ m ∈ ms) as Hall.
    { intros m. rewrite Hin. split; [by intros []|]. intros Hm. split; [done|]. intros Hn.
      apply Hmem. by rewrite <- (Heq m Hm Hn). }
    split; [done|right]. split; [done|].
    intros ->. destruct ms as [|m ms]; [done|]. assert (m ∈ []) as Hm by (apply Hall; by left). inversion Hm.
Qed.

(** The outcome on the text of a selector, for both start symbols. *)
Lemma selector_outcome start name ms s :
  is_start start → readable name ms → VectorSelector_String name 0 ms = Done s →
  ∃ l, same_matchers name ms l ∧
    reread name l (all_plain (in_braces name ms))
      (yyParse (turns (String.length s)) yyinit (MkParser (Lex s) start true 0 None [])).
Proof.
  intros Hstart Hms Hs. destruct (readable_text name ms s Hms Hs) as (k & -> & Hname & Hk & <- & Hsame).
  exists (named name k). split; [done|]. apply runs_init.
  apply runs_whole_selector; [done..|apply reread_bad|apply reread_selector].
Qed.

Lemma parseGenerated_run start s :
  parseGenerated start (newParser s) =
    match yyParse (turns (String.length s)) yyinit (MkParser (Lex s) start true 0 None []) with
    | Done (_, p) => Done (generatedParserResult p, p)
    | Panic r => Panic r
    end.
Proof.
  unfold parseGenerated. rewrite bind_run. cbn [set_inject newParser lex inject injecting
    lastClosing generatedParserResult parseErrors]. rewrite bind_get. cbn [lex input Lex].
  rewrite bind_run. by destruct (yyParse _ _ _) as [[]|].
Qed.

Lemma mapM_Some {A} (l : list A) : mapM id (Some <$> l) = Some l.
Proof. induction l as [|a l IH]; [done|]. unfold fmap in *. cbn in *. by rewrite IH. Qed.

(** [ParseMetricSelector] on the text. *)
Lemma selector_reread name ms s :
  readable name ms → VectorSelector_String name 0 ms = Done s →
  match ParseMetricSelector_matchers s with
  | Ok l => ∀ m, m ∈ l ↔ m ∈ ms
  | Error _ => all_plain (in_braces name ms) = false
  end.
Proof.
  intros Hr Hs. destruct (selector_outcome START_METRIC_SELECTOR name ms s) as (l & [Hl _] & Ho); [by left|done..|].
  unfold ParseMetricSelector_matchers, Parser.ParseMetricSelector, parse_selector, recovered.
  rewrite bind_run, parseGenerated_run.
  destruct (yyParse _ _ _) as [[c p]|r]; [|exact Ho].
  destruct Ho as [[He [r Hg]]|[He Hsafe]].
  - rewrite Hg. cbn. rewrite He. by rewrite mapM_Some.
  - destruct (generatedParserResult p) as [[]|]; cbn; try done; by destruct (parseErrors p).
Qed.

(** The checks of [ParseExpr] on a selector: some matcher refuses the empty
    string, and the name is given once. *)
Definition passes_checks (name : string) (ms : list Labels.Matcher) : Prop :=
  (∃ m, m ∈ ms ∧ Labels.accepts m EmptyString = false) ∧
  (name ≠ EmptyString → ∀ m, m ∈ ms → Labels.Name m = Labels.MetricName → is_name_matcher name m).

Lemma not_empty_wf l :
  Forall Labels.wf l → not_empty (Some <$> l) = Done (existsb (λ m, negb (Labels.accepts m EmptyString)) l).
Proof.
  induction 1 as [|m l Hm _ IH]; [done|]. cbn. rewrite (Labels.Matches_wf m EmptyString Hm). cbn.
  destruct (Labels.accepts m EmptyString); [exact IH|done].
Qed.

Lemma removelast_named (k : list Labels.Matcher) m : removelast (Some <$> (k ++ [m])) = Some <$> k.
Proof. rewrite fmap_app. apply removelast_last. Qed.

Lemma check_selector_passes name ms l r p :
  (∀ m, m ∈ l ↔ m ∈ ms) → Forall Labels.wf l → passes_checks name ms →
  (name ≠ EmptyString → ∃ k, l = k ++ [name_matcher name] ∧ Forall (λ m, ¬ is_name_matcher name m) k) →
  check_selector name (Some <$> l) r p = Done (tt, p).
Proof.
  intros Hl Hwf [(m0 & Hm0 & Hacc) Honce] Hk. unfold check_selector.
  rewrite bind_lift, (not_empty_wf _ Hwf).
  assert (existsb (λ m, negb (Labels.accepts m EmptyString)) l = true) as ->.
  { apply existsb_exists. exists m0. split; [|by rewrite Hacc]. by apply list_elem_of_In, Hl. }
  unfold error_if at 1. cbn [negb]. rewrite (bind_Done _ _ _ tt p) by done.
  case_bool_decide as Hn; [|done]. destruct (Hk Hn) as (k & -> & Hnot). rewrite removelast_named.
  destruct (Some <$> (k ++ [name_matcher name])) as [|x y] eqn:E; [by destruct k|]. clear x y E.
  assert (∀ m, m ∈ k → Labels.Name m ≠ Labels.MetricName) as Hname.
  { intros m Hm Hmn. rewrite Forall_forall in Hnot. apply (Hnot m Hm), Honce; [done| |done].
    apply Hl, elem_of_app. by left. }
  clear Hl Hwf Hk Hnot. induction k as [|m k IH]; [done|].
  unfold for_each, fmap. cbn [list_fmap foldr]. rewrite (bind_Done _ _ _ tt p).
  - apply IH. intros m' Hm'. apply Hname. by right.
  - unfold error_if. rewrite bool_decide_eq_false_2; [done|]. apply Hname. by left.
Qed.

Lemma parse_expr_run s :
  parse_expr (newParser s) =
    match yyParse (turns (String.length s)) yyinit (MkParser (Lex s) START_EXPRESSION true 0 None []) with
    | Panic q => Panic q
    | Done (_, p) =>
        match generatedParserResult p with
        | Some (Expressions_ _) => Panic bad_assertion
        | Some e => if bool_decide (length (parseErrors p) = 0)
                    then '(te, p) ← checkAST e p; Done (Some te.2, p) else Done (Some e, p)
        | None => if bool_decide (length (parseErrors p) = 0) then Panic nil_dereference else Done (None, p)
        end
    end.
Proof.
  unfold parse_expr. rewrite bind_run, parseGenerated_run. destruct (yyParse _ _ _) as [[c p]|]; [|done].
  assert (∀ e p, (('(_, e) ← checkAST e; mret (Some e)) : P (option node)) p =
    ('(te, p) ← checkAST e p; Done (Some te.2, p))) as Hc.
  { intros e p'. rewrite bind_run. by destruct (checkAST e p') as [[[t e'] p2]|]. }
  destruct (generatedParserResult p) as [e|].
  - destruct e; [reflexivity|..]; rewrite (bind_Done _ _ p tt p) by reflexivity; rewrite bind_get;
      (case_bool_decide; [apply Hc|done]).
  - rewrite (bind_Done _ _ p tt p) by reflexivity. rewrite bind_get. by case_bool_decide.
Qed.

Lemma checkAST_selector name o ms r p :
  checkAST (NVectorSelector name o ms r) p =
    '(_, p) ← check_selector name ms r p; Done ((ValueTypeVector, NVectorSelector name o ms r), p).
Proof.
  cbn [checkAST]. rewrite bind_run. cbn [node_Type lift mbind go_bind mret P_ret].
  rewrite bind_run. rewrite bind_run. by destruct (check_selector name ms r p) as [[]|].
Qed.

Lemma to_Expr_selector name o l r :
  to_Expr (NVectorSelector name o (Some <$> l) r) = Some (VectorSelector name o l).
Proof. cbn [to_Expr]. by rewrite mapM_Some. Qed.

(** [ParseExpr] on the text. *)
Lemma expr_reread name ms s :
  readable name ms → VectorSelector_String name 0 ms = Done s →
  match Parser.ParseExpr s with
  | Ok e => ∃ l, e = VectorSelector name 0 l ∧ ∀ m, m ∈ l ↔ m ∈ ms
  | Error _ => all_plain (in_braces name ms) = false ∨ ¬ passes_checks name ms
  end.
Proof.
  intros Hr Hs. destruct (selector_outcome START_EXPRESSION name ms s) as (l & [Hl Hk] & Ho); [by right|done..|].
  assert (Forall Labels.wf l) as Hwf.
  { destruct Hr as [Hms _]. rewrite Forall_forall in Hms |- *. intros m Hm. by apply Hms, Hl. }
  unfold Parser.ParseExpr, recovered. rewrite parse_expr_run.
  destruct (yyParse _ _ _) as [[c p]|q]; [|by left].
  destruct Ho as [[He [r ->]]|[He Hsafe]].
  - rewrite He, bool_decide_eq_true_2, checkAST_selector by done.
    destruct (check_selector name (Some <$> l) r p) as [[[] p']|q] eqn:Hc;
      cbn [mbind go_bind snd].
    + destruct (parseErrors p') eqn:He'; [unfold mbind, option_bind; rewrite to_Expr_selector; by exists l|].
      right. intros Hpass. rewrite (check_selector_passes name ms l r p Hl Hwf Hpass Hk) in Hc. congruence.
    + right. intros Hpass. by rewrite (check_selector_passes name ms l r p Hl Hwf Hpass Hk) in Hc.
  - rewrite bool_decide_eq_false_2 by (by destruct (parseErrors p)).
    destruct (generatedParserResult p) as [[]|]; cbn; try (by left); destruct (parseErrors p); try done; by left.
Qed.

(** ** A restricted selector *)
Lemma selects_members l ms series : (∀ m, m ∈ l ↔ m ∈ ms) → selects l series = selects ms series.
Proof.
  intros Hl. unfold selects. apply eq_true_iff_eq. rewrite !forallb_forall.
  setoid_rewrite <- list_elem_of_In. by setoid_rewrite Hl.
Qed.

(** The filter keeps a selector readable. *)
Lemma filtered_readable `{!RegexpLiterals} S name ms ms' :
  namespace_set S → readable name ms → filtered S ms ms' → readable name ms'.
Proof.
  intros HS [Hms Hname] Hf.
  assert (Forall Labels.wf ms) as Hwf by (eapply Forall_impl; [exact Hms|]; by intros m []).
  destruct (FilterMatchers_spec S ms HS Hwf) as (ms1 & Hf' & Hwf' & _).
  unfold filtered in Hf. rewrite Hf in Hf'. injection Hf' as <-.
  assert (∀ m, m ∈ ms' → m ∈ ms ∨ Labels.Name m = namespaceMatchName) as Hold.
  { intros x. destruct (FilterMatchers_frame S ms ms' HS Hwf _ Hf)
      as [(l & m & m' & k & -> & -> & _ & _ & Hm')|(m' & -> & _ & Hm')];
      rewrite ?elem_of_app, ?elem_of_cons, ?elem_of_nil; naive_solver. }
  assert (∀ m, m ∈ ms → Labels.Name m ≠ namespaceMatchName → m ∈ ms') as Hkept.
  { intros x Hx Hxn. destruct (FilterMatchers_frame S ms ms' HS Hwf _ Hf)
      as [(l & m & m' & k & -> & -> & _ & Hm & _)|(m' & -> & _ & _)];
      rewrite ?elem_of_app, ?elem_of_cons, ?elem_of_nil in *; naive_solver. }
  split.
  - apply Forall_forall. intros m Hm. rewrite Forall_forall in Hms, Hwf'. split; [by apply Hwf'|].
    destruct (Hold m Hm) as [Hm'| ->]; [by apply Hms|done].
  - destruct Hname as [[Hn Hmem]|(-> & Hmem & Hne)]; [left|right].
    + split; [done|]. by apply Hkept.
    + split; [done|]. split; [|by eapply filtered_nonempty].
      intros Hin. destruct (Hold _ Hin) as [|Heq]; [done|]. done.
Qed.

(** ** Properties *)

(** Printing then reading a vector selector: [ParseMetricSelector] on the
    text of [VectorSelector.String] reads the matchers of the selector
    again, none added, dropped or changed, whatever the label values are;
    or it refuses the text, and then some value is not plain. *)
Theorem printed_selector_reread (name : string) (ms : list Labels.Matcher) (text : string)
    (Hr : readable name ms) (Ht : VectorSelector_String name 0 ms = Done text) :
  match ParseMetricSelector_matchers text with
  | Ok l => ∀ m, m ∈ l ↔ m ∈ ms
  | Error _ => all_plain (in_braces name ms) = false
  end.
Proof. by apply selector_reread. Qed.

End Rereading.

(** ** Witnesses *)
Module RereadingExamples.
Import Re2 RestrictionExamples RewritingExamples.

(** A value that would leave the braces if it were not quoted. *)
Definition escape_value : string := "x" +:+ dquote +:+ "} or up{job=" +:+ dquote +:+ "y\".
Definition attack : list Labels.Matcher :=
  [Labels.MkMatcher Labels.MatchEqual "job" escape_value None;
   Labels.MkMatcher Labels.MatchNotEqual "namespace" "kube-system" None; name_matcher "up"].

Lemma attack_readable : readable "up" attack.
Proof.
  split; [repeat constructor|]. left. split; [vm_compute; reflexivity|].
  apply list_elem_of_further, list_elem_of_further, list_elem_of_here.
Qed.

Definition attack_text : string := go_value EmptyString (VectorSelector_String "up" 0 attack).

Lemma printed_selector_reread_witness :
  readable "up" attack ∧ VectorSelector_String "up" 0 attack = Done attack_text ∧
  match ParseMetricSelector_matchers attack_text with
  | Ok l => ∀ m, m ∈ l ↔ m ∈ attack
  | Error _ => False
  end.
Proof.
  assert (VectorSelector_String "up" 0 attack = Done attack_text) as Ht by (vm_compute; reflexivity).
  split; [exact attack_readable|]. split; [exact Ht|].
  pose proof (printed_selector_reread "up" attack attack_text attack_readable Ht) as H.
  destruct (ParseMetricSelector_matchers attack_text); [exact H|]. vm_compute in H. discriminate H.
Defined.


(** [lexEscape] reads a rune too many: the text of a value that ends with a
    control character is refused, though the parser reads the value. *)
Definition control : string := String (ascii_of_N 1) EmptyString.
Definition braces_of (value : string) : string := "{a=" +:+ value +:+ "}".
Definition values_read (text : string) : option (list string) :=
  match ParseMetricSelector_matchers text with Ok l => Some (Labels.Value <$> l) | Error _ => None end.
Theorem lexEscape_refuses_printed :
  values_read (braces_of (dquote +:+ control +:+ dquote)) = Some [control] ∧
  values_read (braces_of (Quote control)) = None.
Proof. split; vm_compute; reflexivity. Qed.

(** A longer literal: the value, its quote and what follows. *)
Definition longer : string := "x" +:+ dquote +:+ ",b=".
Lemma quoted_value_read_witness :
  Quote "x" +:+ (",b=" +:+ dquote) = literal longer +:+ EmptyString ∧ Unquote (literal longer) = None.
Proof.
  split; [reflexivity|]. destruct (quoted_value_read "x") as [_ H].
  destruct (H (",b=" +:+ dquote) longer EmptyString eq_refl) as [E|E]; [discriminate E|exact E].
Defined.

(** ** Odd texts *)
Definition reprinted (text : string) : option string :=
  match Parser.ParseExpr text with Ok e => Some (go_value EmptyString (Promql.String_ e)) | Error _ => None end.

(** Inside brackets a letter is taken for the colon of a subquery. *)
Theorem letters_are_colons : reprinted "a[5m x1m]" = Some "a[5m:1m]".
Proof. vm_compute. reflexivity. Qed.

(** An offset after a range over something else than a selector is a
    run-time error of the parser. *)
Theorem addOffset_unexpected :
  match Parser.ParseExpr "(a)[5m] offset 5m" with Ok _ => None | Error err => Some (Error_ err) end =
  Some (Done "unexpected error").
Proof. vm_compute. reflexivity. Qed.
End RereadingExamples.
