(* ===== verification/ExprLex.v ===== *)
(** * The lexer on a printed expression

    The tokens of a printed expression outside of selectors: punctuation,
    operators, numbers, and durations in brackets or behind [offset].  Each
    lemma says what [lexStatements] does on a text that starts with the
    token; a space before it is skipped. *)
From S2P Require Import Prelude GoStrings GoFloat GoTime Strutil Lexer LexerSpec Quoting SelectorLex.
From Stdlib Require Import Ascii.
From stdpp Require Import options.

#[local] Arguments skip : simpl never.

Section ExprLex.
Context `{UnicodeTable}.

(** ** Spaces *)
(** A space leads to a lexer behind it, from which the same item is
    scanned. *)
Lemma scans_space d R l :
  stops isSpace R → at_token d Outside (" " +:+ R) l → scannedItem l = false →
  ∃ l0, at_token d Outside R l0 ∧ scannedItem l0 = false ∧ ∀ l', scans l0 l' → scans l l'.
Proof.
  intros Hs Hat Hsc. rewrite string_app_cons, string_app_nil_l in Hat.
  pose proof (at_rest _ _ _ _ Hat) as Hr. set (l1 := goto lexSpace (advance 1 l)).
  assert (rest (advance 1 l) = R) as Hr1 by by apply (rest_advance " ").
  destruct (skip_while_run isSpace EmptyString R (S (remaining l1)) l1) as [k Hk]; [done|done|done|cbn; lia|].
  exists (goto lexStatements (ignore (set_pos (pos l1 + 0) k l1))). split; [|split; [done|]].
  - destruct Hat as [Hrest Hp Hst Hbr Hpa Hbk Hc _]. pose proof (rest_pos _ _ Hrest ltac:(done)) as Hlen.
    constructor; cbn; auto.
    + by rewrite Nat.add_0_r.
    + unfold len in *. cbn. lia.
  - intros l' Hl'. apply (scans_step lexStatements); [done|apply (at_state _ _ _ _ Hat)|]. cbn [lex_step].
    unfold lex_statements. rewrite (at_brace _ _ _ _ Hat), (no_comment _ _ _ Hr), (next_ascii _ _ _ Hr) by done.
    change (isSpace (rune " ")) with true. cbv beta iota zeta.
    change (bool_decide (rune " " = eof)) with false. change (is_rune (rune " ") ",") with false. cbv iota.
    apply (scans_step lexSpace); [done|done|]. cbn [lex_step]. unfold skipSpaces, skip.
    match goal with |- context [skip_while _ _ ?x] => change x with l1 end. by rewrite Hk.
Qed.

(** The lexer behind the space. *)
Lemma lexes_space d R l :
  stops isSpace R → at_token d Outside (" " +:+ R) l →
  ∃ l0, at_token d Outside R l0 ∧ ∀ Q, lexes l0 Q → lexes l Q.
Proof.
  intros Hs Hat. assert (at_token d Outside (" " +:+ R) (set_scanned false l)) as Hat' by by destruct Hat.
  destruct (scans_space d R _ Hs Hat' eq_refl) as (l0 & Hat0 & Hsc0 & Hscan). exists l0. split; [done|].
  intros Q (l' & Hn & HQ). exists l'. split; [|done].
  apply scans_NextItem; [by eapply at_token_ready|by rewrite (at_state _ _ _ _ Hat)|]. apply Hscan.
  exists (steps (set_scanned false l0)). unfold NextItem in Hn. cbv zeta in Hn.
  change (state (set_scanned false l0)) with (state l0) in Hn. rewrite (at_state _ _ _ _ Hat0) in Hn.
  assert (set_scanned false l0 = l0) as E by (destruct l0; cbn in Hsc0; by rewrite <- Hsc0). by rewrite E in *.
Qed.

Lemma lexes_spaced d R l Q :
  stops isSpace R → statement d Outside R Q → at_token d Outside (" " +:+ R) l → lexes l Q.
Proof.
  intros Hs Hrun Hat. destruct (lexes_space d R l Hs Hat) as (l0 & Hat0 & Hl). apply Hl.
  by apply (lexes_statement d Outside R).
Qed.

(** A word does not start with a space. *)
Lemma word_space w R : is_word w = true → stops isSpace (w +:+ R).
Proof.
  destruct w as [|c w]; [done|]. intros [Hc _]%andb_true_iff. rewrite string_app_cons. cbn.
  apply orb_true_iff in Hc as [Hc|Hc%bool_decide_eq_true].
  - split; [by apply isAlpha_ascii|]. unfold isAlpha in Hc. unfold isSpace. apply bool_decide_eq_false.
    rewrite !orb_true_iff, !bool_decide_eq_true in Hc. rewrite !elem_of_cons, elem_of_nil. lia.
  - change (rune ":") with 58%Z in Hc. split; [unfold rune in Hc; lia|]. by rewrite Hc.
Qed.

(** ** Punctuation *)
Ltac state_rune :=
  apply statement_rune; [done|done|done|]; intros l Hat Hsc Hr Hcom Hn Hb;
  unfold lex_statements; rewrite Hb, Hcom, Hn.
Ltac emits := eapply emitted_token; [eassumption|by apply Emitted|done|
  match goal with H : at_token _ _ _ _ |- _ => destruct H end; constructor; cbn in *; try (done || congruence)].

Lemma state_left_paren d R :
  statement d Outside ("(" +:+ R) (token_of_text LEFT_PAREN "(" (d + 1) Outside R).
Proof.
  state_rune. match goal with |- scans_to _ ?Q =>
    change (scans_to (goto lexStatements (set_parenDepth (parenDepth l + 1) (emit LEFT_PAREN (advance 1 l)))) Q) end.
  emits.
Qed.

Lemma state_right_paren d R :
  (0 < d)%Z → statement d Outside (")" +:+ R) (token_of_text RIGHT_PAREN ")" (d - 1) Outside R).
Proof.
  intros Hd. state_rune. match goal with |- scans_to _ ?Q =>
    change (scans_to (let l := set_parenDepth (parenDepth l - 1) (emit RIGHT_PAREN (advance 1 l)) in
      if bool_decide (parenDepth l < 0)%Z then fail ("unexpected right parenthesis " +:+ QuoteRune 41) l
      else goto lexStatements l) Q) end.
  cbn zeta. cbn [parenDepth set_parenDepth]. rewrite (at_paren _ _ _ _ Hat), bool_decide_eq_false_2 by lia.
  emits.
Qed.

Lemma state_comma d R : statement d Outside ("," +:+ R) (token_of_text COMMA "," d Outside R).
Proof.
  state_rune. match goal with |- scans_to _ ?Q =>
    change (scans_to (goto lexStatements (emit COMMA (advance 1 l))) Q) end. emits.
Qed.

Lemma state_right_bracket d c R :
  statement d (Bracketed c) ("]" +:+ R) (token_of_text RIGHT_BRACKET "]" d Outside R).
Proof.
  state_rune. match goal with |- scans_to _ ?Q =>
    change (scans_to (if negb (bracketOpen l) then fail ("unexpected right bracket " +:+ QuoteRune 93) (advance 1 l)
      else goto lexStatements (set_bracketOpen false (emit RIGHT_BRACKET (advance 1 l)))) Q) end.
  rewrite (at_bracket _ _ _ _ Hat). emits.
Qed.

Lemma state_colon d R :
  statement d (Bracketed false) (":" +:+ R) (token_of_text COLON ":" d (Bracketed true) R).
Proof.
  state_rune. match goal with |- scans_to _ ?Q =>
    change (scans_to (if negb (bracketOpen l) then goto lexKeywordOrIdentifier (backup (advance 1 l))
      else if gotColon l then fail ("unexpected colon " +:+ QuoteRune 58) (advance 1 l)
      else goto lexStatements (set_gotColon true (emit COLON (advance 1 l)))) Q) end.
  rewrite (at_bracket _ _ _ _ Hat), (at_colon _ _ _ _ Hat : gotColon l = false). emits.
Qed.

(** The bracket also skips the spaces behind it; a duration has none. *)
Lemma state_left_bracket d R :
  stops isSpace R → statement d Outside ("[" +:+ R) (token_of_text LEFT_BRACKET "[" d Ranging R).
Proof.
  intros Hs. state_rune. match goal with |- scans_to _ ?Q =>
    change (scans_to (if bracketOpen l then fail ("unexpected left bracket " +:+ QuoteRune 91) (advance 1 l)
      else let '(t, l) := peek (emit LEFT_BRACKET (set_gotColon false (advance 1 l))) in
           goto lexDuration (set_bracketOpen true (if isSpace t then skipSpaces l else l))) Q) end.
  rewrite (at_bracket _ _ _ _ Hat). cbn [in_brackets_mode].
  set (l1 := emit LEFT_BRACKET (set_gotColon false (advance 1 l))).
  assert (∃ r k, peek l1 = (r, set_pos (pos l1) k l1) ∧ isSpace r = false) as (r & k & -> & ->).
  { assert (rest l1 = R) as Hr1 by done. unfold peek. destruct R as [|c R].
    - rewrite (next_end l1 Hr1). exists eof, 0. split; [|done]. f_equal. apply set_pos_twice. cbn. lia.
    - destruct Hs as [Hc Hs]. rewrite (next_ascii l1 c R Hr1 Hc). exists (rune c), 1. split; [|done].
      f_equal. apply set_pos_twice. cbn. lia. }
  eapply (emitted_token d Outside d Ranging "[" R _ l (advance 1 l)); [exact Hat|by apply Emitted|done|].
  destruct Hat. by constructor.
Qed.
(** ** Operators *)
Definition symbols : list (string * Z) :=
  [("+", ADD); ("-", SUB); ("*", MUL); ("/", DIV); ("%", MOD); ("^", POW)].
Definition comparisons : list (string * Z) :=
  [("==", EQL); ("!=", NEQ); ("<=", LTE); ("<", LSS); (">=", GTE); (">", GTR)].

Lemma state_symbol d op t R :
  (op, t) ∈ symbols → statement d Outside (op +:+ R) (token_of_text t op d Outside R).
Proof.
  intros Hop. repeat (apply elem_of_cons in Hop as [[= -> ->]|Hop];
    [state_rune; match goal with |- scans_to _ ?Q =>
       match Q with token_of_text ?t _ _ _ _ =>
         change (scans_to (goto lexStatements (emit t (advance 1 l))) Q) end end; emits|]).
  inversion Hop.
Qed.

Definition completes (r : Z) : bool := is_rune r "=" || is_rune r "~".

Lemma peek_stops f l R : rest l = R → stops f R →
  ∃ r k, peek l = (r, set_pos (pos l) k l) ∧ f r = false.
Proof.
  intros Hr Hs. unfold peek. destruct R as [|c R].
  - rewrite (next_end l Hr). exists eof, 0. split; [|done]. f_equal. apply set_pos_twice. cbn. lia.
  - destruct Hs as [Hc Hs]. rewrite (next_ascii l c R Hr Hc). exists (rune c), 1. split; [|done].
    f_equal. apply set_pos_twice. cbn. lia.
Qed.

Lemma peek_char l c R : rest l = String c R → (byte_val c < 128)%N → peek l = (rune c, set_pos (pos l) 1 l).
Proof.
  intros Hr Hc. unfold peek. rewrite (next_ascii l c R Hr Hc). f_equal. apply set_pos_twice. cbn. lia.
Qed.

(** An operator of two characters, and one that its first character makes
    when no other follows. *)
Lemma scans_two d c t1 t2 l R Q :
  rest (advance 1 l) = "=" +:+ R → at_token d Outside (String c ("=" +:+ R)) l →
  (byte_val c < 128)%N → Q = token_of_text t2 (String c "=") d Outside R →
  scans_to (let '(t, l) := peek (advance 1 l) in
    if is_rune t "=" then goto lexStatements (emit t2 (next l).2) else goto lexStatements (emit t1 l)) Q.
Proof.
  intros Hr Hat Hc ->. rewrite (peek_char _ _ _ Hr) by done. change (is_rune (rune "=") "=") with true.
  cbv iota beta. rewrite (next_ascii _ "=" R) by done. cbn [snd].
  eapply (emitted_token d Outside d Outside (String c "=") R); [exact Hat|by apply Emitted|cbn; lia|].
  destruct Hat. by constructor.
Qed.

Lemma scans_one d c t1 t2 l R Q :
  rest (advance 1 l) = R → at_token d Outside (String c R) l → stops completes R →
  Q = token_of_text t1 (String c EmptyString) d Outside R →
  scans_to (let '(t, l) := peek (advance 1 l) in
    if is_rune t "=" then goto lexStatements (emit t2 (next l).2) else goto lexStatements (emit t1 l)) Q.
Proof.
  intros Hr Hat Hs ->. destruct (peek_stops completes _ R Hr Hs) as (r & k & -> & [-> _]%orb_false_iff).
  eapply (emitted_token d Outside d Outside (String c EmptyString) R); [exact Hat|by apply Emitted|cbn; lia|].
  destruct Hat. by constructor.
Qed.

Lemma state_comparison d op t R :
  (op, t) ∈ comparisons → stops completes R → statement d Outside (op +:+ R) (token_of_text t op d Outside R).
Proof.
  intros Hop Hs. repeat (apply elem_of_cons in Hop as [[= -> ->]|Hop]; [state_rune|]); [..|inversion Hop];
    match goal with |- scans_to _ ?Q => set (Q' := Q) end.
  - change (scans_to (let '(t, l) := peek (advance 1 l) in
      if is_rune t "=" then goto lexStatements (emit EQL (next l).2)
      else if is_rune t "~" then fail ("unexpected character after '=': " +:+ QuoteRune t) l
      else goto lexStatements (emit ASSIGN l)) Q').
    rewrite (peek_char _ _ _ Hr) by done. change (is_rune (rune "=") "=") with true.
    cbv iota beta. rewrite (next_ascii _ "=" R) by done. cbn [snd].
    eapply (emitted_token d Outside d Outside "==" R); [exact Hat|by apply Emitted|cbn; lia|].
    destruct Hat. by constructor.
  - change (scans_to (let '(t, l) := next (advance 1 l) in
      if is_rune t "=" then goto lexStatements (emit NEQ l)
      else fail ("unexpected character after '!': " +:+ QuoteRune t) l) Q').
    rewrite (next_ascii _ _ _ Hr) by done. change (is_rune (rune "=") "=") with true. cbv iota beta.
    eapply (emitted_token d Outside d Outside "!=" R); [exact Hat|by apply Emitted|cbn; lia|].
    destruct Hat. by constructor.
  - by apply (scans_two d "<" LSS LTE l R).
  - by apply (scans_one d "<" LSS LTE l R).
  - by apply (scans_two d ">" GTR GTE l R).
  - by apply (scans_one d ">" GTR GTE l R).
Qed.

(** ** Numbers *)
Definition moved_by (n : nat) (l l' : Lexer) : Prop := ∃ k, l' = set_pos (pos l + n) k l.

Lemma moved_by_trans n m l l1 l2 : moved_by n l l1 → moved_by m l1 l2 → moved_by (n + m) l l2.
Proof. intros [k ->] [k' ->]. exists k'. apply set_pos_twice. cbn. lia. Qed.

Lemma moved_by_rest n l l' w R : moved_by n l l' → rest l = w +:+ R → String.length w = n → rest l' = R.
Proof. intros [k ->] Hr <-. by apply (rest_app w R l). Qed.

Lemma accept_yes valid l c R :
  rest l = String c R → (byte_val c < 128)%N → ContainsRune valid (rune c) = true →
  ∃ l', accept valid l = (true, l') ∧ moved_by 1 l l'.
Proof.
  intros Hr Hc Hv. unfold accept. rewrite (next_ascii l c R Hr Hc), Hv. eexists. split; [done|]. by exists 1.
Qed.

Lemma accept_no valid l R :
  rest l = R → stops (ContainsRune valid) R → ∃ l', accept valid l = (false, l') ∧ moved_by 0 l l'.
Proof.
  intros Hr Hs. unfold accept. destruct R as [|c R].
  - rewrite (next_end l Hr), Hs. eexists. split; [done|]. exists 0. apply set_pos_twice. cbn. lia.
  - destruct Hs as [Hc Hs]. rewrite (next_ascii l c R Hr Hc), Hs. eexists. split; [done|].
    exists 1. apply set_pos_twice. cbn. lia.
Qed.

Lemma acceptRun_run valid l w R :
  rest l = w +:+ R → string_forall (in_class (ContainsRune valid)) w = true → stops (ContainsRune valid) R →
  moved_by (String.length w) l (acceptRun valid l).
Proof. intros Hr Hw Hs. by apply (skip_run (ContainsRune valid) w R). Qed.
Definition head_rune (R : string) : Z := match R with EmptyString => eof | String c _ => rune c end.
Lemma stops_head f R : stops f R → f (head_rune R) = false.
Proof. destruct R; [done|]. by intros []. Qed.
Lemma stops_weaken (f g : Z → bool) R : (∀ r, g r = true → f r = true) → stops f R → stops g R.
Proof.
  intros Hfg. destruct R as [|c R]; cbn.
  - intros Hs. destruct (g eof) eqn:Hg; [|done]. apply Hfg in Hg. congruence.
  - intros [Hc Hs]. split; [done|]. destruct (g (rune c)) eqn:Hg; [|done]. apply Hfg in Hg. congruence.
Qed.
Lemma stops_app f w R : stops f w → w ≠ EmptyString → stops f (w +:+ R).
Proof. by destruct w. Qed.

Lemma contains_weaken v v' r :
  forallb (λ c, ContainsRune v' (rune c)) (String.list_ascii_of_string v) = true →
  ContainsRune v r = true → ContainsRune v' r = true.
Proof.
  rewrite forallb_forall. intros Hall Hr. apply existsb_exists in Hr as (c & Hc & <-%bool_decide_eq_true). auto.
Qed.

(** The characters that would go on with a number. *)
Definition number_chars : string := "0123456789.eExX".

(** The part of a number that [scan_digits] reads. *)
Definition digits (w : string) : Prop := string_forall (in_class (ContainsRune decimal)) w = true.
Definition fraction (f : string) : Prop := f = EmptyString ∨ ∃ g, f = "." +:+ g ∧ digits g.
Definition exponent (e : string) : Prop :=
  e = EmptyString ∨ ∃ s g, e = "e" +:+ s +:+ g ∧ s ∈ ["+"; "-"] ∧ digits g.

Ltac weaken_stops := match goal with
  | H : stops (ContainsRune ?v) ?R |- stops (ContainsRune ?v') ?R =>
      apply (stops_weaken (ContainsRune v) (ContainsRune v')); [intros r; apply contains_weaken; vm_compute; reflexivity|exact H]
  end.

Lemma exponent_scan e R l :
  exponent e → rest l = e +:+ R → stops (ContainsRune number_chars) R →
  ∃ l', (let '(b, l) := accept "eE" l in if b : bool then acceptRun decimal (accept "+-" l).2 else l) = l' ∧
        moved_by (String.length e) l l'.
Proof.
  intros [->|(s & g & -> & Hs & Hg)] Hr Hstop.
  - destruct (accept_no "eE" l R Hr) as (l1 & -> & Hm); [by weaken_stops|]. eauto.
  - rewrite !string_app_assoc in Hr. destruct (accept_yes "eE" l "e" _ Hr) as (l1 & -> & Hm1); [done..|].
    cbv beta iota. pose proof (moved_by_rest _ _ _ "e" _ Hm1 Hr eq_refl) as Hr1.
    assert (∃ l2, (accept "+-" l1).2 = l2 ∧ moved_by 1 l1 l2 ∧ rest l2 = g +:+ R) as (l2 & -> & Hm2 & Hr2).
    { repeat (apply elem_of_cons in Hs as [->|Hs]; [
        destruct (accept_yes "+-" l1 _ _ Hr1) as (l2 & -> & Hm2); [done..|]; exists l2; split; [done|];
        split; [done|]; by eapply (moved_by_rest 1 l1 l2 _ _ Hm2 Hr1)|]). inversion Hs. }
    eexists. split; [done|]. rewrite !length_string_app. replace (String.length s) with 1.
    + apply (moved_by_trans 1 (1 + String.length g) l l1); [done|].
      apply (moved_by_trans 1 (String.length g) l1 l2); [done|].
      apply (acceptRun_run decimal l2 g R Hr2 Hg). by weaken_stops.
    + by repeat (apply elem_of_cons in Hs as [->|Hs]; [done|]); inversion Hs.
Qed.

Lemma stops_exponent e R : exponent e → stops (ContainsRune number_chars) R → stops (ContainsRune "0123456789.xX") (e +:+ R).
Proof.
  intros [->|(s & g & -> & _ & _)] Hstop; [|by split]. rewrite string_app_nil_l. by weaken_stops.
Qed.

Lemma scan_digits_run i f e R l :
  digits i → fraction f → exponent e → rest l = i +:+ f +:+ e +:+ R → stops (ContainsRune number_chars) R →
  ∃ l', scan_digits decimal l = (negb (isAlphaNumeric (head_rune R)), l') ∧
        moved_by (String.length (i +:+ f +:+ e)) l l'.
Proof.
  intros Hi Hf He Hr Hstop. pose proof (stops_exponent e R He Hstop) as Hse. unfold scan_digits.
  assert (moved_by (String.length i) l (acceptRun decimal l)) as Hm1.
  { apply (acceptRun_run decimal l i _ Hr Hi).
    destruct Hf as [->|(g & -> & _)]; [rewrite string_app_nil_l; by weaken_stops|by split]. }
  set (l1 := acceptRun decimal l) in *. pose proof (moved_by_rest _ _ _ _ _ Hm1 Hr eq_refl) as Hr1.
  assert (∃ l2, (let '(dot, l) := accept "." l1 in if dot : bool then acceptRun decimal l else l) = l2 ∧
    moved_by (String.length f) l1 l2) as (l2 & Hl2 & Hm2).
  { destruct Hf as [->|(g & -> & Hg)].
    - rewrite string_app_nil_l in Hr1. destruct (accept_no "." l1 _ Hr1) as (l2 & -> & Hm); [by weaken_stops|]. eauto.
    - rewrite string_app_assoc in Hr1. destruct (accept_yes "." l1 "." _ Hr1) as (l2 & -> & Hm); [done..|].
      eexists. split; [done|]. apply (moved_by_trans 1 (String.length g) l1 l2); [done|].
      apply (acceptRun_run decimal l2 g (e +:+ R)); [|done|by weaken_stops].
      by eapply (moved_by_rest 1 l1 l2 "." _ Hm Hr1). }
  destruct (accept "." l1) as [dot l1']. rewrite Hl2.
  pose proof (moved_by_rest _ _ _ _ _ Hm2 Hr1 eq_refl) as Hr2.
  destruct (exponent_scan e R l2 He Hr2 Hstop) as (l3 & Hl3 & Hm3).
  destruct (accept "eE" l2) as [b l2']. rewrite Hl3.
  pose proof (moved_by_rest _ _ _ _ _ Hm3 Hr2 eq_refl) as Hr3.
  assert (∃ l4, peek l3 = (head_rune R, l4) ∧ moved_by 0 l3 l4) as (l4 & -> & Hm4).
  { unfold peek. destruct R as [|c R].
    - rewrite (next_end l3 Hr3). eexists. split; [done|]. exists 0. apply set_pos_twice. cbn. lia.
    - destruct Hstop as [Hc _]. rewrite (next_ascii l3 c R Hr3 Hc). eexists. split; [done|].
      exists 1. apply set_pos_twice. cbn. lia. }
  eexists. split; [done|]. rewrite !length_string_app.
  replace (_ + (_ + _)) with (String.length i + (String.length f + (String.length e + 0))) by lia.
  repeat (eapply moved_by_trans; [eassumption|]). done.
Qed.

Lemma decimal_rune r : ContainsRune decimal r = true → (48 ≤ r ≤ 57)%Z.
Proof.
  intros (c & Hc & <-%bool_decide_eq_true)%existsb_exists. cbn in Hc.
  repeat destruct Hc as [<-|Hc]; try done; by vm_compute.
Qed.

(** [scanNumber]: the first digit may be a zero, which no [x] follows. *)
Lemma scanNumber_run i f e R l :
  i ≠ EmptyString → digits i → fraction f → exponent e → rest l = i +:+ f +:+ e +:+ R →
  stops (ContainsRune number_chars) R →
  ∃ l', scanNumber l = (negb (isAlphaNumeric (head_rune R)), l') ∧
        moved_by (String.length (i +:+ f +:+ e)) l l'.
Proof.
  intros Hne Hi Hf He Hr Hstop. unfold scanNumber. destruct i as [|c i]; [done|].
  pose proof Hi as [Hc Hi']%andb_true_iff. fold (digits i) in Hi'.
  pose proof Hc as [Hca%bool_decide_eq_true Hcd]%andb_true_iff. rewrite !string_app_cons in Hr.
  destruct (ContainsRune "0" (rune c)) eqn:Hz.
  - destruct (accept_yes "0" l c _ Hr Hca Hz) as (l1 & -> & Hm1). cbv beta iota.
    pose proof (moved_by_rest _ _ _ (String c EmptyString) (i +:+ f +:+ e +:+ R) Hm1 Hr eq_refl) as Hr1.
    destruct (accept_no "xX" l1 (i +:+ f +:+ e +:+ R) Hr1) as (l2 & -> & Hm2).
    { destruct i as [|c' i]; rewrite ?string_app_nil_l, ?string_app_cons.
      - destruct Hf as [->|(g & -> & _)]; [rewrite string_app_nil_l|by split].
        pose proof (stops_exponent e R He Hstop) as Hse. by weaken_stops.
      - apply andb_true_iff in Hi' as [[Hc'%bool_decide_eq_true Hd']%andb_true_iff _]. split; [done|].
        apply decimal_rune in Hd'. unfold ContainsRune. cbn [String.list_ascii_of_string existsb].
        change (rune "x") with 120%Z. change (rune "X") with 88%Z.
        by rewrite !bool_decide_eq_false_2 by lia. }
    pose proof (moved_by_rest 0 l1 l2 EmptyString _ Hm2 Hr1 eq_refl) as Hr2.
    destruct (scan_digits_run i f e R l2 Hi' Hf He Hr2 Hstop) as (l3 & -> & Hm3).
    eexists. split; [done|]. rewrite string_app_cons. cbn [String.length].
    apply (moved_by_trans 1 (0 + String.length (i +:+ f +:+ e)) l l1); [done|]. by eapply moved_by_trans.
  - destruct (accept_no "0" l _ Hr) as (l1 & -> & Hm1); [done|]. cbv beta iota.
    pose proof (moved_by_rest 0 l l1 EmptyString _ Hm1 Hr eq_refl) as Hr1.
    destruct (scan_digits_run (String c i) f e R l1 Hi Hf He Hr1 Hstop) as (l2 & -> & Hm2).
    eexists. split; [done|]. by apply (moved_by_trans 0 _ l l1).
Qed.
(** The text of a number. *)
Inductive number_form : string → Prop :=
| NumberForm i f e : i ≠ EmptyString → digits i → fraction f → exponent e → number_form (i +:+ f +:+ e).

Lemma number_form_digit w : number_form w → ∃ c t, w = String c t ∧ (byte_val c < 128)%N ∧ (48 ≤ rune c ≤ 57)%Z.
Proof.
  intros [i f e Hne Hi _ _]. destruct i as [|c i]; [done|]. exists c, (i +:+ f +:+ e). split; [done|].
  apply andb_true_iff in Hi as [[Hc%bool_decide_eq_true Hd%decimal_rune]%andb_true_iff _]. done.
Qed.

Lemma scanNumber_form w R l :
  number_form w → rest l = w +:+ R → stops (ContainsRune number_chars) R →
  ∃ l', scanNumber l = (negb (isAlphaNumeric (head_rune R)), l') ∧ moved_by (String.length w) l l'.
Proof. intros [i f e Hne Hi Hf He]. rewrite !string_app_assoc. by apply scanNumber_run. Qed.

(** A digit sends [lexStatements] to [lexNumberOrDuration]. *)
Lemma scans_digit d m c t l Q :
  in_statements m → at_token d m (String c t) l → scannedItem l = false →
  (byte_val c < 128)%N → (48 ≤ rune c ≤ 57)%Z →
  scans_to (lex_number_or_duration (goto lexNumberOrDuration (advance 0 l))) Q → scans_to (lex_statements l) Q.
Proof.
  intros Hm Hat Hsc Hca Hc Hrun. pose proof (at_rest _ _ _ _ Hat) as Hr.
  unfold lex_statements. rewrite (at_brace _ _ _ _ Hat), (no_comment c t), (next_ascii _ c t) by
    (exact Hr || done || (intros ->; change (rune "#") with 35%Z in Hc; lia)).
  replace (in_braces_mode m) with false by by destruct m. cbv beta iota zeta. other_rune.
  replace (isDigit (rune c)) with true by (symmetry; by apply bool_decide_eq_true). cbv iota.
  assert (backup (advance 1 l) = advance 0 l) as -> by (apply set_pos_twice; cbn; lia).
  by apply (scans_to_step lexNumberOrDuration).
Qed.

Lemma state_number d w R :
  number_form w → stops (ContainsRune number_chars) R → isAlphaNumeric (head_rune R) = false →
  statement d Outside (w +:+ R) (token_of_text NUMBER w d Outside R).
Proof.
  intros Hw Hs Hh l Hat Hsc. destruct (number_form_digit w Hw) as (c & t & -> & Hca & Hc).
  pose proof Hat as Hat'. rewrite string_app_cons in Hat'.
  apply (scans_digit d Outside c (t +:+ R)); [done..|]. unfold lex_number_or_duration.
  destruct (scanNumber_form (String c t) R (goto lexNumberOrDuration (advance 0 l)) Hw) as (l' & -> & k & ->).
  { rewrite <- (at_rest _ _ _ _ Hat). unfold rest. cbn. by rewrite Nat.add_0_r. }
  { done. }
  rewrite Hh. cbn [negb].
  set (l1 := set_pos _ _ _). eapply (emitted_token d Outside d Outside (String c t) R _ l l1);
    [exact Hat|by apply Emitted|cbn; lia|]. destruct Hat. by constructor.
Qed.

(** ** Durations *)
Definition unit_char (u : ascii) : Prop := ContainsRune "smhdwy" (rune u) = true.

Lemma unit_char_ascii u : unit_char u → (byte_val u < 128)%N ∧ isAlphaNumeric (rune u) = true ∧
  ContainsRune number_chars (rune u) = false.
Proof.
  intros (c & Hc & E%bool_decide_eq_true)%existsb_exists. cbn in Hc.
  assert (c = u) as ->. { apply byte_val_inj. unfold rune in E. lia. }
  repeat destruct Hc as [<-|Hc]; done.
Qed.

(** The unit behind the digits, from the lexer [l1] there. *)
Lemma lex_unit_run what d m m' n u R t l l1 k :
  at_token d m (n +:+ String u R) l → unit_char u → stops isAlphaNumeric R → mode_colon m' (gotColon l) →
  in_brackets_mode m' = bracketOpen l → in_statements m' → braceOpen l = false →
  t = n +:+ String u EmptyString → l1 = set_pos (pos l + String.length n) k (goto lexDuration l) ∨
    l1 = set_pos (pos l + String.length n) k (goto lexNumberOrDuration (advance 0 l)) →
  scans_to (lex_unit what l1) (token_of_text DURATION t d m' R).
Proof.
  intros Hat Hu Hs Hcol Hbrk Hm' Hbr -> Hl1. destruct (unit_char_ascii u Hu) as (Hua & Hun & _).
  assert (rest l1 = String u R) as Hr1.
  { destruct Hl1 as [-> | ->]; by apply (rest_app n _ l _ (at_rest _ _ _ _ Hat)). }
  destruct (accept_yes "smhdwy" l1 u R Hr1 Hua Hu) as (l2 & Ha & k2 & ->). unfold lex_unit. rewrite Ha.
  set (l2 := set_pos _ k2 l1). assert (rest l2 = R) as Hr2 by by apply (rest_app (String u EmptyString) R l1).
  assert (∃ r k3, next l2 = (r, set_pos (pos l2 + k3) k3 l2) ∧ isAlphaNumeric r = false) as (r & k3 & -> & ->).
  { destruct R as [|c R].
    - rewrite (next_end l2 Hr2). exists eof, 0. by rewrite Nat.add_0_r.
    - destruct Hs as [Hc Hs]. rewrite (next_ascii l2 c R Hr2 Hc). by exists (rune c), 1. }
  set (l3 := backup _).
  assert (n +:+ String u R = (n +:+ String u EmptyString) +:+ R) as E by (by rewrite string_app_assoc).
  rewrite E in Hat. assert (pos l2 = pos l + String.length n + 1) as Hp2 by (destruct Hl1 as [-> | ->]; cbn; lia).
  eapply (emitted_token d m d m' (n +:+ String u EmptyString) R _ l l3); [exact Hat| | |].
  - destruct Hl1 as [-> | ->]; by apply Emitted.
  - rewrite length_string_app. change (pos l3) with (pos l2 + k3 - k3). rewrite Hp2. cbn. lia.
  - assert (braceOpen l3 = braceOpen l ∧ parenDepth l3 = parenDepth l ∧ bracketOpen l3 = bracketOpen l ∧
      gotColon l3 = gotColon l) as (H1 & H2 & H3 & H4) by (destruct Hl1 as [-> | ->]; done).
    destruct Hat. constructor; [change (braceOpen l3 = in_braces_mode m')|change (parenDepth l3 = d)
      |change (bracketOpen l3 = in_brackets_mode m')|change (mode_colon m' (gotColon l3))|by destruct m'];
      rewrite ?H1, ?H2, ?H3, ?H4; try done. rewrite Hbr. by destruct m'.
Qed.

Lemma lexes_range d n u R l :
  n ≠ EmptyString → digits n → unit_char u → stops isAlphaNumeric R → at_token d Ranging (n +:+ String u R) l →
  lexes l (token_of_text DURATION (n +:+ String u EmptyString) d (Bracketed false) R).
Proof.
  intros Hne Hn Hu Hs Hat. destruct (unit_char_ascii u Hu) as (Hua & Hun & Hunc).
  assert (state l = Some lexDuration) as Hst by apply (at_state _ _ _ _ Hat).
  assert (scans_to (set_scanned false l) (token_of_text DURATION (n +:+ String u EmptyString) d (Bracketed false) R))
    as (l' & Hl & HQ).
  { apply (scans_to_step lexDuration); [done|done|]. cbn [lex_step]. unfold lex_duration.
    assert (at_token d Ranging (n +:+ String u R) (set_scanned false l)) as Hat' by (by destruct Hat).
    set (l0 := set_scanned false l) in *.
    assert (number_form n) as Hnf.
    { rewrite <- (string_app_nil_r n), <- (string_app_nil_r EmptyString). by apply NumberForm; try (by left). }
    destruct (scanNumber_form n (String u R) l0 Hnf) as (l1 & -> & k & Hl1); [apply Hat'|by split|].
    cbn [head_rune]. rewrite Hun. cbn [negb].
    apply (lex_unit_run "duration" d Ranging (Bracketed false) n u R _ l0 l1 k); [done..| | | | | |].
    - apply (at_colon _ _ _ _ Hat').
    - by rewrite (at_bracket _ _ _ _ Hat').
    - done.
    - apply (at_brace _ _ _ _ Hat').
    - done.
    - left. rewrite Hl1. unfold goto, set_state, set_pos, l0. cbn. by rewrite Hst. }
  exists l'. split; [|done]. apply scans_NextItem; [by eapply at_token_ready|by rewrite Hst|done].
Qed.

Lemma state_duration d m n u R :
  in_statements m → n ≠ EmptyString → digits n → unit_char u → stops isAlphaNumeric R →
  statement d m (n +:+ String u R) (token_of_text DURATION (n +:+ String u EmptyString) d m R).
Proof.
  intros Hm Hne Hn Hu Hs l Hat Hsc. destruct (unit_char_ascii u Hu) as (Hua & Hun & Hunc).
  assert (number_form n) as Hnf.
  { rewrite <- (string_app_nil_r n), <- (string_app_nil_r EmptyString). by apply NumberForm; try (by left). }
  destruct (number_form_digit n Hnf) as (c & t & -> & Hca & Hc).
  pose proof Hat as Hat'. rewrite string_app_cons in Hat'.
  apply (scans_digit d m c (t +:+ String u R)); [done..|]. unfold lex_number_or_duration.
  destruct (scanNumber_form (String c t) (String u R) (goto lexNumberOrDuration (advance 0 l)) Hnf) as (l1 & -> & k & Hl1).
  { rewrite <- (at_rest _ _ _ _ Hat). unfold rest. cbn. by rewrite Nat.add_0_r. }
  { by split. }
  cbn [head_rune]. rewrite Hun. cbn [negb].
  apply (lex_unit_run "number or duration" d m m (String c t) u R _ l l1 k); [done..| | | | | |].
  - apply (at_colon _ _ _ _ Hat).
  - by rewrite (at_bracket _ _ _ _ Hat).
  - done.
  - rewrite (at_brace _ _ _ _ Hat). by destruct m.
  - done.
  - right. rewrite Hl1. cbn [pos goto set_state set_pos advance]. f_equal. lia.
Qed.
End ExprLex.
