(* ===== verification/PrintedText.v ===== *)
(** * The texts of numbers, durations and names

    The shape of what [FormatFloat] and [Duration_String] print, and what
    the parser computes from it. *)
From S2P Require Import Prelude GoStrings GoFloat Promql GoTime Strutil Lexer LexerSpec Quoting SelectorLex ExprLex.
From Stdlib Require Import Ascii SpecFloat.
From stdpp Require Import options.

(** ** Digits *)
Lemma digits_app a b : digits (a +:+ b) ↔ digits a ∧ digits b.
Proof. unfold digits. by rewrite string_forall_app, andb_true_iff. Qed.
Lemma digits_take n a : digits a → digits (take_string n a).
Proof. rewrite <- (take_drop_string n a) at 1. by intros []%digits_app. Qed.
Lemma digits_drop n a : digits a → digits (drop_string n a).
Proof. rewrite <- (take_drop_string n a) at 1. by intros []%digits_app. Qed.

Lemma digit_char n : (n < 10)%N → in_class (ContainsRune decimal) (ascii_of_N (48 + n)) = true.
Proof.
  intros Hn. assert (n ∈ [0; 1; 2; 3; 4; 5; 6; 7; 8; 9]%N) as Hin by (rewrite !elem_of_cons; lia).
  repeat (apply elem_of_cons in Hin as [->|Hin]; [by vm_compute|]). inversion Hin.
Qed.

Lemma digits_of_digits fuel n acc : digits acc → digits (digits_of fuel n acc).
Proof.
  revert n acc. induction fuel as [|fuel IH]; intros n acc Ha; [done|]. cbn [digits_of].
  assert (digits (String (ascii_of_N (48 + n mod 10)) acc)).
  { apply andb_true_iff. split; [|done]. apply digit_char. by apply N.mod_lt. }
  case_bool_decide; [done|by apply IH].
Qed.
Lemma digits_of_nonempty fuel n acc : acc ≠ EmptyString → digits_of fuel n acc ≠ EmptyString.
Proof.
  revert n acc. induction fuel as [|fuel IH]; intros n acc Ha; [done|]. cbn [digits_of].
  case_bool_decide; [done|by apply IH].
Qed.

Lemma format_Z_digits z : (0 ≤ z)%Z → digits (format_Z z) ∧ format_Z z ≠ EmptyString.
Proof.
  intros Hz. unfold format_Z. rewrite bool_decide_eq_false_2 by lia. split; [by apply digits_of_digits|].
  unfold format_N. cbn [digits_of]. case_bool_decide; [done|by apply digits_of_nonempty].
Qed.

(** ** Numbers *)
Lemma pow10_ratio_pos k a b : pow10_ratio 1 1 k = (a, b) → (0 ≤ a)%Z ∧ (0 < b)%Z.
Proof.
  unfold pow10_ratio. pose proof (Z.pow_nonneg 10 (- k) ltac:(lia)).
  case_bool_decide; intros [= <- <-]; [|lia]. pose proof (Z.pow_pos_nonneg 10 k). lia.
Qed.

Lemma shortest_nonneg fuel n lower x upper den k incl :
  (0 ≤ x)%Z → (0 < den)%Z → (0 ≤ (shortest fuel n lower x upper den k incl).2)%Z.
Proof.
  intros Hx Hden. revert n. induction fuel as [|fuel IH]; intros n; cbn [shortest];
    destruct (pow10_ratio 1 1 (k - n)) as [a b] eqn:Hab; apply pow10_ratio_pos in Hab as [Ha Hb];
    assert (0 ≤ x * a / (den * b))%Z by (apply Z.div_pos; nia); cbn zeta;
    repeat match goal with
      | |- context [match ?c with Eq => _ | Lt => _ | Gt => _ end] => destruct c
      | |- context [if ?c then _ else _] => destruct c
      end; cbn; try lia; apply IH.
Qed.

Lemma strip_zeros_nonneg fuel d : (0 ≤ d)%Z → (0 ≤ strip_zeros fuel d)%Z.
Proof.
  revert d. induction fuel as [|fuel IH]; intros d Hd; [done|]. cbn. case_bool_decide; [|done].
  apply IH, Z.div_pos; lia.
Qed.

Lemma shortest_digits_digits m e : digits (shortest_digits m e).1 ∧ (shortest_digits m e).1 ≠ EmptyString.
Proof.
  unfold shortest_digits. cbn zeta.
  match goal with |- context [shortest ?f ?n ?l ?x ?u ?d ?k ?i] =>
    pose proof (shortest_nonneg f n l x u d k i) as Hs; destruct (shortest f n l x u d k i) as [n' d'] end.
  case_bool_decide; [done|]. apply format_Z_digits, strip_zeros_nonneg, Hs.
  - pose proof (Z.pow_nonneg 2 (Z.max 0 e)). nia.
  - pose proof (Z.pow_pos_nonneg 2 (Z.max 0 (- e))). lia.
Qed.

Lemma zeros_digits n : digits (zeros n).
Proof. unfold zeros. by induction (Z.to_nat n). Qed.

Lemma take_nonempty n s : n ≠ 0 → s ≠ EmptyString → take_string n s ≠ EmptyString.
Proof. by destruct n, s. Qed.

(** A positive finite float is printed as a number. *)
Lemma FormatFloat_form m e : number_form (FormatFloat (S754_finite false m e)).
Proof.
  unfold FormatFloat. destruct (shortest_digits_digits m e) as [Hd Hne].
  destruct (shortest_digits m e) as [ds dp]. cbn [fst] in *. cbn zeta.
  destruct (_ || _); [|case_bool_decide as Hdp; [|case_bool_decide as Hnd]].
  - rewrite string_app_assoc. apply NumberForm; [by apply take_nonempty|by apply digits_take|..].
    + case_bool_decide; [right; exists (drop_string 1 ds); split; [reflexivity|by apply digits_drop]|by left].
    + right. exists (if bool_decide (dp - 1 < 0)%Z then "-" else "+").
      exists (if bool_decide (Z.abs (dp - 1) < 10)%Z then "0" +:+ format_Z (Z.abs (dp - 1)) else format_Z (Z.abs (dp - 1))).
      split; [case_bool_decide; reflexivity|]. split; [case_bool_decide; member|].
      assert (digits (format_Z (Z.abs (dp - 1)))) by (apply format_Z_digits; lia).
      case_bool_decide; [by apply digits_app|done].
  - rewrite <- (string_app_nil_r ("0." +:+ _)).
    change (("0." +:+ zeros (- dp) +:+ ds) +:+ EmptyString) with ("0" +:+ ("." +:+ zeros (- dp) +:+ ds) +:+ EmptyString).
    apply NumberForm; [done|done| |by left]. right. exists (zeros (- dp) +:+ ds). split; [reflexivity|]. apply digits_app. split; [apply zeros_digits|done].
  - rewrite <- (string_app_nil_r (ds +:+ _)), <- (string_app_nil_r EmptyString).
    apply NumberForm; [by destruct ds| |by left..]. apply digits_app. split; [done|apply zeros_digits].
  - rewrite <- (string_app_nil_r ("." +:+ _)). apply NumberForm; [|by apply digits_take| |by left].
    + apply take_nonempty; [lia|done].
    + right. exists (drop_string (Z.to_nat dp) ds). split; [reflexivity|by apply digits_drop].
Qed.

(** The sign of a float, as the operator the parser reads, and the text
    behind it. *)
Definition number_sign (v : float64) : option Z :=
  match v with
  | S754_infinity false => Some ADD
  | S754_zero true | S754_infinity true | S754_finite true _ _ => Some SUB
  | _ => None
  end.
Definition number_word (v : float64) : option string :=
  match v with S754_infinity _ => Some "Inf" | S754_nan => Some "NaN" | _ => None end.
Definition number_magnitude (v : float64) : string :=
  match v with
  | S754_infinity _ => "Inf"
  | S754_nan => "NaN"
  | S754_zero _ => "0"
  | S754_finite _ m e => FormatFloat (S754_finite false m e)
  end.
Definition sign_text (s : option Z) : string :=
  match s with Some s => if bool_decide (s = SUB) then "-" else "+" | None => EmptyString end.

Lemma FormatFloat_text v : FormatFloat v = sign_text (number_sign v) +:+ number_magnitude v.
Proof.
  destruct v as [[]|[]| |[] m e]; try done. cbn [number_sign sign_text number_magnitude]. unfold FormatFloat.
  by destruct (shortest_digits m e).
Qed.

Lemma magnitude_form v : number_word v = None → number_form (number_magnitude v).
Proof.
  destruct v as [[]|[]| |s m e]; try done; intros _; [..|apply FormatFloat_form].
  all: apply (NumberForm "0" EmptyString EmptyString); try (by left); done.
Qed.

(** ** Durations *)

(** The durations the lexer reads: whole seconds, written with one of its
    units. *)
Definition readable_duration (d : Z) : bool :=
  bool_decide (0 < d ≤ int64_max)%Z && bool_decide (Z.rem d Second = 0)%Z.

Lemma Duration_String_second d :
  readable_duration d = true →
  ∃ n u f, Duration_String d = format_Z n +:+ String u EmptyString ∧ (0 ≤ n)%Z ∧ (n * f * Millisecond = d)%Z ∧ (0 < f)%Z ∧
    unit_char u ∧ unit_factor (String u EmptyString) = Some f ∧
    ∀ acc, durationRE acc true (String u EmptyString) = Some (acc, f).
Proof.
  intros [[Hd Hmax]%bool_decide_eq_true Hs%bool_decide_eq_true]%andb_true_iff.
  unfold Second in Hs.
  assert (d = 1000000000 * Z.quot d 1000000000)%Z as Hq by (pose proof (Z.quot_rem' d 1000000000); lia).
  set (s := Z.quot d 1000000000) in *. assert (0 < s)%Z as Hs0 by lia.
  assert (Z.quot d 1000000 = 1000 * s)%Z as Hms.
  { rewrite Hq. replace (1000000000 * s)%Z with (1000 * s * 1000000)%Z by ring. by apply Z.quot_mul. }
  unfold Duration_String. rewrite Hms. cbn zeta. rewrite bool_decide_eq_false_2 by lia.
  assert (∀ f, (0 < f)%Z → Z.rem (1000 * s) f = 0%Z →
    (0 ≤ Z.quot (1000 * s) f)%Z ∧ (Z.quot (1000 * s) f * f * Millisecond = d)%Z) as Hf.
  { intros f Hf Hr. split; [by apply Z.quot_pos; lia|]. pose proof (Z.quot_rem' (1000 * s) f). unfold Millisecond. lia. }
  assert (Z.rem (1000 * s) 1000 = 0)%Z as Hk.
  { rewrite Z.mul_comm. by apply Z.rem_mul. }
  repeat case_bool_decide; try done; match goal with
    | |- context [format_Z (Z.quot _ ?f) +:+ String ?u _] =>
        destruct (Hf f) as [? ?]; [done|assumption|]; exists (Z.quot (1000 * s) f), u, f; split_and!; done
    end.
Qed.

Lemma Duration_String_read d :
  readable_duration d = true →
  ∃ n u, Duration_String d = n +:+ String u EmptyString ∧ n ≠ EmptyString ∧ digits n ∧ unit_char u ∧
    ParseDuration (Duration_String d) = Some d.
Proof.
  intros Hd. destruct (Duration_String_second d Hd) as (n & u & f & -> & Hn & Heq & Hf & Hu & Hfac & Hre).
  apply andb_true_iff in Hd as [[_ Hmax]%bool_decide_eq_true _].
  exists (format_Z n), u. destruct (format_Z_digits n Hn). split_and!; try done.
  rewrite (ParseDuration_unit n _ f); [by rewrite Heq|done..|by rewrite Heq|done|done].
Qed.
