(* ===== verification/ExprParse.v ===== *)
(** * The parser on a printed expression

    The driver of [Parser] on the text that [String_] gives for an
    expression: the rules of [SelectorParse], for each production of the
    grammar.

    An expression is read from a state in which one can start
    ([expr_states]); the operator before it, if there is one, has a
    precedence ([level]), and the token behind it decides between a shift
    and a reduction.  [fits] says that a tree has the shape that this choice
    gives. *)
From S2P Require Import Prelude GoStrings GoFloat Regexp Matchers Promql Rewriting Errors.
From S2P Require Import GoTime Strutil Lexer LexerSpec ParserTables Parser ParserDriver.
From S2P Require Import Quoting SelectorLex SelectorParse Rereading ExprLex PrintedText.
From Stdlib Require Import Ascii.
From stdpp Require Import options.

(** ** Precedence *)

(** The binary operators, in the order of their rules. *)
Definition binary_ops : list (Z * nat) :=
  [(ADD, 4); (DIV, 5); (EQL, 3); (GTE, 3); (GTR, 3); (LAND, 2); (LOR, 1); (LSS, 3); (LTE, 3);
   (LUNLESS, 2); (MOD, 5); (MUL, 5); (NEQ, 3); (POW, 6); (SUB, 4)].
Definition postfix_ops : list (Z * nat) := [(OFFSET, 7); (LEFT_BRACKET, 8)].

(** The precedence of a token, 0 for a token that is no operator. *)
Definition prec (c : Z) : nat := default 0 (map_get c (binary_ops ++ postfix_ops)).

(** Behind an operator of precedence [p] the token [c] ends the operand;
    [^] is right associative. *)
Definition reduces (p : nat) (c : Z) : bool :=
  bool_decide (prec c < p) || bool_decide (prec c = p) && negb (bool_decide (p = prec POW)).

(** The precedence of the operator before an expression: unary operators
    bind like [*]. *)
Definition unary_level : nat := prec MUL.
Definition op_states : list (Z * Z) :=
  zip (114 :: (Z.of_nat <$> seq 119 14))%Z (binary_ops.*1).
Definition level (q : Z) : nat :=
  if bool_decide (q = 50)%Z then unary_level
  else match map_get q op_states with Some c => prec c | None => 0 end.

(** The state that holds the expression read from a state, and the rule
    that reduces there. *)
Definition after_expr (q : Z) : Z := match goto_state 27 q with Done s => s | Panic _ => 0%Z end.

Record expr_state (q : Z) : Prop := ExprState {
  es_state : is_state q;
  es_reads : bool_decide (entry yyPact q ≤ yyFlag)%Z = false;
  es_expr : goto_state 27 q = Done (after_expr q);
  es_after : bool_decide (entry yyPact (after_expr q) ≤ yyFlag)%Z = false;
  es_number : shift_of q (token_of NUMBER) = Some 47%Z;
  es_string : shift_of q (token_of STRING) = Some 49%Z;
  es_paren : shift_of q (token_of LEFT_PAREN) = Some 48%Z;
  es_add : shift_of q (token_of ADD) = Some 64%Z;
  es_sub : shift_of q (token_of SUB) = Some 65%Z;
  es_function : shift_of q (token_of IDENTIFIER) = Some 46%Z;
  es_units : goto_state 22 q = Done 34%Z ∧ goto_state 25 q = Done 35%Z ∧ goto_state 28 q = Done 36%Z ∧
    goto_state 33 q = Done 37%Z ∧ goto_state 34 q = Done 38%Z ∧ goto_state 35 q = Done 39%Z ∧
    goto_state 37 q = Done 40%Z ∧ goto_state 38 q = Done 41%Z ∧ goto_state 39 q = Done 42%Z ∧
    goto_state 40 q = Done 43%Z ∧ goto_state 41 q = Done 44%Z;
  es_unary_op : goto_state 8 q = Done 50%Z;
  es_aggregate_op : goto_state 3 q = Done 45%Z;
  es_offset : shift_of (after_expr q) (token_of OFFSET) = Some 91%Z;
  es_bracket : shift_of (after_expr q) (token_of LEFT_BRACKET) = Some 92%Z;
}.

Lemma expr_states_spec q : q ∈ expr_states → expr_state q.
Proof.
  intros Hq. unfold expr_states in Hq.
  repeat (apply elem_of_cons in Hq as [->|Hq];
    [constructor; first [unfold is_state; lia|repeat split; vm_compute; reflexivity]|]). inversion Hq.
Qed.

(** What the table does with the token behind an expression. *)
Definition op_shift (c : Z) : Z :=
  match list_find (λ p, p.1 = c) binary_ops with Some (i, _) => (76 + Z.of_nat i)%Z | None => 0%Z end.
Definition shifts_ok (q : Z) : bool :=
  forallb (λ p, if reduces (level q) p.1 then true
                else bool_decide (shift_of (after_expr q) (token_of p.1) = Some (op_shift p.1))) binary_ops.
Definition open_tokens (q : Z) : list Z :=
  (λ p, token_of p.1) <$> List.filter (λ p, negb (reduces (level q) p.1)) (binary_ops ++ postfix_ops).
Definition closed_ok (q : Z) : bool :=
  bool_decide (level q = 0) || shifts_among (after_expr q) (open_tokens q).

Lemma expr_states_ops q : q ∈ expr_states → shifts_ok q = true ∧ closed_ok q = true.
Proof.
  intros Hq. unfold expr_states in Hq.
  repeat (apply elem_of_cons in Hq as [->|Hq]; [split; vm_compute; reflexivity|]). inversion Hq.
Qed.

Lemma op_shifts q c :
  q ∈ expr_states → c ∈ binary_ops.*1 → reduces (level q) c = false →
  shift_of (after_expr q) (token_of c) = Some (op_shift c).
Proof.
  intros Hq Hc Hr. destruct (expr_states_ops q Hq) as [Hs _]. unfold shifts_ok in Hs. rewrite forallb_forall in Hs.
  apply list_elem_of_fmap in Hc as ([c' p] & -> & Hc). apply list_elem_of_In, Hs in Hc. cbn [fst] in *.
  rewrite Hr in Hc. by apply bool_decide_eq_true in Hc.
Qed.

Lemma op_reduces q c :
  q ∈ expr_states → level q ≠ 0 → reduces (level q) c = true → shift_of (after_expr q) (token_of c) = None.
Proof.
  intros Hq Hl Hr. destruct (expr_states_ops q Hq) as [_ Hs]. unfold closed_ok in Hs.
  rewrite bool_decide_eq_false_2 in Hs by done. eapply shift_none; [exact Hs|].
  intros Hc. apply list_elem_of_fmap in Hc as ([c' p] & Ht & Hc). apply list_elem_of_In, filter_In in Hc as [Hc Hn].
  cbn [fst] in *. assert (c = c') as ->; [|by rewrite Hr in Hn].
  apply token_of_inj; [| |done]; clear -Hc;
    repeat (destruct Hc as [[= <- <-]|Hc]; [by vm_compute|]); inversion Hc.
Qed.
