(* ===== verification/ExprShape.v ===== *)
(** * Printed expressions

    The trees whose text is read back: their names, labels, durations and
    numbers are such that the lexer reads them ([readable_expr]), and their
    operators nest as the precedences demand ([fits]).  [reads] relates a
    tree to a node of the parser that stands for it. *)
From S2P Require Import Prelude GoStrings GoFloat Regexp Matchers Promql Rewriting Errors.
From S2P Require Import GoTime Strutil Lexer LexerSpec ParserTables Parser ParserDriver.
From S2P Require Import Quoting SelectorLex SelectorParse Rereading ExprLex PrintedText ExprParse.
From Stdlib Require Import Ascii.
From stdpp Require Import options.

(** The token of an operator or aggregator. *)
Definition op_token (op : ItemType) : Z :=
  match op with
  | Promql.SUB => SUB | Promql.ADD => ADD | Promql.MUL => MUL | Promql.MOD => MOD
  | Promql.DIV => DIV | Promql.POW => POW
  | Promql.EQL => EQL | Promql.NEQ => NEQ | Promql.LTE => LTE | Promql.LSS => LSS
  | Promql.GTE => GTE | Promql.GTR => GTR | Promql.EQL_REGEX => EQL_REGEX
  | Promql.NEQ_REGEX => NEQ_REGEX
  | Promql.LAND => LAND | Promql.LOR => LOR | Promql.LUNLESS => LUNLESS
  | Promql.SUM => SUM | Promql.AVG => AVG | Promql.COUNT => COUNT | Promql.MIN => MIN
  | Promql.MAX => MAX | Promql.STDDEV => STDDEV | Promql.STDVAR => STDVAR
  | Promql.TOPK => TOPK | Promql.BOTTOMK => BOTTOMK
  | Promql.COUNT_VALUES => COUNT_VALUES | Promql.QUANTILE => QUANTILE
  | ItemOther i => i
  end.
Definition is_binary (op : ItemType) : bool :=
  match op with ItemOther _ => false | _ => bool_decide (op_token op ∈ binary_ops.*1) end.
Definition is_aggregator (op : ItemType) : bool :=
  match op with ItemOther _ => false | _ => IsAggregator (op_token op) end.

Lemma item_type_token op : is_binary op || is_aggregator op = true → item_type (op_token op) = op.
Proof. by destruct op. Qed.

Lemma is_binary_token op : is_binary op = true → op_token op ∈ binary_ops.*1.
Proof. destruct op; try done; intros Hop; by apply bool_decide_eq_true in Hop. Qed.

Lemma op_token_item t : op_token (item_type t) = t.
Proof.
  unfold item_type, map_get. cbn [List.find fst]. repeat (case_bool_decide as Ht; [by rewrite <- Ht|clear Ht]). done.
Qed.

(** A label that may be grouped by: [inf], [nan] and [without] are not
    accepted, whatever their case. *)
Definition label_ok (l : string) : bool :=
  isLabel l && bool_decide (keyword l ∉ [Some NUMBER; Some WITHOUT]).

Section ExprShape.
Context `{RE : RegexpEngine, !UnicodeTable}.

(** The text of a tree that can be printed. *)
Definition text (e : Expr) : string := go_value EmptyString (String_ e).

(** ** Operators nest by precedence

    [fits p e c]: [e] stands behind an operator of precedence [p] and
    before the token [c]. *)
Fixpoint fits (p : nat) (e : Expr) (c : Z) : bool :=
  match e with
  | AggregateExpr _ e param _ _ =>
      match e with Some e => fits 0 e COMMA | None => false end &&
      match param with Some e => fits 0 e COMMA | None => true end
  | BinaryExpr op l r _ _ =>
      let o := op_token op in
      negb (reduces p o) && fits p l o && fits (prec o) r c && reduces (prec o) c
  | Call _ args => List.forallb (λ a, fits 0 a COMMA) args
  | MatrixSelector _ _ | VectorSelector _ _ _ | StringLiteral _ => true
  | SubqueryExpr e _ _ _ => fits p e LEFT_BRACKET
  | NumberLiteral v => match number_sign v with Some _ => reduces unary_level c | None => true end
  | ParenExpr e => fits 0 e COMMA
  | UnaryExpr _ e =>
      match e with NumberLiteral _ => false | _ => fits unary_level e c end && reduces unary_level c
  end.

(** ** What the lexer reads *)

(** The decimal text of a float reads back as the float. *)
Definition number_value (s : string) : option float64 :=
  match ParseInt s with
  | Some n => Some (of_Z n)
  | None => match ParseFloat s with Ok f => Some f | Error _ => None end
  end.
Definition reads_back (v : float64) : Prop :=
  ∃ x, number_value (number_magnitude v) = Some x ∧
       match number_sign v with
       | Some s => (if bool_decide (s = SUB) then fmul x (of_Z (-1)) else x) = v
       | None => x = v
       end.

(** A matching as the checks of the parser leave it.  The printer drops a
    matching without labels that is not [on], with its grouping. *)
Definition matching_ok (vm : VectorMatching) : Prop :=
  Forall (λ l, label_ok l = true) (MatchingLabels vm) ∧ Forall (λ l, label_ok l = true) (Include vm) ∧
  if is_grouped (Card vm) then MatchingLabels vm ≠ [] ∨ On vm = true else Include vm = [].

Definition no_duration (d : Z) : bool := bool_decide (d = 0)%Z || readable_duration d.

Fixpoint readable_expr (e : Expr) : Prop :=
  match e with
  | AggregateExpr op e param g _ =>
      is_aggregator op = true ∧ Forall (λ l, label_ok l = true) g ∧
      match e with Some e => readable_expr e | None => False end ∧
      match param with
      | Some e => Promql.IsAggregatorWithParam op = true ∧ readable_expr e
      | None => Promql.IsAggregatorWithParam op = false
      end
  | BinaryExpr op l r vm _ =>
      is_binary op = true ∧ match vm with Some vm => matching_ok vm | None => True end ∧
      readable_expr l ∧ readable_expr r
  | Call f args => getFunction (Func_Name f) = Some f ∧ foldr (λ a P, readable_expr a ∧ P) True args
  | MatrixSelector e range =>
      match e with
      | VectorSelector name o ms => readable name ms ∧ no_duration o = true
      | _ => False
      end ∧ readable_duration range = true
  | SubqueryExpr e range o step =>
      readable_expr e ∧ readable_duration range = true ∧ no_duration o = true ∧ no_duration step = true
  | NumberLiteral v => reads_back v
  | ParenExpr e => readable_expr e
  | StringLiteral _ => True
  | UnaryExpr op e => (op = Promql.ADD ∨ op = Promql.SUB) ∧ readable_expr e
  | VectorSelector name o ms => readable name ms ∧ no_duration o = true
  end.

(** All values and strings are plain: the lexer accepts their quoted text. *)
Fixpoint clean (e : Expr) : bool :=
  let clean_opt e := match e with Some e => clean e | None => true end in
  match e with
  | AggregateExpr _ e p _ _ => clean_opt e && clean_opt p
  | BinaryExpr _ l r _ _ => clean l && clean r
  | Call _ args => List.forallb clean args
  | MatrixSelector e _ | SubqueryExpr e _ _ _ | ParenExpr e | UnaryExpr _ e => clean e
  | NumberLiteral _ => true
  | StringLiteral s => plain s
  | VectorSelector name _ ms => all_plain (in_braces name ms)
  end.

(** ** The nodes that stand for a tree

    Up to the order and number of the matchers of a selector; [V] relates
    the matchings. *)
Inductive reads (V : option VectorMatching → option VectorMatching → Prop) : Expr → node → Prop :=
| ReadsAggregate t e n g w r :
    is_aggregator (item_type t) = true → reads V e n →
    reads V (AggregateExpr (item_type t) (Some e) None g w) (NAggregateExpr t (Some n) None g w r)
| ReadsParam t e n p q g w r :
    is_aggregator (item_type t) = true → reads V e n → reads V p q →
    reads V (AggregateExpr (item_type t) (Some e) (Some p) g w) (NAggregateExpr t (Some n) (Some q) g w r)
| ReadsBinary t l l' r r' vm vm' b :
    is_binary (item_type t) = true → reads V l l' → reads V r r' → V vm vm' →
    reads V (BinaryExpr (item_type t) l r vm b) (NBinaryExpr t (Some l') (Some r') vm' b)
| ReadsCall f args args' r :
    Forall2 (reads V) args args' → reads V (Call f args) (NCall (Some f) args' r)
| ReadsMatrix name o ms n range r :
    reads V (VectorSelector name o ms) n →
    reads V (MatrixSelector (VectorSelector name o ms) range) (NMatrixSelector n range r)
| ReadsSubquery e n range o step r :
    reads V e n → reads V (SubqueryExpr e range o step) (NSubqueryExpr n range o step r)
| ReadsNumber v r : reads V (NumberLiteral v) (NNumberLiteral v r)
| ReadsParen e n r : reads V e n → reads V (ParenExpr e) (NParenExpr n r)
| ReadsString s r : reads V (StringLiteral s) (NStringLiteral s r)
| ReadsUnary t e n r :
    t = ADD ∨ t = SUB → reads V e n → reads V (UnaryExpr (item_type t) e) (NUnaryExpr t n r)
| ReadsSelector name o ms l r :
    Forall Labels.wf ms → same_matchers name ms l →
    reads V (VectorSelector name o ms) (NVectorSelector name o (Some <$> l) r).
End ExprShape.
