(* ===== verification/ExprRuns.v ===== *)
(** * The driver on the text of an expression

    [runs_expr e]: from a state in which an expression can start, the driver
    reads the text of [e] as a node that stands for [e].  One lemma for each
    kind of node; [expression_read] is the induction over the tree. *)
From S2P Require Import Prelude GoStrings GoFloat Regexp Matchers Promql Rewriting Errors.
From S2P Require Import GoTime Strutil Lexer LexerSpec ParserTables Parser ParserDriver.
From S2P Require Import Quoting SelectorLex SelectorParse Rereading ExprLex PrintedText ExprParse ExprShape.
From Stdlib Require Import Ascii.
From stdpp Require Import options.

(** What may stand behind an expression. *)
Definition after_rune (r : Z) : bool := name_rune r || is_rune r ".".
Record expr_end (R : string) (c : Z) : Prop := ExprEnd {
  ee_stops : stops after_rune R;
  ee_token : c ∉ [LEFT_PAREN; LEFT_BRACE; BY; WITHOUT];
}.

Lemma after_stops_name R : stops after_rune R → stops name_rune R.
Proof. apply stops_weaken. intros r Hr. unfold after_rune. by rewrite Hr. Qed.
Lemma after_stops_number R : stops after_rune R → stops (ContainsRune number_chars) R.
Proof.
  apply stops_weaken. intros r (c & Hc & <-%bool_decide_eq_true)%existsb_exists. cbn in Hc.
  repeat destruct Hc as [<-|Hc]; try done.
Qed.
Lemma after_stops_word R : stops after_rune R → stops isAlphaNumeric R.
Proof. apply stops_weaken. intros r Hr. unfold after_rune, name_rune. by rewrite Hr. Qed.

(** The matching that is read from the text of a matching. *)
Definition default_matching : VectorMatching := MkVectorMatching CardOneToOne [] false [].
Definition parsed_matching (vm : option VectorMatching) : VectorMatching :=
  match vm with
  | Some vm =>
      if bool_decide (MatchingLabels vm ≠ []) || On vm
      then MkVectorMatching (if is_grouped (Card vm) then Card vm else CardOneToOne) (MatchingLabels vm) (On vm)
             (Include vm)
      else default_matching
  | None => default_matching
  end.
Definition as_parsed (vm vm' : option VectorMatching) : Prop := vm' = Some (parsed_matching vm).

Section ExprRuns.
Context `{RE : RegexpEngine, !UnicodeTable}.
Implicit Types Q : outcome → Prop.

Definition runs_expr (e : Expr) : Prop :=
  ∀ v st d R g c K l p Q s,
    String_ e = Done s → yys v ∈ expr_states → fits (level (yys v)) e c = true → expr_end R c → (0 ≤ d)%Z →
    at_lex l g p → at_token d Outside (s +:+ R) l → follows g d R c K → (clean e = false → bad Q) →
    (∀ w n t p', yys w = after_expr (yys v) → node_ w = Some n → reads as_parsed e n → ahead g d R c K t p' →
       runs (w :: v :: st) t p' Q) →
    runs (v :: st) None p Q.

(** The productions of an expression with one symbol. *)
Definition unit_rules : list (Z * Z) := zip (Z.of_nat <$> seq 34 11) (Z.of_nat <$> seq 8 11).

Lemma runs_unit w v st t p Q n :
  yys v ∈ expr_states → (yys w, n) ∈ unit_rules →
  runs (with_yys (after_expr (yys v)) w :: v :: st) t p Q → runs (w :: v :: st) t p Q.
Proof.
  intros Hv Hn Hrun. apply expr_states_spec in Hv. unfold unit_rules in Hn.
  assert (rule_of (yys w) t = Some n ∧ idx yyR2 n = Done 1%Z ∧ idx yyR1 n = Done 27%Z ∧
    ∀ d v p, action n d v p = Done (v, p)) as (Hr & H2 & H1 & Ha).
  { repeat (apply elem_of_cons in Hn as [[= -> ->]|Hn]; [split_and!; reflexivity|]). inversion Hn. }
  eapply (runs_reduce w [] v st t p n 27); [done|done|done|apply Hv|]. eexists _, p. split; [apply Ha|done].
Qed.

Lemma node_with_yys q w n : node_ w = Some n → node_ (with_yys q w) = Some n.
Proof. done. Qed.

(** ** Durations *)
Definition duration_state (q : Z) : Z :=
  if bool_decide (q = 91)%Z then 133%Z else if bool_decide (q = 92)%Z then 136%Z else 237%Z.

Lemma runs_duration v st l g p D d m R Q :
  yys v ∈ [91; 92; 190]%Z → readable_duration D = true → at_lex l g p →
  lexes l (token_of_text DURATION (Duration_String D) d m R) →
  (∀ w l' p', yys w = duration_state (yys v) → duration w = D → at_lex l' g p' → at_token d m R l' →
     runs (w :: v :: st) None p' Q) →
  runs (v :: st) None p Q.
Proof.
  intros Hv HD Hat (l' & Hn & Ht & Hval & Htok) Hrun.
  assert (bool_decide (entry yyPact (yys v) ≤ yyFlag)%Z = false ∧ shift_of (yys v) (token_of DURATION) = Some 135%Z ∧
    goto_state 42 (yys v) = Done (duration_state (yys v))) as (Hq & Hs & Hg).
  { repeat (apply elem_of_cons in Hv as [->|Hv]; [by split_and!|]). inversion Hv. }
  apply (runs_token v st p l g l' DURATION 135 Q Hat Hn Ht); [done..|]. intros p' Hat'.
  eapply (runs_reduce _ [] v st None p' 176 42); [done|done|done|exact Hg|].
  destruct (Duration_String_read D HD) as (_ & _ & _ & _ & _ & _ & Hparse).
  assert (parseDuration (Val (itemp l')) = Ok D) as Hp.
  { unfold parseDuration. rewrite Hval, Hparse. rewrite bool_decide_eq_false_2; [done|].
    apply andb_true_iff in HD as [HD%bool_decide_eq_true _]. lia. }
  eexists _, p'. split.
  - change (action 176 _ _ p') with ((match parseDuration (Val (itemp l')) with
      | Ok dur => mret (with_duration dur (leaf 135 (itemp l')))
      | Error err => addParseErr (Item_range (itemp l')) err;; mret (with_duration 0%Z (leaf 135 (itemp l')))
      end : P yySymType) p').
    rewrite Hp. reflexivity.
  - by apply (Hrun _ l' p').
Qed.

(** ** Offsets *)
Lemma follows_word g d w R :
  is_word w = true → stops name_rune R → bool_decide (word_type w ∈ [COMMENT; ERROR; EOF]) = false →
  follows g d (" " +:+ w +:+ R) (word_type w) (after_token g (at_token d Outside R)).
Proof.
  intros Hw Hs Hc. apply follows_token; [done|]. intros l Htok.
  destruct (lexes_spaced d (w +:+ R) l _ (word_space w R Hw) (state_word d w R Hw Hs) Htok) as (l' & Hn & Ht & _ & Htok').
  by exists l'.
Qed.

Definition offset_token (o c : Z) : Z := if bool_decide (o = 0)%Z then c else OFFSET.
Definition offset_after (g : option node) (d o : Z) (R : string) (K : parser → Prop) : parser → Prop :=
  if bool_decide (o = 0)%Z then K else after_token g (at_token d Outside (" " +:+ Duration_String o +:+ R)).

Lemma follows_offset g d o R c K :
  follows g d R c K → follows g d (offset_String o +:+ R) (offset_token o c) (offset_after g d o R K).
Proof.
  intros Hf. unfold offset_String, offset_token, offset_after. case_bool_decide; [by rewrite string_app_nil_l|].
  apply (follows_word g d "offset" (" " +:+ Duration_String o +:+ R)); [done|by split|done].
Qed.

Lemma offset_end o R c : expr_end R c → expr_end (offset_String o +:+ R) (offset_token o c).
Proof.
  intros [Hs Hc]. unfold offset_String, offset_token. case_bool_decide; [by constructor|].
  constructor; [by split|]. by apply (bool_decide_eq_false_1 (OFFSET ∈ _)).
Qed.

(** The text of the duration, in the place it is lexed. *)
Lemma lexes_offset_duration d D R l :
  readable_duration D = true → stops isAlphaNumeric R → at_token d Outside (" " +:+ Duration_String D +:+ R) l →
  lexes l (token_of_text DURATION (Duration_String D) d Outside R).
Proof.
  intros HD Hs Htok. destruct (Duration_String_read D HD) as  (n & u & HE & Hne & Hn & Hu & _).
  rewrite HE in Htok |- *. assert (" " +:+ (n +:+ String u EmptyString) +:+ R = " " +:+ n +:+ String u R) as E by by rewrite string_app_assoc.
  rewrite E in Htok. apply (lexes_spaced d (n +:+ String u R)); [|by apply state_duration|done].
  destruct n as [|c n]; [done|]. apply andb_true_iff in Hn as [[Hc%bool_decide_eq_true Hd%decimal_rune]%andb_true_iff _].
  rewrite string_app_cons. split; [done|]. apply bool_decide_eq_false. rewrite !elem_of_cons, elem_of_nil. lia.
Qed.

Lemma runs_offset v st w n o d R g c K t p Q (N : node → Prop) :
  yys v ∈ expr_states → yys w = after_expr (yys v) → node_ w = Some n → no_duration o = true →
  stops after_rune R → follows g d R c K →
  (if bool_decide (o = 0)%Z then N n else ∀ p, ∃ n', addOffset (Some n) o p = Done (Some n', p) ∧ N n') →
  ahead g d (offset_String o +:+ R) (offset_token o c) (offset_after g d o R K) t p →
  (∀ w n t p', yys w = after_expr (yys v) → node_ w = Some n → N n → ahead g d R c K t p' →
     runs (w :: v :: st) t p' Q) →
  runs (w :: v :: st) t p Q.
Proof.
  intros Hv Hw Hn Ho Hs Hf HN Hah Hrun. pose proof (expr_states_spec _ Hv) as Hes.
  pose proof (follows_offset g d o R c K Hf) as Hf'.
  unfold offset_String, offset_token, offset_after, no_duration in *. case_bool_decide as H0.
  { rewrite string_app_nil_l in Hah. by eapply Hrun. }
  cbn [orb] in Ho. eapply runs_ahead; [rewrite Hw; apply Hes|exact Hf'|exact Hah|].
  intros p1 (l1 & Hat1 & Htok1).
  eapply (runs_shift w (v :: st) _ p1 91); [rewrite Hw; apply Hes|].
  eapply (runs_duration (leaf 91 _)); [cbn; member|exact Ho|exact Hat1| |].
  { apply lexes_offset_duration; [done|by apply after_stops_word|exact Htok1]. }
  intros wd l2 p2 Hwd Hdur Hat2 Htok2. destruct (HN p2) as (n' & Hadd & Hn').
  eapply (runs_reduce wd [leaf 91 _; w] v st None p2 65 35 39); [by rewrite Hwd|reflexivity|reflexivity|apply Hes|].
  eexists _, p2. split.
  - change (action 65 _ _ p2) with ((e ← addOffset (node_ w) (duration wd); mret (set_node e w)) p2).
    rewrite Hn, Hdur, (bind_Done _ _ _ _ _ Hadd). reflexivity.
  - eapply (runs_unit _ v st); [done|unfold unit_rules; cbn; member|].
    eapply Hrun; [done|reflexivity|done|]. right. split; [done|]. by exists l2.
Qed.

(** ** Tokens *)
Lemma runs_text v st l g p t w d m R s Q :
  bool_decide (entry yyPact (yys v) ≤ yyFlag)%Z = false → shift_of (yys v) (token_of t) = Some s →
  bool_decide (t ∈ [COMMENT; ERROR; EOF]) = false → at_lex l g p → lexes l (token_of_text t w d m R) →
  (∀ i l' p', Typ i = t → Val i = w → at_lex l' g p' → at_token d m R l' → runs (leaf s i :: v :: st) None p' Q) →
  runs (v :: st) None p Q.
Proof.
  intros Hq Hs Ht Hat (l' & Hn & Ht' & Hv & Htok) Hrun.
  apply (runs_token v st p l g l' t s Q Hat Hn Ht' Ht Hq Hs). intros p' Hat'. by apply (Hrun _ l' p').
Qed.

Lemma lexes_outside d R l J : statement d Outside R J → at_token d Outside R l → lexes l J.
Proof. by apply lexes_statement. Qed.

(** The token behind an expression, with the text that is then left. *)
Definition behind g c d m R (p : parser) : Prop := ∃ l, at_lex l g p ∧ Typ (itemp l) = c ∧ at_token d m R l.

Lemma follows_text g d R c w d' m R' :
  bool_decide (c ∈ [COMMENT; ERROR; EOF]) = false →
  (∀ l, at_token d Outside R l → lexes l (token_of_text c w d' m R')) → follows g d R c (behind g c d' m R').
Proof.
  intros Hc Hlex. apply (follows_token g d R c (λ l, Typ (itemp l) = c ∧ at_token d' m R' l) Hc).
  intros l Htok. destruct (Hlex l Htok) as (l' & Hn & Ht & _ & Htok'). by exists l'.
Qed.

Lemma runs_behind v st g d R c d' m R' s t p Q :
  bool_decide (entry yyPact (yys v) ≤ yyFlag)%Z = false → shift_of (yys v) (token_of c) = Some s →
  follows g d R c (behind g c d' m R') → ahead g d R c (behind g c d' m R') t p →
  (∀ i l' p', Typ i = c → at_lex l' g p' → at_token d' m R' l' → runs (leaf s i :: v :: st) None p' Q) →
  runs (v :: st) t p Q.
Proof.
  intros Hq Hs Hf Hah Hrun. apply (runs_ahead v st g d R c _ t p Q Hq Hf Hah).
  intros p' (l & Hat & Hty & Htok). apply (runs_shift v st _ p' s Q Hs). rewrite (al_lex _ _ _ Hat). by apply (Hrun _ l p').
Qed.

(** ** Numbers *)
Lemma number_text_value text x p : number_value text = Some x → number text p = Done (x, p).
Proof.
  unfold number_value, number. destruct (ParseInt text); [by intros [= ->]|].
  destruct (ParseFloat text); [by intros [= ->]|done].
Qed.

Lemma word_type_number v w : number_word v = Some w → is_word w = true ∧ word_type w = NUMBER ∧ number_magnitude v = w.
Proof. destruct v as [|[]| |]; intros [= <-]; split_and!; reflexivity. Qed.

Lemma lexes_magnitude v d R l :
  stops after_rune R → at_token d Outside (number_magnitude v +:+ R) l →
  lexes l (token_of_text NUMBER (number_magnitude v) d Outside R).
Proof.
  intros Hs Htok. destruct (number_word v) as [w|] eqn:Hw.
  - destruct (word_type_number v w Hw) as (Hword & Ht & Hm). rewrite Hm in *. rewrite <- Ht.
    apply (lexes_outside d (w +:+ R)); [|done]. apply state_word; [done|by apply after_stops_name].
  - apply (lexes_outside d (number_magnitude v +:+ R)); [|done].
    apply state_number; [by apply magnitude_form|by apply after_stops_number|].
    by apply stops_head, after_stops_word.
Qed.

Lemma runs_magnitude v st x y d R l g p Q :
  yys v ∈ expr_states → number_value (number_magnitude x) = Some y → stops after_rune R →
  at_lex l g p → at_token d Outside (number_magnitude x +:+ R) l →
  (∀ w r l' p', yys w = after_expr (yys v) → node_ w = Some (NNumberLiteral y r) → at_lex l' g p' →
     at_token d Outside R l' → runs (w :: v :: st) None p' Q) →
  runs (v :: st) None p Q.
Proof.
  intros Hv Hy Hs Hat Htok Hrun. pose proof (expr_states_spec _ Hv) as Hes.
  eapply runs_text; [apply Hes|apply Hes|done|exact Hat|by apply lexes_magnitude|]. intros i l' p' _ Hval Hat' Htok'.
  eapply (runs_reduce _ [] v st None p' 171 34 38); [reflexivity..|apply Hes|]. eexists _, p'. split.
  - change (action 171 _ _ p') with ((f ← number (Val i); mret (with_node (NNumberLiteral f (Item_range i)) (leaf 47 i))) p').
    rewrite Hval, (bind_Done _ _ _ _ _ (number_text_value _ _ p' Hy)). reflexivity.
  - eapply (runs_unit _ v st); [done|unfold unit_rules; cbn; member|]. by eapply (Hrun _ _ l').
Qed.

(** A sign in front of an operand. *)
Lemma runs_sign v st s d R l g p Q :
  yys v ∈ expr_states → s = ADD ∨ s = SUB → at_lex l g p → at_token d Outside (sign_text (Some s) +:+ R) l →
  (∀ w l' p', yys w = 50%Z → Typ (item w) = s → at_lex l' g p' → at_token d Outside R l' →
     runs (w :: v :: st) None p' Q) →
  runs (v :: st) None p Q.
Proof.
  intros Hv Hs Hat Htok Hrun. pose proof (expr_states_spec _ Hv) as Hes.
  assert ((sign_text (Some s), s) ∈ symbols) as Hsym by (destruct Hs as [-> | ->]; cbn; member).
  assert (shift_of (yys v) (token_of s) = Some (if bool_decide (s = ADD) then 64 else 65)%Z) as Hsh
    by (destruct Hs as [-> | ->]; apply Hes).
  eapply runs_text; [apply Hes|exact Hsh|by destruct Hs as [-> | ->]|exact Hat| |].
  { eapply lexes_outside; [by apply state_symbol|done]. }
  intros i l' p' Ht _ Hat' Htok'.
  eapply (runs_reduce _ [] v st None p' (if bool_decide (s = ADD) then 165 else 166)%Z 8 50);
    [destruct Hs as [-> | ->]; reflexivity..|apply Hes|].
  exists (leaf (if bool_decide (s = ADD) then 64 else 65)%Z i), p'. split; [destruct Hs as [-> | ->]; reflexivity|]. by eapply (Hrun _ l').
Qed.

(** The operand ends, and the operator is put in front of it. *)
Lemma runs_signed w u v st s n (N : node → Prop) g d R c K t p Q :
  yys v ∈ expr_states → yys u = 50%Z → Typ (item u) = s → yys w = after_expr 50 → node_ w = Some n →
  reduces unary_level c = true → follows g d R c K → ahead g d R c K t p →
  (∀ d v p, Typ (item (d 1%Z)) = s → node_ (d 2%Z) = Some n →
     ∃ n', action_unary d v p = Done (with_node n' v, p) ∧ N n') →
  (∀ w n t p', yys w = after_expr (yys v) → node_ w = Some n → N n → ahead g d R c K t p' →
     runs (w :: v :: st) t p' Q) →
  runs (w :: u :: v :: st) t p Q.
Proof.
  intros Hv Hu Hs Hw Hn Hc Hf Hah Hact Hrun. pose proof (expr_states_spec _ Hv) as Hes.
  assert (50 ∈ expr_states)%Z as H50 by (unfold expr_states; cbn; member).
  apply (runs_ahead w _ g d R c K t p Q); [rewrite Hw; by apply (es_after 50), expr_states_spec|done|done|].
  intros p' HK.
  eapply (runs_reduce w [u] v st _ p' 73 40 43); [|reflexivity|reflexivity|apply Hes|].
  { rewrite Hw. unfold rule_of. rewrite (op_reduces 50 c H50); [reflexivity|done|done]. }
  destruct (Hact (λ i, nth (Z.to_nat i - 1) [u; w] zero_sym) u p' Hs Hn) as (n' & Ha & HN).
  eexists _, p'. split; [exact Ha|]. eapply (runs_unit _ v st); [done|unfold unit_rules; cbn; member|].
  eapply (Hrun _ n'); [done|done|done|by left].
Qed.
End ExprRuns.
