(* ===== verification/Typing.v ===== *)
(** * The checks of the parser on trees

    [typed]: the conditions of [checkAST], on a tree.  A node that stands
    for a typed tree passes the checks ([checkAST_typed]), which give it the
    vector matchings of the tree. *)
From S2P Require Import Prelude GoStrings GoFloat Regexp DataSet Matchers Prom Restriction Promql Rewriting Errors.
From S2P Require Import GoTime Strutil Lexer LexerSpec ParserTables Parser ParserDriver ParserSpec.
From S2P Require Import Quoting SelectorLex SelectorParse Rereading ExprLex PrintedText ExprParse ExprShape.
From S2P Require Import ExprRuns.
From stdpp Require Import options.

Section Typing.
Context `{RE : RegexpEngine, !UnicodeTable}.

(** ** The conditions *)

(** The type of the parameter of an aggregation. *)
Definition param_type (op : ItemType) : option ValueType :=
  match op with
  | Promql.TOPK | Promql.BOTTOMK | Promql.QUANTILE => Some ValueTypeScalar
  | Promql.COUNT_VALUES => Some ValueTypeString
  | _ => None
  end.

(** The modifiers of a binary expression with operands of the types [lt]
    and [rt]. *)
Definition binary_typed (op : Z) (lt rt : ValueType) (vm : option VectorMatching) (b : bool) : Prop :=
  (b = true → IsComparisonOperator op = true) ∧
  (IsComparisonOperator op = true → b = false → rt = ValueTypeScalar → lt ≠ ValueTypeScalar) ∧
  scalar_or_vector lt = true ∧ scalar_or_vector rt = true ∧
  if bool_decide (lt = ValueTypeVector) && bool_decide (rt = ValueTypeVector) then
    ∃ m, vm = Some m ∧ (On m = true → ∀ l, l ∈ MatchingLabels m → l ∉ Include m) ∧
         is_many_to_many (Card m) = IsSetOperator op
  else vm = None ∧ IsSetOperator op = false.

Definition arity_ok (f : Function_) (args : nat) : bool :=
  let given := Z.of_nat args in
  let nargs := Z.of_nat (length (ArgTypes f)) in
  if bool_decide (Variadic f = 0)%Z then bool_decide (nargs = given)
  else negb (bool_decide (given < nargs - 1)%Z) &&
       negb (bool_decide (0 < Variadic f)%Z && bool_decide (nargs - 1 + Variadic f < given)%Z).

Fixpoint typed (e : Expr) : Prop :=
  match e with
  | AggregateExpr op e p _ _ =>
      match e with Some e => typed e ∧ Type_ e = ValueTypeVector | None => False end ∧
      match param_type op with
      | Some t => match p with Some p => typed p ∧ Type_ p = t | None => False end
      | None => p = None
      end
  | BinaryExpr op l r vm b => typed l ∧ typed r ∧ binary_typed (op_token op) (Type_ l) (Type_ r) vm b
  | Call f args =>
      arity_ok f (length args) = true ∧
      (fix typed_args (i : nat) (args : list Expr) : Prop :=
         match args with
         | [] => True
         | a :: args => typed a ∧ arg_type f i = Done (Some (Type_ a)) ∧ typed_args (S i) args
         end) 0 args
  | MatrixSelector e _ | ParenExpr e => typed e
  | SubqueryExpr e _ _ _ => typed e ∧ Type_ e = ValueTypeVector
  | UnaryExpr _ e => typed e ∧ scalar_or_vector (Type_ e) = true
  | VectorSelector name _ ms => passes_checks name ms
  | NumberLiteral _ | StringLiteral _ => True
  end.

(** ** The types of nodes *)
Lemma reads_Type V e n : reads V e n → node_Type n = Done (Type_ e).
Proof.
  revert n. induction e as [e IH] using Expr_children_ind. intros n Hn.
  destruct Hn as [ | |t l l' r r' vm vm' b Ht Hl Hr Hvm|f args args' r Hargs| | | | | | |]; try done.
  - cbn. rewrite (IH l) with (2 := Hl) by (cbn; member). cbn. rewrite (IH r) with (2 := Hr) by (cbn; member).
    case_bool_decide; [|done]. cbn. by case_bool_decide.
  - cbn. apply IH; [cbn; member|done].
  - cbn. apply IH; [cbn; member|done].
Qed.

(** ** The checks of each node *)
Lemma error_if_false r text (p : parser) : error_if false r text p = Done (tt, p).
Proof. reflexivity. Qed.

Lemma for_each_ok {A} (f : A → P unit) l p : (∀ a, a ∈ l → f a p = Done (tt, p)) → for_each f l p = Done (tt, p).
Proof.
  induction l as [|a l IH]; intros Hf; [done|]. unfold for_each. cbn [foldr].
  rewrite (bind_Done _ _ p tt p) by (apply Hf; by left). apply IH. intros b Hb. apply Hf. by right.
Qed.

(** The matching of the tree is what the checks make of the parsed one. *)
Lemma parsed_checked op m :
  matching_ok m → is_many_to_many (Card m) = IsSetOperator op →
  (let vm := parsed_matching (Some m) in
   if IsSetOperator op && is_one_to_one (Card vm) then set_card CardManyToMany vm else vm) = m.
Proof.
  intros (_ & _ & Hcard) Hmany. destruct m as [c ls on incl]. unfold parsed_matching. cbn in *.
  rewrite <- Hmany. destruct c, on, ls as [|x ls]; cbn in *; try done; try by rewrite Hcard.
  all: by destruct Hcard.
Qed.

(** The matching that is checked, when its operands are typed. *)
Definition matching_case (op : Z) (lt rt : ValueType) (vm : option VectorMatching) (m : VectorMatching) : Prop :=
  match vm with
  | Some vm => lt = ValueTypeVector ∧ rt = ValueTypeVector ∧ m = vm ∧
      (On vm = true → ∀ l, l ∈ MatchingLabels vm → l ∉ Include vm) ∧ is_many_to_many (Card vm) = IsSetOperator op
  | None => m = default_matching ∧ bool_decide (lt = ValueTypeVector) && bool_decide (rt = ValueTypeVector) = false ∧
      IsSetOperator op = false
  end.

Lemma checked_matching op lt rt vm :
  match vm with Some vm => matching_ok vm | None => True end →
  (if bool_decide (lt = ValueTypeVector) && bool_decide (rt = ValueTypeVector) then
     ∃ m, vm = Some m ∧ (On m = true → ∀ l, l ∈ MatchingLabels m → l ∉ Include m) ∧
          is_many_to_many (Card m) = IsSetOperator op
   else vm = None ∧ IsSetOperator op = false) →
  matching_case op lt rt vm
    (if IsSetOperator op && is_one_to_one (Card (parsed_matching vm))
     then set_card CardManyToMany (parsed_matching vm) else parsed_matching vm).
Proof.
  intros Hvm Hm. destruct (_ && bool_decide (rt = _)) eqn:Hvec.
  - destruct Hm as (vm' & -> & Hon & Hmany).
    apply andb_true_iff in Hvec as [->%bool_decide_eq_true ->%bool_decide_eq_true].
    split_and!; try done. by apply parsed_checked.
  - destruct Hm as [-> Hset]. by rewrite Hset.
Qed.

Lemma check_binary_typed op l r lt rt vm b p :
  IsOperator op = true → node_Type l = Done lt → node_Type r = Done rt →
  match vm with Some vm => matching_ok vm | None => True end → binary_typed op lt rt vm b →
  check_binary op l r lt rt (Some (parsed_matching vm)) b p = Done (NBinaryExpr op (Some l) (Some r) vm b, p).
Proof.
  intros Hop Hl Hr Hvm (Hb & Hcmp & Hlt & Hrt & Hm). unfold check_binary. cbv zeta. rewrite bind_get.
  assert (b && negb (IsComparisonOperator op) = false) as -> by (destruct b; [by rewrite Hb|done]).
  rewrite (bind_Done _ _ p tt p) by done.
  rewrite (bind_Done _ _ p (if IsComparisonOperator op && negb b then rt else ValueTypeNone) p)
    by (destruct (IsComparisonOperator op && negb b); [by rewrite Hr|done]).
  set (rscalar := if IsComparisonOperator op && negb b then rt else ValueTypeNone).
  rewrite (bind_Done _ _ p (if bool_decide (rscalar = ValueTypeScalar) then lt else ValueTypeNone) p)
    by (destruct (bool_decide (rscalar = ValueTypeScalar)); [by rewrite Hl|done]).
  assert (bool_decide ((if bool_decide (rscalar = ValueTypeScalar) then lt else ValueTypeNone) = ValueTypeScalar) = false) as ->.
  { apply bool_decide_eq_false. unfold rscalar. destruct (IsComparisonOperator op && negb b) eqn:Hc; [|done].
    apply andb_true_iff in Hc as [Hc Hnb%negb_true_iff]. destruct (bool_decide_reflect (rt = ValueTypeScalar)); [by apply Hcmp|done]. }
  rewrite (bind_Done _ _ p tt p) by done. cbn [deref lift]. rewrite (bind_Done _ _ p (parsed_matching vm) p) by done.
  set (m := if IsSetOperator op && is_one_to_one (Card (parsed_matching vm)) then _ else _).
  pose proof (checked_matching op lt rt vm Hvm Hm) as Hcase. fold m in Hcase.
  clearbody m rscalar. clear Hm.
  rewrite (bind_Done _ _ p tt p).
  2: { apply for_each_ok. intros l1 Hl1. apply for_each_ok. intros l2 Hl2.
       replace (bool_decide (l1 = l2) && On m) with false; [done|]. symmetry. apply andb_false_iff.
       destruct vm as [vm|]; [|destruct Hcase as (-> & _); by right].
       destruct Hcase as (_ & _ & -> & Hon & _). destruct (On vm); [left|by right].
       apply bool_decide_eq_false. intros ->. by apply (Hon eq_refl l2). }
  rewrite Hop, Hlt, Hrt. do 3 (rewrite (bind_Done _ _ p tt p) by done).
  destruct vm as [vm|].
  - destruct Hcase as (-> & -> & -> & _ & Hmany).
    replace (IsSetOperator op && is_grouped (Card vm)) with false by (rewrite <- Hmany; by destruct (Card vm)).
    rewrite Hmany. replace (IsSetOperator op && negb (IsSetOperator op)) with false by by destruct (IsSetOperator op).
    reflexivity.
  - destruct Hcase as (-> & Hvec & ->). rewrite andb_false_r.
    replace (negb (bool_decide (lt = ValueTypeVector)) || negb (bool_decide (rt = ValueTypeVector))) with true
      by (by rewrite <- negb_andb, Hvec).
    reflexivity.
Qed.

(** ** The whole of the checks *)
Definition same_matching (vm vm' : option VectorMatching) : Prop := vm' = vm.

Lemma expect_typed want context n n' (check : P (ValueType * node)) p :
  check p = Done ((want, n'), p) → n = n' → expect want context check p = Done (n, p).
Proof. intros Hc ->. unfold expect. rewrite (bind_Done _ _ _ _ _ Hc). by rewrite bool_decide_eq_true_2. Qed.

Lemma check_arity_ok f n r p : arity_ok f n = true → check_arity f n r p = Done (tt, p).
Proof.
  unfold arity_ok, check_arity. cbv zeta. destruct (bool_decide (Variadic f = 0)%Z); [by intros ->|].
  destruct (bool_decide (_ < _ - 1)%Z); [done|]. cbn [negb andb]. intros Hn%negb_true_iff. by rewrite Hn.
Qed.


Definition passes (e : Expr) : Prop :=
  ∀ n p, reads as_parsed e n → readable_expr e → typed e →
    ∃ n', checkAST n p = Done ((Type_ e, n'), p) ∧ reads same_matching e n'.

Lemma passes_expect e n p want context :
  passes e → reads as_parsed e n → readable_expr e → typed e → Type_ e = want →
  ∃ n', expect want context (checkAST n) p = Done (n', p) ∧ reads same_matching e n'.
Proof.
  intros He Hn Hr Ht <-. destruct (He n p Hn Hr Ht) as (n' & Hc & Hn'). exists n'.
  split; [|done]. by eapply expect_typed.
Qed.

(** The loops of [typed] and [checkAST] over the arguments of a call. *)
Definition typed_args (f : Function_) : nat → list Expr → Prop :=
  fix typed_args (i : nat) (args : list Expr) : Prop :=
    match args with
    | [] => True
    | a :: args => typed a ∧ arg_type f i = Done (Some (Type_ a)) ∧ typed_args (S i) args
    end.
Definition check_args (f : Function_) (what : string) : nat → list node → P (list node) :=
  fix check_args (i : nat) (l : list node) : P (list node) :=
    match l with
    | [] => mret []
    | a :: l =>
        t ← lift (arg_type f i);
        match t with
        | None => mret (a :: l)
        | Some t => a ← expect t what (checkAST a); l ← check_args (S i) l; mret (a :: l)
        end
    end.

Lemma to_Expr_call f args r : to_Expr (NCall (Some f) args r) = (es ← mapM to_Expr args; Some (Call f es)).
Proof. reflexivity. Qed.

Lemma check_args_cons f what i a l :
  check_args f what i (a :: l) =
    (t ← lift (arg_type f i);
     match t with
     | None => mret (a :: l)
     | Some t => a ← expect t what (checkAST a); l ← check_args f what (S i) l; mret (a :: l)
     end).
Proof. reflexivity. Qed.

Lemma check_arguments f what (args : list Expr) (args' : list node) i p :
  Forall2 (reads as_parsed) args args' → (∀ a, a ∈ args → passes a) → Forall readable_expr args →
  typed_args f i args →
  ∃ l, check_args f what i args' p = Done (l, p) ∧ Forall2 (reads same_matching) args l.
Proof.
  intros Hargs. revert i. induction Hargs as [|a n args args' Hn _ IH]; intros i Hp Hr Ht; [by eexists|].
  destruct Ht as (Hta & Hty & Ht). apply Forall_cons in Hr as [Hra Hr].
  destruct (passes_expect a n p (Type_ a) what) as (n' & He & Hn'); [apply Hp; by left|done..|].
  destruct (IH (S i)) as (l & Hl & Hreads); [|done|done|].
  { intros b Hb. apply Hp. by right. }
  exists (n' :: l). split; [|by constructor].
  rewrite check_args_cons, bind_lift, Hty, (bind_Done _ _ _ _ _ He), (bind_Done _ _ _ _ _ Hl). reflexivity.
Qed.

Lemma is_aggregator_token t : is_aggregator (item_type t) = true → IsAggregator t = true.
Proof. pose proof (op_token_item t) as E. unfold is_aggregator. rewrite E. by destruct (item_type t). Qed.
Lemma is_binary_operator t : is_binary (item_type t) = true → IsOperator t = true.
Proof.
  pose proof (op_token_item t) as E. intros Hop%is_binary_token. rewrite E in Hop. clear E.
  repeat (apply elem_of_cons in Hop as [->|Hop]; [done|]). inversion Hop.
Qed.

Lemma param_type_token t :
  match param_type (item_type t) with
  | Some ValueTypeScalar => bool_decide (t ∈ [TOPK; BOTTOMK; QUANTILE]) = true
  | Some _ => bool_decide (t ∈ [TOPK; BOTTOMK; QUANTILE]) = false ∧ bool_decide (t = COUNT_VALUES) = true
  | None => bool_decide (t ∈ [TOPK; BOTTOMK; QUANTILE]) = false ∧ bool_decide (t = COUNT_VALUES) = false
  end.
Proof.
  destruct (bool_decide_reflect (t ∈ [TOPK; BOTTOMK; QUANTILE])) as [Ht|Ht].
  - repeat (apply elem_of_cons in Ht as [->|Ht]; [done|]). inversion Ht.
  - case_bool_decide as Hc; [by subst t|]. rewrite !not_elem_of_cons in Ht. destruct Ht as (H1 & H2 & H3 & _).
    pose proof (op_token_item t) as E. destruct (item_type t); cbn in E |- *; try done; subst t; done.
Qed.

Lemma param_type_with op : Promql.IsAggregatorWithParam op = bool_decide (is_Some (param_type op)).
Proof. by destruct op. Qed.

Lemma typed_ret {A} (t : ValueType) (m : P A) p a :
  m p = Done (a, p) → (n ← m; mret (t, n)) p = Done ((t, a), p).
Proof. intros Hm. by rewrite (bind_Done _ _ _ _ _ Hm). Qed.

Lemma param_type_cases op ty : param_type op = Some ty → ty = ValueTypeScalar ∨ ty = ValueTypeString.
Proof. destruct op; intros [= <-]; auto. Qed.

Lemma passes_aggregate e t p g w :
  passes e → (∀ q, p = Some q → passes q) → passes (AggregateExpr (item_type t) (Some e) p g w).
Proof.
  intros IHe IHp n s Hn (_ & _ & Hre & Hparam) ((Hte & Htye) & Hpt). pose proof (reads_Type _ _ _ Hn) as Hty.
  pose proof (param_type_token t) as Hp. pose proof (param_type_cases (item_type t)) as Hcases.
  inversion Hn as [t' ? m ? ? r Hop Hm E|t' ? m q k ? ? r Hop Hm Hq E| | | | | | | | |]; subst;
    apply (f_equal op_token) in E; rewrite !op_token_item in E; subst t';
    (destruct (passes_expect e m s ValueTypeVector "aggregation expression") as (m' & He & Hm'); [done..|]);
    rewrite param_type_with in Hparam.
  - exists (NAggregateExpr t (Some m') None g w r). split; [|by constructor].
    cbn [checkAST]. rewrite bind_lift, Hty. apply typed_ret.
    rewrite (is_aggregator_token t Hop), (bind_Done _ _ s tt s), (bind_Done _ _ _ _ _ He) by done.
    destruct (param_type (item_type t)); [done|]. by destruct Hp as [-> ->].
  - destruct Hparam as [Hparam Hrq]. destruct (param_type (item_type t)) as [ty|]; [|done]. destruct Hpt as [Htq Htyq].
    destruct (passes_expect q k s ty "aggregation parameter") as (k' & Hk & Hk'); [by apply IHp|done..|].
    exists (NAggregateExpr t (Some m') (Some k') g w r). split; [|by constructor].
    cbn [checkAST]. rewrite bind_lift, Hty. apply typed_ret.
    rewrite (is_aggregator_token t Hop), (bind_Done _ _ s tt s), (bind_Done _ _ _ _ _ He) by done.
    destruct (Hcases ty eq_refl) as [-> | ->]; [rewrite Hp|destruct Hp as [-> ->]];
      rewrite (bind_Done _ _ _ (Some k') s); try done; by rewrite (bind_Done _ _ _ _ _ Hk).
Qed.

Lemma checkAST_typed e : passes e.
Proof.
  induction e as [e IH] using Expr_children_ind.  intros n p Hn Hr Ht. pose proof (reads_Type _ _ _ Hn) as Hty.
  destruct Hn as [t e n g w r Hop Hn|t e n q m g w r Hop Hn Hq|t l l' r r' vm vm' b Hop Hl Hr' Hvm|f args args' r Hargs
    |name o ms n range r Hn|e n range o step r Hn|v r|e n r Hn|s r|t e n r Hop Hn|name o ms l r Hwf [Hsame Hk]];
    [| |cbn [checkAST]; rewrite bind_lift, Hty..].
  - eapply (passes_aggregate e t None); [apply IH; cbn; member|done|by constructor|exact Hr|exact Ht].
  - eapply (passes_aggregate e t (Some q)); [apply IH; cbn; member| |by constructor|exact Hr|exact Ht].
    intros q' [= <-]. apply IH. cbn. member.
  - destruct Hr as (_ & Hok & Hrl & Hrr), Ht as (Htl & Htr & Hb). rewrite op_token_item in Hb.
    destruct (IH l) with (n := l') (p := p) as (nl & Hcl & Hnl); [cbn; member|done..|].
    destruct (IH r) with (n := r') (p := p) as (nr & Hcr & Hnr); [cbn; member|done..|].
    exists (NBinaryExpr t (Some nl) (Some nr) vm b). split; [|by constructor]. apply typed_ret.
    rewrite (bind_Done _ _ _ _ _ Hcl), (bind_Done _ _ _ _ _ Hcr), Hvm.
    apply check_binary_typed; [by apply is_binary_operator|by eapply reads_Type..|done|done].
  - destruct Hr as [Hf Hra], Ht as [Har Hta]. rewrite (foldr_and readable_expr) in Hra.
    destruct (check_arguments f ("call to function " +:+ Quote (Func_Name f)) args args' 0 p Hargs) as (l & Hl & Hreads);
      [intros a Ha; by apply IH|done|exact Hta|].
    exists (NCall (Some f) l r). split; [|by constructor]. apply typed_ret. cbn [deref]. rewrite bind_lift.
    rewrite (bind_Done _ _ p tt p) by (apply check_arity_ok; by rewrite <- (Forall2_length _ _ _ Hargs)).
    by rewrite (bind_Done _ _ _ _ _ Hl).
  - destruct (IH (VectorSelector name o ms)) with (n := n) (p := p) as (n' & Hc & Hn'); [cbn; member|done|apply Hr|done|].
    exists (NMatrixSelector n' range r). split; [|by constructor]. apply typed_ret.
    by rewrite (bind_Done _ _ _ _ _ Hc).
  - destruct Hr as (Hre & _), Ht as [Hte Htye].
    destruct (IH e) with (n := n) (p := p) as (n' & Hc & Hn'); [cbn; member|done..|].
    exists (NSubqueryExpr n' range o step r). split; [|by constructor]. apply typed_ret.
    rewrite (bind_Done _ _ _ _ _ Hc). cbv beta iota zeta. by rewrite Htye, bool_decide_eq_true_2.
  - eexists. split; [reflexivity|constructor].
  - destruct (IH e) with (n := n) (p := p) as (n' & Hc & Hn'); [cbn; member|done..|].
    exists (NParenExpr n' r). split; [|by constructor]. apply typed_ret. by rewrite (bind_Done _ _ _ _ _ Hc).
  - eexists. split; [reflexivity|constructor].
  - destruct Hr as [_ Hre], Ht as [Hte Htye].
    destruct (IH e) with (n := n) (p := p) as (n' & Hc & Hn'); [cbn; member|done..|].
    exists (NUnaryExpr t n' r). split; [|by constructor]. apply typed_ret.
    assert (negb (bool_decide (t = ADD)) && negb (bool_decide (t = SUB)) = false) as -> by by destruct Hop as [-> | ->].
    rewrite (bind_Done _ _ p tt p), (bind_Done _ _ _ _ _ Hc) by done. by rewrite Htye.
  - exists (NVectorSelector name o (Some <$> l) r). split; [|by constructor]. apply typed_ret.
    assert (Forall Labels.wf l) as Hwfl.
    { rewrite Forall_forall in Hwf |- *. intros m Hm. by apply Hwf, Hsame. }
    by rewrite (bind_Done _ _ p tt p) by by eapply check_selector_passes.
Qed.
End Typing.
