(* ===== verification/TypeSound.v ===== *)
(** * The checks of the parser are sound

    What [ParseExpr] accepts is [typed]: operands and arguments have the
    types that their operator, function or aggregation takes, each selector
    has a matcher that refuses the empty string and one name at most. *)
From S2P Require Import Prelude GoStrings GoFloat Regexp DataSet Matchers Prom Restriction Promql Rewriting Errors.
From S2P Require Import GoTime Strutil Lexer LexerSpec ParserTables Parser ParserDriver ParserSpec.
From S2P Require Import Quoting SelectorLex SelectorParse Rereading ExprLex PrintedText ExprParse ExprShape.
From S2P Require Import ExprRuns Typing.
From stdpp Require Import options.

Section Judgements.
Context `{RE : RegexpEngine, !UnicodeTable}.

(** ** Checks without errors

    [keeps m]: [m] takes no error back; [passing Q m]: when no error is
    recorded, what [m] returns satisfies [Q]. *)
Definition keeps {A} (m : P A) : Prop :=
  ∀ p a p', m p = Done (a, p') → parseErrors p' = [] → parseErrors p = [].
Definition passing {A} (Q : A → Prop) (m : P A) : Prop :=
  ∀ p a p', m p = Done (a, p') → parseErrors p' = [] → Q a.

Lemma keeps_ret {A} (a : A) : keeps (mret a).
Proof. by intros p b p' [= <- <-]. Qed.
Lemma keeps_lift {A} (m : go A) : keeps (lift m).
Proof. intros p a p'. unfold lift. destruct m; [|done]. by intros [= <- <-]. Qed.
Lemma keeps_get {A} (f : parser → A) : keeps (get f).
Proof. by intros p a p' [= <- <-]. Qed.
Lemma keeps_addParseErr r t : keeps (addParseErr r t).
Proof. intros p a p' [= <- <-]. cbn. by destruct (parseErrors p). Qed.
Lemma keeps_bind {A B} (m : P A) (f : A → P B) : keeps m → (∀ a, keeps (f a)) → keeps (m ≫= f).
Proof.
  intros Hm Hf p b p2. rewrite bind_run. destruct (m p) as [[a p1]|] eqn:Hmp; [|done].
  intros Hfp He. eapply Hm, Hf; done.
Qed.
Lemma keeps_error_if b r t : keeps (error_if b r t).
Proof. destruct b; [|apply keeps_ret]. apply keeps_bind; [apply keeps_lift|intros; apply keeps_addParseErr]. Qed.
Lemma keeps_for_each {A} (f : A → P unit) l : (∀ a, keeps (f a)) → keeps (for_each f l).
Proof. intros Hf. induction l; [apply keeps_ret|]. by apply keeps_bind. Qed.

Lemma passing_ret {A} (Q : A → Prop) a : Q a → passing Q (mret a).
Proof. by intros Hq p b p' [= <- <-] _. Qed.
Lemma passing_bind {A B} (Q : A → Prop) (R : B → Prop) (m : P A) (f : A → P B) :
  passing Q m → (∀ a, keeps (f a)) → (∀ a, Q a → passing R (f a)) → passing R (m ≫= f).
Proof.
  intros Hm Hk Hf p b p2. rewrite bind_run. destruct (m p) as [[a p1]|] eqn:Hmp; [|done].
  intros Hfp He. eapply Hf; [eapply Hm; [done|by eapply Hk]|done..].
Qed.
Lemma passing_lift {A} (m : go A) : passing (λ a, m = Done a) (lift m).
Proof. intros p a p'. unfold lift. destruct m; [|done]. by intros [= <- <-]. Qed.
Lemma passing_any {A} (m : P A) : passing (λ _, True) m.
Proof. done. Qed.
Lemma passing_weaken {A} (Q R : A → Prop) m : passing Q m → (∀ a, Q a → R a) → passing R m.
Proof. intros Hm HQR p a p' ??. eauto. Qed.
Lemma passing_addParseErr r t : passing (λ _, False) (addParseErr r t).
Proof. intros p a p' [= <- <-]. cbn. by destruct (parseErrors p). Qed.
Lemma passing_error_if b r t : passing (λ _, b = false) (error_if b r t).
Proof.
  destruct b; [|by intros ???]. unfold error_if. eapply passing_bind; [apply passing_any|intros; apply keeps_addParseErr|].
  intros range _. eapply passing_weaken; [apply passing_addParseErr|done].
Qed.
Lemma passing_for_each {A} (f : A → P unit) (Q : A → Prop) l :
  (∀ a, keeps (f a)) → (∀ a, passing (λ _, Q a) (f a)) → passing (λ _, Forall Q l) (for_each f l).
Proof.
  intros Hk Hf. induction l as [|a l IH]; [by apply passing_ret; constructor|].
  eapply passing_bind; [apply Hf|intros; by apply keeps_for_each|]. intros u Ha.
  eapply passing_weaken; [exact IH|]. intros ? Hl. by constructor.
Qed.
End Judgements.

Create HintDb checks.
#[export] Hint Resolve keeps_ret keeps_lift keeps_get keeps_addParseErr keeps_error_if keeps_for_each : checks.

Ltac keeps_step :=
  lazymatch goal with
  | |- ∀ _, _ => intro
  | |- keeps (_ ≫= _) => apply keeps_bind
  | |- keeps (for_each _ _) => apply keeps_for_each
  | |- keeps (match ?x with _ => _ end) => destruct x
  | |- keeps _ => solve [auto with checks]
  end.
Ltac keeps := repeat keeps_step.

(** One step of a check, of which [lem] says what it passes. *)
Tactic Notation "passing_by" uconstr(lem) "as" simple_intropattern(pat) :=
  eapply passing_bind; [eapply lem|solve [keeps]|]; cbv beta; intros ? pat.
Ltac passing_skip := eapply passing_bind; [apply passing_any|solve [keeps]|]; cbv beta; intros ? _.

Section TypeSound.
Context `{RE : RegexpEngine, !UnicodeTable}.

(** ** The checks keep errors *)
Lemma keeps_check_binary op l r lt rt vm b : keeps (check_binary op l r lt rt vm b).
Proof. unfold check_binary. keeps. Qed.
Lemma keeps_check_arity f n r : keeps (check_arity f n r).
Proof. unfold check_arity. keeps. Qed.
Lemma keeps_check_selector name ms r : keeps (check_selector name ms r).
Proof. unfold check_selector. keeps. Qed.
Lemma keeps_expect want context m : keeps m → keeps (expect want context m).
Proof. intros Hm. unfold expect. apply keeps_bind; [done|]. keeps. Qed.
#[local] Hint Resolve keeps_check_binary keeps_check_arity keeps_check_selector keeps_expect : checks.

Lemma keeps_args f what args i : Forall (λ n, keeps (checkAST n)) args → keeps (check_args f what i args).
Proof.
  intros Ha. revert i. induction Ha as [|a l Ha _ IH]; intros i; [apply keeps_ret|].
  rewrite check_args_cons. apply keeps_bind; [keeps|]. intros [t|]; keeps.
Qed.

Lemma keeps_checkAST n : keeps (checkAST n).
Proof.
  induction n as [l Hl|op e p g w r He Hp|op l r vm b Hl Hr|f args r Ha|vs range e Hvs|
    n range o s e Hn|v r|n r Hn|s r|op n s Hn|name o ms r] using node_nested_ind;
    cbn [checkAST]; try solve [keeps].
  - apply keeps_bind; [keeps|]. intros typ. apply keeps_bind; [|keeps]. apply keeps_bind; [|keeps].
    induction Hl as [|a l Ha _ IH]; keeps.
  - destruct e, p; cbn in He, Hp; keeps.
  - apply keeps_bind; [keeps|]. intros typ. apply keeps_bind; [|keeps]. apply keeps_bind; [keeps|]. intros f'.
    apply keeps_bind; [keeps|]. intros _. apply keeps_bind; [|keeps].
    by apply keeps_args.
Qed.
Lemma keeps_operand (o : option node) : keeps (match o with Some n => checkAST n | None => lift (Panic nil_dereference) end).
Proof. destruct o; [apply keeps_checkAST|keeps]. Qed.
Lemma keeps_all_args f what i args : keeps (check_args f what i args).
Proof. apply keeps_args, Forall_forall. intros. apply keeps_checkAST. Qed.
#[local] Hint Resolve keeps_checkAST keeps_operand keeps_all_args : checks.

(** ** Types of nodes *)
Lemma to_Expr_Type n e : to_Expr n = Some e → node_Type n = Done (Type_ e).
Proof.
  revert e. induction n as [l Hl|op x p g w r Hx Hp|op l r vm b Hl Hr|f args r Ha|vs range e Hvs|
    n range o s e Hn|v r|n r Hn|s r|op n s Hn|name o ms r] using node_nested_ind; intros y Hy;
    cbn [to_Expr] in Hy; cbn [node_Type]; simplify_option_eq; try done; try by apply Hn.
  - destruct l as [l|], r as [r|]; try done. cbn in Hl, Hr. simplify_option_eq.
    all: rewrite (Hl _ eq_refl), (Hr _ eq_refl); cbn; by repeat case_bool_decide; congruence.
  - destruct f as [f|]; [|done]. by apply bind_Some in Hy as (es & _ & [= <-]).
Qed.

(** A checked node: its type, and the tree it stands for. *)
Definition checked (n : node) (t : ValueType) (n' : node) : Prop :=
  node_Type n = Done t ∧ ∃ e, to_Expr n' = Some e ∧ typed e ∧ Type_ e = t.

Lemma passing_expect n want context m :
  passing (λ r, checked n r.1 r.2) m → keeps m → passing (checked n want) (expect want context m).
Proof.
  intros Hm Hk. unfold expect. eapply passing_bind; [exact Hm|keeps|]. intros [t n'] Hn. cbn in Hn.
  passing_by passing_error_if as Ht. apply passing_ret. by apply negb_false_iff, bool_decide_eq_true in Ht as <-.
Qed.

(** The type of a scalar operand, if it is asked for. *)
Lemma passing_type_if (c : bool) n t :
  node_Type n = Done t →
  passing (λ x, x = if c then t else ValueTypeNone) (if c then lift (node_Type n) else mret ValueTypeNone).
Proof. intros ->. destruct c; [|by apply passing_ret]. by apply passing_ret. Qed.

Lemma passing_check_binary op l r lt rt m b :
  node_Type l = Done lt → node_Type r = Done rt → is_many_to_many (Card m) = false →
  passing (λ n, ∃ vm, n = NBinaryExpr op (Some l) (Some r) vm b ∧ binary_typed op lt rt vm b)
    (check_binary op l r lt rt (Some m) b).
Proof.
  intros Hl Hr Hm. unfold check_binary. cbv zeta. passing_skip.
  passing_by passing_error_if as Hbool.
  passing_by (passing_type_if _ _ _ Hr) as ->. passing_by (passing_type_if _ _ _ Hl) as ->.
  passing_by passing_error_if as Hscalars. passing_by passing_lift as [= <-].
  set (m1 := if _ : bool then _ else m).
  eapply passing_bind; [apply passing_for_each; [intros l1; keeps|]; intros l1;
    eapply passing_weaken; [apply passing_for_each; [keeps|]; intros l2; apply passing_error_if|intros ? H1; exact H1]|keeps|].
  cbv beta. intros _ Hlabels.
  passing_by passing_error_if as Hop. passing_by passing_error_if as Hlt. passing_by passing_error_if as Hrt.
  apply negb_false_iff in Hop, Hlt, Hrt.
  eapply (passing_bind (λ vm, if bool_decide (lt = ValueTypeVector) && bool_decide (rt = ValueTypeVector)
    then vm = Some m1 ∧ is_many_to_many (Card m1) = IsSetOperator op else vm = None)); [|keeps|].
  { rewrite <- negb_andb. destruct (bool_decide (lt = _) && _); cbn [negb].
    - passing_by passing_error_if as Hgr. passing_by passing_error_if as Hmany. apply passing_ret. split; [done|].
      unfold m1 in *. destruct (IsSetOperator op); [|done]. by apply negb_false_iff in Hmany.
    - passing_skip. by apply passing_ret. }
  cbv beta. intros vm Hvm. passing_by passing_error_if as Hset. apply passing_ret. exists vm. split; [done|].
  split_and!; [| |done..|].
  - intros ->. by apply negb_false_iff in Hbool.
  - intros Hc -> -> ->. by rewrite Hc in Hscalars.
  - destruct (bool_decide (lt = _)) eqn:El, (bool_decide (rt = _)) eqn:Er; cbn in Hvm |- *.
    { destruct Hvm as [-> Hcard]. exists m1. split; [done|]. split; [|done]. intros Hon l1 H1 H2.
      rewrite Forall_forall in Hlabels. specialize (Hlabels l1 H1). rewrite Forall_forall in Hlabels.
      specialize (Hlabels l1 H2). by rewrite Hon, bool_decide_eq_true_2 in Hlabels. }
    all: split; [done|]; destruct (IsSetOperator op); [|done]; destruct lt, rt; done.
Qed.

Definition on_some {A} (Q : A → Prop) (o : option A) : Prop := match o with Some a => Q a | None => True end.

Lemma passing_check_selector name l r :
  Forall Labels.wf l → name_last name (Some <$> l) →
  passing (λ _, passes_checks name l) (check_selector name (Some <$> l) r).
Proof.
  intros Hwf Hname. unfold check_selector. rewrite (not_empty_wf l Hwf).
  passing_by passing_lift as [= <-]. passing_by passing_error_if as Hempty.
  apply negb_false_iff, existsb_exists in Hempty as (m & Hm%list_elem_of_In & Hacc%negb_true_iff).
  assert ((name ≠ EmptyString → ∀ m, m ∈ l → Labels.Name m = Labels.MetricName → is_name_matcher name m) →
    passes_checks name l) as Hpasses by (split; [by exists m|done]).
  case_bool_decide as Hn; [|by apply passing_ret, Hpasses].
  destruct (Hname Hn) as (k & Hk). apply fmap_app_inv in Hk as (l1 & l2 & Hk1 & Hk2 & Hl).
  destruct l2 as [|x [|y l2]]; try discriminate Hk2. injection Hk2 as Hx. subst l. rewrite removelast_named.
  destruct (Some <$> (l1 ++ [x])) eqn:E; [by destruct l1|]. clear E.
  eapply passing_weaken; [apply passing_for_each; [keeps|]|].
  - intros m'. instantiate (1 := λ m', on_some (λ m', Labels.Name m' ≠ Labels.MetricName) m'). destruct m'; [|by apply passing_ret].
    eapply passing_weaken; [apply passing_error_if|]. by intros _ Hne%bool_decide_eq_false.
  - cbv beta. intros _ Hall. apply Hpasses. intros _ m' [Hm'|Hm']%elem_of_app Hmn.
    + rewrite Forall_fmap, Forall_forall in Hall. by destruct (Hall m' Hm').
    + apply list_elem_of_singleton in Hm' as ->. rewrite <- Hx. done.
Qed.

(** ** Aggregations *)
Lemma param_type_item op :
  param_type (item_type op) =
    if bool_decide (op ∈ [TOPK; BOTTOMK; QUANTILE]) then Some ValueTypeScalar
    else if bool_decide (op = COUNT_VALUES) then Some ValueTypeString else None.
Proof.
  case_bool_decide as Hop; [by elim_in Hop|]. case_bool_decide as Hop'; [by subst|].
  pose proof (op_token_item op) as E. destruct (item_type op); try done; subst; first [by destruct Hop'|destruct Hop; member].
Qed.

(** ** Arguments *)
Lemma arg_type_in f i n : arity_ok f n = true → i < n → arg_type f i ≠ Done None.
Proof.
  unfold arity_ok, arg_type. intros Ha Hi. destruct (ArgTypes f !! i) eqn:Hf; [done|].
  apply lookup_ge_None in Hf. case_bool_decide; [apply bool_decide_eq_true in Ha; lia|].
  by destruct (last (ArgTypes f)).
Qed.

Lemma passing_check_arity f n r : passing (λ _, arity_ok f n = true) (check_arity f n r).
Proof.
  unfold check_arity, arity_ok. cbv zeta. repeat case_bool_decide; cbn [negb andb];
  try (by apply passing_ret); eapply passing_weaken; first [apply passing_addParseErr|apply passing_error_if|idtac]; done.
Qed.

(** ** The types of checked trees *)
Lemma tree_children_binary op l r vm b :
  tree (NBinaryExpr op l r vm b) →
  ∃ l' r' m, l = Some l' ∧ r = Some r' ∧ vm = Some m ∧ tree l' ∧ tree r' ∧ is_many_to_many (Card m) = false.
Proof.
  intros [(l' & r' & -> & -> & Hl & Hr)%complete_binary (Hrl & Hrr & m & -> & Hm)]. by exists l', r', m.
Qed.
Lemma tree_children_call f args r : tree (NCall f args r) → ∃ f', f = Some f' ∧ Forall tree args.
Proof.
  intros [[[f' ->] Hargs]%complete_call Hr]. exists f'. split; [done|]. cbn in Hr. apply (foldr_and raw) in Hr.
  by apply Forall_and.
Qed.
Lemma tree_children_aggregate op e p g w r :
  tree (NAggregateExpr op e p g w r) →
  tree_opt e ∧ tree_opt p ∧ IsAggregatorWithParam op = bool_decide (is_Some p).
Proof.
  intros [[He Hp]%complete_aggregate (Hre & Hrp & Hw)]. split_and!; [by destruct e|by destruct p|done].
Qed.

Lemma mapM_id_Some {A} (l : list (option A)) k : mapM id l = Some k → l = Some <$> k.
Proof. intros Hl%mapM_Some_1. induction Hl as [|? ? ? ? Hx _ IH]; [done|]. cbn. by rewrite <- Hx, IH. Qed.

Definition checks (n : node) : Prop := tree n → passing (λ r, checked n r.1 r.2) (checkAST n).

(** An operand that must have a type. *)
Lemma passing_operand want context (o : option node) :
  on_opt checks o → tree_opt o →
  passing (λ n', ∃ n, o = Some n ∧ checked n want n') (expect want context
    match o with Some n => checkAST n | None => lift (Panic nil_dereference) end).
Proof.
  destruct o as [n|]; cbn; [|by intros _ _ ???]. intros Hn Ht.
  eapply passing_weaken; [apply passing_expect; [by apply Hn|apply keeps_checkAST]|]. by exists n.
Qed.

Lemma passing_arguments f what args i n :
  arity_ok f n = true → i + length args ≤ n → Forall checks args → Forall tree args →
  passing (λ l, ∃ es, mapM to_Expr l = Some es ∧ length es = length args ∧ typed_args f i es) (check_args f what i args).
Proof.
  intros Har. revert i. induction args as [|a args IH]; intros i Hi Hc Ht; [by apply passing_ret; exists []|].
  apply Forall_cons in Hc as [Hca Hc]. apply Forall_cons in Ht as [Hta Ht]. cbn in Hi.
  rewrite check_args_cons. eapply passing_bind; [apply passing_lift|intros [t|]; keeps|]. cbv beta. intros t Hty.
  destruct t as [t|]; [|by destruct (arg_type_in f i n); [done|lia|]].
  eapply passing_bind; [apply passing_expect; [by apply Hca|apply keeps_checkAST]|keeps|].
  cbv beta. intros a' (_ & e & He & Hte & <-).
  eapply passing_bind; [apply IH; [lia|done..]|keeps|]. cbv beta. intros l' (es & Hes & Hlen & Hall).
  apply passing_ret. exists (e :: es). split; [|split; [cbn; by rewrite Hlen|by split_and!]].
  cbn. rewrite He. cbn. by rewrite Hes.
Qed.

Lemma passing_typed n m :
  keeps m →
  (∀ t, node_Type n = Done t → passing (λ n', ∃ e, to_Expr n' = Some e ∧ typed e ∧ Type_ e = t) m) →
  passing (λ r : ValueType * node, checked n r.1 r.2) (typ ← lift (node_Type n); n' ← m; mret (typ, n')).
Proof.
  intros Hk Hm. passing_by passing_lift as Ht. eapply passing_bind; [by apply Hm|keeps|].
  cbv beta. intros n' Hn'. by apply passing_ret.
Qed.

(** The parameter of an aggregation. *)
Definition typed_param (op : Z) (p : option node) (y : option Expr) : Prop :=
  match p with Some p => y ← to_Expr p; Some (Some y) | None => Some None end = Some y ∧
  match param_type (item_type op) with
  | Some t => match y with Some y => typed y ∧ Type_ y = t | None => False end
  | None => y = None
  end.

Lemma passing_param op (p : option node) :
  on_opt checks p → tree_opt p → IsAggregatorWithParam op = bool_decide (is_Some p) →
  let operand want := expect want "aggregation parameter"
    match p with Some n => checkAST n | None => lift (Panic nil_dereference) end in
  passing (λ p', ∃ y, typed_param op p' y)
    (if bool_decide (op ∈ [TOPK; BOTTOMK; QUANTILE]) then p ← operand ValueTypeScalar; mret (Some p)
     else if bool_decide (op = COUNT_VALUES) then p ← operand ValueTypeString; mret (Some p) else mret p).
Proof.
  intros Hp Htp Hw. assert (op ∉ [TOPK; BOTTOMK; COUNT_VALUES; QUANTILE] → p = None) as Hnone.
  { intros Hop. unfold IsAggregatorWithParam in Hw. rewrite bool_decide_false in Hw by done. by destruct p. }
  clear Hw. cbv zeta. unfold typed_param. rewrite param_type_item. repeat case_bool_decide.
  1,2: eapply passing_bind; [by apply passing_operand|keeps|]; cbv beta; intros p' (n1 & -> & _ & y & Hy & Hty & Hv);
    apply passing_ret; exists (Some y); rewrite Hy; by split_and!.
  apply passing_ret. exists None. rewrite Hnone; [by split|]. rewrite !not_elem_of_cons in *. naive_solver.
Qed.

Lemma passing_aggregate op e p g w r : on_opt checks e → on_opt checks p → checks (NAggregateExpr op e p g w r).
Proof.
  intros He Hp Ht. cbn [checkAST].
  apply tree_children_aggregate in Ht as (Hte & Htp & Hw). apply passing_typed; [keeps|]. intros t [= <-].
  passing_by passing_error_if as Hop.
  eapply passing_bind; [by apply passing_operand|keeps|]. cbv beta. intros e' (n0 & -> & _ & x & Hx & Htx & Hvx).
  eapply passing_bind; [by apply passing_param|keeps|]. cbv beta. intros p' (y & Hy & Hty). apply passing_ret.
  exists (AggregateExpr (item_type op) (Some x) y g w). split_and!; [|done..].
  cbn [to_Expr]. rewrite Hx. cbn. by rewrite Hy.
Qed.

Lemma passing_binary op l r vm b : on_opt checks l → on_opt checks r → checks (NBinaryExpr op l r vm b).
Proof.
  intros Hl Hr Ht. cbn [checkAST].
  apply tree_children_binary in Ht as (l' & r' & m & -> & -> & -> & Htl & Htr & Hm). cbn in Hl, Hr.
  apply passing_typed; [keeps|]. intros t Htyp.
  eapply passing_bind; [by apply Hl|intros [lt n1]; keeps|]. intros [lt n1] (Hlt & x & Hx & Htx & Hvx).
  eapply passing_bind; [by apply Hr|intros [rt n2]; keeps|]. intros [rt n2] (Hrt & y & Hy & Hty & Hvy). cbn in *. subst lt rt.
  eapply passing_weaken; [apply passing_check_binary; [by apply to_Expr_Type..|done]|]. cbv beta. intros n' (vm & -> & Hb).
  exists (BinaryExpr (item_type op) x y vm b). split_and!.
  - cbn. rewrite Hx, Hy. done.
  - cbn. rewrite op_token_item. done.
  - revert Htyp. cbn. rewrite Hlt. cbn. case_bool_decide; cbn; [rewrite Hrt; cbn|by intros [= <-]]. by intros [= <-].
Qed.

Lemma passing_call f args r : Forall checks args → checks (NCall f args r).
Proof.
  intros Ha Ht. cbn [checkAST]. apply tree_children_call in Ht as (f' & -> & Ht).
  apply passing_typed; [keeps; apply keeps_all_args|]. intros t [= <-].
  eapply passing_bind; [apply passing_lift|keeps; apply keeps_all_args|]. intros ? [= <-].
  eapply passing_bind; [apply passing_check_arity|keeps; apply keeps_all_args|]. cbv beta. intros _ Har.
  eapply passing_bind; [apply (passing_arguments _ _ args 0 (length args)); done|keeps|].
  cbv beta. intros l (es & Hes & Hlen & Htes). apply passing_ret. exists (Call f' es). split_and!; [by rewrite to_Expr_call, Hes| |done].
  split; [by rewrite Hlen|exact Htes].
Qed.

Lemma passing_subquery n range o s e : checks n → checks (NSubqueryExpr n range o s e).
Proof.
  intros Hn Ht. cbn [checkAST]. apply tree_subquery in Ht. apply passing_typed; [keeps|]. intros t [= <-].
  eapply passing_bind; [by apply Hn|intros []; keeps|]. intros [t n'] (_ & x & Hx & Htx & Hv).
  cbn in Hx, Hv. eapply (passing_bind (λ _, t = ValueTypeVector)); [|keeps|].
  { case_bool_decide as Hty; cbn [negb]; [by apply passing_ret|]. passing_skip.
    eapply passing_weaken; [apply passing_error_if|done]. }
  intros _ ->. apply passing_ret. exists (SubqueryExpr x range o s). cbn. by rewrite Hx.
Qed.

Lemma passing_unary op n s : checks n → checks (NUnaryExpr op n s).
Proof.
  intros Hn Ht. cbn [checkAST]. apply tree_unary in Ht. apply passing_typed; [keeps|]. intros t Htyp.
  eapply passing_bind; [apply passing_error_if|keeps|]. cbv beta. intros _ Hop.
  eapply passing_bind; [by apply Hn|intros []; keeps|]. intros [t' n'] (Ht' & x & Hx & Htx & Hv).
  passing_by passing_error_if as Hsv. apply passing_ret. exists (UnaryExpr (item_type op) x). cbn in *. rewrite Hx.
  apply negb_false_iff in Hsv. split_and!; [done|done|congruence|congruence].
Qed.

Lemma passing_checkAST n : checks n.
Proof.
  induction n as [l Hl|op e p g w r He Hp|op l r vm b Hl Hr|f args r Ha|vs range e Hvs|
    n range o s e Hn|v r|n r Hn|s r|op n s Hn|name o ms r] using node_nested_ind;
    [|by apply passing_aggregate|by apply passing_binary|by apply passing_call| |by apply passing_subquery| | | |
     by apply passing_unary|]; intros Ht; cbn [checkAST].
  - by destruct Ht as [?%not_complete_list _].
  - assert (tree vs) as Htv by (destruct Ht as [[Hc _]%complete_matrix Hr]; done).
    apply passing_typed; [keeps|]. intros t [= <-].
    eapply passing_bind; [by apply Hvs|intros []; keeps|]. intros [t n'] (_ & x & Hx & Htx & _). apply passing_ret.
    exists (MatrixSelector x range). cbn in Hx |- *. by rewrite Hx.
  - apply passing_typed; [keeps|]. intros t [= <-]. apply passing_ret. by eexists.
  - apply tree_paren in Ht. apply passing_typed; [keeps|]. intros t Htyp.
    eapply passing_bind; [by apply Hn|intros []; keeps|]. intros [t' n'] (Ht' & x & Hx & Htx & Hv).
    apply passing_ret. exists (ParenExpr x). cbn in *. rewrite Hx. split_and!; [done..|congruence].
  - apply passing_typed; [keeps|]. intros t [= <-]. apply passing_ret. by eexists.
  - apply tree_selector in Ht as [(l & Hl & Hwf)%good_matchers_trees Hname]. apply mapM_id_Some in Hl as ->.
    apply passing_typed; [keeps|]. intros t [= <-].
    eapply passing_bind; [by apply passing_check_selector|keeps|]. cbv beta. intros _ Hp. apply passing_ret.
    exists (VectorSelector name o l). by rewrite to_Expr_selector.
Qed.

(** ** The driver and the checks *)
Lemma parsed_typed s e : Parser.ParseExpr s = Ok e → typed e.
Proof.
  unfold Parser.ParseExpr, recovered. destruct (parse_expr (newParser s)) as [[n p']|] eqn:Hp; [|done].
  destruct (parseErrors p') eqn:He; [|done].
  destruct (parse_expr_checked _ _ _ Hp He) as (r & t & m & p1 & Hr & Hc & -> & _).
  destruct (passing_checkAST r Hr _ _ _ Hc He) as (_ & x & Hx & Ht & _).
  cbn in Hx |- *. rewrite Hx. by intros [= <-].
Qed.

(** ** Properties *)

End TypeSound.
