(* ===== verification/Nesting.v ===== *)
(** * How the parser nests operators

    [nested]: the operators of a tree nest by their precedence, and [edge]:
    what stands at its right edge ends before a token.  With numbers that
    are printed without a sign where an operator binds tighter, such a tree
    [fits].  The actions of the parser build nested trees of nested trees. *)
From S2P Require Import Prelude GoStrings GoFloat Regexp Matchers Promql Rewriting Errors.
From S2P Require Import GoTime Strutil Lexer LexerSpec ParserTables Parser ParserDriver Grammar ParserSpec.
From S2P Require Import Quoting SelectorLex SelectorParse Rereading ExprLex PrintedText ExprParse ExprShape.
From S2P Require Import ExprRuns Typing.
From stdpp Require Import options.

Definition ops : list Z := (binary_ops ++ postfix_ops).*1.

#[local] Arguments prec : simpl never.
#[local] Arguments unary_level : simpl never.

Section Nesting.
Context `{RE : RegexpEngine, !UnicodeTable}.

(** ** Trees *)

(** The operand ends before the operator [c]. *)
Fixpoint edge (e : Expr) (c : Z) : bool :=
  match e with
  | BinaryExpr op _ r _ _ => edge r c && reduces (prec (op_token op)) c
  | UnaryExpr _ e => edge e c && reduces unary_level c
  | _ => true
  end.

Definition is_number (e : Expr) : bool := match e with NumberLiteral _ => true | _ => false end.

(** Nested, behind an operator of precedence [p]. *)
Fixpoint nested (p : nat) (e : Expr) : bool :=
  match e with
  | AggregateExpr _ e q _ _ =>
      match e with Some e => nested 0 e | None => false end && match q with Some q => nested 0 q | None => true end
  | BinaryExpr op l r _ _ =>
      let o := op_token op in
      bool_decide (o ∈ binary_ops.*1) && negb (reduces p o) && nested p l && edge l o && nested (prec o) r
  | Call _ args => List.forallb (nested 0) args
  | SubqueryExpr e _ _ _ => nested p e && edge e LEFT_BRACKET
  | ParenExpr e => nested 0 e
  | UnaryExpr _ e => negb (is_number e) && nested unary_level e
  | MatrixSelector _ _ | VectorSelector _ _ _ | NumberLiteral _ | StringLiteral _ => true
  end.

(** No number that is printed with a sign is the base of a power or the
    operand of a subquery. *)
Definition signed (e : Expr) : bool :=
  match e with NumberLiteral v => bool_decide (is_Some (number_sign v)) | _ => false end.
Fixpoint plain_bases (e : Expr) : bool :=
  let opt e := match e with Some e => plain_bases e | None => true end in
  match e with
  | AggregateExpr _ e q _ _ => opt e && opt q
  | BinaryExpr op l r _ _ =>
      (negb (bool_decide (op_token op = POW)) || negb (signed l)) && plain_bases l && plain_bases r
  | Call _ args => List.forallb plain_bases args
  | SubqueryExpr e _ _ _ => negb (signed e) && plain_bases e
  | ParenExpr e | UnaryExpr _ e => plain_bases e
  | MatrixSelector _ _ | VectorSelector _ _ _ | NumberLiteral _ | StringLiteral _ => true
  end.

Lemma binary_prec o : o ∈ binary_ops.*1 → 1 ≤ prec o ≤ 6 ∧ (o ≠ POW → prec o ≤ 5).
Proof. intros Ho. unfold binary_ops in Ho. cbn in Ho. elim_in Ho; vm_compute; split; try lia; intros E; by try destruct E. Qed.

(** Before a token that is no operator every operand ends. *)
Lemma reduces_other p c : prec c = 0 → (p = 0 ∨ reduces p c = true).
Proof. intros Hc. unfold reduces. rewrite Hc. destruct p; [by left|right]. by rewrite bool_decide_eq_true_2 by lia. Qed.

Lemma edge_other e p c : nested p e = true → prec c = 0 → edge e c = true.
Proof.
  revert p. induction e as [e IH] using Expr_children_ind. intros p Hn Hc.
  destruct e as [op e q g w|op l r vm b|f args|e r|e r o s|v|e|s|op e|n o ms]; try done; cbn [nested edge] in Hn |- *.
  - rewrite !andb_true_iff, bool_decide_eq_true in Hn. destruct Hn as [[[[Ho _] _] _] Hr]. apply binary_prec in Ho as [Ho _].
    rewrite (IH r ltac:(cbn; member) _ Hr Hc). destruct (reduces_other (prec (op_token op)) c Hc); [lia|done].
  - apply andb_true_iff in Hn as [_ Hn]. rewrite (IH e ltac:(cbn; member) _ Hn Hc).
    destruct (reduces_other unary_level c Hc) as [E|E]; [discriminate E|done].
Qed.

Lemma reduces_unary p c : p ≤ 6 → reduces p c = true → reduces unary_level c = true.
Proof.
  unfold reduces. replace unary_level with 5 by done. replace (prec POW) with 6 by done. intros Hp.
  rewrite (bool_decide_eq_false_2 (5 = 6)) by done. rewrite !orb_true_iff, !andb_true_iff, negb_true_iff, !bool_decide_eq_true, !bool_decide_eq_false.
  intros. destruct (decide (prec c < 5)); [by left|right]. split; [lia|done].
Qed.

Lemma nested_fits e p c :
  nested p e = true → edge e c = true → plain_bases e = true → (signed e = true → reduces unary_level c = true) →
  fits p e c = true.
Proof.
  revert p c. induction e as [e IH] using Expr_children_ind. intros p c Hn He Hb Hs.
  assert (∀ x q, x ∈ Children e → nested q x = true → plain_bases x = true → fits q x COMMA = true) as Hcomma.
  { intros x q Hx Hnx Hbx. apply IH; [done..|by eapply edge_other|done|done]. }
  destruct e as [op e q g w|op l r vm b|f args|e r|e r o s|v|e|s|op e|n o ms]; try done; cbn [nested edge plain_bases fits] in *;
    rewrite ?andb_true_iff in *.
  - destruct e as [e|]; [|by destruct Hn]. destruct Hn as [Hne Hnq], Hb as [Hbe Hbq].
    split; [by apply Hcomma; [destruct q; cbn; member|..]|]. destruct q as [q|]; [|done]. by apply Hcomma; [cbn; member|..].
  - destruct Hn as [[[[Ho Hp] Hl] Hel] Hr], He as [Her Hc], Hb as [[Hsl Hbl] Hbr].
    apply bool_decide_eq_true, binary_prec in Ho as [Ho Hpow]. split_and!; try done.
    + apply IH; [cbn; member|done..|]. intros Hsg. destruct (decide (op_token op = POW)) as [E|E].
      { rewrite Hsg, (bool_decide_eq_true_2 _ E) in Hsl. discriminate Hsl. }
      apply Hpow in E. unfold reduces. replace unary_level with 5 by done. replace (prec POW) with 6 by done.
      apply orb_true_iff. destruct (decide (prec (op_token op) < 5)); [left; by apply bool_decide_eq_true|right].
      apply andb_true_iff. split; [apply bool_decide_eq_true; lia|done].
    + apply IH; [cbn; member|done..|]. intros _. by eapply reduces_unary; [apply Ho|].
  - rewrite forallb_forall in Hn, Hb |- *. intros a Ha. apply Hcomma; [cbn; by apply list_elem_of_In|by apply Hn|by apply Hb].
  - destruct Hn as [Hne Hed], Hb as [Hsg Hbe]. apply IH; [cbn; member|done..|]. intros E. by rewrite E in Hsg.
  - case_match eqn:E; [|done]. apply Hs. cbn. by rewrite E.
  - by apply Hcomma; [cbn; member|..].
  - destruct Hn as [Hnum Hne], He as [He Hc]. split; [|done]. destruct e; try done; by apply IH; [cbn; member|..].
Qed.

(** A query, before the end of the text. *)
Lemma nested_query_fits e : nested 0 e = true → plain_bases e = true → fits 0 e EOF = true.
Proof. intros Hn Hb. apply nested_fits; [done|by eapply edge_other|done|done]. Qed.

(** ** Nodes *)
Definition nests (p : nat) (n : node) : Prop := ∀ e, to_Expr n = Some e → nested p e = true.
Definition ends (n : node) (c : Z) : Prop := ∀ e, to_Expr n = Some e → edge e c = true.

(** A node that is an operand whatever stands around it. *)
Definition atom (n : node) : Prop := ∀ p, nests p n ∧ ∀ c, ends n c.

Ltac to_Expr H :=
  cbn [to_Expr] in H; repeat (apply bind_Some in H as (? & ? & H)); try injection H as <-;
  try (apply fmap_Some in H as (? & ? & ->)).

Lemma atom_selector name o ms r : atom (NVectorSelector name o ms r).
Proof. intros p. split; [|intros c]; intros e He; to_Expr He; done. Qed.
Lemma atom_matrix n range r : atom (NMatrixSelector n range r).
Proof. intros p. split; [|intros c]; intros e He; to_Expr He; done. Qed.
Lemma atom_number v r : atom (NNumberLiteral v r).
Proof. intros p. split; [|intros c]; intros e He; to_Expr He; done. Qed.
Lemma atom_string s r : atom (NStringLiteral s r).
Proof. intros p. split; [|intros c]; intros e He; to_Expr He; done. Qed.
Lemma atom_paren n r : nests 0 n → atom (NParenExpr n r).
Proof. intros Hn p. split; [|intros c]; intros e He; to_Expr He; [by apply Hn|done]. Qed.

Lemma mapM_to_Expr_all args es : Forall (nests 0) args → mapM to_Expr args = Some es → forallb (nested 0) es = true.
Proof.
  intros Ha Hes%mapM_Some_1. induction Hes as [|n e args es Hn _ IH]; [done|]. apply Forall_cons in Ha as [Hna Ha].
  cbn. by rewrite Hna, IH.
Qed.
Lemma atom_call f args r : Forall (nests 0) args → atom (NCall f args r).
Proof.
  intros Ha p. split; [|intros c]; intros e He; (destruct f as [f|]; [|done]); rewrite to_Expr_call in He;
    apply bind_Some in He as (es & Hes & [= <-]); [|done]. by eapply mapM_to_Expr_all.
Qed.
Lemma atom_aggregate op e q g w r :
  nests 0 e → match q with Some q => nests 0 q | None => True end → atom (NAggregateExpr op (Some e) q g w r).
Proof.
  intros Hn Hq p. split; [|intros c]; intros x Hx; cbn [to_Expr] in Hx;
    apply bind_Some in Hx as (y & Hy & Hx); apply bind_Some in Hx as (z & Hz & [= <-]); [|done].
  apply bind_Some in Hy as (e1 & He1 & [= <-]). cbn [nested]. rewrite (Hn _ He1).
  destruct q as [q|]; [apply bind_Some in Hz as (q1 & Hq1 & [= <-]); by apply Hq|by injection Hz as <-].
Qed.

Lemma nests_subquery p n range o s r : nests p n → ends n LEFT_BRACKET → nests p (NSubqueryExpr n range o s r).
Proof. intros Hn Hc e He. to_Expr He. cbn [nested]. apply andb_true_iff. split; [by apply Hn|by apply Hc]. Qed.
Lemma ends_subquery n range o s r c : ends (NSubqueryExpr n range o s r) c.
Proof. intros e He. by to_Expr He. Qed.
Lemma nests_offset p n range o o' s r r' : nests p (NSubqueryExpr n range o s r) → nests p (NSubqueryExpr n range o' s r').
Proof.
  intros Hn e He. to_Expr He. match goal with H : to_Expr n = Some ?x |- _ => apply (Hn (SubqueryExpr x range o s)); cbn; by rewrite H end.
Qed.

Lemma nests_unary p op n s :
  nests unary_level n → (∀ v r, n ≠ NNumberLiteral v r) → nests p (NUnaryExpr op n s).
Proof.
  intros Hn Hv e He. to_Expr He. match goal with H : to_Expr n = Some ?x |- _ => cbn [nested]; rewrite (Hn _ H), andb_true_r; destruct x; try done end.
  destruct n as [| |? [] []|[]| | | | | | |]; cbn in *; simplify_option_eq; naive_solver.
Qed.
Lemma ends_unary op n s c : ends n c → reduces unary_level c = true → ends (NUnaryExpr op n s) c.
Proof. intros Hn Hc e He. to_Expr He. cbn [edge]. by rewrite Hn. Qed.

Lemma nests_binary p op l r vm b :
  op ∈ binary_ops.*1 → reduces p op = false → nests p l → ends l op → nests (prec op) r →
  nests p (NBinaryExpr op (Some l) (Some r) vm b).
Proof.
  intros Ho Hp Hl Hel Hr e He. to_Expr He. cbn [nested]. rewrite op_token_item, bool_decide_eq_true_2, Hp by done.
  by rewrite Hl, Hel, Hr.
Qed.
Lemma ends_binary op l r vm b c :
  ends r c → reduces (prec op) c = true → ends (NBinaryExpr op (Some l) (Some r) vm b) c.
Proof. intros Hr Hc e He. to_Expr He. cbn [edge]. by rewrite op_token_item, Hr. Qed.
End Nesting.
