(* ===== verification/NestingRules.v ===== *)
(** * The actions build nested trees

    For each rule of the grammar: if the expressions of its right-hand side
    are nested, each at the precedence of the state before it, and end
    before the operator behind them, then so is its result. *)
From S2P Require Import Prelude GoStrings GoFloat Regexp Matchers Promql Rewriting Errors.
From S2P Require Import GoTime Strutil Lexer LexerSpec ParserTables Parser ParserDriver Grammar ParserSpec.
From S2P Require Import Quoting SelectorLex SelectorParse Rereading ExprLex PrintedText ExprParse ExprShape.
From S2P Require Import ExprRuns Typing Nesting.
From stdpp Require Import options.

#[local] Arguments prec : simpl never.
#[local] Arguments unary_level : simpl never.

(** The shapes of the values of a rule that is a number. *)
Ltac get_shapes Hshape :=
  let go i j := try (let Hk := fresh "Hs" in pose proof (Hshape i _ eq_refl) as Hk;
                     change (Z.of_nat i + 1)%Z with j in Hk; hnf in Hk; lazymatch type of Hk with True => clear Hk | _ => idtac end) in
  go 0 1%Z; go 1 2%Z; go 2 3%Z; clear Hshape.

Section Rules.
Context `{RE : RegexpEngine, !UnicodeTable}.

(** What a value of the stack holds, in a place of precedence [p]. *)
Definition shape_kind (k : kind) (p : nat) (v : yySymType) : Prop :=
  match k with
  | KExpr => ∀ n, node_ v = Some n → nests p n
  | KArgs => ∀ l, node_ v = Some (Expressions_ l) → Forall (nests 0) l
  | _ => True
  end.
Definition ends_kind (k : kind) (C : Z → Prop) (v : yySymType) : Prop :=
  match k with KExpr => ∀ n c, node_ v = Some n → C c → ends n c | _ => True end.

(** Where a rule is reduced: [lv i] is the precedence before its [i]-th
    value, and [C] holds of the operators that the next token can be. *)
Record placed (n : Z) (d : Z → yySymType) (v : yySymType) (lv : nat → nat) (C : Z → Prop) : Prop := Placed {
  pl_dollars : dollars n d v;
  pl_shape : ∀ i c, rhs_of n !! i = Some c → shape_kind (kind_of c) (lv i) (d (Z.of_nat i + 1)%Z);
  pl_closed : ∀ i c, rhs_of n !! i = Some c → c ∈ [15; 7]%Z → lv (S i) = 0;
  pl_unary : ∀ i, rhs_of n !! i = Some (-8)%Z → lv (S i) = unary_level;
  pl_operand : ∀ i s t c, rhs_of n !! i = Some s → rhs_of n !! S i = Some t → c ∈ ops → token_of c = t →
    ends_kind (kind_of s) (λ c', c' = c) (d (Z.of_nat i + 1)%Z);
  pl_operator : ∀ i t, rhs_of n !! i = Some (-27)%Z → rhs_of n !! S i = Some t → t ∈ token_of <$> binary_ops.*1 →
    let o := Typ (item (d (Z.of_nat (S i) + 1)%Z)) in
    o ∈ binary_ops.*1 ∧ token_of o = t ∧ reduces (lv i) o = false ∧ (rhs_of n !! S (S i) = Some (-24)%Z → lv (S (S (S i))) = prec o);
  pl_last : ∀ s, last (rhs_of n) = Some s → ends_kind (kind_of s) C (d (Z.of_nat (length (rhs_of n))));
  pl_reduced : last (rhs_of n) = Some (-27)%Z → lv (length (rhs_of n) - 1) ≠ 0 →
    ∀ c, C c → reduces (lv (length (rhs_of n) - 1)) c = true;
  pl_args : n = 62%Z → lv 0 = 0;
}.

Definition built (n : Z) (p : nat) (C : Z → Prop) (v : yySymType) : Prop :=
  shape_kind (result_kind n) p v ∧ ends_kind (result_kind n) C v.

Lemma built_atom n p C m v : result_kind n = KExpr → atom m → built n p C (with_node m v).
Proof.
  intros Hk Ha. unfold built, shape_kind, ends_kind. rewrite Hk.
  split; [intros m' [= <-]; apply Ha|intros m' c [= <-] _; by apply (Ha p)].
Qed.

Context (d : Z → yySymType) (v : yySymType) (lv : nat → nat) (C : Z → Prop).
Notation builds n m := (placed n d v lv C → yields (built n (lv 0) C) m).

Lemma builds_binary n :
  n ∈ [25; 26; 27; 28; 29; 30; 31; 32; 33; 34; 35; 36; 37; 38; 39]%Z → builds n (action_binary n d v).
Proof.
  intros Hn [Hd Hshape _ _ Hoperand Hop Hlast Hred _].
  assert (∃ t, rhs_of n = [-27; t; -24; -27]%Z ∧ t ∈ token_of <$> binary_ops.*1 ∧ result_kind n = KExpr ∧
    action_binary n d v = (n ← lift (newBinaryExpression (node_ (d 1)) (item (d 2)) (node_ (d 3)) (node_ (d 4))); mret (with_node n v))%Z)
    as (t & Hrhs & Ht & Hk & Hact).
  { clear -Hn. elim_in Hn; eexists; (split; [reflexivity|split; [vm_compute; member|by split]]). }
  rewrite Hrhs in *. rewrite Hact.
  destruct (dollar n d v Hd 0 (-27)%Z ltac:(by rewrite Hrhs)) as (l & Hl & Htl).
  destruct (dollar n d v Hd 2 (-24)%Z ltac:(by rewrite Hrhs)) as (vm & b & Hm & _).
  destruct (dollar n d v Hd 3 (-27)%Z ltac:(by rewrite Hrhs)) as (r & Hr & Htr).
  change (Z.of_nat 0 + 1)%Z with 1%Z in Hl. change (Z.of_nat 2 + 1)%Z with 3%Z in Hm. change (Z.of_nat 3 + 1)%Z with 4%Z in Hr.
  destruct (Hop 0 t eq_refl eq_refl Ht) as (Ho & Hto & Hopen & Hlv). specialize (Hlv eq_refl).
  change (Z.of_nat 1 + 1)%Z with 2%Z in *. set (o := Typ (item (d 2%Z))) in *.
  assert (lv 3 ≠ 0) as Hne.
  { rewrite Hlv. destruct (binary_prec o Ho) as [[? ?] _]. intros E. lia. }
  assert (newBinaryExpression (node_ (d 1)) (item (d 2)) (node_ (d 3)) (node_ (d 4)) =
    Done (NBinaryExpr o (Some l) (Some r) (Some vm) b))%Z as ->.
  { rewrite Hl, Hm, Hr. unfold newBinaryExpression. by rewrite !tree_is_Expr. }
  assert (o ∈ ops) as Hops.
  { unfold ops. rewrite fmap_app. apply elem_of_app. by left. }
  intros q a q' _ [= <- <-] _. unfold built. rewrite Hk. split.
  - intros x [= <-]. apply nests_binary; [done|done|by apply (Hshape 0 _ eq_refl)| |].
    + by apply (Hoperand 0 _ t o eq_refl eq_refl Hops Hto l o).
    + rewrite <- Hlv. by apply (Hshape 3 _ eq_refl).
  - intros x c [= <-] Hc. apply ends_binary; [by apply (Hlast _ eq_refl)|]. rewrite <- Hlv. by apply Hred.
Qed.

(** A rule that passes its only value on. *)
Lemma builds_pass n c : rhs_of n = [c] → kind_of c = result_kind n → builds n (mret v).
Proof.
  intros Hrhs Hk [Hd Hshape _ _ _ _ Hlast _ _]. apply yields_ret.
  rewrite (dollar_first _ _ _ Hd) by (by rewrite Hrhs). split.
  - rewrite <- Hk. apply (Hshape 0). by rewrite Hrhs.
  - rewrite <- Hk. rewrite Hrhs in Hlast. by apply (Hlast c).
Qed.

(** A rule whose values hold no expressions. *)
Definition holds (k : kind) : bool := match k with KExpr | KArgs => true | _ => false end.
Lemma built_other n p v' : holds (result_kind n) = false → built n p C v'.
Proof. unfold built. by destruct (result_kind n). Qed.
Lemma builds_other n m : holds (result_kind n) = false → builds n m.
Proof. intros Hk _ q a q' _ _ _. by apply built_other. Qed.

(** A rule that records an error. *)
Lemma builds_error n {A} (m : P A) f :
  yields (λ _, False) m → frames_any m → (∀ a, frames_any (f a)) → builds n (m ≫= f).
Proof. intros Hm Hfm Hff _. eapply yields_bind; [exact Hm|done|done|]. by intros a []. Qed.

(** *** Aggregations *)
Lemma yields_aggregate_atom o g w l :
  Forall (nests 0) l →
  yields atom (newAggregateExpr o (Some (NAggregateExpr 0 None None g w (MkRange 0 0))) (Some (Expressions_ l))).
Proof.
  intros Hl. unfold newAggregateExpr. yields_step. yields_step.
  match goal with H : as_Expressions _ = Done _ |- _ => injection H as <- end.
  destruct l as [|first rest]; [yields|].
  case_bool_decide as Hlen; [yields|]. apply yields_ret.
  apply Forall_cons in Hl as [Hf Hrest].
  destruct (IsAggregatorWithParam (Typ o)); [|by apply atom_aggregate].
  destruct rest as [|second rest]; [done|]. apply Forall_cons in Hrest as [Hs _]. by apply atom_aggregate.
Qed.

Lemma yields_put_atom n (m : P node) v0 :
  result_kind n = KExpr → frames_any m → yields atom m → yields (built n (lv 0) C) (e ← m; mret (with_node e v0)).
Proof.
  intros Hk Hf Hm. eapply yields_bind; [exact Hm|done|unfold frames_any; frames|].
  intros e He. apply yields_ret. by apply built_atom.
Qed.

Lemma builds_aggregate n : n ∈ [19; 20; 21; 22; 23; 24]%Z → builds n (action_aggregate n d v).
Proof.
  intros Hn Hpl. elim_in Hn; unfold action_aggregate; cbv zeta.
  4: { revert Hpl. apply builds_error; [apply yields_unexpected|unfold frames_any; frames..]. }
  4,5: by apply builds_other.
  all: destruct Hpl as [Hd Hshape _ _ _ _ _ _ _].
  all: get_shapes Hshape; get_dollars Hd; apply yields_put_atom; [reflexivity|unfold frames_any; frames; apply frames_newAggregateExpr|].
  all: apply yields_aggregate_atom; by auto.
Qed.

(** *** Calls and parentheses *)
Lemma builds_call n : n ∈ [58; 59; 60; 61; 62; 63; 64]%Z → builds n (action_call n d v).
Proof.
  intros Hn Hpl. elim_in Hn; unfold action_call; cbv zeta.
  6: { revert Hpl. apply builds_error; [apply yields_addParseErr|unfold frames_any; frames..]. }
  all: pose proof (pl_closed _ _ _ _ _ Hpl) as Hclosed; pose proof (pl_args _ _ _ _ _ Hpl) as Hargs;
    destruct Hpl as [Hd Hshape _ _ _ _ _ _ _]; get_shapes Hshape; get_dollars Hd; yields; returned.
  - apply built_atom; [reflexivity|]. apply atom_call. by auto.
  - split; [|done]. intros l [= <-]. by auto.
  - split; [|done]. intros l [= <-]. by constructor.
  - split; [|done]. intros l [= <-]. apply Forall_app. split; [by auto|]. constructor; [|done].
    rewrite <- (Hclosed 1 7%Z eq_refl) by member. by auto.
  - split; [|done]. intros l [= <-]. constructor; [|done]. rewrite <- Hargs by done. by auto.
  - apply built_atom; [reflexivity|]. apply atom_paren. rewrite <- (Hclosed 0 15%Z eq_refl) by member. by auto.
Qed.

(** *** Ranges, subqueries and offsets *)
Lemma yields_offset_nests n o p :
  tree n → nests p n → yields (λ m, ∃ n', m = Some n' ∧ nests p n' ∧ ∀ c, ends n' c) (addOffset (Some n) o).
Proof.
  intros Hn Hp. unfold addOffset. yields_step.
  assert (∀ x, atom x → ∃ n', Some x = Some n' ∧ nests p n' ∧ ∀ c, ends n' c) as Hatom.
  { intros x Hx. exists x. split; [done|]. apply Hx. }
  destruct n; try (yields; by eexists).
  - destruct n; try (intros ???? Hd; discriminate Hd). yields. apply Hatom, atom_matrix.
  - yields. eexists. split; [done|]. split; [by eapply nests_offset|intros; apply ends_subquery].
  - yields. apply Hatom, atom_selector.
Qed.

Lemma builds_range n : n ∈ [65; 66; 67; 68; 69; 70; 71; 72]%Z → builds n (action_range n d v).
Proof.
  intros Hn Hpl. elim_in Hn; unfold action_range; cbv zeta.
  2,5,6,7,8: revert Hpl; apply builds_error; [apply yields_unexpected|unfold frames_any; frames..].
  3: pose proof (pl_operand _ _ _ _ _ Hpl 0 _ _ LEFT_BRACKET eq_refl eq_refl) as Hend;
    assert (∀ x, node_ (d 1%Z) = Some x → ends x LEFT_BRACKET) as He
      by (intros x Hx; by apply (Hend ltac:(unfold ops, postfix_ops; cbn; member) eq_refl x LEFT_BRACKET)); clear Hend.
  all: destruct Hpl as [Hd Hshape _ _ _ _ _ _ _]; get_shapes Hshape; get_dollars Hd.
  - eapply yields_bind; [by apply yields_offset_nests; auto|unfold frames_any; frames; apply frames_addOffset|unfold frames_any; frames|].
    intros m (n' & -> & Hn & Hends). apply yields_ret. split; [by intros y [= <-]|by intros y c [= <-] _].
  - yields; returned. apply built_atom; [reflexivity|apply atom_matrix].
  - yields; returned. split; [intros y [= <-]; apply nests_subquery; auto|]. intros y c [= <-] _. apply ends_subquery.
Qed.

(** *** Signs *)
Lemma builds_unary : builds 73 (action_unary d v).
Proof.
  intros Hpl. pose proof (pl_unary _ _ _ _ _ Hpl 0 eq_refl) as Hlv. pose proof (pl_last _ _ _ _ _ Hpl _ eq_refl) as Hlast.
  pose proof (pl_reduced _ _ _ _ _ Hpl eq_refl) as Hred. hnf in Hlast.
  change (Z.of_nat (length (rhs_of 73))) with 2%Z in Hlast. change (length (rhs_of 73) - 1) with 1 in Hred.
  rewrite Hlv in Hred. destruct Hpl as [Hd Hshape _ _ _ _ _ _ _]. get_shapes Hshape. rewrite Hlv in Hs.
  unfold action_unary. get_dollars Hd.
  assert (∀ op s, (∀ w r, x ≠ NNumberLiteral w r) →
    yields (built 73 (lv 0) C) (e ← lift (as_Expr (Some x)); mret (with_node (NUnaryExpr op e s) v))) as Hsign.
  { intros op s Hx. yields; returned. split; [intros y [= <-]; apply nests_unary; auto|].
    intros y c [= <-] Hc. apply ends_unary; [by eauto|]. by apply Hred. }
  destruct x; try (by apply Hsign). apply yields_ret. apply built_atom; [reflexivity|apply atom_number].
Qed.

(** *** Selectors and literals *)
Lemma builds_selector n : n ∈ [74; 75; 76; 77; 78; 79]%Z → builds n (action_selector n d v).
Proof.
  intros Hn Hpl. elim_in Hn; unfold action_selector; cbv zeta; try by apply builds_other.
  all: destruct Hpl as [Hd _ _ _ _ _ _ _ _]; get_dollars Hd; yields; returned; apply built_atom; [reflexivity|apply atom_selector].
Qed.

Lemma builds_literal n : n ∈ [171; 176; 177]%Z → builds n (action_literal n d v).
Proof.
  intros Hn Hpl. elim_in Hn; unfold action_literal; cbv zeta; try by apply builds_other.
  all: destruct Hpl as [Hd _ _ _ _ _ _ _ _]; get_dollars Hd; yields; returned; apply built_atom; [reflexivity|].
  - apply atom_number.
  - apply atom_string.
Qed.

Lemma action_builds n : n ∈ rules → builds n (action n d v).
Proof.
  intros Hn Hpl.
  assert (forallb (λ n, negb (holds (result_kind n)) || bool_decide (n ∈
      [19; 20; 21; 22; 23; 24] ++ [25; 26; 27; 28; 29; 30; 31; 32; 33; 34; 35; 36; 37; 38; 39] ++
      [58; 59; 60; 61; 62; 63; 64] ++ [65; 66; 67; 68; 69; 70; 71; 72] ++ [73] ++
      [74; 75; 76; 77; 78; 79] ++ [171; 176; 177] ++ [8; 9; 10; 11; 12; 13; 14; 15; 16; 17; 18])%Z) rules = true) as Hf
    by (vm_compute; reflexivity).
  rewrite forallb_forall in Hf. apply list_elem_of_In, Hf in Hn. clear Hf.
  apply orb_true_iff in Hn as [Hn%negb_true_iff|Hn%bool_decide_eq_true]; [by apply builds_other|].
  rewrite !elem_of_app in Hn. destruct Hn as [Hn|[Hn|[Hn|[Hn|[Hn|[Hn|[Hn|Hn]]]]]]].
  - pose proof (builds_aggregate n Hn Hpl) as Ht. by elim_in Hn.
  - pose proof (builds_binary n Hn Hpl) as Ht. by elim_in Hn.
  - pose proof (builds_call n Hn Hpl) as Ht. by elim_in Hn.
  - pose proof (builds_range n Hn Hpl) as Ht. by elim_in Hn.
  - elim_in Hn. exact (builds_unary Hpl).
  - pose proof (builds_selector n Hn Hpl) as Ht. by elim_in Hn.
  - pose proof (builds_literal n Hn Hpl) as Ht. by elim_in Hn.
  - assert (∃ c, rhs_of n = [c] ∧ kind_of c = result_kind n ∧ action n d v = mret v) as (c & Hr & Hc & ->)
      by (elim_in Hn; eexists; (split; [reflexivity|by split])).
    by apply (builds_pass n c).
Qed.
End Rules.
