(* ===== verification/NestingDriver.v ===== *)
(** * The driver nests operators

    An invariant of the stack: each expression is nested, at the precedence
    of the state below it, and ends before the operator above it; the one on
    top ends before the next token.  With the precedences of the tables it
    gives that the tree of every query is nested. *)
From S2P Require Import Prelude GoStrings GoFloat Regexp Matchers Promql Rewriting Errors.
From S2P Require Import GoTime Strutil Lexer LexerSpec ParserTables Parser ParserDriver Grammar ParserSpec.
From S2P Require Import Quoting SelectorLex SelectorParse Rereading ExprLex PrintedText ExprParse ExprShape.
From S2P Require Import ExprRuns Typing Nesting NestingRules.
From stdpp Require Import options.

#[local] Arguments prec : simpl never.
#[local] Arguments unary_level : simpl never.
#[local] Arguments reduces : simpl never.
#[local] Arguments token_of : simpl never.

(** ** The tables *)

(** [f] holds of a state and each state below it. *)
Definition on_edges (f : Z → Z → bool) : bool :=
  forallb (λ q, forallb (f q) (preds_of q)) (Z.of_nat <$> seq 0 (length yyPact)).

Lemma on_edges_spec f q u : on_edges f = true → is_state q → u ∈ preds_of q → f q u = true.
Proof.
  unfold on_edges, is_state. rewrite forallb_forall. intros Hf Hq Hu.
  assert (q ∈ Z.of_nat <$> seq 0 (length yyPact)) as Hin.
  { apply list_elem_of_fmap. exists (Z.to_nat q). split; [lia|]. apply elem_of_seq. cbn. lia. }
  apply list_elem_of_In, Hf in Hin. rewrite forallb_forall in Hin. by apply Hin, list_elem_of_In.
Qed.

(** An operator that is shifted binds tighter than the one before. *)
Definition shift_opens (q u : Z) : bool :=
  negb (bool_decide (symbol q = -27)%Z) ||
  forallb (λ c, negb (bool_decide (is_Some (shift_of q (token_of c)))) || negb (reduces (level u) c)) (binary_ops.*1).
(** An operand is reduced before a token that binds less. *)
Definition reduce_closes (q u : Z) : bool :=
  negb (bool_decide (symbol q = -27)%Z) || bool_decide (level u = 0) ||
  (negb (bool_decide (entry yyPact q ≤ yyFlag)%Z) &&
   forallb (λ c, bool_decide (is_Some (shift_of q (token_of c))) || reduces (level u) c) ops).
(** The precedence of a state behind an operator. *)
Definition operator_level (q u : Z) : bool :=
  negb (bool_decide (symbol q = -24)%Z) ||
  forallb (λ c, negb (bool_decide (token_of c = symbol u)) || bool_decide (level q = prec c)) (binary_ops.*1).
Definition open_level (q u : Z) : bool :=
  (negb (bool_decide (symbol q ∈ [15; 7; 70; 71]%Z)) || bool_decide (level q = 0)) &&
  (negb (bool_decide (symbol q = -8)%Z) || bool_decide (level q = unary_level)) &&
  (negb (bool_decide (62 ∈ default_rules q)%Z) || bool_decide (level u = 0)).

(** A state behind [error] reduces a rule that records the error. *)
Definition error_rules : list Z := [7; 22; 52; 55; 57; 66; 69; 70; 71; 72; 82; 84; 85; 86; 113; 115; 116; 117; 122]%Z.
Definition error_reduces (q : Z) : bool :=
  negb (bool_decide (symbol q = yyErrCode)) ||
  (bool_decide (entry yyPact q ≤ yyFlag)%Z && forallb (λ n, bool_decide (n ∈ error_rules)) (default_rules q)).

Lemma tables :
  on_edges shift_opens = true ∧ on_edges reduce_closes = true ∧ on_edges operator_level = true ∧
  on_edges open_level = true ∧ forallb error_reduces states = true ∧ forallb (λ n, bool_decide (0 < entry yyR1 n)%Z) rules = true.
Proof. split_and!; vm_compute; reflexivity. Qed.

Section Tables.
#[local] Set Default Proof Using "Type*".
Context (q u : Z) (Hq : is_state q) (Hu : u ∈ preds_of q).

Lemma shifted_opens c s :
  symbol q = (-27)%Z → c ∈ binary_ops.*1 → shift_of q (token_of c) = Some s → reduces (level u) c = false.
Proof.
  intros Hs Hc Hsh. pose proof (on_edges_spec _ _ _ (proj1 tables) Hq Hu) as Hf. unfold shift_opens in Hf.
  rewrite bool_decide_eq_true_2 in Hf by done. cbn [negb orb] in Hf. rewrite forallb_forall in Hf.
  apply list_elem_of_In, Hf in Hc. rewrite Hsh, bool_decide_eq_true_2 in Hc by by eexists. by apply negb_true_iff in Hc.
Qed.

Lemma reduced_closes c :
  symbol q = (-27)%Z → level u ≠ 0 → c ∈ ops →
  (yyFlag < entry yyPact q)%Z ∧ (shift_of q (token_of c) = None → reduces (level u) c = true).
Proof.
  intros Hs Hl Hc. pose proof (on_edges_spec _ _ _ (proj1 (proj2 tables)) Hq Hu) as Hf. unfold reduce_closes in Hf.
  rewrite (bool_decide_eq_true_2 (_ = _)), (bool_decide_eq_false_2 (level u = 0)) in Hf by done. cbn [negb orb] in Hf.
  apply andb_true_iff in Hf as [Hp Hf]. apply negb_true_iff, bool_decide_eq_false in Hp. split; [lia|].
  rewrite forallb_forall in Hf. apply list_elem_of_In, Hf in Hc. intros Hsh. by rewrite Hsh in Hc.
Qed.

Lemma level_operator c :
  symbol q = (-24)%Z → c ∈ binary_ops.*1 → token_of c = symbol u → level q = prec c.
Proof.
  intros Hs Hc Ht. pose proof (on_edges_spec _ _ _ (proj1 (proj2 (proj2 tables))) Hq Hu) as Hf. unfold operator_level in Hf.
  rewrite (bool_decide_eq_true_2 (_ = _)) in Hf by done. cbn [negb orb] in Hf.
  rewrite forallb_forall in Hf. apply list_elem_of_In, Hf in Hc. rewrite bool_decide_eq_true_2 in Hc by done.
  by apply bool_decide_eq_true in Hc.
Qed.

Lemma levels :
  (symbol q ∈ [15; 7; 70; 71]%Z → level q = 0) ∧ (symbol q = (-8)%Z → level q = unary_level) ∧
  (62%Z ∈ default_rules q → level u = 0).
Proof.
  pose proof (on_edges_spec _ _ _ (proj1 (proj2 (proj2 (proj2 tables)))) Hq Hu) as Hf. unfold open_level in Hf.
  rewrite !andb_true_iff, !orb_true_iff, !negb_true_iff, !bool_decide_eq_true, !bool_decide_eq_false in Hf. tauto.
Qed.

End Tables.

Lemma error_state q :
  is_state q → symbol q = yyErrCode → (entry yyPact q ≤ yyFlag)%Z ∧ ∀ n, n ∈ default_rules q → n ∈ error_rules.
Proof.
  intros Hq Hs. pose proof (for_states _ _ (proj1 (proj2 (proj2 (proj2 (proj2 tables))))) Hq) as Hf. unfold error_reduces in Hf.
  rewrite (bool_decide_eq_true_2 (_ = _)) in Hf by done. cbn [negb orb] in Hf. apply andb_true_iff in Hf as [Hp Hf].
  apply bool_decide_eq_true in Hp. split; [done|]. intros n Hn. rewrite forallb_forall in Hf.
  apply list_elem_of_In, Hf in Hn. by apply bool_decide_eq_true in Hn.
Qed.

Lemma rule_nonterminal n : n ∈ rules → (0 < entry yyR1 n)%Z.
Proof.
  intros Hn. pose proof (proj2 (proj2 (proj2 (proj2 (proj2 tables))))) as Hf. rewrite forallb_forall in Hf.
  apply list_elem_of_In, Hf in Hn. by apply bool_decide_eq_true in Hn.
Qed.

Lemma ops_private c : c ∈ ops → (yyPrivate ≤ c < yyPrivate + yyTok2_len)%Z ∧ (c ≠ yyPrivate + 1)%Z.
Proof. intros Hc. unfold ops, binary_ops, postfix_ops in Hc. cbn in Hc. elim_in Hc; vm_compute; split_and!; done. Qed.

Lemma binary_in_ops c : c ∈ binary_ops.*1 → c ∈ ops.
Proof. intros Hc. unfold ops. rewrite fmap_app. apply elem_of_app. by left. Qed.

Lemma op_of_token c c' : c ∈ ops → token_of c' = token_of c → c' = c.
Proof. intros Hc. apply token_of_inj; by apply ops_private. Qed.

Lemma kind_of_token t : (0 < t)%Z → kind_of t = KAny.
Proof.
  intros Ht. unfold kind_of.
  repeat match goal with
    | |- context [bool_decide ?P] => rewrite (bool_decide_eq_false_2 P)
        by (rewrite ?elem_of_cons, ?elem_of_nil; lia)
    end.
  done.
Qed.

Section Driver.
Context `{RE : RegexpEngine, !UnicodeTable}.

(** ** The invariant *)

(** The operators that the next token can be. *)
Definition next_op (y : yyParser) (c : Z) : Prop :=
  c ∈ ops ∧ match token y with None => True | Some t => token_of c = t end.

Definition kind_at (v : yySymType) : kind := kind_of (symbol (yys v)).

(** [w] stands on [v] on [u]. *)
Definition operand_ok (u v w : yySymType) : Prop :=
  ∀ c, c ∈ ops → token_of c = symbol (yys w) →
    ends_kind (kind_at v) (λ c', c' = c) v ∧
    (symbol (yys v) = -27 → c ∈ binary_ops.*1 → Typ (item w) = c ∧ reduces (level (yys u)) c = false)%Z.

Fixpoint shaped (l : list yySymType) : Prop :=
  match l with
  | w :: (v :: rest) as l' =>
      shaped l' ∧ shape_kind (kind_at w) (level (yys v)) w ∧ match rest with u :: _ => operand_ok u v w | [] => True end
  | _ => True
  end.

(** The injected tokens are no operators. *)
Definition inject_ok (p : parser) : Prop := ∀ c, c ∈ ops → injecting p = true → token_of (inject p) ≠ token_of c.

Record nested_stack (y : yyParser) (p : parser) : Prop := NestedStack {
  ns_flag : Errflag y = 0%Z;
  ns_shape : shaped (yyS y);
  ns_top : ∀ v, head (yyS y) = Some v → ends_kind (kind_at v) (next_op y) v;
  ns_token : ∀ c, c ∈ ops → token y = Some (token_of c) → Typ (itemp (lex p)) = c;
  ns_inject : inject_ok p;
  ns_result : ∀ m, generatedParserResult p = Some m → nests 0 m;
}.

(** Behind the token [error], where nothing is shifted. *)
Definition on_error (y : yyParser) : Prop := symbol (yystate y) = yyErrCode.

(** The token was looked at and is not shifted, or it does not matter. *)
Definition blocked (y : yyParser) : Prop :=
  (entry yyPact (yystate y) ≤ yyFlag)%Z ∨ ∃ t, token y = Some t ∧ shift_of (yystate y) t = None.

(** ** The next token *)
Lemma next_item_frame fuel p i p' :
  next_item fuel p = Done (i, p') →
  i = itemp (lex p') ∧ inject p' = inject p ∧ injecting p' = injecting p ∧ parseErrors p' = parseErrors p.
Proof.
  revert p. induction fuel as [|fuel IH]; intros p; cbn [next_item]; [done|]. rewrite bind_get.
  destruct (NextItem (lex p)) as [l|]; [|done]. rewrite (bind_Done _ _ _ tt (with_lex l p)) by done.
  case_bool_decide; [apply (IH (with_lex l p))|]. unfold mret, P_ret. by intros [= <- <-].
Qed.

Lemma token_end c : c ∈ ops → token_of 0 ≠ token_of c.
Proof. intros Hc E. apply op_of_token in E; [|done]. apply ops_private in Hc as [Hc _]. unfold yyPrivate in Hc. lia. Qed.

Lemma parser_Lex_op p char p' :
  inject_ok p → parser_Lex p = Done (char, p') → parseErrors p' = [] →
  inject_ok p' ∧ ∀ c, c ∈ ops → token_of char = token_of c → Typ (itemp (lex p')) = c.
Proof.
  intros Hinj. unfold parser_Lex. rewrite bind_get. destruct (injecting p) eqn:Hi.
  { rewrite bind_get, bind_run. unfold set_inject, mret, P_ret. intros [= <- <-] _.
    split; [by intros ?|]. intros c Hc E. by destruct (Hinj c Hc Hi). }
  rewrite bind_get, bind_run. destruct (next_item _ p) as [[i p1]|] eqn:Hn; [|done].
  apply next_item_frame in Hn as (-> & Hi1 & Hj1 & _).
  assert (inject_ok p1) as Hok by (intros c' _; by rewrite Hj1, Hi).
  assert (∀ c, c ∈ ops → token_of (Typ (itemp (lex p1))) = token_of c → Typ (itemp (lex p1)) = c) as Htok
    by (intros c; apply op_of_token).
  case_bool_decide.
  { rewrite bind_get, bind_run. unfold addParseErr, mret, P_ret. intros [= <- <-]. cbn. by destruct (parseErrors p1). }
  case_bool_decide.
  { rewrite bind_run. unfold set_inject, mret, P_ret. intros [= <- <-] _. split; [|done].
    intros c Hc _. by apply token_end. }
  case_bool_decide; [rewrite bind_run|]; unfold set_lastClosing, mret, P_ret; by intros [= <- <-] _.
Qed.

Lemma ends_kind_weaken k (C D : Z → Prop) v : (∀ c, D c → C c) → ends_kind k C v → ends_kind k D v.
Proof. intros HCD. destruct k; try done. cbn. eauto. Qed.

Lemma lookahead_nested y p t y' p' :
  ready (lex p) → lookahead y p = Done ((t, y'), p') → parseErrors p' = [] → nested_stack y p →
  nested_stack y' p' ∧ token y' = Some t.
Proof.
  intros Hr. unfold lookahead. destruct (token y) as [t'|] eqn:Ht.
  { unfold mret, P_ret. by intros [= <- <- <-]. }
  rewrite bind_run. destruct (parser_Lex p) as [[char p1]|] eqn:Hl; [|done].
  unfold mret, P_ret. intros [= <- <- <-] He [Hf Hsh Htop Htok Hinj Hres]. split; [|done].
  destruct (parser_Lex_op p char p1 Hinj Hl He) as [Hinj1 Htok1].
  destruct (parser_Lex_tokens p Hr) as (char' & p2 & Hl2 & Hlex & _). rewrite Hl in Hl2. injection Hl2 as <- <-.
  constructor; cbn [Errflag yyS token]; [done|done| |by intros c Hc [= E]; apply Htok1|done|by rewrite (lexed_result _ _ Hlex)].
  intros v Hv. eapply ends_kind_weaken; [|by apply Htop]. intros c [Hc _]. split; [done|]. by rewrite Ht.
Qed.

(** ** Shifts *)
Lemma path_lookup (l : list yySymType) j w v :
  path (yys <$> l) → l !! j = Some w → l !! S j = Some v → yys v ∈ preds_of (yys w).
Proof.
  revert l. induction j as [|j IH]; intros [|a [|b l]]; cbn [lookup list_lookup]; try done.
  - by intros [Hp _] [= <-] [= <-].
  - intros [_ Hp]. by apply (IH (b :: l)).
Qed.

Lemma shift_state y p v l n t s :
  driver_ok y p → yyS y = v :: l → idx yyPact (yystate y) = Done n → ¬ (n ≤ yyFlag)%Z →
  (bool_decide (n + t < 0) || bool_decide (yyLast ≤ n + t))%Z = false →
  idx yyAct (n + t) = Done s → idx yyChk s = Done t → shift_of (yys v) t = Some s.
Proof.
  intros [_ _ Htop _] Hl Hn Hf Hj Hs Hc. rewrite Hl in Htop. injection Htop as Htop. unfold shift_of.
  rewrite Htop, (idx_entry _ _ _ Hn), Hj, (idx_entry _ _ _ Hs), (idx_entry _ _ _ Hc).
  by rewrite (bool_decide_eq_false_2 _ Hf), bool_decide_eq_true_2.
Qed.

Lemma shift_nested y p t s v :
  driver_ok y p → good_stack y p → nested_stack y p → token y = Some t → (0 < t)%Z → symbol s = t →
  shift_of (yystate y) t = Some s →
  nested_stack (yystack (MkYY (yyS y) (above y) (with_item (itemp (lex p)) v) s None 0)) p.
Proof.
  intros Hok [Hp _ _] [Hf Hsh Htop Htok Hinj Hres] Ht Hpos Hs Hst.
  pose proof (ok_states _ _ Hok) as Hstates. pose proof (ok_top _ _ Hok) as Hy.
  assert (kind_of (symbol s) = KAny) as Hk by (rewrite Hs; by apply kind_of_token).
  constructor; cbn [yystack yyS Errflag token]; [done| |by intros w [= <-]; unfold kind_at; cbn; rewrite Hk|done..].
  destruct (yyS y) as [|w [|u l]]; [done|by cbn; unfold kind_at; cbn; rewrite Hk|].
  injection Hy as Hy. split; [done|]. split; [unfold kind_at; cbn; by rewrite Hk|].
  intros c Hc Htc. cbn in Htc. rewrite Hs in Htc. split.
  - eapply ends_kind_weaken; [|by apply Htop]. intros c' ->. split; [done|]. by rewrite Ht.
  - intros Hw Hb. split; [apply Htok; [done|by rewrite Ht, Htc]|]. apply Forall_cons in Hstates as [Hw1 _].
    eapply shifted_opens; [exact Hw1|by apply Hp|done|done|]. rewrite Hy, Htc. exact Hst.
Qed.

Lemma try_shift_nested y p r y1 p' :
  driver_ok y p → trees_ok y p → try_shift y p = Done ((r, y1), p') → parseErrors p' = [] → nested_stack y p →
  match r with Some y2 => nested_stack y2 p' | None => nested_stack y1 p' ∧ blocked y1 end.
Proof.
  intros Hok Htr. pose proof (ok_ready _ _ Hok) as Hr. pose proof (ok_state _ _ Hok) as Hst.
  unfold try_shift. rewrite bind_lift.
  destruct (idx yyPact (yystate y)) as [n|] eqn:Hn; [|done]. case_bool_decide as Hflag.
  { unfold mret, P_ret. intros [= <- <- <-] _ Hns. split; [done|]. left. by rewrite (idx_entry _ _ _ Hn). }
  destruct (lookahead_looked y p Hr) as (t & y' & q & Hl & Ht & Hlook).
  pose proof (looked_same _ _ _ _ Hlook) as Hsame. pose proof (looked_trees _ _ _ _ Hlook Htr) as Htr'.
  pose proof (looked_ok _ _ _ _ Hlook Hok) as Hok'.
  rewrite (bind_Done _ _ _ _ _ Hl). cbv beta iota zeta.
  assert (yystate y' = yystate y) as Hst' by by rewrite Hsame.
  assert (shift_of (yystate y) t = None → r = None → y1 = y' → p' = q → parseErrors p' = [] → nested_stack y p →
    match r with Some y2 => nested_stack y2 p' | None => nested_stack y1 p' ∧ blocked y1 end) as Hnone.
  { intros Hsh -> -> -> He Hns. destruct (lookahead_nested _ _ _ _ _ Hr Hl He Hns) as [Hns' _]. split; [done|].
    right. exists t. by rewrite Hst'. }
  unfold shift_of in Hnone. rewrite (idx_entry _ _ _ Hn), (bool_decide_eq_false_2 _ Hflag) in Hnone.
  destruct (bool_decide (n + t < 0)%Z || bool_decide (yyLast ≤ n + t)%Z) eqn:Hj.
  { unfold mret, P_ret. intros [= <- <- <-]. by apply Hnone. }
  rewrite bind_lift. destruct (idx yyAct (n + t)) as [s|] eqn:Hs; [|done].
  rewrite bind_lift. destruct (idx yyChk s) as [chk|] eqn:Hchk; [|done].
  rewrite (idx_entry _ _ _ Hs), (idx_entry _ _ _ Hchk) in Hnone.
  case_bool_decide as Hc; [|unfold mret, P_ret; intros [= <- <- <-]; by apply Hnone].
  clear Hnone. subst chk. unfold current. rewrite bind_get. unfold mret, P_ret. intros [= <- <- <-] He Hns.
  destruct (lookahead_nested _ _ _ _ _ Hr Hl He Hns) as [Hns' _]. rewrite (ns_flag _ _ Hns').
  assert (0 < t)%Z as Hpos by by eapply trees_token.
  apply orb_false_iff in Hj as [Hj1%bool_decide_eq_false Hj2%bool_decide_eq_false].
  destruct (shift_edge _ _ t s Hst Hn ltac:(lia) Hpos ltac:(lia) Hs Hchk) as [_ Hsym].
  apply (shift_nested y' q t s zero_sym Hok' (trees_good _ _ Htr' He) Hns' Ht Hpos Hsym).
  rewrite Hst'. unfold shift_of. rewrite (idx_entry _ _ _ Hn), (bool_decide_eq_false_2 _ Hflag), (idx_entry _ _ _ Hs), (idx_entry _ _ _ Hchk).
  rewrite !bool_decide_eq_false_2 by lia. by rewrite bool_decide_eq_true_2.
Qed.

(** ** Errors *)
Lemma error_action n d v : n ∈ error_rules → yields (λ _, False) (action n d v).
Proof.
  intros Hn. elim_in Hn.
  all: unfold action, action_aggregate, action_grouping, action_call, action_range, action_matchers; cbv zeta.
  all: repeat match goal with |- context [if ?b then _ else _] =>
      let b' := eval vm_compute in b in lazymatch b' with true => change b with true | false => change b with false end; cbv iota end.
  all: first [by intros ?|yields].
Qed.

(** ** Reductions *)
Lemma shaped_shape l j w v :
  shaped l → l !! j = Some w → l !! S j = Some v → shape_kind (kind_at w) (level (yys v)) w.
Proof.
  revert l. induction j as [|j IH]; intros [|a [|b l]]; cbn [lookup list_lookup]; try done.
  - by intros (_ & Hw & _) [= <-] [= <-].
  - intros (Hl & _). by apply (IH (b :: l)).
Qed.
Lemma shaped_operand l j w v u :
  shaped l → l !! j = Some w → l !! S j = Some v → l !! S (S j) = Some u → operand_ok u v w.
Proof.
  revert l. induction j as [|j IH]; intros [|a [|b [|c l]]]; cbn [lookup list_lookup]; try done.
  - by intros (_ & _ & Hw) [= <-] [= <-] [= <-].
  - intros (Hl & _). by apply (IH (b :: c :: l)).
Qed.
Lemma shaped_drop k l : shaped l → shaped (drop k l).
Proof. revert l. induction k as [|k IH]; intros [|a [|b l]] Hl; try done; [by destruct k|]. apply (IH (b :: l)), Hl. Qed.

(** The values of a rule of [k] symbols, and what is below each. *)
Section Popped.
#[local] Set Default Proof Using "Type*".
Context (n : Z) (y : yyParser) (p : parser) (below : yySymType) (rest : list yySymType).
Context (Hok : driver_ok y p) (Hgood : good_stack y p) (Hns : nested_stack y p) (Hblocked : blocked y).
Context (Hin : n ∈ default_rules (yystate y)).
Context (Hdrop : drop (length (rhs_of n)) (yyS y) = below :: rest).
Context (Hsym : symbol <$> (yys <$> take (length (rhs_of n)) (yyS y)) = reverse (rhs_of n)).
Notation k := (length (rhs_of n)).
Notation l := (yyS y).

Definition dollar_of (i : Z) : yySymType := nth (Z.to_nat i - 1) (rev (take k l)) zero_sym.
Definition below_level (i : nat) : nat := level (yys (nth (k - i) l zero_sym)).

Lemma popped_below : l !! k = Some below.
Proof. rewrite <- (Nat.add_0_r k), <- lookup_drop, Hdrop. done. Qed.

Lemma popped_value i c :
  rhs_of n !! i = Some c → ∃ w, l !! (k - S i) = Some w ∧ symbol (yys w) = c ∧ dollar_of (Z.of_nat i + 1) = w ∧
    below_level (S i) = level (yys w) ∧ is_state (yys w).
Proof.
  intros Hi. pose proof (lookup_lt_Some _ _ _ Hi) as Hlt.
  pose proof (lookup_lt_Some _ _ _ popped_below) as Hlen.
  destruct (l !! (k - S i)) as [w|] eqn:Hw; [|apply lookup_ge_None in Hw; lia].
  exists w. split; [done|]. split; [|split; [|split]].
  - assert (reverse (rhs_of n) !! (k - S i) = Some (symbol (yys w))) as Hr.
    { rewrite <- Hsym, !list_lookup_fmap, lookup_take_lt by lia. by rewrite Hw. }
    rewrite reverse_lookup_Some in Hr. destruct Hr as [Hr _]. replace (k - S (k - S i)) with i in Hr by lia.
    rewrite Hi in Hr. by injection Hr.
  - unfold dollar_of. replace (Z.to_nat (Z.of_nat i + 1) - 1) with i by lia. apply nth_lookup_Some.
    assert (length (take k l) = k) as Htk by (rewrite length_take; lia).
    assert (rev (take k l) = reverse (take k l)) as -> by (apply rev_alt).
    rewrite reverse_lookup by lia. rewrite Htk, lookup_take_lt by lia. done.
  - unfold below_level. by rewrite (nth_lookup_Some _ _ _ _ Hw).
  - pose proof (ok_states _ _ Hok) as Hst. by eapply (Forall_lookup_1 _ _ _ _ Hst).
Qed.

Lemma popped_under i : i < k → ∃ v, l !! (k - i) = Some v ∧ below_level i = level (yys v).
Proof.
  intros Hi. pose proof (lookup_lt_Some _ _ _ popped_below) as Hlen.
  destruct (l !! (k - i)) as [v|] eqn:Hv; [|apply lookup_ge_None in Hv; lia].
  exists v. split; [done|]. unfold below_level. by rewrite (nth_lookup_Some _ _ _ _ Hv).
Qed.

Lemma popped_step i c :
  rhs_of n !! i = Some c → ∃ w v, l !! (k - S i) = Some w ∧ l !! (k - i) = Some v ∧ symbol (yys w) = c ∧
    dollar_of (Z.of_nat i + 1) = w ∧ below_level (S i) = level (yys w) ∧ below_level i = level (yys v) ∧
    is_state (yys w) ∧ yys v ∈ preds_of (yys w).
Proof.
  intros Hi. destruct (popped_value i c Hi) as (w & Hw & Hs & Hd & Hlv & Hst). pose proof (lookup_lt_Some _ _ _ Hi) as Hlt.
  destruct (popped_under i Hlt) as (v & Hv & Hlv'). exists w, v. split_and!; try done.
  apply (path_lookup l (k - S i)); [by apply (stack_path _ _ Hgood)|done|]. by replace (S (k - S i)) with (k - i) by lia.
Qed.

Lemma popped_placed : placed n dollar_of (hd zero_sym (rev (take k l) ++ above y)) below_level (next_op y).
Proof.
  pose proof (ns_shape _ _ Hns) as Hshape.
  assert (∀ i c, rhs_of n !! i = Some c → i < k) as Hlt by (intros i c Hi; by apply lookup_lt_Some in Hi).
  assert (∀ i s t, rhs_of n !! i = Some s → rhs_of n !! S i = Some t → ∃ u v w,
    below_level i = level (yys u) ∧ symbol (yys v) = s ∧ dollar_of (Z.of_nat i + 1) = v ∧
    symbol (yys w) = t ∧ dollar_of (Z.of_nat (S i) + 1) = w ∧ operand_ok u v w) as Hpair.
  { intros i s t Hi Hj. destruct (popped_step _ _ Hi) as (v & u & Hv & Hu & Hsv & Hdv & _ & Hlu & _).
    destruct (popped_value _ _ Hj) as (w & Hw & Hsw & Hdw & _). exists u, v, w. split_and!; try done.
    apply Hlt in Hj. apply (shaped_operand l (k - S (S i))); [done|done|..].
    - by replace (S (k - S (S i))) with (k - S i) by lia.
    - by replace (S (S (k - S (S i)))) with (k - i) by lia. }
  constructor.
  - eapply popped_dollars; [exact Hsym|apply (stack_typed _ _ Hgood)|exact Hdrop].
  - intros i c Hi. destruct (popped_step _ _ Hi) as (w & v & Hw & Hv & <- & -> & _ & -> & _).
    apply Hlt in Hi. apply (shaped_shape l (k - S i)); [done|done|]. by replace (S (k - S i)) with (k - i) by lia.
  - intros i c Hi Hc. destruct (popped_step _ _ Hi) as (w & v & _ & _ & <- & _ & -> & _ & Hst & Hp).
    by apply (levels _ _ Hst Hp); set_solver.
  - intros i Hi. destruct (popped_step _ _ Hi) as (w & v & _ & _ & Hs & _ & -> & _ & Hst & Hp).
    by apply (levels _ _ Hst Hp).
  - intros i s t c Hi Hj Hc Ht. destruct (Hpair _ _ _ Hi Hj) as (u & v & w & _ & <- & -> & Hw & _ & Hop).
    apply (Hop c Hc). by rewrite Ht.
  - intros i t Hi Hj (c & -> & Hc)%list_elem_of_fmap. destruct (Hpair _ _ _ Hi Hj) as (u & v & w & -> & Hv & _ & Hw & -> & Hop).
    destruct (Hop c (binary_in_ops c Hc) (eq_sym Hw)) as [_ Ho]. destruct (Ho Hv Hc) as [-> Hred].
    split_and!; [done..|]. intros Hm. destruct (popped_step _ _ Hm) as (m & w' & Hlm & Hlw' & Hsm & _ & -> & _ & Hst & Hp).
    apply (level_operator _ _ Hst Hp c Hsm Hc). destruct (popped_value _ _ Hj) as (w2 & Hw2 & Hs2 & _).
    rewrite Hlw' in Hw2. injection Hw2 as ->. done.
  - intros s Hs. rewrite last_lookup in Hs. pose proof (Hlt _ _ Hs) as Hk.
    destruct (popped_value _ _ Hs) as (w & Hw & <- & Hd & _). replace (k - S (pred k)) with 0 in Hw by lia.
    replace (Z.of_nat (pred k) + 1)%Z with (Z.of_nat k) in Hd by lia. rewrite Hd.
    apply (ns_top _ _ Hns). by rewrite head_lookup.
  - intros Hs Hl c [Hc Ht]. rewrite last_lookup in Hs. pose proof (Hlt _ _ Hs) as Hk.
    replace (pred k) with (k - 1) in Hs by lia.
    destruct (popped_step _ _ Hs) as (w & v & Hw & _ & Hsw & _ & _ & Hlv & Hst & Hp). rewrite Hlv in Hl |- *.
    destruct (reduced_closes _ _ Hst Hp c Hsw Hl Hc) as [Hpact Hclose]. apply Hclose.
    replace (k - S (k - 1)) with 0 in Hw by lia. pose proof (ok_top _ _ Hok) as Htop.
    rewrite head_lookup, Hw in Htop. injection Htop as Htop. rewrite Htop in Hpact |- *.
    destruct Hblocked as [Hb|(t & Hty & Hsh)]; [lia|]. rewrite Hty in Ht. by rewrite Ht.
  - intros Hn. assert (rhs_of n !! 0 = Some (-27)%Z ∧ k - 1 = 0) as [Hi Hk] by by rewrite Hn.
    destruct (popped_step _ _ Hi) as (w & v & Hw & _ & _ & _ & _ & -> & Hst & Hp).
    pose proof (ok_top _ _ Hok) as Htop. rewrite head_lookup in Htop. rewrite Hk in Hw.
    rewrite Hw in Htop. injection Htop as Htop. apply (levels _ _ Hst Hp). by rewrite Htop, <- Hn.
Qed.
End Popped.

Lemma yyreduce_nested n y p y' p' :
  driver_ok y p → trees_ok y p → (0 < n)%Z → n ∈ default_rules (yystate y) → blocked y →
  yyreduce n y p = Done (y', p') → parseErrors p' = [] → nested_stack y p → nested_stack y' p'.
Proof.
  intros Hok Htr Hpos Hin Hblocked. pose proof (ok_state _ _ Hok) as Hst. unfold yyreduce. rewrite bind_lift.
  destruct (idx yyR2 n) as [k|] eqn:Hk; [|done].
  pose proof (rule_length _ _ _ Hst Hin Hpos Hk) as ->. rewrite Nat2Z.id, bind_lift.
  destruct (idx yyR1 n) as [nt|] eqn:Hnt; [|done]. cbv zeta.
  destruct (drop (length (rhs_of n)) (yyS y)) as [|below rest] eqn:Hd; [done|].
  rewrite bind_lift. destruct (goto_state nt (yys below)) as [s|] eqn:Hgoto; [|done]. rewrite bind_run.
  pose proof (frames_action (λ x, (4 ≤ n ≤ 5)%Z ∧ x = node_ (dollar_of n y 2%Z)) n (dollar_of n y)
    (hd zero_sym (rev (take (length (rhs_of n)) (yyS y)) ++ above y)) (λ H, conj H eq_refl) p) as Hfr.
  fold (dollar_of n y) in *.
  destruct (action n _ _ p) as [[v' q]|] eqn:Hact; [|done]. unfold mret, P_ret. intros [= <- <-] He Hns.
  destruct Hfr as [Hlex Hi1 Hi2 Hback Hresult]. pose proof (trees_good _ _ Htr (Hback He)) as Hgood.
  destruct (stack_reduces n y p nt below rest s Hok Hgood Hpos Hin Hnt Hd Hgoto) as (Hrule & Hsym & Hedge & Hs).
  pose proof (popped_placed n y p below rest Hok Hgood Hns Hblocked Hin Hd Hsym) as Hpl.
  destruct (action_builds _ _ _ _ _ Hrule Hpl _ _ _ (trees_sane _ _ Htr) Hact He) as [Hshape Hends].
  pose proof Hns as [Hf Hsh Htop Htok Hinj Hres].
  assert (below_level n y 0 = level (yys below)) as Hlv0.
  { unfold below_level. rewrite Nat.sub_0_r. by rewrite (nth_lookup_Some _ _ _ _ (popped_below n y p below rest Hok Hgood Hns Hblocked Hin Hd Hsym)). }
  constructor; cbn [yystack yyS Errflag token].
  - done.
  - pose proof (shaped_drop (length (rhs_of n)) _ Hsh) as Hsd. rewrite Hd in Hsd. split; [done|]. split.
    + unfold kind_at. cbn. rewrite Hs, <- Hlv0. exact Hshape.
    + destruct rest as [|u rest]; [done|]. intros c _ Ht. cbn in Ht. rewrite Hs in Ht.
      pose proof (token_positive c). pose proof (rule_nonterminal n Hrule). lia.
  - intros v [= <-]. unfold kind_at. cbn. rewrite Hs. exact Hends.
  - intros c Hc Ht. rewrite Hlex. by apply Htok.
  - intros c Hc. unfold inject_ok in Hinj. rewrite Hi1, Hi2. by apply Hinj.
  - destruct Hresult as [->|[Hn Hx]]; [done|]. rewrite Hx. intros m Hm.
    assert (∃ c c', rhs_of n = [c; c'] ∧ c ∈ [70; 71]%Z ∧ kind_of c' = KExpr) as (c & c' & Hr & Hc & Hk').
    { assert (n = 4 ∨ n = 5)%Z as [-> | ->] by lia; eexists _, _; (split; [reflexivity|split; [member|done]]). }
    assert (rhs_of n !! 0 = Some c ∧ rhs_of n !! 1 = Some c') as [H0 H1] by by rewrite Hr.
    pose proof (pl_shape _ _ _ _ _ Hpl 1 c' H1) as Hm1. rewrite Hk' in Hm1. specialize (Hm1 m Hm).
    destruct (popped_step n y p below rest Hok Hgood Hns Hblocked Hin Hd Hsym 0 c H0) as (w & v & _ & _ & <- & _ & Hlw & _ & Hw & Hv).
    rewrite Hlw, (proj1 (levels _ _ Hw Hv)) in Hm1; [done|]. revert Hc. set_solver.
Qed.

(** ** The loop *)
Definition nesting_ok (y : yyParser) (p : parser) : Prop := parseErrors p = [] → on_error y ∨ nested_stack y p.
Definition nested_result (p : parser) : Prop := ∀ m, generatedParserResult p = Some m → nests 0 m.

(** Behind an error a turn records one. *)
Lemma turn_on_error y p t p' :
  driver_ok y p → trees_ok y p → on_error y → turned y p t p' → parseErrors p' = [] → False.
Proof.
  intros Hok Htr Herr. pose proof (ok_state _ _ Hok) as Hst. destruct (error_state _ Hst Herr) as [Hpact Hrules].
  assert (∀ n, n ∈ default_rules (yystate y) → (0 < n)%Z) as Hpos.
  { intros n Hn%Hrules. by elim_in Hn. }
  intros [y1 y2 p1 Hs|n y1 p1 [_ Hl _ Hin _] Hn|y1 p1 t1 p2 [_ Hl _ Hin _] _|n y1 p1 y2 p2 [_ Hl _ Hin _] Hn Hr] He.
  - unfold try_shift in Hs. rewrite bind_lift in Hs. destruct (idx yyPact (yystate y)) as [k|] eqn:Hk; [|done].
    rewrite (idx_entry _ _ _ Hk) in Hpact. by rewrite bool_decide_eq_true_2 in Hs.
  - rewrite (looked_same _ _ _ _ Hl) in Hin. apply Hpos in Hin. lia.
  - rewrite (looked_same _ _ _ _ Hl) in Hin. by apply Hpos in Hin.
  - rewrite (looked_same _ _ _ _ Hl) in Hin. apply Hrules in Hin. pose proof (looked_trees _ _ _ _ Hl Htr) as [Hsane _ _].
    unfold yyreduce in Hr. rewrite bind_lift in Hr. destruct (idx yyR2 n); [|done]. rewrite bind_lift in Hr.
    destruct (idx yyR1 n); [|done]. cbv zeta in Hr. destruct (drop _ _); [done|]. rewrite bind_lift in Hr.
    destruct (goto_state _ _); [|done]. rewrite bind_run in Hr. destruct (action n _ _ p1) as [[v q]|] eqn:Ha; [|done].
    injection Hr as <- <-. by eapply (error_action n _ _ Hin _ _ _ Hsane Ha).
Qed.

Lemma defaulted_nested y p n y' p' :
  driver_ok y p → trees_ok y p → defaulted y p n y' p' → parseErrors p' = [] → nested_stack y p →
  nested_stack y' p' ∧ blocked y'.
Proof.
  intros Hok Htr [(y1 & p1 & Hs & Hok1 & Hl1 & Hd) _ _ _ _] He Hns.
  unfold default_rule in Hd. rewrite bind_lift in Hd. destruct (idx yyDef (yystate y1)) as [k|]; [|done].
  case_bool_decide; [|injection Hd as <- <- <-; by apply (try_shift_nested _ _ _ _ _ Hok Htr Hs He)].
  pose proof (ok_ready _ _ Hok1) as Hr. destruct (lookahead_looked y1 p1 Hr) as (t & y2 & p2 & Hl & Ht & Hlook).
  rewrite (bind_Done _ _ _ _ _ Hl) in Hd. rewrite bind_lift in Hd. destruct (exca_state _ _); [|done].
  rewrite bind_lift in Hd. destruct (exca_token _ _); [|done]. injection Hd as <- <- <-.
  pose proof (lexed_errors _ _ (looked_lexed _ _ _ _ Hlook) He) as He1.
  destruct (try_shift_nested _ _ _ _ _ Hok Htr Hs He1 Hns) as [Hns1 Hb].
  split; [by apply (lookahead_nested _ _ _ _ _ Hr Hl He Hns1)|].
  assert (yystate y2 = yystate y1) as Hst by by rewrite (looked_same _ _ _ _ Hlook).
  unfold blocked. rewrite Hst. destruct Hb as [Hb|(t' & Ht' & Hb)]; [by left|right].
  exists t'. split; [|done]. unfold lookahead in Hl. rewrite Ht' in Hl. by injection Hl as <- <- <-.
Qed.

Lemma yyturn_nested y p t p' :
  driver_ok y p → trees_ok y p → nesting_ok y p → yyturn y p = Done (t, p') →
  match t with Again y' => nesting_ok y' p' | Return _ => parseErrors p' = [] → nested_result p' end.
Proof.
  intros Hok Htr Hok_n Hturn. pose proof (yyturn_pays y p Hok) as Hpay. rewrite Hturn in Hpay.
  apply yyturn_turned in Hturn; [|done].
  assert (parseErrors p' = [] → nested_stack y p) as Hns.
  { intros He. destruct Hok_n as [Herr|]; [destruct t; by apply Hpay| |done]. by destruct (turn_on_error _ _ _ _ Hok Htr Herr Hturn He). }
  clear Hok_n Hpay. destruct Hturn as [y1 y2 p' Hs|n y1 p' Hd _|y1 p1 t p' Hd He|n y1 p1 y2 p' Hd Hn Hr].
  - intros He. right. by apply (try_shift_nested _ _ _ _ _ Hok Htr Hs He), Hns.
  - intros He. by destruct (defaulted_nested _ _ _ _ _ Hok Htr Hd He (Hns He)) as [[] _].
  - pose proof (yyerror_pays _ _ (df_ok _ _ _ _ _ Hd) (df_token _ _ _ _ _ Hd eq_refl)) as Hpay. rewrite He in Hpay.
    destruct t as [y2|c].
    + destruct Hpay as (-> & _ & _). intros Hp. left.
      destruct (defaulted_nested _ _ _ _ _ Hok Htr Hd Hp (Hns Hp)) as [[Hf _ _ _ _ _] _].
      unfold yyerror in He. rewrite Hf, bool_decide_eq_false_2, bind_lift in He by done.
      pose proof (find_error_path (yyS y1) []) as Hpath. destruct (find_error (yyS y1) []) as [[[[q s] popped]|]|]; [|done..].
      injection He as <-. pose proof (looked_trees _ _ _ _ (df_looked _ _ _ _ _ Hd) Htr) as Htr1.
      destruct (trees_good _ _ Htr1 Hp) as [Hpa Hty _].
      by destruct (Hpath q s popped (ok_states _ _ (df_ok _ _ _ _ _ Hd)) Hpa Hty eq_refl) as (_ & _ & ? & _ & _ & ?).
    + subst p'. intros Hp. by destruct (defaulted_nested _ _ _ _ _ Hok Htr Hd Hp (Hns Hp)) as [[] _].
  - intros He. right. pose proof (looked_trees _ _ _ _ (df_looked _ _ _ _ _ Hd) Htr) as Htr1.
    pose proof (df_ok _ _ _ _ _ Hd) as Hok1. pose proof (df_rule _ _ _ _ _ Hd) as Hin.
    pose proof (yyreduce_pays n y1 p1 Hok1 Hn Hin) as Hpay. rewrite Hr in Hpay. destruct Hpay as (_ & _ & Hback).
    destruct (defaulted_nested _ _ _ _ _ Hok Htr Hd (Hback He) (Hns He)) as [Hns1 Hb].
    by apply (yyreduce_nested n y1 p1).
Qed.

Lemma yyParse_nested fuel y p c p' :
  driver_ok y p → trees_ok y p → nesting_ok y p → yyParse fuel y p = Done (c, p') → parseErrors p' = [] → nested_result p'.
Proof.
  revert y p. induction fuel as [|fuel IH]; intros y p Hok Htr Hn; [done|]. rewrite yyParse_step.
  pose proof (yyturn_pays y p Hok) as Hpay. destruct (yyturn y p) as [[t p1]|r] eqn:Ht; [|done].
  pose proof (yyturn_trees _ _ _ _ Hok Htr Ht) as Htr1. apply yyturn_nested in Ht; [|done..].
  destruct t as [y'|c']; [|by intros [= <- <-]]. apply IH; [apply Hpay|done..].
Qed.

Lemma parseGenerated_nested start s n p' :
  (∀ c, c ∈ ops → token_of start ≠ token_of c) →
  parseGenerated start (newParser s) = Done (Some n, p') → parseErrors p' = [] → nests 0 n.
Proof.
  intros Hstart. unfold parseGenerated. rewrite bind_run. cbn [set_inject newParser lex inject injecting
    lastClosing generatedParserResult parseErrors]. rewrite bind_get.
  cbn [lex input Lex]. rewrite bind_run.
  destruct (yyParse _ _ _) as [[c q]|] eqn:Hp; [|done]. unfold get. intros [= Hn <-] He.
  destruct (yyinit_ok s start) as [Hok _]. apply yyParse_nested in Hp; [by apply Hp|done| | |done].
  - constructor; [done|done|]. intros _. constructor; [done| |done]. by repeat constructor.
  - intros _. right. constructor; try done; [|intros c' Hc _; by apply Hstart].
    intros v [= <-]. unfold kind_at. cbn. by vm_compute.
Qed.
End Driver.

(** ** The checks *)
Section Checked.
Context `{RE : RegexpEngine, !UnicodeTable}.

(** Trees that nest alike. *)
Record alike (e e' : Expr) : Prop := Alike {
  alike_nested : ∀ p, nested p e' = nested p e;
  alike_edge : ∀ c, edge e' c = edge e c;
  alike_number : is_number e' = is_number e;
}.
Lemma alike_refl e : alike e e.
Proof. done. Qed.

Definition kept_shape (n n' : node) : Prop := ∀ e', to_Expr n' = Some e' → ∃ e, to_Expr n = Some e ∧ alike e e'.

Lemma kept_all args args' es' :
  Forall2 kept_shape args args' → mapM to_Expr args' = Some es' →
  ∃ es, mapM to_Expr args = Some es ∧ forallb (nested 0) es' = forallb (nested 0) es.
Proof.
  intros Ha. revert es'. induction Ha as [|n n' args args' Hn _ IH]; intros es'; [intros [= <-]; by exists []|].
  cbn [mapM]. intros (e' & He' & (r' & Hr' & [= <-])%bind_Some)%bind_Some.
  destruct (Hn _ He') as (e & He & Hal), (IH _ Hr') as (r & Hr & Hf).
  exists (e :: r). rewrite He. cbn. rewrite Hr. split; [done|]. by rewrite Hf, (alike_nested _ _ Hal).
Qed.

Lemma rematched_kept n n' : rematched n n' → kept_shape n n'.
Proof.
  revert n'. induction n as [l Hl|op e p g w r He Hp|op l r vm b Hl Hr|f args r Ha|vs range e Hvs|
    n range o s e Hn|v r|n r Hn|s r|op n s Hn|name o ms r] using node_nested_ind; intros n' Hrem x' Hx';
    inversion Hrem as [| |? e1 e' ? p' ? ? ? Hee Hpp|? ? l' ? r' ? vm' ? Hll Hrr|? ? args' ? Haa|? ? ? ? Hnn|? ? ? ? ? ? Hnn
      |? ? ? Hnn|? ? ? ? Hnn]; subst; try (exists x'; split; [done|apply alike_refl]); try done.
  - cbn [to_Expr] in Hx'. apply bind_Some in Hx' as (x1 & H1 & Hx'). apply bind_Some in H1 as (y & Hy & [= <-]).
    apply bind_Some in Hx' as (q & Hq & [= <-]). destruct (He _ Hee _ Hy) as (x & Hx & Hal). cbn [to_Expr]. rewrite Hx.
    destruct Hpp as [p1 p2 Hpp|].
    + apply bind_Some in Hq as (z & Hz & [= <-]). destruct (Hp _ Hpp _ Hz) as (u & Hu & Halu). rewrite Hu.
      eexists. split; [reflexivity|]. constructor; [|done..]. intros p0. cbn. by rewrite (alike_nested _ _ Hal), (alike_nested _ _ Halu).
    + injection Hq as <-. eexists. split; [reflexivity|]. constructor; [|done..]. intros p0. cbn. by rewrite (alike_nested _ _ Hal).
  - cbn [to_Expr] in Hx'. apply bind_Some in Hx' as (x1 & H1 & (x2 & H2 & [= <-])%bind_Some).
    destruct (Hl _ Hll _ H1) as (y1 & Hy1 & Hal1), (Hr _ Hrr _ H2) as (y2 & Hy2 & Hal2). cbn [to_Expr]. rewrite Hy1, Hy2.
    eexists. split; [reflexivity|]. constructor; [intros q|intros c|done]; cbn.
    + by rewrite !(alike_nested _ _ Hal1), (alike_nested _ _ Hal2), (alike_edge _ _ Hal1).
    + by rewrite (alike_edge _ _ Hal2).
  - destruct f as [f|]; [|done]. rewrite to_Expr_call in Hx' |- *. apply bind_Some in Hx' as (es' & Hes & [= <-]).
    destruct (kept_all args args' es') as (es & -> & Hf); [|done|eexists; split; [reflexivity|by constructor; [intros p0; apply Hf|..]]].
    apply Forall2_same_length_lookup. split; [by eapply Forall2_length|]. intros i a a' Hai Hai'.
    apply (Forall_lookup_1 _ _ _ _ Ha Hai). by eapply (Forall2_lookup_lr rematched).
  - cbn [to_Expr] in Hx'. apply bind_Some in Hx' as (y & Hy & [= <-]). destruct (Hvs _ Hnn _ Hy) as (x & Hx & _).
    cbn [to_Expr]. rewrite Hx. by eexists.
  - cbn [to_Expr] in Hx'. apply bind_Some in Hx' as (y & Hy & [= <-]). destruct (Hn _ Hnn _ Hy) as (x & Hx & Hal).
    cbn [to_Expr]. rewrite Hx. eexists. split; [reflexivity|]. constructor; [|done..]. intros q. cbn.
    by rewrite (alike_nested _ _ Hal), (alike_edge _ _ Hal).
  - cbn [to_Expr] in Hx'. apply fmap_Some in Hx' as (y & Hy & ->). destruct (Hn _ Hnn _ Hy) as (x & Hx & Hal).
    cbn [to_Expr]. rewrite Hx. eexists. split; [reflexivity|]. constructor; [|done..]. intros p0. apply (alike_nested _ _ Hal).
  - cbn [to_Expr] in Hx'. apply fmap_Some in Hx' as (y & Hy & ->). destruct (Hn _ Hnn _ Hy) as (x & Hx & [Hal1 Hal2 Hal3]).
    cbn [to_Expr]. rewrite Hx. eexists. split; [reflexivity|]. constructor; [intros q|intros c|done]; cbn.
    + by rewrite Hal1, Hal3.
    + by rewrite Hal2.
Qed.

(** The operators of a query that is accepted nest by their precedence. *)
Lemma parsed_nested s e : Parser.ParseExpr s = Ok e → nested 0 e = true.
Proof.
  unfold Parser.ParseExpr, recovered. destruct (parse_expr (newParser s)) as [[n p']|] eqn:Hp; [|done].
  destruct (parseErrors p') eqn:He; [|done].
  destruct n as [m|]; [|done]. cbn. destruct (to_Expr m) as [x|] eqn:Hx; [|done]. intros [= <-].
  destruct (parse_expr_checked _ _ _ Hp He) as (r & t & m' & p1 & Hr & Hc & [= <-] & Hg & Hback).
  apply gives_checkAST in Hc. destruct (rematched_kept _ _ Hc _ Hx) as (y & Hy & Hal). rewrite (alike_nested _ _ Hal).
  apply (parseGenerated_nested START_EXPRESSION s r p1); [|done..|done].
  intros c Hc' E%op_of_token; [|done]. subst c. by apply (bool_decide_eq_false_1 (START_EXPRESSION ∈ ops)) in Hc'.
Qed.
(** ** Properties *)

(** C7. Precedence: the tables of goyacc group operators as the precedences
    of the grammar say.  In the tree of a query that [ParseExpr] accepts each
    operand of a binary operator that is a binary expression without
    parentheses binds tighter than that operator, or as tight on the side
    where it associates ([^] to the right, all others to the left); a sign
    binds like [*], and a subquery tighter than every operator.  Printed
    without parentheses, the tree so groups in the same way, but for a
    number that is printed with a sign in front of [^]. *)
Theorem ParseExpr_nested (s : string) (e : Expr) (He : Parser.ParseExpr s = Ok e) :
  nested 0 e = true ∧ (plain_bases e = true → fits 0 e EOF = true).
Proof. pose proof (parsed_nested s e He) as Hn. split; [done|]. by apply nested_query_fits. Qed.
End Checked.
