(* ===== verification/ExprNodes.v ===== *)
(** * The driver on each kind of node

    [runs_expr] for the nodes of a tree, from [runs_expr] of its children:
    numbers, strings, selectors, ranges, subqueries, parentheses and
    unary operators. *)
From S2P Require Import Prelude GoStrings GoFloat Regexp Matchers Promql Rewriting Errors.
From S2P Require Import GoTime Strutil Lexer LexerSpec ParserTables Parser ParserDriver.
From S2P Require Import Quoting SelectorLex SelectorParse Rereading ExprLex PrintedText ExprParse ExprShape.
From S2P Require Import ExprRuns.
From Stdlib Require Import Ascii.
From stdpp Require Import options.

(** The shape depends on the precedence of the token behind the tree. *)
Lemma fits_prec `{RE : RegexpEngine} p e c c' : prec c = prec c' → fits p e c = fits p e c'.
Proof.
  intros Hc. assert (∀ q, reduces q c = reduces q c') as Hr by (intros q; unfold reduces; by rewrite Hc).
  revert p. induction e as [e IH] using Expr_children_ind. intros p.
  destruct e as [op [e|] [q|] g w|op l r vm b|f args|e r|e r o s|v|e|s|op e|n o ms]; cbn [fits]; try done.
  - rewrite (IH r) by (cbn; member). by rewrite Hr.
  - by rewrite Hr.
  - rewrite (IH e) by (cbn; member). by rewrite Hr.
Qed.

Section ExprNodes.
Context `{RE : RegexpEngine, !UnicodeTable}.
Implicit Types Q : outcome → Prop.

Lemma runs_expr_number v : reads_back v → runs_expr (NumberLiteral v).
Proof.
  intros (x & Hx & Hv) u st d R g c K l p Q s [= <-] Hu Hfits [Hs _] Hd Hat Htok Hf _ Hrun.
  rewrite FormatFloat_text in Htok. cbn [fits] in Hfits. destruct (number_sign v) as [sg|] eqn:Hsign.
  - assert (sg = ADD ∨ sg = SUB) as Hsg by (destruct v as [[]|[]| |[]]; try done; injection Hsign as <-; auto).
    rewrite string_app_assoc in Htok.
    apply (runs_sign u st sg d _ l g p Q Hu Hsg Hat Htok). intros o l1 p1 Ho Hto Hat1 Htok1.
    assert (yys o ∈ expr_states) as Ho' by (rewrite Ho; unfold expr_states; cbn; member).
    apply (runs_magnitude o (u :: st) v x d R l1 g p1 Q Ho' Hx Hs Hat1 Htok1). intros w r l2 p2 Hw Hn Hat2 Htok2.
    rewrite Ho in Hw.
    apply (runs_signed w o u st sg (NNumberLiteral x r) (reads as_parsed (NumberLiteral v)) g d R c K None p2 Q);
      [done..|right; eauto| |done].
    intros dd y p3 Hty Hnode. unfold action_unary. rewrite Hnode. eexists. split; [reflexivity|].
    rewrite Hty, Hv. constructor.
  - subst x. rewrite string_app_nil_l in Htok.
    apply (runs_magnitude u st v v d R l g p Q Hu Hx Hs Hat Htok). intros w r l2 p2 Hw Hn Hat2 Htok2.
    eapply Hrun; [done|exact Hn|constructor|right; eauto].
Qed.

Lemma runs_expr_string v : runs_expr (StringLiteral v).
Proof.
  intros u st d R g c K l p Q s [= <-] Hu _ _ Hd Hat Htok Hf Hbad Hrun. pose proof (expr_states_spec _ Hu) as Hes.
  destruct (lexes_outside d _ l _ (state_value d v R) Htok) as (l1 & Hn1 & Hcase).
  assert (∀ p1 n p2, unquoteString (Val (itemp l1)) p1 = Done (n, p2) →
    (∀ w r, yys w = after_expr (yys u) → node_ w = Some (NStringLiteral n r) → runs (w :: u :: st) None p2 Q) →
    runs (leaf 49 (itemp l1) :: u :: st) None p1 Q) as Hreduce.
  { intros p1 n p2 Hun Hr.
    eapply (runs_reduce _ [] u st None p1 177 38 41); [reflexivity..|apply Hes|]. eexists _, p2. split.
    - change (action 177 _ _ p1) with ((s ← unquoteString (Val (itemp l1));
        mret (with_node (NStringLiteral s (Item_range (itemp l1))) (leaf 49 (itemp l1)))) p1).
      rewrite (bind_Done _ _ _ _ _ Hun). reflexivity.
    - eapply (runs_unit _ u st); [done|unfold unit_rules; cbn; member|]. by eapply Hr. }
  destruct Hcase as [(Ht & Hv & Htok1)|[Hnp [Ht|[Ht Hun]]]].
  - apply (runs_token u st p l g l1 STRING 49 Q Hat Hn1 Ht); [done|apply Hes..|]. intros p1 Hat1.
    eapply (Hreduce p1 v p1); [unfold unquoteString; by rewrite Hv, Unquote_quoted|].
    intros w r Hw Hn. eapply Hrun; [done|exact Hn|constructor|right; eauto].
  - destruct (parser_Lex_error l l1 g p Hat Hn1 Ht) as (c' & p1 & Hlex & Herr).
    destruct (Hbad Hnp). apply (runs_read u st p c' p1); [apply Hes|done|by apply runs_errors].
  - apply (runs_token u st p l g l1 STRING 49 Q Hat Hn1 Ht); [done|apply Hes..|]. intros p1 Hat1.
    destruct (Hbad Hnp). eapply (Hreduce p1).
    + unfold unquoteString. rewrite Hun. reflexivity.
    + intros w r _ _. apply runs_errors; [|done..]. cbn. by destruct (parseErrors p1).
Qed.

(** ** Parentheses and unary operators *)
Lemma reads_as_Expr V e n : reads V e n → as_Expr (Some n) = Done n.
Proof. by destruct 1. Qed.

(** A token that closes what an expression stands in. *)
Lemma follows_close g d R :
  (0 < d)%Z → follows g d (")" +:+ R) RIGHT_PAREN (behind g RIGHT_PAREN (d - 1) Outside R).
Proof. intros Hd. apply (follows_text g d _ _ ")"); [done|]. intros l. by apply lexes_outside, state_right_paren. Qed.
Lemma follows_comma g d R : follows g d ("," +:+ R) COMMA (behind g COMMA d Outside R).
Proof. apply (follows_text g d _ _ ","); [done|]. intros l. by apply lexes_outside, state_comma. Qed.
Lemma close_end R : expr_end (")" +:+ R) RIGHT_PAREN.
Proof. split; [by split|]. by apply (bool_decide_eq_false_1 (RIGHT_PAREN ∈ _)). Qed.
Lemma comma_end R : expr_end ("," +:+ R) COMMA.
Proof. split; [by split|]. by apply (bool_decide_eq_false_1 (COMMA ∈ _)). Qed.

Lemma runs_expr_paren e s : String_ e = Done s → runs_expr e → runs_expr (ParenExpr e).
Proof.
  intros He IH u st d R g c K l p Q s' [= <-] Hu Hfits _ Hd Hat Htok Hf Hbad Hrun.
  pose proof (expr_states_spec _ Hu) as Hes. rewrite He in Htok. cbn [fmt_s] in Htok.
  rewrite !string_app_assoc in Htok.
  eapply (runs_text u st l g p LEFT_PAREN "(" _ _ _ 48); [apply Hes..|done|exact Hat| |].
  { eapply (lexes_outside d); [apply state_left_paren|exact Htok]. }
  intros i l1 p1 _ _ Hat1 Htok1.
  eapply (IH (leaf 48 i) (u :: st) (d + 1)%Z (")" +:+ R) g RIGHT_PAREN _ l1 p1 Q s He);
    [unfold expr_states; cbn; member| |apply close_end|lia|exact Hat1|exact Htok1|apply follows_close; lia|exact Hbad|].
  { by rewrite (fits_prec _ e RIGHT_PAREN COMMA). }
  intros w n t p2 Hw Hn Hreads Hah. pose proof (reads_as_Expr _ _ _ Hreads) as Has.
  change (yys w = 100%Z) in Hw. eapply (runs_behind w _ _ _ _ RIGHT_PAREN _ _ _ 147); [by rewrite Hw|by rewrite Hw|eapply follows_close|exact Hah|]; [lia|].
  intros i' l3 p3 _ Hat3 Htok3. replace (d + 1 - 1)%Z with d in Htok3 by lia.
  eapply (runs_reduce _ [w; leaf 48 i] u st None p3 64 37 40); [reflexivity..|apply Hes|]. eexists _, p3. split.
  - change (action 64 _ _ p3) with ((e ← lift (as_Expr (node_ w));
      mret (with_node (NParenExpr e (mergeRanges (Item_range i) (Item_range i'))) (leaf 48 i))) p3).
    rewrite bind_lift, Hn, Has. reflexivity.
  - eapply (runs_unit _ u st); [done|unfold unit_rules; cbn; member|].
    eapply Hrun; [done|reflexivity|by constructor|right; eauto].
Qed.

Lemma runs_expr_unary op e s :
  op = Promql.ADD ∨ op = Promql.SUB → String_ e = Done s → runs_expr e → runs_expr (UnaryExpr op e).
Proof.
  intros Hop He IH u st d R g c K l p Q s' [= <-] Hu Hfits Hend Hd Hat Htok Hf Hbad Hrun.
  rewrite He in Htok. cbn [fmt_s] in Htok. rewrite string_app_assoc in Htok.
  set (sg := op_token op). assert (sg = ADD ∨ sg = SUB) as Hsg by (destruct Hop as [-> | ->]; cbn; auto).
  cbn [fits] in Hfits. apply andb_true_iff in Hfits as [Hfits Hc].
  assert (fits unary_level e c = true ∧ (∀ v, e ≠ NumberLiteral v)) as [Hfe Hnum] by (by destruct e).
  apply (runs_sign u st sg d (s +:+ R) l g p Q Hu Hsg Hat).
  { unfold sg. by destruct Hop as [-> | ->]. }
  intros o l1 p1 Ho Hto Hat1 Htok1.
  eapply (IH o (u :: st) d R g c K l1 p1 Q s He); [|..|exact Hbad|]; try done.
  { rewrite Ho. unfold expr_states. cbn. member. }
  { by rewrite Ho. }
  intros w n t p2 Hw Hn Hreads Hah. rewrite Ho in Hw.
  apply (runs_signed w o u st sg n (reads as_parsed (UnaryExpr op e)) g d R c K t p2 Q); try done.
  intros dd y p3 Hty Hnode. eexists. split.
  - unfold action_unary. rewrite Hnode. transitivity ((e ← lift (as_Expr (Some n));
      mret (with_node (NUnaryExpr (Typ (item (dd 1%Z))) e (Pos (item (dd 1%Z)))) y)) p3).
    + by inversion Hreads; subst.
    + rewrite bind_lift, (reads_as_Expr _ _ _ Hreads). reflexivity.
  - rewrite Hty. clear -Hop Hsg Hreads. unfold sg in *.
    destruct Hop as [-> | ->]; [by apply (ReadsUnary _ ADD)|by apply (ReadsUnary _ SUB)].
Qed.

(** ** Selectors, ranges and subqueries *)
Lemma selector_offset_text name o ms s :
  VectorSelector_String name o ms = Done s →
  ∃ s0, VectorSelector_String name 0 ms = Done s0 ∧ s = s0 +:+ offset_String o.
Proof.
  unfold VectorSelector_String. destruct ms as [|m ms]; [done|]. cbv zeta. destruct (_ <$> _) as [|b bs]; intros [= <-].
  - exists (name +:+ EmptyString). split; [done|]. by rewrite string_app_nil_r.
  - eexists. split; [reflexivity|]. by rewrite !string_app_assoc.
Qed.

(** The selector of a text, without its offset. *)
Lemma runs_plain_selector v st name ms s0 d R g c K l p Q :
  yys v ∈ expr_states → readable name ms → VectorSelector_String name 0 ms = Done s0 → stops name_rune R →
  c ≠ LEFT_PAREN → c ≠ LEFT_BRACE → at_lex l g p → at_token d Outside (s0 +:+ R) l → follows g d R c K →
  (all_plain (in_braces name ms) = false → bad Q) →
  (∀ w t p' r k, yys w = after_expr (yys v) → node_ w = Some (NVectorSelector name 0 (Some <$> k) r) →
     same_matchers name ms k → ahead g d R c K t p' → runs (w :: v :: st) t p' Q) →
  runs (v :: st) None p Q.
Proof.
  intros Hv Hms Hs Hstops Hc1 Hc2 Hat Htok Hf Hbad Hrun.
  destruct (readable_text name ms s0 Hms Hs) as (k & -> & Hname & Hk & Hplain & Hsame).
  assert (yys v ∈ 5%Z :: expr_states) as Hv5 by by right.
  assert (after_selector (yys v) = 44%Z) as H44.
  { unfold after_selector. rewrite bool_decide_eq_false_2; [done|]. intros E. revert Hv. rewrite E.
    by apply (bool_decide_eq_false_1 (5%Z ∈ expr_states)). }
  eapply (runs_selector v st name k d R g c K l p Q Hv5 Hname Hk Hstops Hc1 Hc2 Hat Htok Hf); [by rewrite Hplain|].
  intros w r t p' Hw Hn Hah. eapply (runs_unit w v st); [done|rewrite Hw, H44; unfold unit_rules; cbn; member|].
  by eapply Hrun.
Qed.

(** Every node that stands for a tree has a position. *)
Lemma reads_range V e n : reads V e n → ∃ r, node_range n = Done r.
Proof.
  revert n. induction e as [e IH] using Expr_children_ind. intros n Hn.
  destruct Hn; cbn; eauto;
    repeat match goal with
    | H : reads _ ?e ?n |- context [node_range ?n] =>
        destruct (IH e) with (2 := H) as [? ->]; [cbn; member|]; cbn
    end; eauto.
Qed.

Lemma addOffset_selector name k r o p :
  addOffset (Some (NVectorSelector name 0 k r)) o p =
    Done (Some (NVectorSelector name o k (MkRange (Start r) (lastClosing p))), p).
Proof. reflexivity. Qed.
Lemma addOffset_matrix name k r range e o p :
  addOffset (Some (NMatrixSelector (NVectorSelector name 0 k r) range e)) o p =
    Done (Some (NMatrixSelector (NVectorSelector name o k r) range (lastClosing p)), p).
Proof. reflexivity. Qed.
Lemma addOffset_subquery V e n range step q o p :
  reads V e n → addOffset (Some (NSubqueryExpr n range 0 step q)) o p =
    Done (Some (NSubqueryExpr n range o step (lastClosing p)), p).
Proof.
  intros Hn. destruct (reads_range _ _ _ Hn) as [r Hr]. unfold addOffset. rewrite bind_get. cbv zeta.
  change (node_range (NSubqueryExpr n range 0 step q)) with (r ← node_range n; Done (MkRange (Start r) q)).
  rewrite Hr. reflexivity.
Qed.

Lemma runs_expr_selector name o ms :
  readable name ms → no_duration o = true → runs_expr (VectorSelector name o ms).
Proof.
  intros Hms Ho u st d R g c K l p Q s He Hu _ Hend Hd Hat Htok Hf Hbad Hrun. cbn [String_] in He.
  destruct (selector_offset_text name o ms s He) as (s0 & Hs0 & ->). rewrite string_app_assoc in Htok.
  destruct (offset_end o R c Hend) as [Hstops Hc]. rewrite !not_elem_of_cons in Hc.
  pose proof (ee_stops _ _ Hend) as HR.
  eapply (runs_plain_selector u st name ms s0 d (offset_String o +:+ R) g (offset_token o c) (offset_after g d o R K));
    [done..|by apply after_stops_name|apply Hc|apply Hc|exact Hat|exact Htok|by apply follows_offset|exact Hbad|].
  intros w t p' r k Hw Hn Hsame Hah.
  assert (Forall Labels.wf ms) as Hwf by (destruct Hms as [Hms _]; eapply Forall_impl; [exact Hms|by intros m []]).
  eapply (runs_offset u st w _ o d R g c K t p' Q (reads as_parsed (VectorSelector name o ms)));
    [done|done|exact Hn|done|done|exact Hf| |exact Hah|].
  - case_bool_decide as H0; [subst o; by constructor|]. intros q. eexists. split; [apply addOffset_selector|by constructor].
  - intros w' n t' p2 Hw' Hn' HN Hah'. by eapply Hrun.
Qed.

(** The duration behind a bracket or a colon. *)
Lemma lexes_range_duration d D R l :
  readable_duration D = true → stops isAlphaNumeric R → at_token d Ranging (Duration_String D +:+ R) l →
  lexes l (token_of_text DURATION (Duration_String D) d (Bracketed false) R).
Proof.
  intros HD Hs Htok. destruct (Duration_String_read D HD) as (n & u & HE & Hne & Hn & Hu & _).
  rewrite HE in Htok |- *. apply lexes_range; try done. by rewrite string_app_assoc in Htok.
Qed.

Lemma lexes_step_duration d D R l :
  readable_duration D = true → stops isAlphaNumeric R → at_token d (Bracketed true) (Duration_String D +:+ R) l →
  lexes l (token_of_text DURATION (Duration_String D) d (Bracketed true) R).
Proof.
  intros HD Hs Htok. destruct (Duration_String_read D HD) as (n & u & HE & Hne & Hn & Hu & _).
  rewrite HE in Htok |- *. eapply (lexes_statement d (Bracketed true)); [done|by apply state_duration|].
  by rewrite string_app_assoc in Htok.
Qed.

Lemma duration_space D R : readable_duration D = true → stops isSpace (Duration_String D +:+ R).
Proof.
  intros HD. destruct (Duration_String_read D HD) as (n & u & -> & Hne & Hn & _).
  destruct n as [|a n]; [done|]. apply andb_true_iff in Hn as [[Ha%bool_decide_eq_true Hr%decimal_rune]%andb_true_iff _].
  rewrite string_app_assoc, string_app_cons. split; [done|]. apply bool_decide_eq_false.
  rewrite !elem_of_cons, elem_of_nil. lia.
Qed.

Lemma follows_bracket g d D R :
  readable_duration D = true →
  follows g d ("[" +:+ Duration_String D +:+ R) LEFT_BRACKET
    (behind g LEFT_BRACKET d Ranging (Duration_String D +:+ R)).
Proof.
  intros HD. apply (follows_text g d _ _ "["); [done|]. intros l. apply lexes_outside, state_left_bracket.
  by apply duration_space.
Qed.

(** An expression, the bracket and the duration behind it. *)
Lemma runs_bracket w v st D d R g t p Q :
  yys v ∈ expr_states → yys w = after_expr (yys v) → readable_duration D = true → stops isAlphaNumeric R →
  ahead g d ("[" +:+ Duration_String D +:+ R) LEFT_BRACKET
    (behind g LEFT_BRACKET d Ranging (Duration_String D +:+ R)) t p →
  (∀ wd i l' p', yys wd = 136%Z → duration wd = D → at_lex l' g p' → at_token d (Bracketed false) R l' →
     runs (wd :: leaf 92 i :: w :: v :: st) None p' Q) →
  runs (w :: v :: st) t p Q.
Proof.
  intros Hv Hw HD Hs Hah Hrun. pose proof (expr_states_spec _ Hv) as Hes.
  eapply (runs_behind w _ _ _ _ LEFT_BRACKET _ _ _ 92);
    [rewrite Hw; apply Hes|rewrite Hw; apply Hes|by apply follows_bracket|exact Hah|].
  intros i l1 p1 _ Hat1 Htok1.
  eapply (runs_duration (leaf 92 i)); [cbn; member|exact HD|exact Hat1|by apply lexes_range_duration|].
  intros wd l2 p2 Hwd Hdur Hat2 Htok2. by eapply Hrun.
Qed.
Lemma runs_right_bracket v st b d R l g p s Q :
  bool_decide (entry yyPact (yys v) ≤ yyFlag)%Z = false → shift_of (yys v) (token_of RIGHT_BRACKET) = Some s →
  at_lex l g p → at_token d (Bracketed b) ("]" +:+ R) l →
  (∀ i l' p', at_lex l' g p' → at_token d Outside R l' → runs (leaf s i :: v :: st) None p' Q) →
  runs (v :: st) None p Q.
Proof.
  intros Hq Hs Hat Htok Hrun. eapply (runs_text v st l g p RIGHT_BRACKET "]" d Outside R s); [done..|exact Hat| |].
  - eapply (lexes_statement d (Bracketed b)); [done|apply state_right_bracket|exact Htok].
  - intros i l' p' _ _. by apply Hrun.
Qed.

Lemma runs_expr_matrix name o ms range :
  readable name ms → no_duration o = true → readable_duration range = true →
  runs_expr (MatrixSelector (VectorSelector name o ms) range).
Proof.
  intros Hms Ho Hrange u st d R g c K l p Q s He Hu _ [HR Hc] Hd Hat Htok Hf Hbad Hrun. cbn [String_] in He.
  pose proof (expr_states_spec _ Hu) as Hes.
  destruct (VectorSelector_String name 0 ms) as [s0|] eqn:Hs0; [|done]. cbn in He. injection He as <-.
  rewrite !string_app_assoc in Htok. set (R1 := "]" +:+ offset_String o +:+ R) in *.
  eapply (runs_plain_selector u st name ms s0 d ("[" +:+ Duration_String range +:+ R1) g LEFT_BRACKET _ l p Q);
    [done..|by split|done|done|exact Hat|exact Htok|by apply follows_bracket|exact Hbad|].
  intros w t p1 r k Hw Hn Hsame Hah.
  apply (runs_bracket w u st range d R1 g t p1 Q); [done..|by split|exact Hah|].
  intros wd i l2 p2 Hwd Hdur Hat2 Htok2.
  eapply (runs_right_bracket wd _ false d _ l2 g p2 189); [by rewrite Hwd..|exact Hat2|exact Htok2|].
  intros j l3 p3 Hat3 Htok3.
  eapply (runs_reduce _ [wd; leaf 92 i; w] u st None p3 67 33 37); [reflexivity..|apply Hes|].
  exists (with_node (NMatrixSelector (NVectorSelector name 0 (Some <$> k) r) range (lastClosing p3)) w), p3. split.
  - change (action 67 _ _ p3) with ((
      let errMsg := range_error (node_ w) in
      error_if (bool_decide (errMsg ≠ EmptyString))
        (Done (mergeRanges (Item_range i) (Item_range j))) errMsg;;
      e ← lift (as_Expr (node_ w));
      closing ← get lastClosing;
      mret (with_node (NMatrixSelector e (duration wd) closing) w)) p3).
    rewrite Hn, Hdur. reflexivity.
  - eapply (runs_unit _ u st); [done|unfold unit_rules; cbn; member|].
    assert (Forall Labels.wf ms) as Hwf by (destruct Hms as [Hms _]; eapply Forall_impl; [exact Hms|by intros m []]).
    eapply (runs_offset u st _ _ o d R g c K None p3 Q (reads as_parsed (MatrixSelector (VectorSelector name o ms) range)));
      [done|done|reflexivity|done|done|exact Hf| |right; eauto|].
    + case_bool_decide as H0; [subst o; by apply ReadsMatrix, ReadsSelector|]. intros q. eexists.
      split; [apply addOffset_matrix|by apply ReadsMatrix, ReadsSelector].
    + intros w' n t' p4 Hw' Hn' HN Hah'. by eapply Hrun.
Qed.

(** The step behind the colon, which may be missing. *)
Definition subquery_step (step : Z) : string := if bool_decide (step = 0)%Z then EmptyString else Duration_String step.

Lemma runs_step v st step d R l g p Q :
  yys v = 190%Z → no_duration step = true → at_lex l g p → at_token d (Bracketed true) (subquery_step step +:+ "]" +:+ R) l →
  (∀ w i l' p', duration w = step → at_lex l' g p' → at_token d Outside R l' →
     runs (leaf 247 i :: w :: v :: st) None p' Q) →
  runs (v :: st) None p Q.
Proof.
  intros Hv Hstep Hat Htok Hrun. unfold subquery_step, no_duration in *.
  assert (∀ l p, at_lex l g p → at_token d (Bracketed true) ("]" +:+ R) l →
    ∃ i p' l', parser_Lex p = Done (RIGHT_BRACKET, p') ∧ itemp (lex p') = i ∧ at_lex l' g p' ∧ at_token d Outside R l')
    as Hclose.
  { intros l1 p1 Hat1 Htok1.
    destruct (lexes_statement d (Bracketed true) _ l1 _ I (state_right_bracket d true R) Htok1) as (l' & Hn & Ht & _ & Htok').
    destruct (parser_Lex_token l1 l' g p1 Hat1 Hn) as (p' & Hlex & Hat').
    { rewrite Ht. by apply (bool_decide_eq_false_1 (RIGHT_BRACKET ∈ _)). }
    rewrite Ht in Hlex. by exists (itemp (lex p')), p', l'. }
  case_bool_decide as H0.
  - rewrite string_app_nil_l in Htok. destruct (Hclose l p Hat Htok) as (i & p' & l' & Hlex & Hi & Hat' & Htok').
    eapply runs_read; [by rewrite Hv|exact Hlex|].
    eapply (runs_reduce_empty v st _ p' 178 43 236); [by rewrite Hv|reflexivity|reflexivity|by rewrite Hv|].
    intros y. eexists _, p'. split; [reflexivity|].
    apply (runs_shift _ _ _ p' 247); [reflexivity|]. by apply (Hrun _ _ l').
  - cbn [orb] in Hstep. eapply (runs_duration v); [rewrite Hv; cbn; member|exact Hstep|exact Hat| |].
    { apply lexes_step_duration; [done| |exact Htok]. by split. }
    intros wd l1 p1 Hwd Hdur Hat1 Htok1. rewrite Hv in Hwd. change (yys wd = 237%Z) in Hwd.
    destruct (Hclose l1 p1 Hat1 Htok1) as (i & p' & l' & Hlex & Hi & Hat' & Htok').
    eapply runs_read; [by rewrite Hwd|exact Hlex|].
    eapply (runs_reduce wd [] v st _ p' 179 43 236); [by rewrite Hwd|reflexivity|reflexivity|by rewrite Hv|].
    eexists _, p'. split; [reflexivity|].
    apply (runs_shift _ _ _ p' 247); [reflexivity|]. by apply (Hrun _ _ l').
Qed.

Lemma runs_expr_subquery e range o step s0 :
  String_ e = Done s0 → runs_expr e → readable_duration range = true → no_duration o = true →
  no_duration step = true → runs_expr (SubqueryExpr e range o step).
Proof.
  intros He0 IH Hrange Ho Hstep u st d R g c K l p Q s He Hu Hfits [HR Hc] Hd Hat Htok Hf Hbad Hrun.
  cbn [String_] in He. rewrite He0 in He. cbn in He. injection He as <-.
  pose proof (expr_states_spec _ Hu) as Hes. fold (subquery_step step) in Htok.
  rewrite !string_app_assoc in Htok. set (R1 := ":" +:+ subquery_step step +:+ "]" +:+ offset_String o +:+ R) in *.
  eapply (IH u st d ("[" +:+ Duration_String range +:+ R1) g LEFT_BRACKET _ l p Q s0 He0);
    [done|exact Hfits| |done|exact Hat|exact Htok|by apply follows_bracket|exact Hbad|].
  { split; [by split|]. by apply (bool_decide_eq_false_1 (LEFT_BRACKET ∈ _)). }
  intros w n t p1 Hw Hn Hreads Hah.
  apply (runs_bracket w u st range d R1 g t p1 Q); [done..|by split|exact Hah|].
  intros wd i l2 p2 Hwd Hdur Hat2 Htok2.
  eapply (runs_text wd _ l2 g p2 COLON ":" d (Bracketed true) _ 190); [by rewrite Hwd|by rewrite Hwd|done|exact Hat2| |].
  { eapply (lexes_statement d (Bracketed false)); [done|apply state_colon|exact Htok2]. }
  intros j l3 p3 _ _ Hat3 Htok3.
  eapply (runs_step (leaf 190 j)); [done|exact Hstep|exact Hat3|exact Htok3|].
  intros ws k l4 p4 Hws Hat4 Htok4.
  eapply (runs_reduce _ [ws; leaf 190 j; wd; leaf 92 i; w] u st None p4 68 39 42); [reflexivity..|apply Hes|].
  eexists _, p4. split.
  - change (action 68 _ _ p4) with ((e ← lift (as_Expr (node_ w));
      mret (with_node (NSubqueryExpr e (duration wd) 0 (duration ws) (Pos k + 1)) w)) p4).
    rewrite Hn, Hdur, Hws, bind_lift, (reads_as_Expr _ _ _ Hreads). reflexivity.
  - eapply (runs_unit _ u st); [done|unfold unit_rules; cbn; member|].
    eapply (runs_offset u st _ _ o d R g c K None p4 Q (reads as_parsed (SubqueryExpr e range o step)));
      [done|done|reflexivity|done|done|exact Hf| |right; eauto|].
    + case_bool_decide as H0; [subst o; by constructor|]. intros q. eexists.
      split; [by eapply addOffset_subquery|by constructor].
    + intros w' n' t' p5 Hw' Hn' HN Hah'. by eapply Hrun.
Qed.
End ExprNodes.
