(* ===== verification/ExprOperand.v ===== *)
(** * Operands behind a space

    The token that starts the text of an expression ([first_token]), and
    [operand]: the driver before a space and an expression, of which it may
    have read the first token to decide on a reduction. *)
From S2P Require Import Prelude GoStrings GoFloat Regexp Matchers Promql Rewriting Errors.
From S2P Require Import GoTime Strutil Lexer LexerSpec ParserTables Parser ParserDriver.
From S2P Require Import Quoting SelectorLex SelectorParse Rereading ExprLex PrintedText ExprParse ExprShape.
From S2P Require Import ExprRuns ExprNodes.
From Stdlib Require Import Ascii.
From stdpp Require Import options.

(** ** Texts *)
Section Texts.
Context `{RE : RegexpEngine, !UnicodeTable}.

Lemma String_call f args :
  String_ (Call f args) =
    Done (Func_Name f +:+ "(" +:+ fmt_s (ss ← go_map String_ args; Done (Join ss ", ")) +:+ ")").
Proof. reflexivity. Qed.

Lemma readable_children e : readable_expr e → is_selector e = false → Forall readable_expr (Children e).
Proof.
  destruct e as [op [e|] [p|] g w|op l r vm b|f args|e r|e r o s|v|e|s|op e|n o ms]; cbn;
    rewrite ?(foldr_and readable_expr); intros; destruct_and?; repeat constructor; try done.
  by destruct e.
Qed.

Lemma selector_prints name o ms : readable name ms → ∃ s, VectorSelector_String name o ms = Done s.
Proof.
  intros [_ Hms]. unfold VectorSelector_String. destruct ms as [|m ms].
  - destruct Hms as [[_ Hm]|(_ & _ & Hm)]; [inversion Hm|done].
  - cbv zeta. destruct (_ <$> _); eauto.
Qed.

Lemma go_map_prints args : Forall (λ a, ∃ s, String_ a = Done s) args → ∃ ss, go_map String_ args = Done ss.
Proof.
  induction 1 as [|a args [s Hs] _ [ss Hss]]; [by exists []|]. exists (s :: ss). cbn. rewrite Hs. cbn. by rewrite Hss.
Qed.

Lemma readable_prints e : readable_expr e → ∃ s, String_ e = Done s.
Proof.
  induction e as [e IH] using Expr_children_ind. intros He.
  destruct e as [op e p g w|op l r vm b|f args|e r|e r o s|v|e|s|op e|n o ms]; try (by eexists).
  - destruct e as [| | | | | | | | |n o ms]; try by destruct He. destruct He as [[Hms _] _].
    destruct (selector_prints n 0 ms Hms) as [s0 Hs0]. cbn. rewrite Hs0. by eexists.
  - destruct He as [He _]. destruct (IH e) as [s0 Hs]; [cbn; member|done|]. cbn. rewrite Hs. by eexists.
  - destruct He as [Hms _]. by apply selector_prints.
Qed.

(** ** The first token *)
Definition first_tokens : list Z :=
  [STRING; NUMBER; LEFT_PAREN; LEFT_BRACE; IDENTIFIER; METRIC_IDENTIFIER; ADD; SUB;
   AVG; BOTTOMK; COUNT; COUNT_VALUES; MAX; MIN; QUANTILE; STDDEV; STDVAR; SUM; TOPK].
Definition first_of (ok : bool) (l : Lexer) : Prop :=
  Typ (itemp l) ∈ first_tokens ∨ ok = false ∧ Typ (itemp l) = ERROR.
Definition first (d : Z) (T : string) (ok : bool) : Prop :=
  statement d Outside T (first_of ok) ∧ stops isSpace T.

Lemma statement_weaken d m R (J J' : Lexer → Prop) :
  (∀ l, J l → J' l) → statement d m R J → statement d m R J'.
Proof. intros HJ Hst l Hat Hsc. destruct (Hst l Hat Hsc) as (l' & Hl & Hj). exists l'. auto. Qed.

Lemma first_weaken d T ok ok' : (ok = false → ok' = false) → first d T ok → first d T ok'.
Proof.
  intros Hok [Hst Hs]. split; [|done]. eapply statement_weaken; [|exact Hst].
  intros l [Hl|[Hf Hl]]; [by left|right; auto].
Qed.

Lemma first_text d T ok t w d' m R :
  t ∈ first_tokens → statement d Outside T (token_of_text t w d' m R) → stops isSpace T → first d T ok.
Proof.
  intros Ht Hst Hs. split; [|done]. eapply statement_weaken; [|exact Hst]. intros l [Hl _]. left. by rewrite Hl.
Qed.

Lemma first_word d w R ok :
  is_word w = true → word_type w ∈ first_tokens → stops name_rune R → first d (w +:+ R) ok.
Proof.
  intros Hw Ht Hs. eapply first_text; [exact Ht|by apply state_word|by apply word_space].
Qed.

Lemma first_name d name R ok : is_name name = true → stops name_rune R → first d (name +:+ R) ok.
Proof.
  intros [Hw Hk%bool_decide_eq_true]%andb_true_iff Hs. apply first_word; [done| |done].
  unfold word_type. rewrite Hk. destruct (negb _); unfold first_tokens; member.
Qed.

Lemma first_selector d name k R ok :
  is_name name = true ∨ name = EmptyString ∧ k ≠ [] → stops name_rune R → first d (selector_body name k +:+ R) ok.
Proof.
  intros Hname Hs. unfold selector_body. rewrite string_app_assoc. destruct Hname as [Hname|[-> Hk]].
  - apply first_name; [done|]. destruct k; [done|by split].
  - destruct k as [|m k]; [done|]. rewrite string_app_nil_l. unfold braces_text. rewrite !string_app_assoc.
    eapply (first_text d _ ok LEFT_BRACE); [unfold first_tokens; member|apply state_open|by split].
Qed.

Lemma first_magnitude d v R ok : stops after_rune R → first d (number_magnitude v +:+ R) ok.
Proof.
  intros Hs. destruct (number_word v) as [w|] eqn:Hw.
  - destruct (word_type_number v w Hw) as (Hword & Ht & ->).
    apply first_word; [done|rewrite Ht; unfold first_tokens; member|by apply after_stops_name].
  - pose proof (magnitude_form v Hw) as Hform. destruct (number_form_digit _ Hform) as (c & t & E & Hc & Hr).
    eapply (first_text d _ ok NUMBER); [unfold first_tokens; member|apply state_number; [done| |]|].
    + by apply after_stops_number.
    + by apply stops_head, after_stops_word.
    + rewrite E, string_app_cons. split; [done|]. apply bool_decide_eq_false. rewrite !elem_of_cons, elem_of_nil. lia.
Qed.

Lemma first_sign d op t R ok :
  (op, t) = ("+", ADD) ∨ (op, t) = ("-", SUB) → first d (op +:+ R) ok.
Proof.
  intros Hop. eapply (first_text d _ ok t); [|apply state_symbol|].
  - destruct Hop as [[= -> ->]|[= -> ->]]; unfold first_tokens; member.
  - destruct Hop as [-> | ->]; cbn; member.
  - destruct Hop as [[= -> ->]|[= -> ->]]; by split.
Qed.

(** The words of operators and aggregators. *)
Lemma aggregator_word op :
  is_aggregator op = true → is_word (ItemType_String op) = true ∧ word_type (ItemType_String op) = op_token op ∧
    op_token op ∈ first_tokens.
Proof. destruct op; try done; intros _; (split_and!; [reflexivity|reflexivity|unfold first_tokens; member]). Qed.

Lemma function_word name f :
  getFunction name = Some f → is_name name = true ∧ word_type name = IDENTIFIER.
Proof.
  intros [Hin Heq%String.eqb_eq]%List.find_some. subst name.
  assert (List.forallb (λ f, is_name (Func_Name f) && bool_decide (word_type (Func_Name f) = IDENTIFIER)) Functions = true)
    as Hall by reflexivity.
  rewrite forallb_forall in Hall. by apply Hall in Hin as [? ?%bool_decide_eq_true]%andb_true_iff.
Qed.

(** The text of a readable tree starts with one of [first_tokens]. *)
Lemma first_token e s R d :
  readable_expr e → String_ e = Done s → stops after_rune R → first d (s +:+ R) (clean e).
Proof.
  revert s R. induction e as [e IH] using Expr_children_ind. intros s R He Hs HR.
  destruct e as [op e p g w|op l r vm b|f args|e r|e r o step|v|e|v|op e|n o ms].
  - destruct He as (Hop & _). destruct (aggregator_word op Hop) as (Hw & Ht & Hf).
    cbn [String_] in Hs. injection Hs as <-. rewrite string_app_assoc. apply first_word; [done|by rewrite Ht|].
    destruct w; [by split|]. case_bool_decide; by split.
  - destruct He as (_ & _ & Hl & _). destruct (readable_prints l Hl) as [sl Hsl].
    cbn [String_] in Hs. rewrite Hsl in Hs. injection Hs as <-. cbn [fmt_s]. rewrite string_app_assoc.
    eapply first_weaken; [|apply (IH l); [cbn; member|done|done|by split]]. cbn. by intros ->.
  - destruct He as (Hf & _). destruct (function_word _ _ Hf) as [Hn _]. rewrite String_call in Hs.
    injection Hs as <-. rewrite string_app_assoc. apply first_name; [done|by split].
  - destruct e as [| | | | | | | | |n o ms]; try by destruct He. destruct He as [[Hms Ho] _]. cbn [String_] in Hs.
    destruct (VectorSelector_String n 0 ms) as [s0|] eqn:Hs0; [|done]. injection Hs as <-.
    destruct (readable_text n ms s0 Hms Hs0) as (k & -> & Hn & _). rewrite string_app_assoc.
    apply first_selector; [done|by split].
  - destruct He as (He & _). destruct (readable_prints e He) as [se Hse]. cbn [String_] in Hs.
    rewrite Hse in Hs. injection Hs as <-. rewrite string_app_assoc. apply (IH e); [cbn; member|done|done|by split].
  - injection Hs as <-. rewrite FormatFloat_text. destruct (number_sign v) as [sg|] eqn:Hsg.
    + assert (sg = ADD ∨ sg = SUB) as Hs by (destruct v as [[]|[]| |[]]; try done; injection Hsg as <-; auto).
      rewrite string_app_assoc.
      destruct Hs as [-> | ->]; [apply (first_sign d "+" ADD); by left|apply (first_sign d "-" SUB); by right].
    + rewrite string_app_nil_l. by apply first_magnitude.
  - injection Hs as <-. rewrite string_app_assoc.
    eapply (first_text _ _ _ LEFT_PAREN); [unfold first_tokens; member|apply state_left_paren|by split].
  - injection Hs as <-. split; [|rewrite quote_text; by split].
    eapply statement_weaken; [|apply state_value]. intros l [(Ht & _)|[Hp [Ht|[Ht _]]]].
    + left. rewrite Ht. unfold first_tokens. member.
    + right. by split.
    + left. rewrite Ht. unfold first_tokens. member.
  - destruct He as [Hop _]. cbn [String_] in Hs. injection Hs as <-. rewrite string_app_assoc.
    destruct Hop as [-> | ->]; [apply (first_sign d "+" ADD); by left|apply (first_sign d "-" SUB); by right].
  - destruct He as [Hms _]. destruct (selector_offset_text n o ms s Hs) as (s0 & Hs0 & ->).
    destruct (readable_text n ms s0 Hms Hs0) as (k & -> & Hn & _). rewrite string_app_assoc.
    apply first_selector; [done|]. apply after_stops_name. unfold offset_String. case_bool_decide; [done|by split].
Qed.
End Texts.

(** ** Operands *)
Section Operands.
Context `{RE : RegexpEngine, !UnicodeTable}.
Implicit Types Q : outcome → Prop.

(** Before a space and the text [T], whose first token is [c]: the token
    has been read, or comes next.  The parser [p0] is behind the space. *)
Definition operand (g : option node) (d : Z) (T : string) (c : Z) (t : option Z) (p : parser) : Prop :=
  ∃ p0 l0 p', at_lex l0 g p0 ∧ at_token d Outside T l0 ∧ parser_Lex p0 = Done (c, p') ∧
    (t = None ∧ parser_Lex p = Done (c, p') ∨ t = Some (token_of c) ∧ p = p').

Lemma runs_operand_read v st g d T c t p Q :
  bool_decide (entry yyPact (yys v) ≤ yyFlag)%Z = false → operand g d T c t p →
  (∀ p', operand g d T c (Some (token_of c)) p' → runs (v :: st) (Some (token_of c)) p' Q) →
  runs (v :: st) t p Q.
Proof.
  intros Hq (p0 & l0 & p' & Hat & Htok & Hlex & Hcase) Hrun.
  assert (operand g d T c (Some (token_of c)) p') as Hop by (exists p0, l0, p'; split_and!; auto).
  destruct Hcase as [[-> Hl]|[-> ->]]; [|by apply Hrun]. eapply runs_read; [exact Hq|exact Hl|by apply Hrun].
Qed.

Lemma runs_operand v st g d T c t p Q :
  bool_decide (entry yyPact (yys v) ≤ yyFlag)%Z = false → operand g d T c t p →
  (∀ l0 p0, at_lex l0 g p0 → at_token d Outside T l0 → runs (v :: st) None p0 Q) → runs (v :: st) t p Q.
Proof.
  intros Hq (p0 & l0 & p' & Hat & Htok & Hlex & Hcase) Hrun.
  assert (runs (v :: st) (Some (token_of c)) p' Q) as Hr.
  { eapply runs_unread; [done| |exact Hlex|by eapply Hrun]. rewrite (al_lex _ _ _ Hat). by eapply at_token_ready. }
  destruct Hcase as [[-> Hl]|[-> ->]]; [by eapply runs_read|done].
Qed.

Lemma operand_start l g p d T ok :
  at_lex l g p → at_token d Outside (" " +:+ T) l → first d T ok →
  (∃ c, c ∈ first_tokens ∧ operand g d T c None p) ∨
  ok = false ∧ ∃ c p', parser_Lex p = Done (c, p') ∧ parseErrors p' ≠ [].
Proof.
  intros Hat Htok [Hst Hs]. destruct (lexes_space d T l Hs Htok) as (l0 & Htok0 & Hsame).
  destruct (lexes_outside d T l0 _ Hst Htok0) as (l' & Hn0 & Hfirst).
  assert (NextItem l = Some l') as Hn.
  { destruct (Hsame (λ l1, l1 = l')) as (l1 & Hl1 & ->); [by exists l'|done]. }
  destruct Hfirst as [Hfirst|[Hok Herr]]; [left|right].
  - assert (Typ (itemp l') ∉ [COMMENT; ERROR; EOF]) as Hty.
    { assert (List.forallb (λ c, bool_decide (c ∉ [COMMENT; ERROR; EOF])) first_tokens = true) as Hall by reflexivity.
      rewrite forallb_forall in Hall. apply (bool_decide_eq_true_1 (_ ∉ _)), Hall, list_elem_of_In, Hfirst. }
    exists (Typ (itemp l')). split; [done|]. destruct Hat as [Hl Hi He Hg].
    assert (at_lex l0 g (with_lex l0 p)) as Hat0 by by constructor.
    pose proof (next_item_at l0 l' g _ (S (remaining l0)) Hat0 Hn0 ltac:(set_solver)) as Hi0.
    pose proof (next_item_at l l' g p (S (remaining l)) ltac:(by constructor) Hn ltac:(set_solver)) as Hi1.
    destruct (parser_Lex_token l0 l' g _ Hat0 Hn0 Hty) as (p' & Hlex & _).
    exists (with_lex l0 p), l0, p'. split_and!; [done|done|done|left]. split; [done|]. rewrite <- Hlex.
    unfold parser_Lex. rewrite !bind_get. cbn [injecting with_lex lex]. rewrite Hi.
    rewrite !bind_get. cbn [lex with_lex]. rewrite Hl, (bind_Done _ _ _ _ _ Hi1), (bind_Done _ _ _ _ _ Hi0). reflexivity.
  - split; [done|]. by eapply parser_Lex_error.
Qed.
End Operands.
