(* ===== verification/RestrictedText.v ===== *)
(** * The matchers a restriction writes

    What [FilterMatchers] puts into a selector is a matcher on [namespace]
    whose value is plain text and is never the empty string; so a tree that
    passes the checks of the parser, and has plain values only, still does
    when it is restricted. *)
From S2P Require Import Prelude GoStrings GoFloat Regexp DataSet Matchers Prom Restriction Promql Rewriting Errors.
From S2P Require Import GoTime Strutil Lexer LexerSpec ParserTables Parser ParserDriver ParserSpec.
From S2P Require Import Quoting SelectorLex SelectorParse Rereading ExprLex PrintedText ExprParse ExprShape.
From S2P Require Import ExprRuns Typing ExprOperand.
From Stdlib Require Import Ascii.
From stdpp Require Import options.

Section RestrictedText.
Context `{RE : RegexpEngine, !UnicodeTable}.

(** ** Plain values *)
Definition printed_char (c : ascii) : bool := bool_decide (32 ≤ byte_val c < 127)%N.

Lemma plain_printed v : string_forall printed_char v = true → plain v = true.
Proof.
  induction v as [|c v IH]; [done|]. cbn [string_forall]. intros [Hc Hv]%andb_true_iff.
  apply bool_decide_eq_true in Hc. rewrite plain_step. unfold DecodeRuneInString.
  rewrite bool_decide_eq_true_2 by lia. cbn [fst snd drop_string]. rewrite IH, andb_true_r by done.
  unfold plain_rune, IsPrint. rewrite (bool_decide_eq_false_2 (_ = RuneError)) by (unfold RuneError; lia).
  by rewrite !bool_decide_eq_true_2 by lia.
Qed.

Lemma namespace_printed c : namespace_char c = true → printed_char c = true.
Proof. destruct c as [[] [] [] [] [] [] [] []]; by vm_compute. Qed.

(** ** The new matcher *)
Definition written (m : Labels.Matcher) : Prop :=
  Labels.Name m = namespaceMatchName ∧ Labels.accepts m EmptyString = false ∧
  string_forall printed_char (Labels.Value m) = true.

Lemma modifyMatcher_printed m nss m' :
  Forall namespace_name nss → modifyMatcher m nss = Done m' → string_forall printed_char (Labels.Value m') = true.
Proof.
  intros Hn Hm.
  assert (Forall (λ n, string_forall printed_char n = true) nss) as Hp.
  { eapply Forall_impl; [exact Hn|]. intros n [_ Hc]. revert Hc. apply string_forall_impl, namespace_printed. }
  assert (∀ t n v r, Labels.NewMatcher t n v = Ok r → Labels.Value r = v) as Hv.
  { intros t n v r. unfold Labels.NewMatcher. repeat case_match; by try intros [= <-]. }
  assert (∀ t n v, Labels.MustNewMatcher t n v = Done m' → Labels.Value m' = v) as Hv'.
  { intros t n v. unfold Labels.MustNewMatcher. destruct (Labels.NewMatcher t n v) eqn:E; intros [= <-]. by eapply Hv. }
  unfold modifyMatcher in Hm. destruct nss as [|n1 [|n2 nss]]; apply Hv' in Hm as ->; [done|by apply Forall_inv in Hp|].
  by apply string_forall_Join.
Qed.

Lemma modifyMatcher_written `{!RegexpLiterals} S m nss :
  namespace_set S → (∀ n, n ∈ nss → n ∈ DataSet.keys S) → Labels.Name m = namespaceMatchName →
  ∃ m', modifyMatcher m nss = Done m' ∧ written m'.
Proof.
  intros [_ HS] Hin Hname.
  assert (Forall namespace_name nss) as Hn by (apply Forall_forall; intros n Hn; by apply HS, Hin).
  destruct (modifyMatcher_spec m nss) as (m' & Hm & Hname' & _ & Hacc).
  { eapply Forall_impl; [exact Hn|]. intros n Hlit. by apply namespace_name_literal. }
  exists m'. split; [done|]. split; [congruence|]. split; [|by eapply modifyMatcher_printed].
  rewrite Hacc by done. apply bool_decide_eq_false_2. intros He. rewrite Forall_forall in Hn. by destruct (Hn _ He).
Qed.

(** ** The selector *)
Lemma filtered_written `{!RegexpLiterals} S ms ms' :
  namespace_set S → Forall Labels.wf ms → filtered S ms ms' →
  (∃ m, m ∈ ms' ∧ written m) ∧ ∀ m, m ∈ ms' → m ∈ ms ∨ written m.
Proof.
  intros HS Hwf Hf. unfold filtered in Hf.
  destruct (FilterMatchers_view S ms HS Hwf) as [(l & m & k & -> & _ & Hm & He)|[_ He]]; rewrite He in Hf.
  - destruct (modifyMatcher_written S m (kept S m) HS) as (m' & Hm' & Hw); [|done|].
    { intros n [_ Hn]%elem_of_kept; done. }
    unfold pin in Hf. rewrite Hm' in Hf. injection Hf as <-. split.
    + exists m'. split; [apply elem_of_app; right; by left|done].
    + intros x. rewrite !elem_of_app, !elem_of_cons. naive_solver.
  - destruct (modifyMatcher_written S (Labels.MkMatcher Labels.MatchEqual namespaceMatchName EmptyString None)
      (DataSet.Values S) HS) as (m' & Hm' & Hw); [|done|].
    { intros n. by apply elem_of_Values_set. }
    unfold createMatcher in Hf. rewrite Hm' in Hf. injection Hf as <-. split.
    + exists m'. split; [apply elem_of_app; right; by left|done].
    + intros x. rewrite elem_of_app, list_elem_of_singleton. naive_solver.
Qed.

Lemma filtered_passes `{!RegexpLiterals} S name ms ms' :
  namespace_set S → Forall Labels.wf ms → filtered S ms ms' → passes_checks name ms → passes_checks name ms'.
Proof.
  intros HS Hwf Hf [_ Hname]. destruct (filtered_written S ms ms' HS Hwf Hf) as [(m & Hm & _ & Hacc & _) Hall].
  split; [by exists m|]. intros Hne x Hx Hxn. destruct (Hall x Hx) as [Hx'|[Hw _]]; [by apply Hname|].
  rewrite Hw in Hxn. discriminate Hxn.
Qed.

Lemma filtered_plain `{!RegexpLiterals} S name ms ms' :
  namespace_set S → Forall Labels.wf ms → filtered S ms ms' →
  all_plain (in_braces name ms) = true → all_plain (in_braces name ms') = true.
Proof.
  intros HS Hwf Hf Hp. apply forallb_forall. intros m Hm%list_elem_of_In.
  apply list_elem_of_filter in Hm as [Hnot Hm].
  destruct (filtered_written S ms ms' HS Hwf Hf) as [_ Hall]. destruct (Hall m Hm) as [Hm'|(_ & _ & Hv)]; [|by apply plain_printed].
  unfold all_plain in Hp. rewrite forallb_forall in Hp. apply Hp, list_elem_of_In. by apply list_elem_of_filter.
Qed.
(** ** The restricted tree *)
Lemma fits_erase p e c : fits p (erase e) c = fits p e c.
Proof.
  revert p c. induction e as [e IH] using Expr_children_ind. intros p c.
  destruct e as [op [e|] [q|] g w|op l r vm b|f args|e r|e r o s|v|e|s|op e|n o ms]; cbn [erase fits fmap option_fmap option_map];
    try done; try (by rewrite ?IH by (cbn; member)).
  - cbn [Children] in IH. induction args as [|a args IHa]; [done|]. cbn. rewrite IH by by left.
    f_equal. apply IHa. intros b Hb. apply IH. by right.
  - rewrite IH by (cbn; member). by destruct e.
Qed.

Lemma readable_matchers n ms : readable n ms → Forall Labels.wf ms.
Proof. intros [Hms _]. eapply Forall_impl; [exact Hms|by intros m []]. Qed.

Lemma readable_wf e : readable_expr e → wf_expr e.
Proof.
  induction e as [e IH] using Expr_children_ind. intros He. destruct (is_selector e) eqn:Hsel.
  { destruct e; try done. destruct He as [Hms _]. by eapply readable_matchers. }
  pose proof (readable_children e He Hsel) as Hc. rewrite Forall_forall in Hc.
  assert (∀ c, c ∈ Children e → wf_expr c) as Hwf by (intros c Hin; by apply IH, Hc). clear IH Hc.
  destruct e as [op [e|] [q|] g w|op l r vm b|f args|e r|e r o s|v|e|s|op e|n o ms]; cbn in *; try done;
    try (split_and?; first [done|apply Hwf; member]).
  - by rewrite (foldr_and wf_expr), Forall_forall.
  - destruct e as [| | | | | | | | |n o ms]; try by destruct He. destruct He as [[Hms _] _].
    by eapply readable_matchers.
Qed.

Lemma readable_with_children e cs :
  is_selector e = false → readable_expr e → length cs = length (Children e) → Forall readable_expr cs →
  erase <$> cs = erase <$> Children e → readable_expr (with_children e cs).
Proof.
  destruct e as [op [e|] [q|] g w|op l r vm b|f args|e r|e r o s|v|e|s|op e|n o ms]; try done;
    cbn; intros _ He Hlen Hcs Hsel; try done;
    try (destruct cs as [|c1 [|c2 [|c3 cs]]]; try done;
         rewrite ?Forall_cons in Hcs; destruct_and!; by split_and?).
  - destruct He as [Hf _]. split; [done|]. by apply (foldr_and readable_expr).
  - destruct cs as [|c1 [|c2 cs]]; try done. apply Forall_cons in Hcs as [Hc1 _].
    destruct e as [| | | | | | | | |n o ms]; try by destruct He. injection Hsel as Hsel. by destruct c1, He.
Qed.

Lemma restrict_readable `{!RegexpLiterals} S e e' :
  namespace_set S → readable_expr e → restrict S e = Done e' → readable_expr e'.
Proof.
  intros HS. apply restrict_keeps; [|by apply readable_children|apply readable_with_children].
  intros n o ms ms' [Hms Ho] Hf. split; [|done]. by eapply filtered_readable.
Qed.


(** ** Readable, typed and clean trees stay so *)
Lemma clean_Children e :
  is_selector e = false →
  clean e = match e with StringLiteral s => plain s | _ => forallb clean (Children e) end.
Proof.
  destruct e as [op [e|] [q|] g w|op l r vm b|f args|e r|e r o s|v|e|s|op e|n o ms]; try done; intros _; cbn;
    by rewrite ?andb_true_r.
Qed.

Lemma restrict_clean `{!RegexpLiterals} S e e' :
  namespace_set S → readable_expr e → clean e = true → restrict S e = Done e' → clean e' = true.
Proof.
  intros HS He Hc Hr. cut (wf_expr e' ∧ clean e' = true); [by intros []|].
  apply readable_wf in He. revert Hr. apply (restrict_keeps (λ e, wf_expr e ∧ clean e = true)); [| | |done].
  - intros n o ms ms' [Hwf Hp] Hf. split; [by eapply filtered_wf|by eapply filtered_plain].
  - intros c [Hwf Hp] Hsel. rewrite clean_Children in Hp by done. rewrite Forall_and. split; [by apply wf_Children|].
    apply Forall_forall. intros a Ha. destruct c; try (by inversion Ha);
      rewrite forallb_forall in Hp; by apply Hp, list_elem_of_In.
  - intros c cs Hsel [Hwf Hp] Hlen Hcs Her. rewrite Forall_and in Hcs. destruct Hcs as [Hcs Hps].
    split; [by apply wf_with_children|]. rewrite clean_Children by by apply is_selector_with_children.
    rewrite clean_Children in Hp by done. rewrite Children_with_children by done.
    assert (forallb clean cs = true) as Hall.
    { apply forallb_forall. intros a Ha. rewrite Forall_forall in Hps. by apply Hps, list_elem_of_In. }
    destruct c as [op [c|] [q|] g w|op l r vm b|f args|c r|c r o s|v|c|s|op c|n o ms]; try done;
      by destruct cs as [|c1 [|c2 [|c3 cs]]].
Qed.

Lemma typed_children e : readable_expr e → typed e → is_selector e = false → Forall typed (Children e).
Proof.
  intros He Ht Hsel. destruct e as [op [e|] [q|] g w|op l r vm b|f args|e r|e r o s|v|e|s|op e|n o ms]; cbn in Ht |- *;
    try done; try (destruct_and?; by repeat constructor).
  - destruct He as (_ & _ & _ & Hop & _). destruct Ht as ([Ht _] & Hq).
    repeat constructor; [done|]. by destruct op; try discriminate Hop; destruct Hq.
  - destruct Ht as [_ Hargs]. revert Hargs. generalize 0. clear. induction args as [|a args IH]; intros i; [by constructor|].
    intros (Ha & _ & Hargs). constructor; [done|]. by eapply IH.
Qed.

Lemma typed_with_children e cs :
  is_selector e = false → typed e → length cs = length (Children e) → Forall typed cs →
  erase <$> cs = erase <$> Children e → typed (with_children e cs).
Proof.
  intros Hsel Ht Hlen Hcs Her.
  assert (Type_ <$> cs = Type_ <$> Children e) as Hty.
  { apply (f_equal (fmap Type_)) in Her. rewrite <- !list_fmap_compose in Her.
    rewrite !(list_fmap_ext (Type_ ∘ erase) Type_) in Her by (intros; apply Type_erase). done. }
  clear Her. destruct e as [op [e|] [q|] g w|op l r vm b|f args|e r|e r o s|v|e|s|op e|n o ms]; try done;
    cbn in Ht, Hty, Hlen |- *;
    try (destruct cs as [|c1 [|c2 [|c3 cs]]]; try discriminate Hlen; cbn in Hty |- *;
         rewrite ?Forall_cons in Hcs; injection Hty as ?; destruct_and!; repeat (case_match; [|done]); cbn;
         by repeat match goal with H : Type_ _ = Type_ _ |- _ => rewrite H; clear H end).
  - destruct cs as [|c1 [|c2 [|c3 cs]]]; try discriminate Hlen. injection Hty as H1 H2. cbn. rewrite !Forall_cons in Hcs. rewrite H1, H2. destruct_and!. split_and!; try done.
    by repeat case_match; destruct_and?.
  - destruct Ht as [Har Hargs]. rewrite Hlen. split; [done|]. clear Har Hlen Hsel. revert cs Hcs Hty Hargs. generalize 0.
    induction args as [|a args IH]; intros i [|c cs] Hcs Hty; try discriminate Hty; [done|].
    apply Forall_cons in Hcs as [Hc Hcs]. injection Hty as Hca Hty. intros (_ & Ht & Hargs). rewrite Hca. split_and!; [done..|].
    by apply IH.
Qed.

Lemma restrict_typed `{!RegexpLiterals} S e e' :
  namespace_set S → readable_expr e → typed e → restrict S e = Done e' → typed e'.
Proof.
  intros HS He Ht Hr. cut (readable_expr e' ∧ typed e'); [by intros []|].
  revert Hr. apply (restrict_keeps (λ e, readable_expr e ∧ typed e)); [| | |done].
  - intros n o ms ms' [[Hms Ho] Hp] Hf. split; [split; [by eapply filtered_readable|done]|].
    eapply filtered_passes; [done|by eapply readable_matchers|done..].
  - intros c [Hc Hct] Hsel. rewrite Forall_and. split; [by apply readable_children|by apply typed_children].
  - intros c cs Hsel [Hc Hct] Hlen Hcs Her. rewrite Forall_and in Hcs. destruct Hcs as [Hcs Hts].
    split; [by apply readable_with_children|by apply typed_with_children].
Qed.
End RestrictedText.
