(* ===== verification/ExprLists.v ===== *)
(** * The driver on lists

    The labels in parentheses of a grouping ([runs_grouping]), and the
    arguments of a call or an aggregation ([runs_arguments]). *)
From S2P Require Import Prelude GoStrings GoFloat Regexp Matchers Promql Rewriting Errors.
From S2P Require Import GoTime Strutil Lexer LexerSpec ParserTables Parser ParserDriver.
From S2P Require Import Quoting SelectorLex SelectorParse Rereading ExprLex PrintedText ExprParse ExprShape.
From S2P Require Import ExprRuns ExprNodes ExprOperand.
From Stdlib Require Import Ascii.
From stdpp Require Import options.

(** A list behind its first element. *)
Definition join_tail (ss : list string) : string := foldr (λ s t, ", " +:+ s +:+ t) EmptyString ss.

Lemma Join_joined s ss : Join (s :: ss) ", " = s +:+ join_tail ss.
Proof.
  revert s. induction ss as [|s' ss IH]; intros s; [by cbn; rewrite string_app_nil_r|].
  rewrite Join_cons by done. by rewrite IH.
Qed.

(** ** Labels *)
Definition label_types : list Z :=
  [IDENTIFIER; LAND; LOR; LUNLESS; SUM; AVG; COUNT; MIN; MAX; STDDEV; STDVAR; TOPK; BOTTOMK; COUNT_VALUES; QUANTILE;
   OFFSET; BY; ON; IGNORING; GROUP_LEFT; GROUP_RIGHT; BOOL].
Definition label_state (t : Z) : Z := default 0%Z (shift_of 141 (token_of t)).

Record label_type (t : Z) : Prop := LabelType {
  lt_type : bool_decide (t ∈ [COMMENT; ERROR; EOF]) = false;
  lt_first : shift_of 141 (token_of t) = Some (label_state t);
  lt_next : shift_of 240 (token_of t) = Some (label_state t);
  lt_rule : rule_of (label_state t) None = Some (entry yyDef (label_state t));
  lt_length : idx yyR2 (entry yyDef (label_state t)) = Done 1%Z;
  lt_left : idx yyR1 (entry yyDef (label_state t)) = Done 6%Z;
}.

Lemma label_types_spec t : t ∈ label_types → label_type t.
Proof.
  intros Ht. unfold label_types in Ht.
  repeat (apply elem_of_cons in Ht as [->|Ht]; [constructor; reflexivity|]). inversion Ht.
Qed.

Lemma map_get_in {K V} `{EqDecision K} (k : K) (l : list (K * V)) v : map_get k l = Some v → v ∈ l.*2.
Proof.
  unfold map_get. destruct (List.find _ l) as [[k' v']|] eqn:Hf; [|done]. intros [= <-].
  apply List.find_some in Hf as [Hin _]. apply list_elem_of_fmap. exists (k', v'). by rewrite list_elem_of_In.
Qed.

Lemma label_no_colon l : isLabel l = true → Contains l ":" = false.
Proof.
  intros (_ & _ & _ & _ & Hall)%isLabel_word. induction l as [|a l IH]; [done|].
  apply andb_true_iff in Hall as [Ha Hl]. cbn [Contains]. rewrite IH, orb_false_r by done.
  destruct (HasPrefix (String a l) ":") eqn:Hp; [|done]. cbn in Hp. case_bool_decide as Hc; [|done].
  exfalso. subst a. by vm_compute in Ha.
Qed.

Lemma label_word l :
  label_ok l = true → is_word l = true ∧ word_type l ∈ label_types ∧ isLabel l = true.
Proof.
  intros [Hl Hk%bool_decide_eq_true]%andb_true_iff. split_and!; [| |done].
  - destruct (isLabel_word l Hl) as (c & t & -> & Hc & Hall). unfold is_word. rewrite Hc. cbn [orb andb].
    eapply string_forall_impl; [|exact Hall]. intros c' [Hc' Hn]%andb_true_iff. unfold in_class, name_rune.
    by rewrite Hc', Hn.
  - unfold word_type. rewrite (label_no_colon l Hl). destruct (keyword l) as [kw|] eqn:Hkw; [|unfold label_types; member].
    pose proof (map_get_in _ _ _ Hkw) as Hin. clear -Hin Hk. rewrite !not_elem_of_cons in Hk. destruct Hk as (Hn & Hw & _).
    unfold label_types. cbn in Hin. 
    repeat (apply elem_of_cons in Hin as [->|Hin]; [first [done|member]|]). inversion Hin.
Qed.

Section ExprLists.
Context `{RE : RegexpEngine, !UnicodeTable}.
Implicit Types Q : outcome → Prop.

(** The first label, or one behind a comma and a space. *)
Definition label_text (q : Z) (l : string) : string := if bool_decide (q = 240)%Z then " " +:+ l else l.

Lemma runs_label v st l d R l0 g p Q :
  yys v ∈ [141; 240]%Z → label_ok l = true → stops name_rune R →
  at_lex l0 g p → at_token d Outside (label_text (yys v) l +:+ R) l0 →
  (∀ w l' p', yys w = (if bool_decide (yys v = 240) then 250 else 194)%Z → Val (item w) = l → at_lex l' g p' →
     at_token d Outside R l' → runs (w :: v :: st) None p' Q) →
  runs (v :: st) None p Q.
Proof.
  intros Hv Hl Hs Hat Htok Hrun. destruct (label_word l Hl) as (Hw & Ht & Hlab).
  pose proof (label_types_spec _ Ht) as Hty.
  assert (bool_decide (entry yyPact (yys v) ≤ yyFlag)%Z = false ∧
    shift_of (yys v) (token_of (word_type l)) = Some (label_state (word_type l)) ∧ goto_state 6 (yys v) = Done 195%Z ∧
    goto_state 4 (yys v) = Done (if bool_decide (yys v = 240) then 250 else 194)%Z) as (Hq & Hsh & Hg6 & Hg4).
  { repeat (apply elem_of_cons in Hv as [->|Hv]; [split_and!; [done|apply Hty|done..]|]). inversion Hv. }
  assert (lexes l0 (token_of_text (word_type l) l d Outside R)) as Hlex.
  { unfold label_text in Htok. case_bool_decide.
    - rewrite string_app_assoc in Htok. eapply lexes_spaced; [|by apply state_word|exact Htok]. by apply word_space.
    - by apply (lexes_outside d (l +:+ R)); [apply state_word|]. }
  eapply (runs_text v st l0 g p); [exact Hq|exact Hsh|apply Hty|exact Hat|exact Hlex|].
  intros i l1 p1 _ Hval Hat1 Htok1.
  eapply (runs_reduce _ [] v st None p1); [apply Hty|apply Hty|apply Hty|exact Hg6|].
  eexists _, p1. split.
  { instantiate (1 := leaf (label_state (word_type l)) i). clear -Ht. unfold label_types in Ht.
    repeat (apply elem_of_cons in Ht as [->|Ht]; [reflexivity|]). inversion Ht. }
  eapply (runs_reduce _ [] v st None p1 56 4); [reflexivity..|exact Hg4|]. eexists _, p1. split.
  - change (action 56 _ _ p1) with (((if negb (isLabel (Val i)) then unexpected "grouping opts" "label" else mret tt);;
      mret (with_item i (with_yys 195 (leaf (label_state (word_type l)) i)))) p1).
    rewrite Hval, Hlab. reflexivity.
  - eapply (Hrun _ l1); done.
Qed.

(** Behind the labels [done]. *)
Lemma runs_label_tail ls : ∀ v st below done d R l g p Q s,
  Forall (λ l, label_ok l = true) ls → yys v = 192%Z → strings v = done → yys below = 141%Z →
  at_lex l g p → at_token d Outside (join_tail ls +:+ ")" +:+ R) l → (0 < d)%Z →
  (∀ b, head st = Some b → goto_state 14 (yys b) = Done s) → st ≠ [] →
  (∀ w l' p', yys w = s → strings w = done ++ ls → at_lex l' g p' → at_token (d - 1) Outside R l' →
     runs (w :: st) None p' Q) →
  runs (v :: below :: st) None p Q.
Proof.
  induction ls as [|x ls IH]; intros v st below done d R l g p Q s Hls Hv Hdone Hb Hat Htok Hd Hg Hst Hrun.
  - cbn [join_tail foldr] in Htok. rewrite string_app_nil_l in Htok.
    eapply (runs_text v _ l g p RIGHT_PAREN ")" _ _ _ 239); [by rewrite Hv|by rewrite Hv|done|exact Hat| |].
    { eapply lexes_outside; [by apply state_right_paren|exact Htok]. }
    intros i l1 p1 _ _ Hat1 Htok1. destruct st as [|b st]; [done|].
    eapply (runs_reduce _ [v; below] b st None p1 49 14 s); [reflexivity..|by apply Hg|]. eexists _, p1. split; [reflexivity|].
    eapply (Hrun _ l1); [done| |done|done]. rewrite app_nil_r. done.
  - apply Forall_cons in Hls as [Hx Hls]. cbn [join_tail foldr] in Htok. fold (join_tail ls) in Htok.
    assert (at_token d Outside ("," +:+ " " +:+ x +:+ join_tail ls +:+ ")" +:+ R) l) as Htok'
      by (by rewrite !string_app_assoc in Htok).
    eapply (runs_text v _ l g p COMMA "," _ _ _ 240); [by rewrite Hv|by rewrite Hv|done|exact Hat| |].
    { eapply lexes_outside; [by apply state_comma|exact Htok']. }
    intros i l1 p1 _ _ Hat1 Htok1.
    eapply (runs_label (leaf 240 i) (v :: below :: st) x d (join_tail ls +:+ ")" +:+ R) l1 g p1 Q);
      [cbn; member|done| |exact Hat1| |].
    { destruct ls; by split. }
    { unfold label_text. cbn [leaf yys]. by rewrite bool_decide_eq_true_2, string_app_assoc by done. }
    intros w l2 p2 Hw Hval Hat2 Htok2. cbn [leaf yys] in Hw. change (yys w = 250%Z) in Hw.
    eapply (runs_reduce w [leaf 240 i; v] below st None p2 53 13 192); [by rewrite Hw|reflexivity|reflexivity|by rewrite Hb|].
    eexists _, p2. split; [reflexivity|].
    eapply (IH _ st below (done ++ [x]) d R l2 g p2 Q s Hls); [done| |done..|].
    { cbn [with_yys with_strings strings]. change (strings v ++ [Val (item w)] = done ++ [x]). by rewrite Hdone, Hval. }
    intros w' l' p' Hw' Hs'. apply Hrun; [done|]. by rewrite Hs', <- app_assoc.
Qed.

(** ** Groupings *)
Definition group_states : list Z := [96; 97; 171; 172; 173; 174]%Z.
Definition grouping_text (ls : list string) : string := "(" +:+ Join ls ", " +:+ ")".

Lemma runs_grouping b st ls d R l g p Q s :
  yys b ∈ group_states → goto_state 14 (yys b) = Done s → Forall (λ l, label_ok l = true) ls → (0 ≤ d)%Z →
  at_lex l g p → at_token d Outside (grouping_text ls +:+ R) l →
  (∀ w l' p', yys w = s → strings w = ls → at_lex l' g p' → at_token d Outside R l' → runs (w :: b :: st) None p' Q) →
  runs (b :: st) None p Q.
Proof.
  intros Hb Hg Hls Hd Hat Htok Hrun. unfold grouping_text in Htok. rewrite !string_app_assoc in Htok.
  assert (bool_decide (entry yyPact (yys b) ≤ yyFlag)%Z = false ∧ shift_of (yys b) (token_of LEFT_PAREN) = Some 141%Z)
    as [Hq Hsh].
  { unfold group_states in Hb. repeat (apply elem_of_cons in Hb as [->|Hb]; [done|]). inversion Hb. }
  eapply (runs_text b st l g p LEFT_PAREN "(" _ _ _ 141); [exact Hq|exact Hsh|done|exact Hat| |].
  { eapply lexes_outside; [apply state_left_paren|exact Htok]. }
  intros i l1 p1 _ _ Hat1 Htok1. assert (d + 1 - 1 = d)%Z as Ed by lia. destruct ls as [|x ls].
  - change (Join [] ", ") with EmptyString in Htok1. rewrite string_app_nil_l in Htok1.
    eapply (runs_text (leaf 141 i) _ l1 g p1 RIGHT_PAREN ")" _ _ _ 193); [done|done|done|exact Hat1| |].
    { eapply (lexes_outside (d + 1)); [apply state_right_paren; lia|exact Htok1]. }
    intros j l2 p2 _ _ Hat2 Htok2. rewrite Ed in Htok2.
    eapply (runs_reduce _ [leaf 141 i] b st None p2 51 14 s); [reflexivity..|done|]. eexists _, p2.
    split; [reflexivity|]. by eapply (Hrun _ l2).
  - apply Forall_cons in Hls as [Hx Hls]. rewrite Join_joined, string_app_assoc in Htok1.
    eapply (runs_label (leaf 141 i) _ x (d + 1)); [cbn; member|done| |exact Hat1|exact Htok1|].
    { destruct ls; by split. }
    intros w l2 p2 Hw Hval Hat2 Htok2. change (yys w = 194%Z) in Hw.
    eapply (runs_reduce w [] (leaf 141 i) _ None p2 54 13 192); [by rewrite Hw|reflexivity..|].
    eexists _, p2. split; [reflexivity|].
    eapply (runs_label_tail ls _ (b :: st) (leaf 141 i) [x]); [done|done| |done|exact Hat2|exact Htok2|lia| |done|].
    { change ([Val (item w)] = [x]). by rewrite Hval. }
    { intros b' [= <-]. exact Hg. }
    intros w' l' p' Hw' Hs'. rewrite Ed. by apply Hrun.
Qed.

(** ** Arguments *)
Definition next_arg (ss : list string) : Z := match ss with [] => RIGHT_PAREN | _ => COMMA end.
Definition behind_arg (g : option node) (d : Z) (ss : list string) (R : string) : parser → Prop :=
  match ss with
  | [] => behind g RIGHT_PAREN (d - 1) Outside R
  | s :: ss => behind g COMMA d Outside (" " +:+ s +:+ join_tail ss +:+ ")" +:+ R)
  end.

Lemma follows_arg g d ss R :
  (0 < d)%Z → follows g d (join_tail ss +:+ ")" +:+ R) (next_arg ss) (behind_arg g d ss R).
Proof.
  intros Hd. destruct ss as [|s ss]; [by apply follows_close|]. cbn [join_tail foldr].
  rewrite !string_app_assoc. apply follows_comma.
Qed.

Lemma arg_end ss R : expr_end (join_tail ss +:+ ")" +:+ R) (next_arg ss).
Proof. destruct ss as [|s ss]; [apply close_end|]. cbn [join_tail foldr]. rewrite !string_app_assoc. apply comma_end. Qed.

Record argument (a : Expr) (s : string) : Prop := Argument {
  arg_text : String_ a = Done s;
  arg_readable : readable_expr a;
  arg_runs : runs_expr a;
  arg_fits : fits 0 a COMMA = true;
}.

(** An argument is read in state 98 or 221. *)
Lemma runs_argument v st a s ss d R l g p Q :
  yys v ∈ [98; 221]%Z → argument a s → (0 < d)%Z →
  at_lex l g p → at_token d Outside (s +:+ join_tail ss +:+ ")" +:+ R) l → (clean a = false → bad Q) →
  (∀ w n t p', yys w = after_expr (yys v) → node_ w = Some n → as_Expr (Some n) = Done n → reads as_parsed a n →
     ahead g d (join_tail ss +:+ ")" +:+ R) (next_arg ss) (behind_arg g d ss R) t p' → runs (w :: v :: st) t p' Q) →
  runs (v :: st) None p Q.
Proof.
  intros Hv [Hs _ IH Hfits] Hd Hat Htok Hbad Hrun.
  assert (yys v ∈ expr_states ∧ level (yys v) = 0) as [Hve Hlevel].
  { repeat (apply elem_of_cons in Hv as [->|Hv]; [split; [unfold expr_states; cbn; member|done]|]). inversion Hv. }
  eapply (IH v st d (join_tail ss +:+ ")" +:+ R) g (next_arg ss) (behind_arg g d ss R) l p Q s Hs);
    [done| |apply arg_end|lia|exact Hat|exact Htok|by apply follows_arg|exact Hbad|].
  - rewrite Hlevel, (fits_prec _ a _ COMMA); [done|by destruct ss].
  - intros w n t p' Hw Hn Hr. intros Hah. eapply Hrun; [exact Hw|exact Hn|by eapply reads_as_Expr|exact Hr|exact Hah].
Qed.

Lemma runs_argument_tail args : ∀ ss v o b st done d R t p g Q s,
  Forall2 argument args ss → yys v = 144%Z → node_ v = Some (Expressions_ done) → yys o = 98%Z →
  goto_state 30 (yys b) = Done s → (0 < d)%Z →
  ahead g d (join_tail ss +:+ ")" +:+ R) (next_arg ss) (behind_arg g d ss R) t p →
  (List.forallb clean args = false → bad Q) →
  (∀ w ns l' p', yys w = s → node_ w = Some (Expressions_ (done ++ ns)) → Forall2 (reads as_parsed) args ns →
     at_lex l' g p' → at_token (d - 1) Outside R l' → runs (w :: b :: st) None p' Q) →
  runs (v :: o :: b :: st) t p Q.
Proof.
  induction args as [|a args IH]; intros ss v o b st done d R t p g Q s Hargs Hv Hn Ho Hg Hd Hah Hbad Hrun.
  - apply Forall2_nil_inv_l in Hargs as ->. cbn [join_tail foldr next_arg behind_arg] in Hah. rewrite string_app_nil_l in Hah.
    eapply (runs_behind v _ _ _ _ RIGHT_PAREN _ _ _ 220);
      [by rewrite Hv|by rewrite Hv|eapply follows_close|exact Hah|]; [done|].
    intros i l1 p1 _ Hat1 Htok1.
    eapply (runs_reduce _ [v; o] b st None p1 59 30 s); [reflexivity..|done|]. eexists _, p1. split; [reflexivity|].
    eapply (Hrun _ []); [done| |constructor|exact Hat1|done]. rewrite app_nil_r. exact Hn.
  - apply Forall2_cons_inv_l in Hargs as (s1 & ss' & Ha & Hargs & ->).
    pose proof (follows_arg g d (s1 :: ss') R Hd) as Hf. cbn [next_arg behind_arg] in Hah, Hf.
    eapply (runs_behind v _ _ _ _ COMMA _ _ _ 221); [by rewrite Hv|by rewrite Hv|exact Hf|exact Hah|].
    intros i l1 p1 _ Hat1 Htok1.
    destruct (operand_start l1 g p1 d (s1 +:+ join_tail ss' +:+ ")" +:+ R) (clean a) Hat1 Htok1)
      as [(c & _ & Hop)|(Hca & c & p' & Hlex & Herr)].
    { apply first_token; [apply Ha|apply Ha|apply arg_end]. }
    2: { destruct Hbad as [Hb1 Hb2]; [cbn; by rewrite Hca|].
         eapply runs_read; [reflexivity|exact Hlex|by apply runs_errors]. }
    eapply (runs_operand (leaf 221 i)); [reflexivity|exact Hop|]. clear p1 l1 Hat1 Htok1 Hop. intros l1 p1 Hat1 Htok1.
    eapply (runs_argument (leaf 221 i)); [cbn; member|exact Ha|exact Hd|exact Hat1|exact Htok1| |].
    { intros Hca. apply Hbad. cbn. by rewrite Hca. }
    intros w n t' p2 Hw Hnw Has Hreads Hah2. change (yys w = 242%Z) in Hw.
    eapply runs_ahead; [by rewrite Hw|by apply follows_arg|exact Hah2|]. intros p3 HK.
    eapply (runs_reduce w [leaf 221 i; v] o _ _ p3 61 29 144); [rewrite Hw; by destruct ss'|reflexivity|reflexivity|by rewrite Ho|].
    exists (with_node (Expressions_ (done ++ [n])) v), p3. split.
    { change (action 61 _ _ p3) with ((l ← lift (as_Expressions (node_ v)); e ← lift (as_Expr (node_ w));
        mret (with_node (Expressions_ (l ++ [e])) v)) p3). rewrite Hn, Hnw, !bind_lift. cbn [as_Expressions].
      rewrite bind_lift, Has. reflexivity. }
    eapply (IH ss' _ o b st (done ++ [n]) d R _ p3 g Q s Hargs); [done|done|done|done|done|by left| |].
    + intros Hc. apply Hbad. cbn. rewrite Hc. apply andb_false_r.
    + intros w' ns l' p' Hw' Hns Hr. apply (Hrun w' (n :: ns)); [done| |by constructor]. by rewrite Hns, <- app_assoc.
Qed.

(** From behind the opening parenthesis. *)
Lemma runs_arguments args ss i b st d R l g p Q s :
  Forall2 argument args ss → goto_state 30 (yys b) = Done s → (0 < d)%Z →
  at_lex l g p → at_token d Outside (Join ss ", " +:+ ")" +:+ R) l →
  (List.forallb clean args = false → bad Q) →
  (∀ w ns l' p', yys w = s → node_ w = Some (Expressions_ ns) → Forall2 (reads as_parsed) args ns →
     at_lex l' g p' → at_token (d - 1) Outside R l' → runs (w :: b :: st) None p' Q) →
  runs (leaf 98 i :: b :: st) None p Q.
Proof.
  intros Hargs Hg Hd Hat Htok Hbad Hrun. destruct Hargs as [|a s1 args ss' Ha Hargs].
  - change (Join [] ", ") with EmptyString in Htok. rewrite string_app_nil_l in Htok.
    eapply (runs_text (leaf 98 i) _ l g p RIGHT_PAREN ")" _ _ _ 145); [done|done|done|exact Hat| |].
    { eapply (lexes_outside d); [by apply state_right_paren|exact Htok]. }
    intros j l1 p1 _ _ Hat1 Htok1.
    eapply (runs_reduce _ [leaf 98 i] b st None p1 60 30 s); [reflexivity..|done|]. eexists _, p1.
    split; [reflexivity|]. by eapply (Hrun _ [] l1).
  - rewrite Join_joined, string_app_assoc in Htok.
    eapply (runs_argument (leaf 98 i)); [cbn; member|exact Ha|exact Hd|exact Hat|exact Htok| |].
    { intros Hca. apply Hbad. cbn. by rewrite Hca. }
    intros w n t p1 Hw Hn Has Hreads Hah. change (yys w = 146%Z) in Hw.
    eapply runs_ahead; [by rewrite Hw|by apply follows_arg|exact Hah|]. intros p2 HK.
    eapply (runs_reduce w [] (leaf 98 i) _ _ p2 62 29 144); [rewrite Hw; by destruct ss'|reflexivity..|].
    exists (with_node (Expressions_ [n]) w), p2. split.
    { change (action 62 _ _ p2) with ((e ← lift (as_Expr (node_ w)); mret (with_node (Expressions_ [e]) w)) p2).
      rewrite Hn, bind_lift, Has. reflexivity. }
    eapply (runs_argument_tail args ss' _ (leaf 98 i) b st [n] d R _ p2 g Q s Hargs);
      [done|done|done|done|done|by left| |].
    + intros Hc. apply Hbad. cbn. rewrite Hc. apply andb_false_r.
    + intros w' ns l' p' Hw' Hns Hr. apply (Hrun w' (n :: ns)); [done|done|by constructor].
Qed.
End ExprLists.
