(* ===== verification/ExprCompound.v ===== *)
(** * Calls, aggregations and binary operators

    The remaining nodes, and [expression_read]: the driver reads the text of
    every readable tree. *)
From S2P Require Import Prelude GoStrings GoFloat Regexp Matchers Promql Rewriting Errors.
From S2P Require Import GoTime Strutil Lexer LexerSpec ParserTables Parser ParserDriver.
From S2P Require Import Quoting SelectorLex SelectorParse Rereading ExprLex PrintedText ExprParse ExprShape.
From S2P Require Import ExprRuns ExprNodes ExprOperand ExprLists.
From Stdlib Require Import Ascii.
From stdpp Require Import options.

Section ExprCompound.
Context `{RE : RegexpEngine, !UnicodeTable}.
Implicit Types Q : outcome → Prop.

Lemma arguments_of args ss :
  Forall readable_expr args → (∀ a, a ∈ args → runs_expr a) → List.forallb (λ a, fits 0 a COMMA) args = true →
  Forall2 (λ a s, String_ a = Done s) args ss → Forall2 argument args ss.
Proof.
  rewrite Forall_forall, forallb_forall. intros Hr Hruns Hf Hss. apply Forall2_same_length_lookup.
  split; [by eapply Forall2_length|]. intros i a s Ha Hs.
  pose proof (Forall2_lookup_lr _ _ _ _ _ _ Hss Ha Hs). apply list_elem_of_lookup_2 in Ha.
  constructor; [done|by apply Hr|by apply Hruns|]. by apply Hf, list_elem_of_In.
Qed.

(** ** Calls *)
Lemma runs_expr_call f args :
  getFunction (Func_Name f) = Some f → Forall readable_expr args → (∀ a, a ∈ args → runs_expr a) →
  runs_expr (Call f args).
Proof.
  intros Hf Hargs IH u st d R g c K l p Q s He Hu Hfits _ Hd Hat Htok Hfol Hbad Hrun.
  pose proof (expr_states_spec _ Hu) as Hes. rewrite String_call in He. injection He as <-.
  destruct (go_map_prints args) as [ss Hss].
  { eapply Forall_impl; [exact Hargs|apply readable_prints]. }
  rewrite Hss in Htok. cbn [mbind go_bind fmt_s] in Htok. rewrite !string_app_assoc in Htok.
  destruct (function_word _ _ Hf) as [[Hw _]%andb_true_iff Ht].
  eapply (runs_text u st l g p IDENTIFIER (Func_Name f) d Outside _ 46); [apply Hes|apply Hes|done|exact Hat| |].
  { rewrite <- Ht. eapply (lexes_outside d); [apply state_word; [done|]|exact Htok]. by split. }
  intros i l1 p1 _ Hval Hat1 Htok1.
  eapply (runs_text (leaf 46 i) _ l1 g p1 LEFT_PAREN "(" _ _ _ 98); [done|done|done|exact Hat1| |].
  { eapply (lexes_outside d); [apply state_left_paren|exact Htok1]. }
  intros j l2 p2 _ _ Hat2 Htok2.
  eapply (runs_arguments args ss j (leaf 46 i) _ (d + 1) R l2 g p2 Q 99);
    [|done|lia|exact Hat2|exact Htok2|exact Hbad|].
  { apply arguments_of; [done|done|exact Hfits|]. by apply go_map_Done. }
  intros w ns l3 p3 Hw3 Hns Hreads Hat3 Htok3. replace (d + 1 - 1)%Z with d in Htok3 by lia.
  eapply (runs_reduce w [leaf 46 i] u st None p3 58 28 36); [by rewrite Hw3|reflexivity|reflexivity|apply Hes|].
  exists (with_node (NCall (Some f) ns (MkRange (Pos i) (lastClosing p3))) (leaf 46 i)), p3. split.
  - change (action 58 _ _ p3) with ((let fn := getFunction (Val i) in
      (if bool_decide (fn = None)
       then addParseErr (Item_range i) ("unknown function with name " +:+ Quote (Val i))
       else mret tt);;
      args ← lift (as_Expressions (node_ w));
      closing ← get lastClosing;
      mret (with_node (NCall fn args (MkRange (Pos i) closing)) (leaf 46 i))) p3).
    rewrite Hval, Hf, Hns. reflexivity.
  - eapply (runs_unit _ u st); [done|unfold unit_rules; cbn; member|].
    eapply Hrun; [done|reflexivity|by constructor|right; eauto].
Qed.

(** ** Aggregations *)
Definition aggregator_state (t : Z) : Z := default 0%Z (shift_of 4 (token_of t)).
Definition modifier_tokens : list Z := [LEFT_PAREN; BY; WITHOUT].

Record aggregator (t q : Z) : Prop := AggregatorState {
  as_type : bool_decide (t ∈ [COMMENT; ERROR; EOF]) = false;
  as_shift : shift_of q (token_of t) = Some (aggregator_state t);
  as_reads : bool_decide (entry yyPact (aggregator_state t) ≤ yyFlag)%Z = true;
  as_default : entry yyDef (aggregator_state t) = (-2)%Z;
}.

Definition aggregator_rule (t : Z) : Z := default 0%Z (rule_of (aggregator_state t) (Some (token_of LEFT_PAREN))).
Definition aggregators : list Z := [AVG; BOTTOMK; COUNT; COUNT_VALUES; MAX; MIN; QUANTILE; STDDEV; STDVAR; SUM; TOPK].

Lemma aggregator_states t q : t ∈ aggregators → q ∈ expr_states → aggregator t q.
Proof.
  intros Ht Hq. assert (List.forallb (λ t, List.forallb (λ q, bool_decide (shift_of q (token_of t) = Some (aggregator_state t)))
    expr_states) aggregators = true) as Hall by by vm_compute.
  rewrite forallb_forall in Hall. pose proof (Hall t ltac:(by apply list_elem_of_In)) as Hall'. cbv beta in Hall'.
  rewrite forallb_forall in Hall'. pose proof (Hall' q ltac:(by apply list_elem_of_In)) as Hs%bool_decide_eq_true.
  clear Hall Hall' Hq. unfold aggregators in Ht.
  repeat (apply elem_of_cons in Ht as [->|Ht]; [constructor; [reflexivity|exact Hs|reflexivity..]|]). inversion Ht.
Qed.

Lemma aggregator_reduce t c :
  t ∈ aggregators → c ∈ modifier_tokens →
  rule_of (aggregator_state t) (Some (token_of c)) = Some (aggregator_rule t) ∧
  idx yyR2 (aggregator_rule t) = Done 1%Z ∧ idx yyR1 (aggregator_rule t) = Done 3%Z ∧
  ∀ d v p, action (aggregator_rule t) d v p = Done (v, p).
Proof.
  intros Ht Hc. unfold aggregators in Ht. unfold modifier_tokens in Hc.
  repeat (apply elem_of_cons in Hc as [->|Hc];
    [clear -Ht; repeat (apply elem_of_cons in Ht as [->|Ht]; [split_and!; reflexivity|]); inversion Ht|]).
  inversion Hc.
Qed.

Lemma runs_aggregator u st op d T c K l g p Q :
  yys u ∈ expr_states → is_aggregator op = true → c ∈ modifier_tokens → stops name_rune T →
  at_lex l g p → at_token d Outside (ItemType_String op +:+ T) l → follows g d T c K →
  (∀ w p', yys w = 45%Z → Typ (item w) = op_token op → K p' → runs (w :: u :: st) (Some (token_of c)) p' Q) →
  runs (u :: st) None p Q.
Proof.
  intros Hu Hop Hc Hs Hat Htok Hf Hrun. pose proof (expr_states_spec _ Hu) as Hes.
  destruct (aggregator_word op Hop) as (Hw & Ht & _).
  assert (op_token op ∈ aggregators) as Hagg by (destruct op; try done; unfold aggregators; member).
  pose proof (aggregator_states _ _ Hagg Hu) as Has.
  eapply (runs_text u st l g p (op_token op) (ItemType_String op) d Outside T); [apply Hes|apply Has|apply Has|exact Hat| |].
  { rewrite <- Ht. by apply (lexes_outside d (ItemType_String op +:+ T)); [apply state_word|]. }
  intros i l1 p1 Hty _ Hat1 Htok1. destruct (Hf l1 p1 Hat1 Htok1) as (p2 & Hlex & HK).
  apply (runs_read_rule _ _ _ c p2); [apply Has|apply Has|exact Hlex|].
  destruct (aggregator_reduce _ _ Hagg Hc) as (Hr & H2 & H1 & Ha).
  eapply (runs_reduce _ [] u st _ p2); [exact Hr|exact H2|exact H1|apply Hes|]. eexists _, p2.
  split; [apply Ha|]. by apply Hrun.
Qed.

Lemma newAggregateExpr_arguments op e param ns i g w r p :
  is_aggregator op = true → Typ i = op_token op → Promql.IsAggregatorWithParam op = bool_decide (is_Some param) →
  Forall2 (reads as_parsed) (match param with Some q => [q; e] | None => [e] end) ns →
  ∃ n, newAggregateExpr i (Some (NAggregateExpr 0 None None g w r)) (Some (Expressions_ ns)) p = Done (n, p) ∧
    reads as_parsed (AggregateExpr op (Some e) param g w) n.
Proof.
  intros Hop Hty Hparam Hns.
  assert (IsAggregatorWithParam (op_token op) = Promql.IsAggregatorWithParam op) as Hw by by destruct op.
  assert (item_type (op_token op) = op) as Hi by (apply item_type_token; by rewrite Hop, orb_true_r).
  unfold newAggregateExpr. cbn [as_Expressions]. rewrite bind_lift, bind_get, Hty. cbv zeta. rewrite Hw, Hparam.
  destruct param as [q|]; inversion Hns as [|? n1 ? ns1 Hn1 Hns1]; subst; inversion Hns1 as [|? n2 ? ns2 Hn2 Hns2]; subst.
  - inversion Hns2; subst. eexists. split; [reflexivity|].
    pose proof (ReadsParam as_parsed (op_token op) e n2 q n1 g w (MkRange (Pos i) (lastClosing p))) as HR.
    rewrite Hi in HR. by apply HR.
  - eexists. split; [reflexivity|].
    pose proof (ReadsAggregate as_parsed (op_token op) e n1 g w (MkRange (Pos i) (lastClosing p))) as HR.
    rewrite Hi in HR. by apply HR.
Qed.

(** The modifier in front of the arguments. *)
Definition modifier_text (g : list string) (w : bool) : string :=
  if w then " without" +:+ grouping_text g +:+ " " else if bool_decide (g ≠ []) then " by" +:+ grouping_text g +:+ " "
  else EmptyString.

Section Aggregation.
Context (op : ItemType) (e : Expr) (param : option Expr) (gs : list string) (w : bool).
Context (u : yySymType) (st : list yySymType) (d : Z) (R : string) (g : option node) (c : Z) (K : parser → Prop).
Context (ss : list string) (Q : outcome → Prop).
Let args : list Expr := match param with Some q => [q; e] | None => [e] end.
Let T : string := "(" +:+ Join ss ", " +:+ ")" +:+ R.

Hypothesis state_u : yys u ∈ expr_states.
Hypothesis op_ok : is_aggregator op = true.
Hypothesis groups_ok : Forall (λ l, label_ok l = true) gs.
Hypothesis param_ok : Promql.IsAggregatorWithParam op = bool_decide (is_Some param).
Hypothesis args_ok : Forall2 argument args ss.
Hypothesis end_ok : expr_end R c.
Hypothesis depth_ok : (0 ≤ d)%Z.
Hypothesis follows_ok : follows g d R c K.
Hypothesis bad_ok : List.forallb clean args = false → bad Q.
Hypothesis runs_on : ∀ v n t p', yys v = after_expr (yys u) → node_ v = Some n →
  reads as_parsed (AggregateExpr op (Some e) param gs w) n → ahead g d R c K t p' → runs (v :: u :: st) t p' Q.

(** From the arguments on, behind a modifier or without one. *)
Lemma runs_body i b st' l p s :
  at_lex l g p → at_token (d + 1) Outside (Join ss ", " +:+ ")" +:+ R) l → goto_state 30 (yys b) = Done s →
  (∀ y ns l' p', yys y = s → node_ y = Some (Expressions_ ns) → Forall2 (reads as_parsed) args ns →
     at_lex l' g p' → at_token d Outside R l' → runs (y :: b :: st') None p' Q) →
  runs (leaf 98 i :: b :: st') None p Q.
Proof using args_ok depth_ok bad_ok.
  intros Hat Htok Hg Hr.
  eapply (runs_arguments args ss i b st' (d + 1) R l g p Q s); [done|done|lia|done|done|exact bad_ok|].
  intros y ns l' p' Hy Hns Hreads Hat'. replace (d + 1 - 1)%Z with d by lia. by eapply Hr.
Qed.

Lemma runs_modified m v s n l p :
  yys v = 45%Z → Typ (item v) = op_token op → yys m ∈ [96; 97]%Z → goto_state 14 (yys m) = Done s →
  rule_of s None = Some n → idx yyR2 n = Done 2%Z → idx yyR1 n = Done 23%Z →
  (∀ (d : Z → yySymType) v p,
     action n d v p = Done (with_node (NAggregateExpr 0 None None (strings (d 2%Z)) w (MkRange 0 0)) v, p)) →
  at_lex l g p → at_token d Outside (grouping_text gs +:+ " " +:+ T) l → runs (m :: v :: u :: st) None p Q.
Proof using All.
  intros Hv Hty Hm Hg Hr H2 H1 Ha Hat Htok. pose proof (expr_states_spec _ state_u) as Hes.
  eapply (runs_grouping m _ gs d); [|exact Hg|exact groups_ok|done|exact Hat|exact Htok|].
  { clear -Hm. unfold group_states. set_solver. }
  intros x l2 p2 Hx Hxs Hat2 Htok2.
  eapply (runs_reduce x [m] v _ None p2 n 23 93); [by rewrite Hx|done|done|by rewrite Hv|].
  set (b := with_node (NAggregateExpr 0 None None gs w (MkRange 0 0)) m). exists b, p2. split.
  { transitivity (Done (with_node (NAggregateExpr 0 None None (strings x) w (MkRange 0 0)) m, p2)); [apply Ha|].
    by rewrite Hxs. }
  eapply (runs_text _ _ l2 g p2 LEFT_PAREN "(" (d + 1) _ _ 98); [done|done|done|exact Hat2| |].
  { eapply (lexes_spaced d); [|apply state_left_paren|exact Htok2]. by split. }
  intros j l3 p3 _ _ Hat3 Htok3. eapply (runs_body j _ _ l3 p3 138); [exact Hat3|exact Htok3|done|].
  intros y ns l4 p4 Hy Hns Hreads Hat4 Htok4.
  destruct (newAggregateExpr_arguments op e param ns (item v) gs w (MkRange 0 0) p4 op_ok Hty param_ok Hreads)
    as (nn & Hnew & Hnn).
  eapply (runs_reduce y [_; v] u st None p4 19 22 34); [by rewrite Hy|reflexivity|reflexivity|apply Hes|].
  eexists _, p4. split.
  - change (action 19 _ _ p4) with ((e ← newAggregateExpr (item v) (node_ b) (node_ y); mret (with_node e v)) p4).
    rewrite Hns. change (node_ b) with (Some (NAggregateExpr 0 None None gs w (MkRange 0 0))).
    rewrite (bind_Done _ _ _ _ _ Hnew). reflexivity.
  - eapply (runs_unit _ u st); [done|unfold unit_rules; cbn; member|].
    eapply runs_on; [done|reflexivity|exact Hnn|right; eauto].
Qed.

Lemma runs_unmodified i v l p :
  gs = [] → w = false → yys v = 45%Z → Typ (item v) = op_token op → at_lex l g p →
  at_token (d + 1) Outside (Join ss ", " +:+ ")" +:+ R) l → runs (leaf 98 i :: v :: u :: st) None p Q.
Proof using All.
  intros Hgs Hw Hv Hty Hat Htok. pose proof (expr_states_spec _ state_u) as Hes.
  eapply (runs_body i _ _ l p 94); [exact Hat|exact Htok|by rewrite Hv|].
  intros y ns l4 p4 Hy Hns Hreads Hat4 Htok4.
  eapply runs_ahead; [by rewrite Hy|exact follows_ok|right; eauto|]. intros p5 HK.
  destruct (newAggregateExpr_arguments op e param ns (item v) gs w (MkRange 0 0) p5 op_ok Hty param_ok Hreads)
    as (nn & Hnew & Hnn). rewrite Hgs, Hw in Hnew.
  eapply (runs_reduce y [v] u st _ p5 21 22 34); [rewrite Hy|reflexivity|reflexivity|apply Hes|].
  { apply (rule_of_other 94 [token_of BY; token_of WITHOUT]); [by vm_compute| |by vm_compute].
    pose proof (ee_token _ _ end_ok) as Hc. rewrite !not_elem_of_cons in Hc. rewrite !not_elem_of_cons.
    destruct Hc as (_ & _ & Hc1 & Hc2 & _). split_and!; [..|apply not_elem_of_nil]; intros E; by apply token_of_inj in E. }
  eexists _, p5. split.
  - change (action 21 _ _ p5) with ((e ← newAggregateExpr (item v) (Some (NAggregateExpr 0 None None [] false (MkRange 0 0)))
      (node_ y); mret (with_node e v)) p5).
    rewrite Hns, (bind_Done _ _ _ _ _ Hnew). reflexivity.
  - eapply (runs_unit _ u st); [done|unfold unit_rules; cbn; member|].
    eapply runs_on; [done|reflexivity|exact Hnn|by left].
Qed.

Lemma runs_aggregate l p :
  at_lex l g p → at_token d Outside (ItemType_String op +:+ modifier_text gs w +:+ T) l → runs (u :: st) None p Q.
Proof using All.
  intros Hat Htok. unfold modifier_text in Htok.
  assert (∀ kw, is_word kw = true → stops name_rune (grouping_text gs +:+ " " +:+ T)) as Hstop by by split.
  assert (∀ kw q s n, is_word kw = true → word_type kw ∈ modifier_tokens →
    bool_decide (word_type kw ∈ [COMMENT; ERROR; EOF]) = false → shift_of 45 (token_of (word_type kw)) = Some q →
    q ∈ [96; 97]%Z → goto_state 14 q = Done s → rule_of s None = Some n → idx yyR2 n = Done 2%Z → idx yyR1 n = Done 23%Z →
    (∀ (d : Z → yySymType) v p,
       action n d v p = Done (with_node (NAggregateExpr 0 None None (strings (d 2%Z)) w (MkRange 0 0)) v, p)) →
    at_token d Outside (ItemType_String op +:+ (" " +:+ kw +:+ grouping_text gs +:+ " ") +:+ T) l →
    runs (u :: st) None p Q) as Hmod.
  { clear Htok. intros kw q s n Hw Ht Hty Hsh Hq Hg Hr H2 H1 Ha Htok. rewrite !string_app_assoc in Htok.
    eapply runs_aggregator; [exact state_u|exact op_ok|exact Ht| |exact Hat|exact Htok|
      apply (follows_word g d kw); [exact Hw|by apply (Hstop kw)|exact Hty]|]; [by split|].
    intros v p1 Hv Htyv (l1 & Hat1 & Htok1). eapply runs_shift; [rewrite Hv; exact Hsh|].
    by eapply (runs_modified (leaf q _) v s n l1 p1). }
  assert (w = true ∨ w = false) as [Hw|Hw] by (destruct w; auto); rewrite Hw in Htok; [|case_bool_decide as Hgs].
  - apply (Hmod "without" 97 143 24)%Z; rewrite ?Hw; try reflexivity; try done;
      [unfold modifier_tokens|]; cbn; member.
  - apply (Hmod "by" 96 140 23)%Z; rewrite ?Hw; try reflexivity; try done; [unfold modifier_tokens|]; cbn; member.
  - rewrite string_app_nil_l in Htok.
    eapply runs_aggregator; [exact state_u|exact op_ok|unfold modifier_tokens; member| |exact Hat|exact Htok| |]; [by split| |].
    { apply (follows_text g d _ _ "("); [done|]. intros l1. apply lexes_outside, state_left_paren. }
    intros v p1 Hv Htyv (l1 & Hat1 & _ & Htok1). eapply runs_shift; [by rewrite Hv|].
    eapply (runs_unmodified _ v l1 p1); done || by apply dec_stable.
Qed.
End Aggregation.

Lemma aggregate_text op e param g w se :
  String_ e = Done se → Promql.IsAggregatorWithParam op = bool_decide (is_Some param) →
  (∀ q, param = Some q → readable_expr q) →
  ∃ ss, Forall2 (λ a s, String_ a = Done s) (match param with Some q => [q; e] | None => [e] end) ss ∧
    String_ (AggregateExpr op (Some e) param g w) =
      Done (ItemType_String op +:+ modifier_text g w +:+ "(" +:+ Join ss ", " +:+ ")").
Proof.
  intros He Hparam Hq. cbn [String_]. rewrite Hparam, He. unfold modifier_text, grouping_text.
  assert ((if w then " without(" +:+ Join g ", " +:+ ") "
           else if bool_decide (g ≠ []) then " by(" +:+ Join g ", " +:+ ") " else EmptyString) =
          (if w then " without" +:+ ("(" +:+ Join g ", " +:+ ")") +:+ " "
           else if bool_decide (g ≠ []) then " by" +:+ ("(" +:+ Join g ", " +:+ ")") +:+ " " else EmptyString)) as ->.
  { destruct w; [|case_bool_decide]; by rewrite ?string_app_assoc. }
  destruct param as [q|].
  - destruct (readable_prints q) as [sq Hsq]; [by apply Hq|]. exists [sq; se].
    split; [by do 2 (constructor; [assumption|])|].
    rewrite Hsq. cbn [fmt_s]. rewrite (bool_decide_eq_true_2 (is_Some (Some q))) by by eexists.
    change (Join [sq; se] ", ") with (sq +:+ ", " +:+ se). by rewrite !string_app_assoc.
  - exists [se]. split; [by constructor; [assumption|]|]. rewrite (bool_decide_eq_false_2 (is_Some None)) by by intros [].
    by rewrite !string_app_nil_l.
Qed.

Lemma runs_expr_aggregate op e param g w :
  readable_expr (AggregateExpr op (Some e) param g w) → runs_expr e → (∀ q, param = Some q → runs_expr q) →
  runs_expr (AggregateExpr op (Some e) param g w).
Proof.
  intros (Hop & Hgs & He & Hparam) IHe IHq u st d R gg c K l p Q s Hs Hu Hfits Hend Hd Hat Htok Hf Hbad Hrun.
  destruct (readable_prints e He) as [se Hse].
  assert (Promql.IsAggregatorWithParam op = bool_decide (is_Some param)) as Hp.
  { destruct param; [destruct Hparam as [-> _]; by rewrite bool_decide_eq_true_2 by by eexists|].
    rewrite Hparam. symmetry. apply bool_decide_eq_false. by intros []. }
  destruct (aggregate_text op e param g w se Hse Hp) as (ss & Hss & E).
  { intros q ->. apply Hparam. }
  rewrite E in Hs. injection Hs as <-. rewrite !string_app_assoc in Htok.
  cbn [fits] in Hfits. apply andb_true_iff in Hfits as [Hfe Hfq].
  eapply (runs_aggregate op e param g w u st d R gg c K ss Q); [done..| |done|done|done| |exact Hrun|exact Hat|exact Htok].
  - apply arguments_of; [|..|exact Hss].
    + destruct param; repeat constructor; try done. apply Hparam.
    + intros a Ha. destruct param as [q|]; rewrite !elem_of_cons, elem_of_nil in Ha; [|by destruct Ha as [->|[]]].
      destruct Ha as [->|[->|[]]]; [by apply IHq|done].
    + destruct param; cbn; by rewrite ?Hfe, ?Hfq.
  - intros Hc. apply Hbad. cbn [clean]. destruct param; cbn [List.forallb] in Hc; rewrite andb_true_r in Hc;
      [by rewrite andb_comm|by rewrite Hc].
Qed.
End ExprCompound.
