(* ===== verification/ExprBinary.v ===== *)
(** * Binary operators

    Between an operator and its right operand the parser decides on [bool]
    and the vector matching, with one token read ahead. *)
From S2P Require Import Prelude GoStrings GoFloat Regexp Matchers Promql Rewriting Errors.
From S2P Require Import GoTime Strutil Lexer LexerSpec ParserTables Parser ParserDriver.
From S2P Require Import Quoting SelectorLex SelectorParse Rereading ExprLex PrintedText ExprParse ExprShape.
From S2P Require Import ExprRuns ExprNodes ExprOperand ExprLists.
From Stdlib Require Import Ascii.
From stdpp Require Import options.

(** ** The states behind an operator *)
Definition op_next (c : Z) : Z := match goto_state 24 (op_shift c) with Done s => s | Panic _ => 0%Z end.
Definition op_rule (c : Z) : Z := entry yyDef (after_expr (op_next c)).
Definition matching_tokens : list Z := [ON; IGNORING] ++ first_tokens.

Record binary_op (c : Z) : Prop := BinaryOp {
  bo_reads : bool_decide (entry yyPact (op_shift c) ≤ yyFlag)%Z = false;
  bo_bool : shift_of (op_shift c) (token_of BOOL) = Some 118%Z;
  bo_rule : List.forallb (λ t, bool_decide (rule_of (op_shift c) (Some (token_of t)) = Some 41%Z)) matching_tokens = true;
  bo_goto : goto_state 26 (op_shift c) = Done 116%Z ∧ goto_state 36 (op_shift c) = Done 117%Z ∧
    goto_state 31 (op_shift c) = Done 115%Z ∧ goto_state 24 (op_shift c) = Done (op_next c);
  bo_next : bool_decide (op_next c ∈ expr_states) = true;
  bo_level : level (op_next c) = prec c;
  bo_prec : prec c ≠ 0;
  bo_default : bool_decide (0 < op_rule c)%Z = true;
  bo_length : idx yyR2 (op_rule c) = Done 4%Z;
  bo_left : idx yyR1 (op_rule c) = Done 25%Z;
}.

Lemma binary_ops_spec c : c ∈ binary_ops.*1 → binary_op c.
Proof.
  intros Hc. cbn in Hc.
  repeat (apply elem_of_cons in Hc as [->|Hc]; [constructor; first [by vm_compute|split_and!; by vm_compute]|]).
  inversion Hc.
Qed.

Section ExprBinary.
Context `{RE : RegexpEngine, !UnicodeTable}.
Implicit Types Q : outcome → Prop.

Lemma op_rule_action c (d : Z → yySymType) v p :
  c ∈ binary_ops.*1 →
  action (op_rule c) d v p =
    (n ← lift (newBinaryExpression (node_ (d 1%Z)) (item (d 2%Z)) (node_ (d 3%Z)) (node_ (d 4%Z)));
     mret (with_node n v)) p.
Proof.
  intros Hc. cbn in Hc. repeat (apply elem_of_cons in Hc as [->|Hc]; [reflexivity|]). inversion Hc.
Qed.

Lemma state_binary d op R :
  is_binary op = true → stops completes R → stops name_rune R →
  statement d Outside (ItemType_String op +:+ R) (token_of_text (op_token op) (ItemType_String op) d Outside R) ∧
  stops isSpace (ItemType_String op +:+ R).
Proof.
  intros Hop Hs Hn. destruct op; try done;
    (split; [first [by apply state_symbol; cbn; member|by apply state_comparison; [cbn; member|]
                   |match goal with |- statement _ _ (?w +:+ _) (token_of_text ?t _ _ _ _) =>
                      change t with (word_type w) end; by apply state_word]|by split]).
Qed.

(** ** What is read next

    [P] holds of the driver with a token that it has read, or reads next,
    which is one of [cs]. *)
Definition looks (cs : list Z) (P : option Z → parser → Prop) Q : Prop :=
  ∀ v st t p, bool_decide (entry yyPact (yys v) ≤ yyFlag)%Z = false → P t p →
    (∀ c p', c ∈ cs → P (Some (token_of c)) p' → runs (v :: st) (Some (token_of c)) p' Q) → runs (v :: st) t p Q.

(** An operand, or an error in its first token. *)
Definition right_operand g d T (ok : bool) (t : option Z) (p : parser) : Prop :=
  (∃ c, c ∈ first_tokens ∧ operand g d T c t p) ∨
  ok = false ∧ t = None ∧ ∃ c p', parser_Lex p = Done (c, p') ∧ parseErrors p' ≠ [].

Lemma right_operand_start l g p d T ok :
  at_lex l g p → at_token d Outside (" " +:+ T) l → first d T ok → right_operand g d T ok None p.
Proof.
  intros Hat Htok Hf. destruct (operand_start l g p d T ok Hat Htok Hf) as [Hop|[Hok Herr]]; [by left|by right].
Qed.

Lemma runs_lex_error v st p c p' Q :
  bool_decide (entry yyPact (yys v) ≤ yyFlag)%Z = false → parser_Lex p = Done (c, p') → parseErrors p' ≠ [] → bad Q →
  runs (v :: st) None p Q.
Proof. intros Hq Hlex Herr [Hb1 Hb2]. eapply runs_read; [done|exact Hlex|by apply runs_errors]. Qed.

Lemma right_operand_looks g d T ok Q : (ok = false → bad Q) → looks first_tokens (right_operand g d T ok) Q.
Proof.
  intros Hbad v st t p Hq [(c & Hc & Hop)|(Hok & -> & c & p' & Hlex & Herr)] Hrun.
  - eapply runs_operand_read; [done|exact Hop|]. intros p' Hop'. apply Hrun; [done|]. left. eauto.
  - eapply runs_lex_error; [done|exact Hlex|done|by apply Hbad].
Qed.

Lemma ahead_looks g d R c K Q : follows g d R c K → looks [c] (ahead g d R c K) Q.
Proof.
  intros Hf v st t p Hq Hah Hrun. eapply runs_ahead; [done|exact Hf|exact Hah|]. intros p' HK.
  apply Hrun; [by left|by left].
Qed.

(** ** Modifiers *)
Definition modifier_node (vm : VectorMatching) (b : bool) : node := NBinaryExpr 0 None None (Some vm) b.
Definition bool_text (b : bool) : string := if b then " bool" else EmptyString.

Lemma runs_bool v st o b d X P l g p Q :
  o ∈ binary_ops.*1 → yys v = op_shift o → looks matching_tokens P Q → stops name_rune X →
  at_lex l g p → at_token d Outside (bool_text b +:+ X) l →
  (∀ l p, at_lex l g p → at_token d Outside X l → P None p) →
  (∀ m t p, yys m = 116%Z → node_ m = Some (modifier_node default_matching b) → P t p → runs (m :: v :: st) t p Q) →
  runs (v :: st) None p Q.
Proof.
  intros Ho Hv HP HX Hat Htok Hnext Hrun. pose proof (binary_ops_spec o Ho) as Hb. destruct b; cbn [bool_text] in Htok.
  - eapply (runs_text v st l g p BOOL "bool" d Outside X 118);
      [rewrite Hv; apply Hb|rewrite Hv; apply Hb|done|exact Hat| |].
    { eapply (lexes_spaced d ("bool" +:+ X)); [by apply word_space|by apply state_word|exact Htok]. }
    intros i l1 p1 _ _ Hat1 Htok1.
    eapply (runs_reduce _ [] v st None p1 42 26 116); [reflexivity..|rewrite Hv; apply Hb|].
    eexists _, p1. split; [reflexivity|]. apply Hrun; [done|done|]. by eapply Hnext.
  - rewrite string_app_nil_l in Htok. pose proof (Hnext l p Hat Htok) as HPp.
    eapply HP; [rewrite Hv; apply Hb|exact HPp|]. intros c p1 Hc HP1.
    assert (rule_of (yys v) (Some (token_of c)) = Some 41%Z) as Hr.
    { pose proof (bo_rule _ Hb) as Hall. rewrite forallb_forall in Hall. rewrite Hv.
      by apply (bool_decide_eq_true_1 (_ = _)), Hall, list_elem_of_In. }
    eapply (runs_reduce_empty v st _ p1 41 26 116); [exact Hr|reflexivity|reflexivity|rewrite Hv; apply Hb|].
    intros y. eexists _, p1. split; [reflexivity|]. by apply Hrun.
Qed.

(** The modifiers end before the operand. *)
Lemma runs_modifiers_end m v st o t p Q :
  o ∈ binary_ops.*1 → yys v = op_shift o → yys m = 115%Z →
  (∀ w, yys w = op_next o → node_ w = node_ m → runs (w :: v :: st) t p Q) → runs (m :: v :: st) t p Q.
Proof.
  intros Ho Hv Hm Hrun. pose proof (binary_ops_spec o Ho) as Hb.
  eapply (runs_reduce m [] v st t p 40 24); [rewrite Hm; reflexivity|reflexivity..|rewrite Hv; apply Hb|].
  eexists _, p. split; [reflexivity|]. by apply Hrun.
Qed.

Lemma runs_unmatched m v st o P t p Q :
  o ∈ binary_ops.*1 → yys v = op_shift o → yys m ∈ [116; 117]%Z → looks first_tokens P Q → P t p →
  (∀ w t p, yys w = op_next o → node_ w = node_ m → P t p → runs (w :: v :: st) t p Q) → runs (m :: v :: st) t p Q.
Proof.
  intros Ho Hv Hm HP HPp Hrun. pose proof (binary_ops_spec o Ho) as Hb.
  eapply HP; [|exact HPp|].
  { repeat (apply elem_of_cons in Hm as [->|Hm]; [reflexivity|]). inversion Hm. }
  intros c p1 Hc HP1.
  assert (rule_of (yys m) (Some (token_of c)) = Some (if bool_decide (yys m = 116) then 45 else 46)%Z) as Hr.
  { clear -Hc Hm. unfold first_tokens in Hc.
    repeat (apply elem_of_cons in Hm as [->|Hm];
      [repeat (apply elem_of_cons in Hc as [->|Hc]; [reflexivity|]); inversion Hc|]). inversion Hm. }
  eapply (runs_reduce m [] v st _ p1 _ 31 115); [exact Hr|by case_bool_decide|by case_bool_decide|rewrite Hv; apply Hb|].
  exists m, p1. split; [by case_bool_decide|]. eapply (runs_modifiers_end _ v st o); [done|done|done|].
  intros w Hw Hn. by apply Hrun.
Qed.

Definition on_text (on : bool) : string := if on then "on" else "ignoring".
Definition group_card (left : bool) : VectorMatchCardinality := if left then CardManyToOne else CardOneToMany.
Definition group_text (left : bool) : string := if left then "group_left" else "group_right".

Lemma runs_labels m v st o (on : bool) ls b d X g t p Q :
  o ∈ binary_ops.*1 → yys v = op_shift o → yys m = 116%Z → node_ m = Some (modifier_node default_matching b) →
  Forall (λ l, label_ok l = true) ls → (0 ≤ d)%Z →
  ahead g d (" " +:+ on_text on +:+ grouping_text ls +:+ X) (word_type (on_text on))
    (after_token g (at_token d Outside (grouping_text ls +:+ X))) t p →
  (∀ w l p, yys w = 117%Z → node_ w = Some (modifier_node (MkVectorMatching CardOneToOne ls on []) b) →
     at_lex l g p → at_token d Outside X l → runs (w :: v :: st) None p Q) →
  runs (m :: v :: st) t p Q.
Proof.
  intros Ho Hv Hm Hn Hls Hd Hah Hrun. pose proof (binary_ops_spec o Ho) as Hb.
  assert (follows g d (" " +:+ on_text on +:+ grouping_text ls +:+ X) (word_type (on_text on))
    (after_token g (at_token d Outside (grouping_text ls +:+ X)))) as Hf
    by (apply follows_word; [by destruct on|by split|by destruct on]).
  eapply runs_ahead; [by rewrite Hm|exact Hf|exact Hah|].
  intros p1 (l1 & Hat1 & Htok1).
  apply (runs_shift m _ _ p1 (if on then 172 else 171)%Z); [rewrite Hm; by destruct on|].
  eapply (runs_grouping _ _ ls d X l1 g p1 Q (if on then 232 else 231)%Z);
    [destruct on; unfold group_states; cbn; member|by destruct on|exact Hls|exact Hd|exact Hat1|exact Htok1|].
  intros x l2 p2 Hx Hxs Hat2 Htok2.
  eapply (runs_reduce x [_; m] v st None p2 (if on then 44 else 43)%Z 36 117);
    [rewrite Hx; by destruct on|by destruct on|by destruct on|rewrite Hv; apply Hb|].
  exists (with_node (modifier_node (MkVectorMatching CardOneToOne ls on []) b) m), p2. split; [|by eapply Hrun].
  destruct on; [change (action 44 _ _ p2) with ((n ← lift (set_vm (λ vm, MkVectorMatching (Card vm) (strings x) true (Include vm)) (node_ m));
      mret (with_node n m)) p2)|
    change (action 43 _ _ p2) with ((n ← lift (set_vm (λ vm, MkVectorMatching (Card vm) (strings x) (On vm) (Include vm)) (node_ m));
      mret (with_node n m)) p2)]; by rewrite Hn, Hxs.
Qed.

Lemma runs_group m v st o (left on : bool) ls incl b d X l g p Q :
  o ∈ binary_ops.*1 → yys v = op_shift o → yys m = 117%Z →
  node_ m = Some (modifier_node (MkVectorMatching CardOneToOne ls on []) b) →
  Forall (λ l, label_ok l = true) incl → (0 ≤ d)%Z →
  at_lex l g p → at_token d Outside (" " +:+ group_text left +:+ grouping_text incl +:+ X) l →
  (∀ w l p, yys w = op_next o → node_ w = Some (modifier_node (MkVectorMatching (group_card left) ls on incl) b) →
     at_lex l g p → at_token d Outside X l → runs (w :: v :: st) None p Q) →
  runs (m :: v :: st) None p Q.
Proof.
  intros Ho Hv Hm Hn Hincl Hd Hat Htok Hrun. pose proof (binary_ops_spec o Ho) as Hb.
  assert (is_word (group_text left) = true) as Hword by by destruct left.
  eapply (runs_text m _ l g p (word_type (group_text left)) (group_text left) d Outside _ (if left then 173 else 174)%Z);
    [by rewrite Hm|rewrite Hm; by destruct left|by destruct left|exact Hat| |].
  { eapply (lexes_spaced d (group_text left +:+ grouping_text incl +:+ X)); [by apply word_space|apply state_word; [done|by split]|exact Htok]. }
  intros i l1 p1 _ _ Hat1 Htok1.
  eapply (runs_grouping _ _ incl d X l1 g p1 Q 234);
    [destruct left; unfold group_states; cbn; member|by destruct left|exact Hincl|exact Hd|exact Hat1|exact Htok1|].
  intros x l2 p2 Hx Hxs Hat2 Htok2.
  eapply (runs_reduce x [] _ _ None p2 181 15 (if left then 233 else 235)%Z);
    [by rewrite Hx|reflexivity|reflexivity|by destruct left|].
  eexists _, p2. split; [reflexivity|].
  eapply (runs_reduce _ [_; m] v st None p2 (if left then 47 else 48)%Z 31 115);
    [by destruct left|by destruct left|by destruct left|rewrite Hv; apply Hb|].
  exists (with_node (modifier_node (MkVectorMatching (group_card left) ls on incl) b) m), p2. split.
  - destruct left; [change (action 47 _ _ p2) with ((n ← lift (set_vm (λ vm, MkVectorMatching CardManyToOne (MatchingLabels vm) (On vm)
                                (strings x)) (node_ m)); mret (with_node n m)) p2)|
      change (action 48 _ _ p2) with ((n ← lift (set_vm (λ vm, MkVectorMatching CardOneToMany (MatchingLabels vm) (On vm)
                                (strings x)) (node_ m)); mret (with_node n m)) p2)]; by rewrite Hn, Hxs.
  - eapply (runs_modifiers_end _ v st o); [done|done|done|]. intros w Hw Hnw. by eapply Hrun.
Qed.

(** ** The whole of the modifiers *)
Definition is_left (c : VectorMatchCardinality) : bool := match c with CardManyToOne => true | _ => false end.
Definition matching_text (vm : VectorMatching) : string :=
  " " +:+ on_text (On vm) +:+ grouping_text (MatchingLabels vm) +:+
  (if is_grouped (Card vm) then
     " " +:+ group_text (is_left (Card vm)) +:+ grouping_text (Include vm)
   else EmptyString).

Lemma VectorMatching_text vm :
  VectorMatching_String (Some vm) =
    if bool_decide (MatchingLabels vm ≠ []) || On vm then matching_text vm else EmptyString.
Proof.
  unfold VectorMatching_String, matching_text, grouping_text. destruct (_ || _); [|done].
  destruct (On vm), (Card vm); cbn [is_grouped on_text]; by rewrite ?string_app_nil_r, ?string_app_assoc.
Qed.

Lemma runs_matching v st o vm b T ok d g l p Q :
  o ∈ binary_ops.*1 → yys v = op_shift o → match vm with Some vm => matching_ok vm | None => True end → (0 ≤ d)%Z →
  first d T ok → (ok = false → bad Q) → at_lex l g p →
  at_token d Outside (bool_text b +:+ VectorMatching_String vm +:+ " " +:+ T) l →
  (∀ w t p, yys w = op_next o → node_ w = Some (modifier_node (parsed_matching vm) b) → right_operand g d T ok t p →
     runs (w :: v :: st) t p Q) →
  runs (v :: st) None p Q.
Proof.
  intros Ho Hv Hvm Hd Hfirst Hbad Hat Htok Hrun.
  assert (∀ l p, at_lex l g p → at_token d Outside (" " +:+ T) l → right_operand g d T ok None p) as Hstart.
  { intros l1 p1 Hat1 Htok1. by eapply right_operand_start. }
  pose proof (right_operand_looks g d T ok Q Hbad) as Hlooks.
  assert (parsed_matching vm = default_matching ∧ VectorMatching_String vm = EmptyString ∨
    ∃ m, vm = Some m ∧ VectorMatching_String vm = matching_text m ∧
      parsed_matching vm = MkVectorMatching (if is_grouped (Card m) then Card m else CardOneToOne) (MatchingLabels m)
        (On m) (Include m)) as [[Hp Ht]|(m & -> & Ht & Hp)].
  { destruct vm as [m|]; [|by left]. rewrite VectorMatching_text. unfold parsed_matching. destruct (_ || _); [right|by left].
    by exists m. }
  - rewrite Ht, string_app_nil_l in Htok. rewrite Hp in Hrun.
    eapply (runs_bool v st o b d (" " +:+ T) (right_operand g d T ok)); [done|done| |by split|exact Hat|exact Htok|done|].
    { intros u st' t q Hq HP Hr. eapply Hlooks; [done|exact HP|]. intros c q' Hc. apply Hr.
      apply elem_of_app. by right. }
    intros u t q Hu Hnu HP.
    eapply (runs_unmatched u v st o); [done|done|rewrite Hu; member|exact Hlooks|exact HP|].
    intros w t' q' Hw Hnw. apply Hrun; [done|by rewrite Hnw].
  - destruct Hvm as (Hls & Hincl & Hcard). rewrite Ht in Htok. unfold matching_text in Htok. rewrite !string_app_assoc in Htok.
    set (X2 := (if is_grouped (Card m) then _ else _) +:+ " " +:+ T) in Htok.
    assert (follows g d (" " +:+ on_text (On m) +:+ grouping_text (MatchingLabels m) +:+ X2) (word_type (on_text (On m)))
      (after_token g (at_token d Outside (grouping_text (MatchingLabels m) +:+ X2)))) as Hf
      by (apply follows_word; [by destruct (On m)|by split|by destruct (On m)]).
    eapply (runs_bool v st o b d _ _ l g p Q Ho Hv); [| |exact Hat|exact Htok| |].
    { intros u st' t q Hq HP Hr. eapply (ahead_looks _ _ _ _ _ Q Hf); [done|exact HP|]. intros c q' Hc.
      apply Hr. apply list_elem_of_singleton in Hc as ->. unfold matching_tokens. destruct (On m); cbn; member. }
    { by split. }
    { intros l1 p1 Hat1 Htok1. right. split; [done|]. eauto. }
    intros u t q Hu Hnu HP.
    eapply (runs_labels u v st o (On m) (MatchingLabels m) b d X2 g t q Q); [done..|exact HP|].
    clear l p Hat Htok u t q Hu Hnu HP. intros u l p Hu Hnu Hat Htok. unfold X2 in Htok.
    destruct (is_grouped (Card m)) eqn:Hgr.
    + rewrite !string_app_assoc in Htok.
      eapply (runs_group u v st o (is_left (Card m)) (On m)); [done..|exact Hat|exact Htok|].
      intros w l1 p1 Hw Hnw Hat1 Htok1. apply Hrun; [done| |by eapply Hstart].
      rewrite Hnw, Hp. by destruct (Card m).
    + rewrite string_app_nil_l in Htok. rewrite Hcard in Hp.
      eapply (runs_unmatched u v st o (right_operand g d T ok)); [done|done|rewrite Hu; member|exact Hlooks|by eapply Hstart|].
      intros w t' q' Hw Hnw. apply Hrun; [done|by rewrite Hnw, Hnu, Hp].
Qed.

(** The operator behind a space. *)
Lemma follows_binary g d op X :
  is_binary op = true → stops completes X → stops name_rune X →
  follows g d (" " +:+ ItemType_String op +:+ X) (op_token op) (behind g (op_token op) d Outside X).
Proof.
  intros Hop Hc Hn. destruct (state_binary d op X Hop Hc Hn) as [Hst Hs].
  apply (follows_text g d _ _ (ItemType_String op)); [by destruct op|]. intros l. by apply lexes_spaced.
Qed.

Lemma modifiers_stop b vm X f :
  f (rune " ") = false → stops f (bool_text b +:+ VectorMatching_String vm +:+ " " +:+ X).
Proof.
  intros Hf. assert (stops f (VectorMatching_String vm +:+ " " +:+ X)) as Hs.
  { destruct vm as [vm|]; [|by split]. rewrite VectorMatching_text. by destruct (_ || _). }
  by destruct b.
Qed.

Lemma runs_expr_binary op l r vm b :
  readable_expr (BinaryExpr op l r vm b) → runs_expr l → runs_expr r → runs_expr (BinaryExpr op l r vm b).
Proof.
  intros (Hop & Hvm & Hl & Hr) IHl IHr u st d R g c K lx p Q s He Hu Hfits Hend Hd Hat Htok Hf Hbad Hrun.
  pose proof (expr_states_spec _ Hu) as Hes. pose proof (is_binary_token op Hop) as Ho.
  pose proof (binary_ops_spec _ Ho) as Hb.
  destruct (readable_prints l Hl) as [sl Hsl], (readable_prints r Hr) as [sr Hsr].
  cbn [String_] in He. rewrite Hsl, Hsr in He. injection He as <-. cbn [fmt_s] in Htok.
  fold (bool_text b) in Htok. rewrite !string_app_assoc in Htok.
  cbn [fits] in Hfits. rewrite !andb_true_iff, negb_true_iff in Hfits. destruct Hfits as [[[Hopen Hfl] Hfr] Hclose].
  set (X := bool_text b +:+ VectorMatching_String vm +:+ " " +:+ sr +:+ R) in *.
  assert (follows g d (" " +:+ ItemType_String op +:+ X) (op_token op) (behind g (op_token op) d Outside X)) as Hfo
    by by apply follows_binary; [|apply modifiers_stop..].
  eapply (IHl u st d _ g (op_token op) _ lx p Q sl Hsl); [done|exact Hfl| |done|exact Hat|exact Htok|exact Hfo| |].
  { split; [by split|]. clear -Ho. intros Hc. revert Ho.
    repeat (apply elem_of_cons in Hc as [->|Hc]; [by apply (bool_decide_eq_false_1 (_ ∈ _))|]). inversion Hc. }
  { intros Hc. apply Hbad. cbn. by rewrite Hc. }
  intros wl nl t p1 Hwl Hnl Hreadsl Hah. pose proof (reads_as_Expr _ _ _ Hreadsl) as Hasl.
  eapply (runs_behind wl _ _ _ _ (op_token op)); [rewrite Hwl; apply Hes|rewrite Hwl; by apply op_shifts|exact Hfo|exact Hah|].
  intros o l2 p2 Hto Hat2 Htok2.
  eapply (runs_matching (leaf _ o) _ (op_token op) vm b (sr +:+ R) (clean r) d g l2 p2 Q);
    [done|done|done|done|by apply first_token; [..|apply Hend]| |exact Hat2|exact Htok2|].
  { intros Hc. apply Hbad. cbn. by rewrite Hc, andb_false_r. }
  intros wm t3 p3 Hwm Hnm [(c3 & _ & Hop3)|(Hok & -> & c3 & p' & Hlex & Herr)]; pose proof (bo_next _ Hb) as Hnext;
    apply bool_decide_eq_true in Hnext; rewrite <- Hwm in Hnext; pose proof (expr_states_spec _ Hnext) as Hesn.
  2: { eapply runs_lex_error; [apply Hesn|exact Hlex|exact Herr|]. apply Hbad. cbn. by rewrite Hok, andb_false_r. }
  eapply runs_operand; [apply Hesn|exact Hop3|]. intros l4 p4 Hat4 Htok4.
  assert (level (yys wm) = prec (op_token op)) as Hlevel by (rewrite Hwm; apply Hb).
  eapply (IHr wm _ d R g c K l4 p4 Q sr Hsr); [done|by rewrite Hlevel|exact Hend|done|exact Hat4|exact Htok4|exact Hf| |].
  { intros Hc. apply Hbad. cbn. by rewrite Hc, andb_false_r. }
  intros wr nr t5 p5 Hwr Hnr Hreadsr Hah5. pose proof (reads_as_Expr _ _ _ Hreadsr) as Hasr.
  eapply runs_ahead; [rewrite Hwr; apply Hesn|exact Hf|exact Hah5|]. intros p6 HK.
  eapply (runs_reduce wr [wm; leaf _ o; wl] u st _ p6 (op_rule (op_token op)) 25 35); [|apply Hb|apply Hb|apply Hes|].
  { rewrite Hwr, Hwm. apply rule_of_unshifted; [|by apply (bool_decide_eq_true_1 _ (bo_default _ Hb))].
    rewrite <- Hwm. apply op_reduces; [done|rewrite Hlevel; apply Hb|by rewrite Hlevel]. }
  exists (with_node (NBinaryExpr (op_token op) (Some nl) (Some nr) (Some (parsed_matching vm)) b) wl), p6. split.
  - rewrite op_rule_action by done.
    change (newBinaryExpression _ _ _ _) with (newBinaryExpression (node_ wl) o (node_ wm) (node_ wr)).
    rewrite Hnl, Hnm, Hnr. unfold newBinaryExpression, modifier_node. rewrite Hasl, Hasr, Hto. reflexivity.
  - eapply (runs_unit _ u st); [done|unfold unit_rules; cbn; member|].
    eapply Hrun; [done|reflexivity| |by left].
    pose proof (ReadsBinary as_parsed (op_token op) l nl r nr vm (Some (parsed_matching vm)) b) as HR.
    rewrite item_type_token in HR by by rewrite Hop. by apply HR.
Qed.

End ExprBinary.
