(* ===== verification/Requery.v ===== *)
(** * Printed queries are read again

    [ParseExpr] on the text of a tree: the driver reads it ([ExprRuns] and
    the files behind it), and the checks keep what was read.  With
    [Rewriting]: what Prometheus reads from the text that [ModifyExpression]
    gives is confined. *)
From S2P Require Import Prelude GoStrings GoFloat Regexp DataSet Matchers Prom Restriction Promql Rewriting Errors.
From S2P Require Import GoTime Strutil Lexer LexerSpec ParserTables Parser ParserDriver ParserSpec.
From S2P Require Import Quoting SelectorLex SelectorParse Rereading ExprLex PrintedText ExprParse ExprShape.
From S2P Require Import ExprRuns ExprNodes ExprOperand RestrictedText ExprLists ExprCompound ExprBinary Typing.
From Stdlib Require Import Ascii.
From stdpp Require Import options.

Section Requery.
Context `{RE : RegexpEngine, !UnicodeTable}.

(** ** The driver *)
Lemma expression_read e : readable_expr e → runs_expr e.
Proof.
  induction e as [e IH] using Expr_children_ind. intros He.
  destruct e as [op e p g w|op l r vm b|f args|e r|e r o s|v|e|s|op e|n o ms].
  - pose proof He as (_ & _ & Hchild & Hparam). destruct e as [e|]; [|done].
    apply runs_expr_aggregate; [done|apply IH; [destruct p; cbn; member|done]|].
    intros q ->. apply IH; [cbn; member|apply Hparam].
  - pose proof He as (_ & _ & Hl & Hr). apply runs_expr_binary; [done|apply IH; [cbn; member|done]..].
  - destruct He as [Hf Hargs]. rewrite (foldr_and readable_expr) in Hargs. apply runs_expr_call; [done..|].
    intros a Ha. apply IH; [done|]. rewrite Forall_forall in Hargs. by apply Hargs.
  - destruct e as [| | | | | | | | |n o ms]; try by destruct He. destruct He as [[Hms Ho] Hr]. by apply runs_expr_matrix.
  - destruct He as (He & Hr & Ho & Hs). destruct (readable_prints e He) as [se Hse].
    eapply runs_expr_subquery; [exact Hse|apply IH; [cbn; member|done]|done..].
  - by apply runs_expr_number.
  - destruct (readable_prints e He) as [se Hse]. eapply runs_expr_paren; [exact Hse|]. apply IH; [cbn; member|done].
  - apply runs_expr_string.
  - destruct He as [Hop He]. destruct (readable_prints e He) as [se Hse].
    eapply runs_expr_unary; [done|exact Hse|]. apply IH; [cbn; member|done].
  - destruct He as [Hms Ho]. by apply runs_expr_selector.
Qed.

(** What the driver leaves on the text of [e]. *)
Definition left_by (e : Expr) (o : outcome) : Prop :=
  match o with
  | Done (_, p) =>
      parseErrors p = [] ∧ (∃ n, generatedParserResult p = Some n ∧ reads as_parsed e n) ∨
      parseErrors p ≠ [] ∧ clean e = false
  | Panic _ => clean e = false
  end.

Lemma expression_outcome e s :
  readable_expr e → fits 0 e EOF = true → String_ e = Done s →
  left_by e (yyParse (turns (String.length s)) yyinit (MkParser (Lex s) START_EXPRESSION true 0 None [])).
Proof.
  intros He Hfits Hs. apply runs_init, runs_start; [by right|]. intros b v0 p Hb Hv0 Hat.
  change (yys b = 4%Z) in Hb.
  eapply (expression_read e He b [v0] 0%Z EmptyString None EOF (at_end None)); [exact Hs| | | | |exact Hat| | | |].
  - rewrite Hb. unfold expr_states. cbn. member.
  - by rewrite Hb.
  - split; [done|]. by apply (bool_decide_eq_false_1 (EOF ∈ _)).
  - done.
  - rewrite string_app_nil_r. apply Lex_at_token.
  - apply follows_end.
  - intros Hc. split; [done|]. intros c p' Hp. by right.
  - intros w n t p' Hw Hn Hreads Hah. rewrite Hb in Hw. eapply (runs_expression_end w b v0 n); try done.
    intros p2 Hp2 Hg. left. split; [done|]. by exists n.
Qed.

(** ** The tree that comes back *)
Definition any_matching (vm vm' : option VectorMatching) : Prop := True.

Lemma reads_weaken V (V' : option VectorMatching → option VectorMatching → Prop) e n :
  (∀ vm vm', V vm vm' → V' vm vm') → reads V e n → reads V' e n.
Proof.
  intros HV. revert n. induction e as [e IH] using Expr_children_ind. intros n Hn.
  destruct Hn; constructor; try done; auto; try (apply IH; [cbn; member|done]).
  apply Forall2_same_length_lookup. split; [by eapply Forall2_length|]. intros i a m Ha Hm.
  apply IH; [by eapply list_elem_of_lookup_2|]. by eapply (Forall2_lookup_lr (reads V)).
Qed.

Lemma rematched_reads e n n' : reads any_matching e n → rematched n n' → reads any_matching e n'.
Proof.
  revert n n'. induction e as [e IH] using Expr_children_ind. intros n n' Hn Hm.
  destruct Hn; inversion Hm; subst; try (by constructor);
    repeat match goal with H : option_Forall2 _ (Some _) _ |- _ => inversion_clear H end;
    try match goal with H : option_Forall2 _ None _ |- _ => inversion_clear H end;
    constructor; try done; try (eapply IH; [cbn; member|eassumption|assumption]).
  apply Forall2_same_length_lookup. split; [by etrans; eapply Forall2_length|]. intros i a m Ha Hm'.
  match goal with H1 : Forall2 (reads _) _ _, H2 : Forall2 rematched _ _ |- _ =>
    destruct (Forall2_lookup_r _ _ _ _ _ H2 Hm') as (m0 & Hm0 & Hr);
    eapply IH; [by eapply list_elem_of_lookup_2|by eapply (Forall2_lookup_lr (reads _) _ _ i)|exact Hr] end.
Qed.

Definition same_selector (ms l : list Labels.Matcher) : Prop := ∀ m, m ∈ l ↔ m ∈ ms.

Lemma mapM_to_Expr args args' (R : Expr → Expr → Prop) V :
  Forall2 (reads V) args args' → (∀ a n, a ∈ args → reads V a n → ∃ a', to_Expr n = Some a' ∧ R a a') →
  ∃ es, mapM to_Expr args' = Some es ∧ Forall2 R args es.
Proof.
  induction 1 as [|a n args args' Ha _ IH]; intros HR; [by exists []|].
  destruct (HR a n) as (a' & Ha' & HRa); [by left|done|]. destruct IH as (es & Hes & HF).
  { intros b m Hb. apply HR. by right. }
  exists (a' :: es). split; [|by constructor]. cbn. rewrite Ha'. cbn. by rewrite Hes.
Qed.

Lemma reads_to_Expr V e n :
  reads V e n →
  ∃ e', to_Expr n = Some e' ∧ Forall2 same_selector (selectors e) (selectors e') ∧
        ((∀ vm vm', V vm vm' → vm' = vm) → erase e' = erase e).
Proof.
  revert n. induction e as [e IH] using Expr_children_ind. intros n Hn.
  destruct Hn as [t e n g w r Ht Hn|t e n p q g w r Ht Hn Hq|t l l' r r' vm vm' b Ht Hl Hr Hvm|f args args' r Hargs
    |name o ms n range r Hn|e n range o step r Hn|v r|e n r Hn|s r|t e n r Ht Hn|name o ms l r Hwf [Hsame _]].
  - destruct (IH e) with (2 := Hn) as (e' & He & Hs & Her); [cbn; member|]. cbn. rewrite He. cbn.
    eexists. split_and!; [done|cbn [selectors]; by rewrite !app_nil_r|]. intros HV. cbn. by rewrite (Her HV).
  - destruct (IH e) with (2 := Hn) as (e' & He & Hs & Her); [cbn; member|].
    destruct (IH p) with (2 := Hq) as (p' & Hp & Hsp & Hep); [cbn; member|]. cbn. rewrite He, Hp. cbn.
    eexists. split_and!; [done|by apply Forall2_app|]. intros HV. cbn. by rewrite (Her HV), (Hep HV).
  - destruct (IH l) with (2 := Hl) as (e' & He & Hs & Her); [cbn; member|].
    destruct (IH r) with (2 := Hr) as (p' & Hp & Hsp & Hep); [cbn; member|]. cbn. rewrite He, Hp. cbn.
    eexists. split_and!; [done|by apply Forall2_app|]. intros HV. cbn. by rewrite (Her HV), (Hep HV), (HV vm vm').
  - destruct (mapM_to_Expr args args' (λ a a', Forall2 same_selector (selectors a) (selectors a') ∧
      ((∀ vm vm', V vm vm' → vm' = vm) → erase a' = erase a)) V Hargs) as (es & Hes & HF).
    { intros a n Ha Hn. apply IH; [done|exact Hn]. }
    rewrite to_Expr_call, Hes. eexists. split_and!; [reflexivity| |].
    + cbn [selectors]. eapply Forall2_flat_map; [|exact HF]. by intros a a' _ [].
    + intros HV. cbn [erase]. f_equal. change (erase <$> es = erase <$> args). symmetry.
      apply list_eq_Forall2, Forall2_fmap. eapply Forall2_impl; [exact HF|]. intros a a' [_ Ha]. symmetry. by apply Ha.
  - destruct (IH (VectorSelector name o ms)) with (2 := Hn) as (e' & He & Hs & Her); [cbn; member|].
    cbn [to_Expr]. rewrite He. eexists. split_and!; [reflexivity|done|]. intros HV. cbn [erase]. by rewrite (Her HV).
  - destruct (IH e) with (2 := Hn) as (e' & He & Hs & Her); [cbn; member|]. cbn. rewrite He. cbn.
    eexists. split_and!; [done|done|]. intros HV. cbn. by rewrite (Her HV).
  - eexists. by split_and!.
  - destruct (IH e) with (2 := Hn) as (e' & He & Hs & Her); [cbn; member|]. cbn. rewrite He. cbn.
    eexists. split_and!; [done|done|]. intros HV. cbn. by rewrite (Her HV).
  - eexists. by split_and!.
  - destruct (IH e) with (2 := Hn) as (e' & He & Hs & Her); [cbn; member|]. cbn. rewrite He. cbn.
    eexists. split_and!; [done|done|]. intros HV. cbn. by rewrite (Her HV).
  - rewrite to_Expr_selector. eexists. split_and!; [done| |done]. by repeat constructor; apply Hsame.
Qed.

(** ** ParseExpr *)
Lemma reads_parse_expr V e n p :
  reads V e n → parseErrors p = [] → generatedParserResult p = Some n →
  (match generatedParserResult p with
   | Some (Expressions_ _) => Panic bad_assertion
   | Some e => if bool_decide (length (parseErrors p) = 0)
               then '(te, p) ← checkAST e p; Done (Some te.2, p) else Done (Some e, p)
   | None => if bool_decide (length (parseErrors p) = 0) then Panic nil_dereference else Done (None, p)
   end) = ('(te, p) ← checkAST n p; Done (Some te.2, p)).
Proof. intros Hn He ->. rewrite He. by destruct Hn. Qed.

(** A tree that its text gives back. *)
Definition rereadable (e : Expr) : Prop := readable_expr e ∧ fits 0 e EOF = true.

(** What a parser reads from the text of [e]: a tree whose selectors stand
    in the relation [R] to those of [e] and which is [e] otherwise, if [e]
    passes the checks; or nothing, if a string or value is not plain or [e]
    does not pass them. *)
Definition read_as (R : list Labels.Matcher → list Labels.Matcher → Prop) (e : Expr) (read : result error Expr) : Prop :=
  match read with
  | Ok e' => Forall2 R (selectors e) (selectors e') ∧ (typed e → erase e' = erase e)
  | Error _ => clean e = false ∨ ¬ typed e
  end.

(** A parser that reads what was printed. *)
Definition reads_printed (parse : string → result error Expr) : Prop :=
  ∀ e s, rereadable e → String_ e = Done s → read_as same_selector e (parse s).

Lemma ParseExpr_printed : reads_printed Parser.ParseExpr.
Proof.
  intros e s [He Hfits] Hs. pose proof (expression_outcome e s He Hfits Hs) as Ho.
  unfold read_as, Parser.ParseExpr, recovered. rewrite parse_expr_run.
  destruct (yyParse _ _ _) as [[c p]|q]; [|by left]. destruct Ho as [[Hno (n & Hg & Hn)]|[Herr Hc]].
  - rewrite (reads_parse_expr _ _ _ _ Hn Hno Hg).
    assert (∀ x, typed e → checkAST n p = x → ∃ n', x = Done ((Type_ e, n'), p) ∧ reads same_matching e n') as Htyped.
    { intros x Ht <-. by apply checkAST_typed. }
    destruct (checkAST n p) as [[[t n'] p']|q] eqn:Hcheck; cbn [mbind go_bind snd].
    + destruct (parseErrors p') eqn:He'.
      * destruct (reads_to_Expr any_matching e n') as (e' & Hto & Hsel & _).
        { eapply rematched_reads; [by eapply reads_weaken; [|exact Hn]|]. by apply (gives_checkAST n p (t, n') p'). }
        unfold mbind, option_bind. rewrite Hto. split; [done|]. intros Ht.
        destruct (Htyped _ Ht eq_refl) as (n1 & [= _ -> _] & Hn1).
        destruct (reads_to_Expr same_matching e n1 Hn1) as (e1 & Hto1 & _ & Her).
        rewrite Hto in Hto1. injection Hto1 as <-. by apply Her.
      * right. intros Ht. destruct (Htyped _ Ht eq_refl) as (n1 & [= _ _ ->] & _). congruence.
    + right. intros Ht. by destruct (Htyped _ Ht eq_refl) as (n1 & [=] & _).
  - destruct (match generatedParserResult p with Some _ => _ | None => _ end) as [[x p']|] eqn:Hx; [|by left].
    assert (parseErrors p' = parseErrors p) as ->.
    { rewrite bool_decide_eq_false_2 in Hx by (by destruct (parseErrors p)).
      destruct (generatedParserResult p) as [[]|]; try done; by injection Hx as _ <-. }
    destruct (parseErrors p); [done|by left].
Qed.

(** ** The restricted tree *)

(** What a parser reads from the text of a restricted tree. *)
Lemma read_restricted `{!RegexpLiterals} parse S e e' text :
  reads_printed parse → namespace_set S → rereadable e → restrict S e = Done e' → String_ e' = Done text →
  read_as (confined S) e (parse text).
Proof.
  intros Hparse HS [He Hfits] Hr Ht. pose proof (readable_wf e He) as Hwf.
  pose proof (restrict_readable S e e' HS He Hr) as He'. pose proof (restrict_erase S e e' Hr) as Her.
  pose proof (filtered_selectors_confined S e e' HS Hwf Hr) as Hconf.
  assert (fits 0 e' EOF = true) as Hfits' by by rewrite <- fits_erase, Her, fits_erase.
  assert (typed e → typed e') as Htyped by (intros Hty; by apply (restrict_typed S e e')).
  pose proof (Hparse e' text (conj He' Hfits') Ht) as Hp. unfold read_as in *.
  destruct (parse text) as [e2|].
  - destruct Hp as [Hsel Hp]. split; [|intros Hty; by rewrite Hp by by apply Htyped].
    apply Forall2_same_length_lookup. split; [by rewrite (Forall2_length _ _ _ Hconf), (Forall2_length _ _ _ Hsel)|].
    intros i ms l Hi Hl. destruct (Forall2_lookup_l _ _ _ _ _ Hconf Hi) as (ms' & Hi' & Hc).
    pose proof (Forall2_lookup_lr _ _ _ _ _ _ Hsel Hi' Hl) as Hsame. cbn beta in Hsame.
    intros series Hs. rewrite (selects_members l ms'); [by apply Hc|done].
  - destruct Hp as [Hc|Hn]; [left|right; tauto]. apply not_true_is_false. intros Hp.
    by rewrite (restrict_clean S e e' HS He Hp Hr) in Hc.
Qed.

(** ** Properties *)

(** C5. Printing then parsing a query: [ParseExpr] on the text that
    [String] gives for a tree (aggregations, calls, binary operators with
    their matchings, range selectors, subqueries, offsets, numbers, strings,
    signs and parentheses) reads the tree again, with the same matchers in
    each selector, or refuses the text, and this only if some string or
    value is not plain.  The tree must pass the checks ([typed]), its
    operators nest by precedence ([fits]), and it must be one that the
    printer keeps ([readable_expr]): names, numbers and durations that the
    lexer reads as they are printed, and no grouping with [group_left] or
    [group_right] behind an empty [ignoring], which the printer drops
    ([matching_ok]). *)
Theorem printed_query_reread (e : Expr) (text : string)
    (He : rereadable e) (Hty : typed e) (Ht : String_ e = Done text) :
  match Parser.ParseExpr text with
  | Ok e' => erase e' = erase e ∧ Forall2 (λ ms l, ∀ m, m ∈ l ↔ m ∈ ms) (selectors e) (selectors e')
  | Error _ => clean e = false
  end.
Proof.
  pose proof (ParseExpr_printed e text He Ht) as Hp. unfold read_as in Hp.
  destruct (Parser.ParseExpr text); [destruct Hp as [Hs He']; by split; [apply He'|]|by destruct Hp].
Qed.

(** C2. What Prometheus reads of a rewritten query is confined, for a query
    whose operators nest by precedence ([fits]) and that the printer keeps
    ([readable_expr], which excludes what [matching_ok] does: a grouping
    behind an empty [ignoring]).  The text that [ModifyExpression] gives for
    it is read by [ParseExpr] as a query each of whose selectors selects exactly the series of the original
    one that carry the label of a namespace of the set, and that is the
    original query but for its matchers if that one passes the checks; nothing in a name, a label value, a
    string or a number can turn the text into another query.  [ParseExpr]
    refuses the text only if some string or value of the original query is
    not plain, or the original query does not pass the checks. *)
Theorem restricted_query_reread `{!RegexpLiterals} (S : DataSet.Set_) (e : Expr)
    (HS : namespace_set S) (He : rereadable e) :
  ∃ text, ModifyExpression e S = Done text ∧
    match Parser.ParseExpr text with
    | Ok e' => Forall2 (confined S) (selectors e) (selectors e') ∧ (typed e → erase e' = erase e)
    | Error _ => clean e = false ∨ ¬ typed e
    end.
Proof.
  pose proof (readable_wf e (proj1 He)) as Hwf. destruct (modified_restrict S e HS Hwf) as (e' & Hr & Hm).
  destruct (readable_prints e' (restrict_readable S e e' HS (proj1 He) Hr)) as [text Ht].
  exists text. split; [unfold ModifyExpression; by rewrite Hm|]. by apply (read_restricted _ S e e' _ ParseExpr_printed).
Qed.
End Requery.
