(* ===== verification/PrintedLaws.v ===== *)
(** * What the upstream parser reads

    The agent and Prometheus use the same parser.  What the handlers rely on
    when they send a text on, as laws of the interface of [Hijack], and that
    the parser of [Parser] has them ([Rereading], [Requery]). *)
From S2P Require Import Prelude GoStrings GoFloat Regexp DataSet Matchers Prom Restriction Promql Rewriting Errors.
From S2P Require Import GoTime Lexer Parser Hijack PromParser.
From S2P Require Import SelectorLex SelectorParse Rereading ExprParse ExprShape Typing TypeSound Nesting NestingDriver RestrictedText Requery.
From stdpp Require Import options.

Class PrintedLaws `{RegexpEngine, !UnicodeTable} (P : Hijack.Parser) : Prop := {
  ParseExpr_reads : reads_printed Hijack.ParseExpr;
  ParseMetricSelector_reads name ms s :
    readable name ms → VectorSelector_String name 0 ms = Done s →
    match Hijack.ParseMetricSelector s with
    | Ok l => same_selector ms l
    | Error _ => all_plain (in_braces name ms) = false
    end;
  ParseExpr_types s e : Hijack.ParseExpr s = Ok e → typed e;
  ParseExpr_nests s e : Hijack.ParseExpr s = Ok e → nested 0 e = true;
}.

#[export] Instance prom_printed_laws `{RegexpEngine, !UnicodeTable} : PrintedLaws prom_parser.
Proof. split; [apply ParseExpr_printed|intros name ms s; apply selector_reread|apply parsed_typed|apply parsed_nested]. Qed.

Section PrintedLaws.
Context `{RE : RegexpEngine, !UnicodeTable, P : !Hijack.Parser, !PrintedLaws P}.

(** What Prometheus reads from the text that the agent sends for the query
    [e]: as a query, and as a selector if [e] is one, it is confined; it is
    refused only if some string or value of [e] is not plain. *)
Definition read_confined (S : DataSet.Set_) (e : Expr) (text : string) : Prop :=
  readable_expr e → plain_bases e = true →
  match Hijack.ParseExpr text with
  | Ok e' => Forall2 (confined S) (selectors e) (selectors e') ∧ erase e' = erase e
  | Error _ => clean e = false
  end ∧
  match e with
  | VectorSelector _ 0%Z ms =>
      match Hijack.ParseMetricSelector text with
      | Ok l => confined S ms l
      | Error _ => clean e = false
      end
  | _ => True
  end.

Lemma same_selector_confined S ms ms' l : confined S ms ms' → same_selector ms' l → confined S ms l.
Proof. intros Hc Hl series Hs. rewrite (selects_members l ms'); [by apply Hc|done]. Qed.

Lemma restricted_read `{!RegexpLiterals} S raw e e' text :
  namespace_set S → Hijack.ParseExpr raw = Ok e → restrict S e = Done e' → String_ e' = Done text →
  read_confined S e text.
Proof using Type*.
  intros HS Hraw Hr Ht Hre Hb. pose proof (ParseExpr_types raw e Hraw) as Hty.
  assert (rereadable e) as He by (split; [done|]; by apply nested_query_fits, Hb; apply (ParseExpr_nests raw)). split.
  { pose proof (read_restricted _ S e e' text ParseExpr_reads HS He Hr Ht) as Hread. unfold read_as in Hread.
    destruct (Hijack.ParseExpr text); [by destruct Hread; auto|]. by destruct Hread. }
  destruct e as [| | | | | | | | |name o ms]; try done. destruct o; try done.
  destruct He as [[Hms _] _]. pose proof (readable_matchers _ _ Hms) as Hwf.
  cbn in Hr. destruct (FilterMatchers S ms) as [ms'|] eqn:Hf; [|done]. injection Hr as <-.
  pose proof (ParseMetricSelector_reads name ms' text (filtered_readable S name ms ms' HS Hms Hf) Ht) as Hl.
  destruct (Hijack.ParseMetricSelector text) as [l|].
  - eapply same_selector_confined; [|exact Hl]. by eapply filtered_confined.
  - apply not_true_is_false. intros Hp. cbn in Hp. by rewrite (filtered_plain S name ms ms') in Hl.
Qed.
End PrintedLaws.
