(* ===== verification/RequeryExamples.v ===== *)
(** * A query printed, restricted and read again

    The theorems of [Requery] on a query with every kind of node. *)
From S2P Require Import Prelude GoStrings GoFloat Regexp DataSet Matchers Prom Restriction Promql Rewriting Errors.
From S2P Require Import GoTime Strutil Lexer LexerSpec ParserTables Parser ParserDriver ParserSpec.
From S2P Require Import Quoting SelectorLex SelectorParse Rereading ExprLex PrintedText ExprParse ExprShape.
From S2P Require Import ExprRuns ExprNodes ExprOperand RestrictedText ExprLists ExprCompound ExprBinary Typing TypeSound Requery Nesting NestingDriver.
From Stdlib Require Import SpecFloat.
From stdpp Require Import options.

Import Re2 RestrictionExamples RewritingExamples.

Definition rate : Function_ := MkFunction "rate" [ValueTypeMatrix] 0 ValueTypeVector.
Definition max_over_time : Function_ := MkFunction "max_over_time" [ValueTypeMatrix] 0 ValueTypeVector.
Definition one_to_one : option VectorMatching := Some (MkVectorMatching CardOneToOne [] false []).

(** [sum by(pod) (rate(a{namespace=~"n.*"}[5m])) / on(pod) group_left(x) (b offset 1h) + -max_over_time(c[1h:5m]) * 1.5
    unless count_values("v", d)] *)
Definition query_text : string :=
  "sum by(pod) (rate(a{namespace=~" +:+ q "n.*" +:+ "}[5m])) / on(pod) group_left(x) (b offset 1h) + " +:+
  "-max_over_time(c[1h:5m]) * 1.5 unless count_values(" +:+ q "v" +:+ ", d)".

Definition left_operand : Expr :=
  BinaryExpr Promql.DIV
    (AggregateExpr Promql.SUM
       (Some (Call rate [MatrixSelector (metric "a" (matcher Labels.MatchRegexp "namespace" "n.*")) 300000000000]))
       None ["pod"] false)
    (ParenExpr (VectorSelector "b" 3600000000000 (matcher Labels.MatchEqual Labels.MetricName "b")))
    (Some (MkVectorMatching CardManyToOne ["pod"] true ["x"])) false.
Definition right_operand_tree : Expr :=
  BinaryExpr Promql.MUL
    (UnaryExpr Promql.SUB (Call max_over_time [SubqueryExpr (metric "c" []) 3600000000000 0 300000000000]))
    (NumberLiteral (S754_finite false 6755399441055744 (-52))) None false.
Definition query_tree : Expr :=
  BinaryExpr Promql.LUNLESS (BinaryExpr Promql.ADD left_operand right_operand_tree one_to_one false)
    (AggregateExpr Promql.COUNT_VALUES (Some (metric "d" [])) (Some (StringLiteral "v")) [] false)
    (Some (MkVectorMatching CardManyToMany [] false [])) false.

Example query_parsed : match Parser.ParseExpr query_text with Ok e => String_ e | Error _ => Done "" end = Done query_text.
Proof. vm_compute. reflexivity. Qed.
Example query_printed : String_ query_tree = Done query_text.
Proof. vm_compute. reflexivity. Qed.

Lemma query_fits : fits 0 query_tree EOF = true.
Proof. vm_compute. reflexivity. Qed.

Lemma metric_readable name ms :
  is_name name = true → Forall printable ms → readable name (ms ++ matcher Labels.MatchEqual Labels.MetricName name).
Proof.
  intros Hn Hms. split.
  - apply Forall_app. split; [done|]. repeat constructor.
  - left. split; [done|]. apply elem_of_app. right. by left.
Qed.

Lemma all_labels_ok ls : forallb label_ok ls = true → Forall (λ l, label_ok l = true) ls.
Proof. intros H. apply Forall_forall. intros l Hl. rewrite forallb_forall in H. apply H. by apply list_elem_of_In. Qed.

Lemma query_readable : readable_expr query_tree.
Proof.
  unfold query_tree, left_operand, right_operand_tree. cbn [readable_expr foldr].
  split_and!; try lazymatch goal with
  | |- matching_ok _ => split_and!; [apply all_labels_ok; vm_compute; reflexivity..|by try left]
  | |- Forall _ _ => apply all_labels_ok; vm_compute; reflexivity
  | |- readable "b" _ => apply (metric_readable "b" []); [vm_compute; reflexivity|constructor]
  | |- context [metric ?n []] => split; [apply (metric_readable n []); [vm_compute; reflexivity|constructor]|done]
  | |- _ ∨ _ => by right
  | |- _ = _ => vm_compute; reflexivity
  | |- True => exact I
  end.
  - split_and!; try apply all_labels_ok; vm_compute; reflexivity.
  - split; [|done]. apply metric_readable; [vm_compute; reflexivity|]. repeat constructor.
  - exists (S754_finite false 6755399441055744 (-52)). split; vm_compute; reflexivity.
Qed.

Lemma query_rereadable : rereadable query_tree.
Proof. split; [exact query_readable|exact query_fits]. Qed.

Lemma metric_passes name ms :
  is_name name = true → forallb (λ m, negb (String.eqb (Labels.Name m) Labels.MetricName)) ms = true →
  passes_checks name (ms ++ matcher Labels.MatchEqual Labels.MetricName name).
Proof.
  intros Hn Hms. split.
  - exists (name_matcher name). split; [apply elem_of_app; right; by left|]. by destruct name.
  - intros _ m [Hm|Hm]%elem_of_app Heq.
    + rewrite forallb_forall in Hms. apply list_elem_of_In, Hms in Hm. by rewrite Heq in Hm.
    + apply list_elem_of_singleton in Hm as ->. done.
Qed.

Lemma query_typed : typed query_tree.
Proof.
  unfold query_tree, left_operand, right_operand_tree. cbn [typed].
  split_and!; try lazymatch goal with
  | |- passes_checks "b" _ => apply (metric_passes "b" []); vm_compute; reflexivity
  | |- typed (metric "a" ?ms) => apply (metric_passes "a" ms); vm_compute; reflexivity
  | |- typed (metric ?n []) => apply (metric_passes n []); vm_compute; reflexivity
  | |- _ = _ => vm_compute; reflexivity
  | |- True => exact I
  end.
  all: try lazymatch goal with
  | |- binary_typed _ _ _ None _ => split_and!; [done..|vm_compute; split; reflexivity]
  | |- binary_typed _ _ _ _ _ => split_and!; [done..|]; eexists; split_and!; [reflexivity|by intros; set_solver|reflexivity]
  | |- match param_type Promql.SUM with _ => _ end => reflexivity
  | |- _ => by vm_compute
  end.
Qed.

Lemma query_clean : clean query_tree = true.
Proof. vm_compute. reflexivity. Qed.

Lemma printed_query_reread_witness :
  rereadable query_tree ∧ typed query_tree ∧ String_ query_tree = Done query_text ∧
  match Parser.ParseExpr query_text with
  | Ok e' => erase e' = erase query_tree ∧
             Forall2 (λ ms l, ∀ m, m ∈ l ↔ m ∈ ms) (selectors query_tree) (selectors e')
  | Error _ => False
  end.
Proof.
  split; [exact query_rereadable|]. split; [exact query_typed|]. split; [exact query_printed|].
  pose proof (printed_query_reread query_tree query_text query_rereadable query_typed query_printed) as H.
  destruct (Parser.ParseExpr query_text); [exact H|]. rewrite query_clean in H. discriminate H.
Defined.

(** The restriction of [query_tree]. *)
Definition restricted_text : string :=
  "sum by(pod) (rate(a{namespace=~" +:+ q "ns-a|ns-b" +:+
  "}[5m])) / on(pod) group_left(x) (b{namespace=~" +:+ q "ns-a|ns-b|rx-c" +:+
  "} offset 1h) + -max_over_time(c{namespace=~" +:+ q "ns-a|ns-b|rx-c" +:+
  "}[1h:5m]) * 1.5 unless count_values(" +:+ q "v" +:+ ", d{namespace=~" +:+ q "ns-a|ns-b|rx-c" +:+ "})".

Example query_restricted : ModifyExpression query_tree S0 = Done restricted_text.
Proof. vm_compute. reflexivity. Qed.

Lemma restricted_query_reread_witness :
  namespace_set S0 ∧ rereadable query_tree ∧
  match Parser.ParseExpr restricted_text with
  | Ok e => Forall2 (confined S0) (selectors query_tree) (selectors e) ∧ erase e = erase query_tree
  | Error _ => False
  end.
Proof.
  split; [exact S0_names|]. split; [exact query_rereadable|].
  destruct (restricted_query_reread S0 query_tree S0_names query_rereadable) as (text & Ht & Hc).
  rewrite query_restricted in Ht. injection Ht as <-.
  destruct (Parser.ParseExpr restricted_text); [split; [apply Hc|apply Hc, query_typed]|].
  destruct Hc as [Hc|Hc]; [rewrite query_clean in Hc; discriminate Hc|exact (Hc query_typed)].
Defined.


Example query_plain : match Parser.ParseExpr query_text with Ok e => plain_bases e | Error _ => false end = true.
Proof. vm_compute. reflexivity. Qed.

(** The operators of the query, and a query of all precedences. *)
Lemma ParseExpr_nested_witness :
  (∃ e, Parser.ParseExpr query_text = Ok e ∧ nested 0 e = true ∧ fits 0 e EOF = true) ∧
  match Parser.ParseExpr "a or b == c - d - -e * f ^ g ^ h" with
  | Ok (BinaryExpr _ _ (BinaryExpr _ _ (BinaryExpr _ (BinaryExpr _ _ _ _ _)
      (BinaryExpr _ (UnaryExpr _ _) (BinaryExpr _ _ (BinaryExpr _ _ _ _ _) _ _) _ _) _ _) _ _) _ _) => True
  | _ => False
  end.
Proof.
  split; [|vm_compute; exact I].
  destruct (Parser.ParseExpr query_text) as [e|err] eqn:E.
  - exists e. destruct (ParseExpr_nested query_text e E) as [Hn Hf]. split; [reflexivity|]. split; [exact Hn|].
    apply Hf. pose proof query_plain as H. rewrite E in H. exact H.
  - pose proof query_parsed as H. rewrite E in H. discriminate H.
Defined.

(** Infinity is printed with a sign, and [Inf ^ 2] groups anew. *)
Example infinite_base :
  match Parser.ParseExpr "Inf ^ 2" with Ok e => plain_bases e = false ∧ String_ e = Done "+Inf ^ 2" | Error _ => False end ∧
  match Parser.ParseExpr "+Inf ^ 2" with Ok (UnaryExpr _ (BinaryExpr _ _ _ _ _)) => True | _ => False end.
Proof. vm_compute. by split. Qed.

(** The printer drops [group_left] behind an empty [ignoring]. *)
Theorem group_left_dropped :
  RereadingExamples.reprinted "a * ignoring() group_left(x) b" = Some "a * b".
Proof. vm_compute. reflexivity. Qed.
