(* ===== verification/HijackSpec.v ===== *)
(** * What reaches upstream

    The contract of the hijack handlers: a handler either refuses the
    request, answers it by itself, or hands the proxy one request, for the
    same resource, in which every selector is confined to the namespaces
    of the user. *)
From S2P Require Import Prelude GoStrings GoFloat Regexp DataSet Matchers Prom Restriction.
From S2P Require Import Promql Rewriting Errors GoTime Url Http Json ApiContext Hijack PrintedLaws.
From stdpp Require Import gmap.
From stdpp Require Import options.

Section HijackSpec.
#[local] Set Default Proof Using "Type*".
Context `{RE : RegexpEngine, !RegexpLiterals, P : !Parser, !ParserLaws P}.
Context `{UT : UnicodeTable, !PrintedLaws P, MA : Machine, MR : MultipartReader}.
Context `{PM : PromMessages, CO : !Codecs}.

(** Documented behaviour of mime/multipart: a key of the form has values. *)
Class MultipartLaws : Prop :=
  ReadForm_inhabited : ∀ r v, ReadForm r = Some v → inhabited_values v.
Context `{ML : MultipartLaws}.

(** ** Specification *)

(** The text a PromQL text is rewritten to: the one of a confined tree, and
    one that Prometheus reads as a confined query. *)
Definition confined_text (S : DataSet.Set_) (raw text : string) : Prop :=
  ∃ e e', ParseExpr raw = Ok e ∧ String_ e' = Done text ∧ erase e' = erase e ∧
    Forall2 (confined S) (selectors e) (selectors e') ∧ read_confined S e text.

(** The handler refused: a bad request, and nothing was sent. *)
Definition refused (s s' : state) (res : go error) : Prop :=
  ∃ err, res = Done (Wrap err badRequestErr) ∧ response s' = response s ∧ once s' = once s.

(** The handler handed [r] to the proxy, and did nothing else with the
    response. *)
Definition forwarded (c : apiContext) (r : Request) (s s' : state) (res : go error) : Prop :=
  once s' = true ∧ response s' = (proxyHandler c r (response s)).1 ∧
  res = (λ _, ErrNil) <$> (proxyHandler c r (response s)).2.

(** A GET of the same resource with the values [v]. *)
Definition same_resource (r r' : Request) (v : Values) : Prop :=
  Method r' = "GET" ∧ Path (Req_URL r') = Path (Req_URL r) ∧
  ParseQuery (RawQuery (Req_URL r')) = (v, ErrNil).

(** A request as the server hands it over. *)
Definition fresh_state (s : state) : Prop :=
  once s = false ∧ Form (request s) = None ∧ PostForm (request s) = None ∧
  path_ok (Req_URL (request s)).

(** The request once its form was parsed, and the form. *)
Definition parsed (r : Request) : Request :=
  match Form r with None => ParseMultipartForm r | Some _ => r end.
Definition request_form (r : Request) : Values := default ∅ (Form (parsed r)).

(** ** Lemmas: forms *)
Lemma Values_Add_inhabited v k x : inhabited_values v → inhabited_values (Values_Add v k x).
Proof.
  intros Hv. apply map_Forall_insert_2; [|done]. by destruct (values_of v k).
Qed.

Lemma ParseQuery_inhabited q : inhabited_values (ParseQuery q).1.
Proof.
  unfold ParseQuery.
  assert (∀ l st, inhabited_values st.1 → inhabited_values (fold_left parse_pair l st).1) as Hloop.
  { induction l as [|p l IH]; intros [m err] Hm; [done|]. cbn [fold_left]. apply IH.
    unfold parse_pair. repeat case_match; cbn; try done. by apply Values_Add_inhabited. }
  apply Hloop. apply map_Forall_empty.
Qed.

Lemma copyValues_inhabited dst src :
  inhabited_values dst → inhabited_values src → inhabited_values (copyValues dst src).
Proof.
  intros Hd Hs. unfold copyValues. revert Hs.
  apply (map_fold_weak_ind (λ r m, inhabited_values m → inhabited_values r)); [done|].
  intros k vs m r Hk IH Hm. apply map_Forall_insert in Hm as [Hvs Hm]; [|done].
  apply map_Forall_insert_2; [|by apply IH]. by destruct (values_of r k).
Qed.

Lemma parsed_form r :
  Form r = None → PostForm r = None →
  Form (parsed r) = Some (request_form r) ∧ inhabited_values (request_form r) ∧
  Req_URL (parsed r) = Req_URL r.
Proof.
  intros Hf Hp. unfold request_form, parsed, ParseMultipartForm, ParseForm. rewrite Hf, Hp.
  assert (∀ q, inhabited_values (ParseQuery q).1) as Hq by apply ParseQuery_inhabited.
  assert (inhabited_values (default ∅ (parsePostForm r).1)) as Hpost.
  { unfold parsePostForm. destruct (Body r) as [body|]; [|apply map_Forall_empty].
    case_bool_decide; [|apply map_Forall_empty].
    case_bool_decide; [apply map_Forall_empty|].
    specialize (Hq body). by destruct (ParseQuery body). }
  specialize (Hq (RawQuery (Req_URL r))).
  destruct (ParseQuery (RawQuery (Req_URL r))) as [q e].
  destruct (parsePostForm r) as [post err]. cbn in Hq, Hpost.
  assert (∀ v : Values, inhabited_values v → inhabited_values (copyValues v q)) as Hcopy
    by (intros; by apply copyValues_inhabited).
  assert (inhabited_values (∅ : Values)) as He by apply map_Forall_empty.
  destruct (has_form_body (Method r)); destruct (negb _); cbn; try (split_and!; auto; fail);
    destruct (ReadForm _) as [v|] eqn:Hread; cbn; split_and!; auto;
    apply ReadForm_inhabited in Hread; auto using copyValues_inhabited.
Qed.

Lemma parsed_parsed r : is_Some (Form r) → parsed r = r.
Proof. unfold parsed. by intros [f ->]. Qed.

Lemma form_value_run key s :
  form_value key s =
  (MkState (once s) (response s) (parsed (request s)),
   Done (Values_Get (request_form (request s)) key)).
Proof. done. Qed.

(** Once the form is parsed, a form value changes nothing. *)
Lemma form_value_parsed key s form :
  Form (request s) = Some form →
  form_value key s = (s, Done (Values_Get form key)).
Proof.
  intros Hf. rewrite form_value_run. unfold request_form. rewrite parsed_parsed by by eexists.
  rewrite Hf. by destruct s.
Qed.

(** ** Lemmas: forwarding *)
Lemma proxyWith_forwarded c r s s' res :
  once s = false → proxyWith c r s = (s', res) →
  forwarded c r s s' res.
Proof.
  intros Ho. unfold proxyWith, mbind, M_bind, Do, serve. rewrite Ho.
  unfold forwarded. destruct (proxyHandler c r (response s)) as [w [[]|]]; cbn;
    intros [= <- <-]; done.
Qed.

Lemma proxy_values_forwarded c u v s :
  once s = false → path_ok u → inhabited_values v →
  ∃ r', Method r' = "GET" ∧ Path (Req_URL r') = Path u ∧
    ParseQuery (RawQuery (Req_URL r')) = (v, ErrNil) ∧
    proxy_values c u v s = proxyWith c r' s.
Proof.
  intros Ho Hu Hv. destruct (URL_with_values u v Hu Hv) as (u' & Hparse & Hpath & Hquery).
  exists (MkRequest "GET" u' ∅ None None None). split_and!; [done..|].
  unfold proxy_values, NewRequest. by rewrite Hparse.
Qed.

(** Rewriting an expression of the parser. *)
Lemma ModifyExpression_text S raw e :
  namespace_set S → ParseExpr raw = Ok e →
  ∃ text, ModifyExpression e S = Done text ∧ confined_text S raw text.
Proof.
  intros HS He. pose proof (ParseExpr_wf raw e He) as Hwf.
  destruct (modified_restrict S e HS Hwf) as (e' & Hr & Hm).
  pose proof (restrict_wf S e e' HS Hwf Hr) as He'.
  pose proof (restrict_selectors S e e' Hr) as Hsel.
  assert (returns (String_ e') = true) as Hs.
  { apply String_returns; [done|]. by apply (filtered_selectors_nonempty S e e'). }
  apply (returns_Done EmptyString) in Hs. exists (go_value EmptyString (String_ e')).
  unfold ModifyExpression. rewrite Hm. split; [done|].
  exists e, e'. split_and!; [done..|by eapply restrict_erase|by apply filtered_selectors_confined|by eapply restricted_read].
Qed.

(** ** Lemmas: the handlers *)
Lemma after_Some {A} (m : M (option A)) k s s' a : m s = (s', Done (Some a)) → after m k s = (s', Done a).
Proof. intros Hm. unfold after. by rewrite (M_bind_Done _ _ _ _ _ Hm). Qed.

Lemma after_None {A} (m : M (option A)) k s s' : m s = (s', Done None) → after m k s = k s'.
Proof. intros Hm. unfold after. by rewrite (M_bind_Done _ _ _ _ _ Hm). Qed.

Lemma set_json_run s :
  set_json_content_type s =
  (MkState (once s) (SetHeader (response s) contentTypeHeader jsonContentType) (request s), Done ()).
Proof. done. Qed.

Lemma forwarded_response c r s1 s2 s' res :
  response s1 = response s2 → forwarded c r s1 s' res → forwarded c r s2 s' res.
Proof. unfold forwarded. by intros ->. Qed.

(** The rewritten form, whatever the set. *)
Lemma hijack_form_text c e text s form :
  ModifyExpression e (namespaceSet c) = Done text →
  once s = false → Form (request s) = Some form → inhabited_values form →
  path_ok (Req_URL (request s)) →
  let '(s', res) := hijack_form c e s in
  ∃ r', same_resource (request s) r' (<["query" := [text]]> form) ∧ forwarded c r' s s' res.
Proof.
  intros Ht Ho Hf Hform Hu.
  unfold hijack_form. rewrite (M_bind_Done _ _ s s (request s)) by done. rewrite Hf.
  cbn [from_option id]. unfold put_form.
  erewrite M_bind_Done by done. erewrite M_bind_Done by (unfold lift; by rewrite Ht).
  erewrite M_bind_Done by done. cbn [request Form]. erewrite M_bind_Done by done.
  cbn [request Req_URL]. set (v := Values_Set _ _ _).
  assert (v = <["query" := [text]]> form) as Hv by apply insert_delete_eq.
  assert (inhabited_values v) as Hinh by (rewrite Hv; by apply map_Forall_insert_2).
  edestruct (proxy_values_forwarded c (Req_URL (request s)) v) as (r' & Hm & Hp & Hq & ->);
    [|done..|].
  2: { destruct (proxyWith c r' _) as [s' res] eqn:Hw. exists r'. split; [by rewrite <-Hv|].
       eapply forwarded_response; [|eapply proxyWith_forwarded; [|exact Hw]]; done. }
  done.
Qed.

Lemma hijack_form_spec c raw e s form :
  namespace_set (namespaceSet c) → ParseExpr raw = Ok e →
  once s = false → Form (request s) = Some form → inhabited_values form →
  path_ok (Req_URL (request s)) →
  let '(s', res) := hijack_form c e s in
  ∃ text r', confined_text (namespaceSet c) raw text ∧
    same_resource (request s) r' (<["query" := [text]]> form) ∧ forwarded c r' s s' res.
Proof.
  intros HS He Ho Hf Hform Hu. destruct (ModifyExpression_text _ raw e HS He) as (text & Ht & Hc).
  pose proof (hijack_form_text c e text s form Ht Ho Hf Hform Hu) as Hspec.
  destruct (hijack_form c e s) as [s' res]. destruct Hspec as (r' & ? & ?). by exists text, r'.
Qed.

(** From the form value [query] on, for a user with namespaces. *)
Lemma hijack_query_value_spec c vector_as s form :
  namespace_set (namespaceSet c) → DataSet.len (namespaceSet c) ≠ 0 →
  once s = false → Form (request s) = Some form → inhabited_values form →
  path_ok (Req_URL (request s)) →
  let '(s', res) := hijack_query_value c vector_as s in
  refused s s' res ∨
  ∃ text r', confined_text (namespaceSet c) (Values_Get form "query") text ∧
    same_resource (request s) r' (<["query" := [text]]> form) ∧ forwarded c r' s s' res.
Proof.
  intros HS Hlen Ho Hf Hform Hu. unfold hijack_query_value.
  rewrite (M_bind_Done _ _ _ _ _ (form_value_parsed "query" s form Hf)).
  case_bool_decide; [left; by eexists|].
  destruct (ParseExpr _) as [e|err] eqn:He; [|left; by eexists].
  rewrite (after_None _ _ s s).
  2: { unfold quick_response. by rewrite bool_decide_false by done. }
  pose proof (hijack_form_spec c _ e s form HS He Ho Hf Hform Hu) as Hspec.
  destruct (hijack_form c e s) as [s' res]. by right.
Qed.

Lemma check_timeout_spec s form :
  Form (request s) = Some form →
  check_timeout s = (s, Done None) ∨
  ∃ err, check_timeout s = (s, Done (Some (Wrap err badRequestErr))).
Proof.
  intros Hf. unfold check_timeout.
  rewrite (M_bind_Done _ _ _ _ _ (form_value_parsed "timeout" s form Hf)).
  case_bool_decide; [by left|]. destruct (parseDuration _); [by left|]. right. by eexists.
Qed.

(** The bounds of a range query that passed: its times, as instants.  The
    span is the difference of two times, which saturates at [int64_max]
    nanoseconds, some 292 years; up to there a query has at most 11001
    points, and beyond there the step bounds nothing but these 292 years.
    ([sane]: within 2^61 seconds, where times do not wrap around.) *)
Definition range_ok (form : Values) : Prop :=
  ∃ start end_ step,
    parseTime (Values_Get form "start") = Ok start ∧ parseTime (Values_Get form "end") = Ok end_ ∧
    parseDuration (Values_Get form "step") = Ok step ∧ (0 < step)%Z ∧
    (sane start → sane end_ →
     (instant start ≤ instant end_)%Z ∧
     ((points start end_ step ≤ 11001)%Z ∨
      (int64_max < instant end_ - instant start)%Z ∧ (int64_max / step ≤ 11000)%Z)).

Lemma check_range_spec s form :
  Form (request s) = Some form →
  (check_range s = (s, Done None) ∧ range_ok form) ∨
  ∃ err, check_range s = (s, Done (Some (Wrap err badRequestErr))).
Proof.
  intros Hf. unfold check_range, range_ok.
  assert (∀ key, form_value key s = (s, Done (Values_Get form key))) as Hv
    by (intros; by apply form_value_parsed).
  rewrite (M_bind_Done _ _ _ _ _ (Hv "start")).
  destruct (parseTime (Values_Get form "start")) as [start|]; [|right; by eexists].
  rewrite (M_bind_Done _ _ _ _ _ (Hv "end")).
  destruct (parseTime (Values_Get form "end")) as [end_|]; [|right; by eexists].
  destruct (Before end_ start) eqn:Hb; [right; by eexists|].
  rewrite (M_bind_Done _ _ _ _ _ (Hv "step")).
  destruct (parseDuration (Values_Get form "step")) as [step|]; [|right; by eexists].
  case_bool_decide; [right; by eexists|]. case_bool_decide; [right; by eexists|].
  left. split; [done|]. exists start, end_, step. split_and!; [done..|lia|].
  intros Hs He. apply guard_points; done || lia.
Qed.

(** The state once the content type was set, and once the form was parsed. *)
Definition json_state (s : state) : state :=
  MkState (once s) (SetHeader (response s) contentTypeHeader jsonContentType) (request s).
Definition parsed_state (s : state) : state :=
  MkState (once s) (response s) (parsed (request s)).

Lemma check_timeout_parse s :
  fresh_state s → check_timeout s = check_timeout (parsed_state s).
Proof.
  intros (_ & Hf & Hp & _). destruct (parsed_form _ Hf Hp) as (Hf' & _ & _).
  unfold check_timeout, mbind, M_bind.
  rewrite (form_value_parsed "timeout" (parsed_state s) _ Hf').
  by rewrite form_value_run.
Qed.

(** [hijackQuery] and [hijackQueryRange]: the checks, then the query. *)
Lemma after_timeout_spec s (k : M error) (Q : state → go error → Prop) :
  fresh_state s →
  (∀ s' res, refused (parsed_state s) s' res → Q s' res) →
  (let '(s', res) := k (parsed_state s) in Q s' res) →
  let '(s', res) := after check_timeout k s in Q s' res.
Proof.
  intros Hs Hrefused Hk. pose proof Hs as (_ & Hf & Hp & _).
  destruct (parsed_form _ Hf Hp) as (Hf' & _ & _).
  destruct (check_timeout_spec (parsed_state s) _ Hf') as [Ht|[err Ht]];
    rewrite <-check_timeout_parse in Ht by done.
  - by rewrite (after_None _ _ _ _ Ht).
  - rewrite (after_Some _ _ _ _ _ Ht). apply Hrefused. by exists err.
Qed.

Lemma hijack_parsed c vector_as s :
  namespace_set (namespaceSet c) → DataSet.len (namespaceSet c) ≠ 0 → fresh_state s →
  let '(s', res) := hijack_query_value c vector_as (parsed_state s) in
  refused s s' res ∨
  ∃ text r', confined_text (namespaceSet c) (Values_Get (request_form (request s)) "query") text ∧
    same_resource (request s) r' (<["query" := [text]]> (request_form (request s))) ∧
    forwarded c r' s s' res.
Proof.
  intros HS Hlen (Ho & Hf & Hp & Hu).
  destruct (parsed_form _ Hf Hp) as (Hf' & Hinh & Hurl).
  pose proof (hijack_query_value_spec c vector_as (parsed_state s) _ HS Hlen Ho Hf' Hinh) as Hspec.
  cbn [parsed_state request] in Hspec. unfold same_resource in *. rewrite Hurl in Hspec.
  specialize (Hspec Hu). destruct (hijack_query_value _ _ _) as [s' res]. exact Hspec.
Qed.

Lemma json_fresh s : fresh_state s → fresh_state (json_state s).
Proof. done. Qed.

(** *** Selectors *)
Lemma hijack_matches_spec S values queries :
  namespace_set S → inhabited_values queries →
  ∃ r, hijack_matches S values queries = Done r ∧
    match r with
    | Ok queries' =>
        ∃ texts, Forall2 (confined_text S) values texts ∧ inhabited_values queries' ∧
          (∀ k, values_of queries' k =
                values_of queries k ++ if decide ("match[]" = k) then texts else [])
    | Error _ => True
    end.
Proof.
  intros HS. revert queries. induction values as [|raw values IH]; intros queries Hinh; cbn.
  - eexists. split; [done|]. exists []. split_and!; [constructor|done|].
    intros k. case_decide; by rewrite app_nil_r.
  - destruct (ParseExpr raw) as [e|err] eqn:He; [|by eexists].
    destruct (ModifyExpression_text S raw e HS He) as (text & -> & Hc). cbn.
    destruct (IH (Values_Add queries "match[]" text)) as (r & -> & Hr);
      [by apply Values_Add_inhabited|].
    exists r. split; [done|]. destruct r as [queries'|]; [|done].
    destruct Hr as (texts & Hts & Hinh' & Hval). exists (text :: texts).
    split_and!; [by constructor|done|]. intros k. rewrite Hval, values_of_Add, <-app_assoc.
    by case_decide.
Qed.

Lemma values_ext (v w : Values) :
  inhabited_values v → inhabited_values w → (∀ k, values_of v k = values_of w k) → v = w.
Proof.
  intros Hv Hw Hvw. apply map_eq. intros k. specialize (Hvw k). unfold values_of in Hvw.
  destruct (v !! k) as [xs|] eqn:Hk, (w !! k) as [ys|] eqn:Hk'; cbn in Hvw; subst; try done.
  - by destruct (Hv k [] Hk).
  - by destruct (Hw k [] Hk').
Qed.

Lemma hijack_selectors_spec c s queries :
  namespace_set (namespaceSet c) → once s = false → path_ok (Req_URL (request s)) →
  inhabited_values queries → values_of queries "match[]" ≠ [] →
  let '(s', res) := hijack_selectors c queries s in
  refused s s' res ∨
  ∃ texts r', Forall2 (confined_text (namespaceSet c)) (values_of queries "match[]") texts ∧
    same_resource (request s) r' (<["match[]" := texts]> queries) ∧ forwarded c r' s s' res.
Proof.
  intros HS Ho Hu Hinh Hne. unfold hijack_selectors.
  assert (inhabited_values (Values_Del queries "match[]")) as Hdel
    by (unfold Values_Del; intros k vs [_ Hk]%lookup_delete_Some; by eapply Hinh).
  destruct (hijack_matches_spec (namespaceSet c) (values_of queries "match[]")
    (Values_Del queries "match[]") HS Hdel) as (r & Hr & Hspec).
  rewrite (M_bind_Done _ _ s s r) by (unfold lift; by rewrite Hr).
  destruct r as [queries'|err]; [|left; by eexists].
  destruct Hspec as (texts & Hts & Hinh' & Hval).
  assert (texts ≠ []) as Hne' by (intros ->; by apply Forall2_nil_inv_r in Hts).
  assert (queries' = <["match[]" := texts]> queries) as ->.
  { apply values_ext; [done|by apply map_Forall_insert_2|]. intros k. rewrite Hval.
    unfold values_of, Values_Del. case_decide as Hk.
    - subst. by rewrite lookup_delete_eq, lookup_insert_eq.
    - by rewrite lookup_delete_ne, lookup_insert_ne, app_nil_r. }
  rewrite (M_bind_Done _ _ s s (request s)) by done.
  destruct (proxy_values_forwarded c (Req_URL (request s)) _ s Ho Hu Hinh')
    as (r' & Hm & Hp & Hq & ->).
  destruct (proxyWith c r' s) as [s' res] eqn:Hw. right. exists texts, r'.
  split_and!; [done..|]. by apply proxyWith_forwarded.
Qed.

(** *** Remote read *)

(** The matchers of a query that the filter set leaves in place. *)
Definition kept_matchers (F : DataSet.Set_) (q : Query) : list Prompb.LabelMatcher :=
  filter (λ m, DataSet.exist (Prompb.Name m) F = false) (Q_Matchers q).

(** The query [q'] asks for what [q] does without the ignored labels,
    within the namespaces; what upstream refuses stays refused. *)
Definition query_confined (S F : DataSet.Set_) (q q' : Query) : Prop :=
  StartTimestampMs q' = StartTimestampMs q ∧ EndTimestampMs q' = EndTimestampMs q ∧
  Hints q' = Hints q ∧
  match fromLabelMatchers (kept_matchers F q) with
  | Ok ms => ∃ ms', fromLabelMatchers (Q_Matchers q') = Ok ms' ∧ confined S ms ms'
  | Error _ => ∃ err, fromLabelMatchers (Q_Matchers q') = Error err
  end.

Lemma modifyQuery_spec S F q :
  namespace_set S → ∃ q', modifyQuery q S F = Done q' ∧ query_confined S F q q'.
Proof.
  intros HS. unfold modifyQuery, query_confined. fold (kept_matchers F q).
  destruct (fromLabelMatchers (kept_matchers F q)) as [ms|err] eqn:Hms.
  - destruct (FilterLabelMatchers_sim S _ ms HS Hms) as (pbs' & ms' & Hf & Hf' & Hfrom).
    cbn zeta. rewrite Hf. eexists. split; [done|]. cbn. split_and!; [done..|]. exists ms'.
    split; [done|]. apply filtered_confined; [done| |done]. by eapply fromLabelMatchers_wf.
  - destruct (FilterLabelMatchers_error S _ err HS Hms) as (pbs' & err' & Hf & Herr).
    cbn zeta. rewrite Hf. eexists. split; [done|]. cbn. split_and!; [done..|]. by exists err'.
Qed.

Lemma modify_queries_spec S F qs :
  namespace_set S →
  ∃ qs', go_map (λ q, modifyQuery q S F) qs = Done qs' ∧ Forall2 (query_confined S F) qs qs'.
Proof.
  intros HS. induction qs as [|q qs (qs' & Hqs & Hall)]; [by exists []|].
  destruct (modifyQuery_spec S F q HS) as (q' & Hq & Hc). exists (q' :: qs').
  cbn. rewrite Hq. cbn. rewrite Hqs. split; [done|by constructor].
Qed.

(** *** Without namespaces *)
Definition same_user (c1 c2 : apiContext) : Prop :=
  namespaceSet c1 = namespaceSet c2 ∧ filterReaderLabelSet c1 = filterReaderLabelSet c2.

Lemma query_value_local c1 c2 vector_as s form :
  same_user c1 c2 → DataSet.len (namespaceSet c1) = 0 → Form (request s) = Some form →
  (∀ e, ParseExpr (Values_Get form "query") = Ok e → Type_ e ≠ ValueTypeScalar) →
  hijack_query_value c1 vector_as s = hijack_query_value c2 vector_as s.
Proof.
  intros [Hns _] Hlen Hf He. unfold hijack_query_value.
  rewrite !(M_bind_Done _ _ _ _ _ (form_value_parsed "query" s form Hf)).
  case_bool_decide; [done|]. destruct (ParseExpr _) as [e|err] eqn:Hparse; [|done].
  specialize (He e eq_refl). unfold after, quick_response. rewrite <-Hns, Hlen.
  rewrite bool_decide_true by done. unfold mbind, M_bind, fmap, M_fmap.
  rewrite (form_value_parsed "stats" s form Hf). rewrite bool_decide_true by done.
  by destruct (Type_ e); try done;
    match goal with |- context [responseJSON ?d s] => destruct (responseJSON d s) as [s' [|]] end.
Qed.

(** *** The nil set: nothing is rewritten *)
Definition has_namespace_matcher (ms : list Labels.Matcher) : Prop :=
  Exists (λ m, Labels.Name m = namespaceMatchName) ms.

Lemma FilterMatchers_nil ms : has_namespace_matcher ms → FilterMatchers None ms = Done ms.
Proof.
  intros Hex. unfold FilterMatchers.
  destruct (filter_loop_view Labels.Name (translateMatcher None) ms)
    as [(l & m & k & -> & _ & _ & ->)|[Hall _]]; [done|].
  apply Exists_exists in Hex as (m & Hin & Hm). rewrite Forall_forall in Hall.
  by destruct (Hall m Hin).
Qed.

Lemma with_children_same e : with_children e (Children e) = e.
Proof.
  by destruct e as [op [e|] [p|] g w|op l r vm b|f args|e r|e r o s|v|e|s|op e|n o ms].
Qed.

Lemma walk_all_same w cs :
  Forall (λ c, w c = Some (Done (c, None))) cs → walk_all w cs = Some (Done (cs, None)).
Proof. induction 1 as [|c cs Hc _ IH]; [done|]. cbn. by rewrite Hc, IH. Qed.

Lemma Walk_nil fuel e :
  wf_expr e → Forall has_namespace_matcher (selectors e) → depth e ≤ fuel →
  Walk fuel (modify_visitor None) e = Some (Done (e, None)).
Proof.
  revert e. induction fuel as [|fuel IH]; intros e Hwf Hsel Hd.
  { destruct (depth_pos e) as [d Hd']. lia. }
  assert (modify_visitor None e = Done (e, None)) as Hv.
  { destruct e as [| | |e r| | | | | |n o ms]; try done; cbn [modify_visitor].
    - destruct e; try done. cbn [selectors] in Hsel. apply Forall_cons in Hsel as [Hms _].
      by rewrite FilterMatchers_nil.
    - cbn [selectors] in Hsel. apply Forall_cons in Hsel as [Hms _].
      by rewrite FilterMatchers_nil. }
  cbn [Walk]. rewrite Hv, walk_all_same; [cbn; by rewrite with_children_same|].
  apply Forall_forall. intros c Hc. pose proof (depth_Children c e Hc).
  pose proof (wf_Children e Hwf) as Hwfc. rewrite Forall_forall in Hwfc.
  apply IH; [auto| |lia].
  rewrite selectors_Children in Hsel by (by destruct e; try by apply elem_of_nil in Hc).
  apply Forall_forall. intros ms Hms. rewrite Forall_forall in Hsel. apply Hsel.
  apply list_elem_of_In, in_flat_map. exists c. by rewrite <-!list_elem_of_In.
Qed.

Lemma ModifyExpression_nil e :
  wf_expr e → Forall has_namespace_matcher (selectors e) → ModifyExpression e None = String_ e.
Proof.
  intros Hwf Hsel. unfold ModifyExpression, modified, Inspect. by rewrite Walk_nil.
Qed.

(** *** Label names *)
Lemma NewExpr_returns S :
  namespace_set S → ∃ expr, NewExprForCountAllLabels (DataSet.Values S) = Done expr.
Proof.
  intros HS. destruct (createMatcher_spec S HS) as (m & Hm & _).
  unfold NewExprForCountAllLabels, NewInstantVectorSelectorsForNamespaces. rewrite Hm. by eexists.
Qed.

(** *** The outcomes of the handlers *)
Lemma hijackQuery_outcome (c : apiContext) (s : state)
    (HS : namespace_set (namespaceSet c)) (Hlen : DataSet.len (namespaceSet c) ≠ 0)
    (Hs : fresh_state s) :
  let form := request_form (request s) in
  let '(s', res) := hijackQuery c s in
  refused (json_state s) s' res ∨
  ∃ text r', confined_text (namespaceSet c) (Values_Get form "query") text ∧
    same_resource (request s) r' (<["query" := [text]]> form) ∧
    forwarded c r' (json_state s) s' res.
Proof.
  cbn zeta. unfold hijackQuery. rewrite (M_bind_Done _ _ _ _ _ (set_json_run s)).
  fold (json_state s). apply after_timeout_spec; [done|by left|].
  by apply (hijack_parsed c ValueTypeVector (json_state s)).
Qed.

Lemma hijackQueryRange_outcome (c : apiContext) (s : state)
    (HS : namespace_set (namespaceSet c)) (Hlen : DataSet.len (namespaceSet c) ≠ 0)
    (Hs : fresh_state s) :
  let form := request_form (request s) in
  let '(s', res) := hijackQueryRange c s in
  refused (json_state s) s' res ∨
  range_ok form ∧
  ∃ text r', confined_text (namespaceSet c) (Values_Get form "query") text ∧
    same_resource (request s) r' (<["query" := [text]]> form) ∧
    forwarded c r' (json_state s) s' res.
Proof.
  cbn zeta. unfold hijackQueryRange. rewrite (M_bind_Done _ _ _ _ _ (set_json_run s)).
  fold (json_state s). apply after_timeout_spec; [done|by left|].
  pose proof Hs as (_ & Hf & Hp & _). destruct (parsed_form _ Hf Hp) as (Hf' & _ & _).
  destruct (check_range_spec (parsed_state (json_state s)) _ Hf') as [[Hr Hok]|[err Hr]].
  - rewrite (after_None _ _ _ _ Hr).
    pose proof (hijack_parsed c ValueTypeMatrix (json_state s) HS Hlen Hs) as Hspec.
    destruct (hijack_query_value _ _ _) as [s' res]. destruct Hspec as [?|?]; auto.
  - rewrite (after_Some _ _ _ _ _ Hr). left. by exists err.
Qed.

Lemma hijack_selectors_outcome (c : apiContext) (s : state) (federate : bool)
    (HS : namespace_set (namespaceSet c)) (Hlen : DataSet.len (namespaceSet c) ≠ 0)
    (Hs : fresh_state s) :
  let s0 := if federate then s else json_state s in
  let queries := (ParseQuery (RawQuery (Req_URL (request s)))).1 in
  let '(s', res) := (if federate then hijackFederate else hijackSeries) c s in
  refused s0 s' res ∨
  (federate = true ∧ values_of queries "match[]" = [] ∧ (s', res) = responseMetrics None s) ∨
  ∃ texts r', Forall2 (confined_text (namespaceSet c)) (values_of queries "match[]") texts ∧
    same_resource (request s) r' (<["match[]" := texts]> queries) ∧
    forwarded c r' s0 s' res.
Proof.
  pose proof Hs as (Ho & _ & _ & Hu). cbn zeta.
  pose proof (ParseQuery_inhabited (RawQuery (Req_URL (request s)))) as Hinh.
  destruct federate.
  - unfold hijackFederate. rewrite (M_bind_Done _ _ s s (request s)) by done.
    destruct (ParseQuery _) as [queries err]. cbn [fst] in *.
    destruct (negb (is_nil err)); [left; by eexists|].
    destruct (negb (is_nil (check_selectors _))); [left; by eexists|].
    rewrite (bool_decide_false (DataSet.len _ = 0)), orb_false_r by done.
    case_bool_decide as Hm.
    { apply length_zero_iff_nil in Hm. cbn [orb].
      destruct (responseMetrics None s) as [s' res]. by right; left. }
    pose proof (hijack_selectors_spec c s queries HS Ho Hu Hinh) as Hspec.
    destruct (hijack_selectors c queries s) as [s' res].
    destruct Hspec as [?|?]; [by intros Hm'; rewrite Hm' in Hm|auto..].
  - unfold hijackSeries. rewrite (M_bind_Done _ _ _ _ _ (set_json_run s)).
    fold (json_state s). rewrite (M_bind_Done _ _ _ (json_state s) (request s)) by done.
    destruct (ParseQuery _) as [queries err]. cbn [fst] in *.
    destruct (negb (is_nil err)); [left; by eexists|].
    destruct (negb (is_nil (check_time _))); [left; by eexists|].
    destruct (negb (is_nil (check_time _))); [left; by eexists|].
    case_bool_decide as Hm; [left; by eexists|].
    destruct (negb (is_nil (check_selectors _))); [left; by eexists|].
    rewrite (bool_decide_false (DataSet.len _ = 0)) by done.
    pose proof (hijack_selectors_spec c (json_state s) queries HS Ho Hu Hinh) as Hspec.
    destruct (hijack_selectors c queries (json_state s)) as [s' res].
    destruct Hspec as [?|?]; [by intros Hm'; rewrite Hm' in Hm|auto..].
Qed.

Lemma hijackRead_outcome (c : apiContext) (s : state)
    (HS : namespace_set (namespaceSet c)) (Hlen : DataSet.len (namespaceSet c) ≠ 0)
    (Hs : fresh_state s) (Hq : string_forall query_char (RawQuery (Req_URL (request s))) = true) :
  let '(s', res) := hijackRead c s in
  refused s s' res ∨
  ∃ pbreq queries body r', DecodeReadRequest (request s) = Ok pbreq ∧
    Forall2 (query_confined (namespaceSet c) (filterReaderLabelSet c)) (Queries pbreq) queries ∧
    MarshalReadRequest (MkReadRequest queries (AcceptedResponseTypes pbreq)) = Ok body ∧
    Method r' = "POST" ∧ Path (Req_URL r') = Path (Req_URL (request s)) ∧
    Body r' = Some (snappy_Encode body) ∧ forwarded c r' s s' res.
Proof.
  pose proof Hs as (Ho & _ & _ & Hu). unfold hijackRead.
  rewrite (M_bind_Done _ _ s s (request s)) by done.
  destruct (DecodeReadRequest (request s)) as [pbreq|err]; [|left; by eexists].
  rewrite bool_decide_false by done.
  destruct (modify_queries_spec (namespaceSet c) (filterReaderLabelSet c) (Queries pbreq) HS)
    as (queries & Hqs & Hall).
  rewrite (M_bind_Done _ _ s s queries) by (unfold lift; by rewrite Hqs).
  destruct (MarshalReadRequest _) as [body|err] eqn:Hbody; [|left; by eexists].
  unfold NewRequest. rewrite (URL_Parse_String _ Hu Hq). cbn [mbind result_bind].
  match goal with |- context [proxyWith c ?r s] =>
    destruct (proxyWith c r s) as [s' res] eqn:Hw; right; exists pbreq, queries, body, r end.
  split_and!; [done..|]. by apply proxyWith_forwarded.
Qed.

(** ** Properties *)

(** C8. [/api/v1/query] cannot leave the user's namespaces.  For a user
    with namespaces, [hijackQuery] either refuses the request and sends
    nothing, or hands the proxy exactly one request: a GET of the same
    path whose parameters are those of the request but for [query], the
    text of the parsed expression with every selector confined to the
    namespaces. *)
Theorem hijackQuery_confines (c : apiContext) (s : state)
    (HS : namespace_set (namespaceSet c)) (Hlen : DataSet.len (namespaceSet c) ≠ 0)
    (Hs : fresh_state s) :
  let form := request_form (request s) in
  let '(s', res) := hijackQuery c s in
  refused (json_state s) s' res ∨
  ∃ text r', confined_text (namespaceSet c) (Values_Get form "query") text ∧
    same_resource (request s) r' (<["query" := [text]]> form) ∧
    forwarded c r' (json_state s) s' res.
Proof. exact (hijackQuery_outcome c s HS Hlen Hs). Qed.

(** C12. [/api/v1/query_range] cannot either, and a range it forwards has a
    positive step, an end not before its start and no more than 11001
    points, one more than the message of the refusal says, if its span is
    at most [int64_max] nanoseconds; of a longer span only so much is
    counted. *)
Theorem hijackQueryRange_confines (c : apiContext) (s : state)
    (HS : namespace_set (namespaceSet c)) (Hlen : DataSet.len (namespaceSet c) ≠ 0)
    (Hs : fresh_state s) :
  let form := request_form (request s) in
  let '(s', res) := hijackQueryRange c s in
  refused (json_state s) s' res ∨
  range_ok form ∧
  ∃ text r', confined_text (namespaceSet c) (Values_Get form "query") text ∧
    same_resource (request s) r' (<["query" := [text]]> form) ∧
    forwarded c r' (json_state s) s' res.
Proof. exact (hijackQueryRange_outcome c s HS Hlen Hs). Qed.

(** C10. [/api/v1/series] and [/federate] cannot leave the namespaces: the
    handlers refuse, answer an empty result by themselves, or hand the
    proxy one GET of the same path, the parameters of the request with each
    selector of [match[]], in order, replaced by its confined text. *)
Theorem hijack_selectors_confine (c : apiContext) (s : state) (federate : bool)
    (HS : namespace_set (namespaceSet c)) (Hlen : DataSet.len (namespaceSet c) ≠ 0)
    (Hs : fresh_state s) :
  let s0 := if federate then s else json_state s in
  let queries := (ParseQuery (RawQuery (Req_URL (request s)))).1 in
  let '(s', res) := (if federate then hijackFederate else hijackSeries) c s in
  refused s0 s' res ∨
  (federate = true ∧ values_of queries "match[]" = [] ∧ (s', res) = responseMetrics None s) ∨
  ∃ texts r', Forall2 (confined_text (namespaceSet c)) (values_of queries "match[]") texts ∧
    same_resource (request s) r' (<["match[]" := texts]> queries) ∧
    forwarded c r' s0 s' res.
Proof. exact (hijack_selectors_outcome c s federate HS Hlen Hs). Qed.

(** C9. Remote read cannot leave the namespaces: [hijackRead] refuses, or
    hands the proxy one POST of the same path whose body encodes the
    decoded request with each query, in order, confined to the namespaces
    and freed of the ignored labels. *)
Theorem hijackRead_confines (c : apiContext) (s : state)
    (HS : namespace_set (namespaceSet c)) (Hlen : DataSet.len (namespaceSet c) ≠ 0)
    (Hs : fresh_state s) (Hq : string_forall query_char (RawQuery (Req_URL (request s))) = true) :
  let '(s', res) := hijackRead c s in
  refused s s' res ∨
  ∃ pbreq queries body r', DecodeReadRequest (request s) = Ok pbreq ∧
    Forall2 (query_confined (namespaceSet c) (filterReaderLabelSet c)) (Queries pbreq) queries ∧
    MarshalReadRequest (MkReadRequest queries (AcceptedResponseTypes pbreq)) = Ok body ∧
    Method r' = "POST" ∧ Path (Req_URL r') = Path (Req_URL (request s)) ∧
    Body r' = Some (snappy_Encode body) ∧ forwarded c r' s s' res.
Proof. exact (hijackRead_outcome c s HS Hlen Hs Hq). Qed.

(** The handlers, by route. *)
Inductive route := Rquery | Rquery_range | Rseries | Rfederate | Rread | Rnamespaces | Rnames.
Definition handler_of (r : route) : apiContextHandler :=
  match r with
  | Rquery => hijackQuery
  | Rquery_range => hijackQueryRange
  | Rseries => hijackSeries
  | Rfederate => hijackFederate
  | Rread => hijackRead
  | Rnamespaces => hijackLabelNamespaces
  | Rnames => hijackLabelName
  end.

(** C19. A user without namespaces never reaches Prometheus: whatever the
    proxy and the query API would answer, the outcome is the same, scalar
    expressions of the two query calls aside. *)
Theorem no_namespaces_local (c1 c2 : apiContext) (s : state) (r : route)
    (Hc : same_user c1 c2) (Hlen : DataSet.len (namespaceSet c1) = 0) (Hs : fresh_state s)
    (Hscalar : r = Rquery ∨ r = Rquery_range → ∀ e,
       ParseExpr (Values_Get (request_form (request s)) "query") = Ok e →
       Type_ e ≠ ValueTypeScalar) :
  handler_of r c1 s = handler_of r c2 s.
Proof.
  pose proof Hs as (_ & Hf & Hp & _). destruct (parsed_form _ Hf Hp) as (Hf' & _ & _).
  assert (∀ v, r = Rquery ∨ r = Rquery_range →
    hijack_query_value c1 v (parsed_state (json_state s)) =
    hijack_query_value c2 v (parsed_state (json_state s))) as Hquery.
  { intros v Hr. apply (query_value_local c1 c2 v _ (request_form (request s))); auto. }
  destruct Hc as [Hns HF].
  destruct r; cbn [handler_of].
  - unfold hijackQuery. rewrite !(M_bind_Done _ _ _ _ _ (set_json_run s)).
    fold (json_state s). unfold after, mbind, M_bind.
    rewrite check_timeout_parse by done.
    destruct (check_timeout_spec (parsed_state (json_state s)) _ Hf') as [->|[err ->]]; auto.
  - unfold hijackQueryRange. rewrite !(M_bind_Done _ _ _ _ _ (set_json_run s)).
    fold (json_state s). unfold after, mbind, M_bind.
    rewrite check_timeout_parse by done.
    destruct (check_timeout_spec (parsed_state (json_state s)) _ Hf') as [->|[err ->]]; [|done].
    destruct (check_range_spec (parsed_state (json_state s)) _ Hf') as [[-> _]|[err ->]]; auto.
  - unfold hijackSeries. rewrite <-Hns, Hlen. by rewrite (bool_decide_true (0 = 0)).
  - unfold hijackFederate. rewrite !(M_bind_Done _ _ s s (request s)) by done.
    destruct (ParseQuery _) as [queries err]. rewrite <-Hns, Hlen.
    by rewrite (bool_decide_true (0 = 0)), orb_true_r by done.
  - unfold hijackRead. rewrite <-Hns, Hlen. by rewrite (bool_decide_true (0 = 0)).
  - unfold hijackLabelNamespaces. by rewrite <-Hns.
  - unfold hijackLabelName. rewrite <-Hns, Hlen. by rewrite (bool_decide_true (0 = 0)).
Qed.

(** A user whose namespaces could not be listed has the nil set, for
    which nothing is rewritten: a scalar expression whose selectors name
    namespaces of their own goes upstream as it was written. *)
Theorem hijackQuery_nil_unfiltered (c : apiContext) (s : state) (e : Expr) (text : string)
    (Hnil : namespaceSet c = None) (Hs : fresh_state s)
    (Ht : Values_Get (request_form (request s)) "timeout" = EmptyString)
    (Hq : Values_Get (request_form (request s)) "query" ≠ EmptyString)
    (He : ParseExpr (Values_Get (request_form (request s)) "query") = Ok e)
    (Hscalar : Type_ e = ValueTypeScalar)
    (Hsel : Forall has_namespace_matcher (selectors e)) (Htext : String_ e = Done text) :
  let '(s', res) := hijackQuery c s in
  ∃ r', same_resource (request s) r' (<["query" := [text]]> (request_form (request s))) ∧
    forwarded c r' (json_state s) s' res.
Proof.
  pose proof Hs as (Ho & Hf & Hp & Hu). destruct (parsed_form _ Hf Hp) as (Hf' & Hinh & Hurl).
  unfold hijackQuery. rewrite (M_bind_Done _ _ _ _ _ (set_json_run s)). fold (json_state s).
  set (s1 := parsed_state (json_state s)).
  assert (∀ key, form_value key s1 = (s1, Done (Values_Get (request_form (request s)) key))) as Hv
    by (intros key; by apply form_value_parsed).
  rewrite (after_None _ _ _ s1).
  2: { rewrite check_timeout_parse by done. unfold check_timeout. fold s1.
       rewrite (M_bind_Done _ _ _ _ _ (Hv "timeout")). by rewrite bool_decide_true. }
  unfold hijack_query_value. rewrite (M_bind_Done _ _ _ _ _ (Hv "query")).
  rewrite bool_decide_false, He by done. rewrite (after_None _ _ _ s1).
  2: { unfold quick_response. rewrite Hnil. rewrite bool_decide_true by done.
       rewrite (M_bind_Done _ _ _ _ _ (Hv "stats")). by rewrite bool_decide_false by (intros Hn; by apply Hn). }
  pose proof (hijack_form_text c e text s1 (request_form (request s))) as Hform.
  rewrite Hnil in Hform. rewrite ModifyExpression_nil in Hform by (exact Hsel || exact (ParseExpr_wf _ _ He)).
  specialize (Hform Htext Ho Hf' Hinh). unfold same_resource in *. cbn [request s1 parsed_state] in Hform.
  cbn [json_state request] in Hform. rewrite Hurl in Hform. specialize (Hform Hu).
  destruct (hijack_form c e s1) as [s' res]. exact Hform.
Qed.

(** C23. [/api/v1/label/__name__/values]: the names are those of the series
    of the user's namespaces; when the query fails the client gets status
    422, but when it answers something else than a vector the error that
    is wrapped is nil, the response code dereferences it, and the client
    gets status 500. *)
Theorem hijackLabelName_outcomes (c : apiContext) (r : Request) (w : ResponseWriter)
    (HS : namespace_set (namespaceSet c)) (Hlen : DataSet.len (namespaceSet c) ≠ 0)
    (Hw : w_sent w = None) (Hb : w_broken w = ErrNil) :
  ∃ expr, NewExprForCountAllLabels (DataSet.Values (namespaceSet c)) = Done expr ∧
    let w' := (ServeHTTP hijackLabelName (Some c) r w).1 in
    match remoteAPI c expr with
    | (VectorValue metrics, ErrNil) =>
        status w' = StatusOK ∧
        w_body w' = w_body w +:+ json_text (response_json (MkJsonResponse "success"
          (Some (JArray ((λ metric : gmap string string,
             JString (default EmptyString (metric !! "__name__"))) <$> metrics)))
          EmptyString EmptyString))
    | (_, ErrNil) => status w' = StatusInternalServerError
    | (_, err) => status w' = StatusUnprocessableEntity
    end.
Proof.
  destruct (NewExpr_returns _ HS) as (expr & Hexpr). exists expr. split; [done|]. cbn zeta.
  set (s := json_state (MkState false w r)).
  assert (hijackLabelName c (MkState false w r) =
    let '(vals, err) := remoteAPI c expr in
    (if negb (is_nil err) then mret (Wrap err notProvisionedErr)
     else match vals with
          | VectorValue vectorVals =>
              responseJSON (JArray ((λ metric : gmap string string,
                JString (default EmptyString (metric !! "__name__"))) <$> vectorVals))
          | _ => mret (Wrap err notProvisionedErr)
          end) s) as Hrun.
  { unfold hijackLabelName. rewrite (M_bind_Done _ _ _ _ _ (set_json_run _)).
    rewrite bool_decide_false by done.
    rewrite (M_bind_Done _ _ _ s expr) by (unfold lift; by rewrite Hexpr).
    by destruct (remoteAPI c expr). }
  assert (w_sent (response s) = None) as Hsent by done.
  destruct (remoteAPI c expr) as [vals err]. destruct (decide (err = ErrNil)) as [->|Hne].
  - assert (∀ res, hijackLabelName c (MkState false w r) = (s, Done (Wrap ErrNil notProvisionedErr)) →
      res = (ServeHTTP hijackLabelName (Some c) r w).1 → status res = StatusInternalServerError)
      as Hcrash.
    { intros res Hh ->. exact (ServeHTTP_responds _ c r w s _ Hh Hsent). }
    destruct vals as [|metrics|]; cbn [is_nil negb] in Hrun; try by eapply Hcrash.
    rewrite (ServeHTTP_outcome _ _ _ _ _ _ (eq_trans Hrun (responseJSON_run _ s eq_refl Hsent Hb))).
    split; reflexivity.
  - assert (is_nil err = false) as Hnil by (by destruct err).
    rewrite Hnil in Hrun. cbn [negb] in Hrun.
    pose proof (ServeHTTP_responds _ c r w s _ Hrun Hsent) as Hresp.
    pose proof (Error_returns err Hne) as Hret. apply (returns_Done EmptyString) in Hret.
    cbn [is_nil Wrap] in Hresp. rewrite cause_message_Wrap, Hret in Hresp.
    destruct Hresp as [Hst _]. by destruct vals, err.
Qed.
End HijackSpec.
