(* ===== verification/HijackExamples.v ===== *)
(** * Concrete requests to the hijack handlers

    Instances of the interfaces (codecs that print what they encode), and
    the theorems of HijackSpec applied to requests.  The parser is the one
    of [PromParser]. *)
From S2P Require Import Prelude GoStrings GoFloat Regexp DataSet Matchers Prom Restriction.
From S2P Require Import Promql Rewriting Errors GoTime Url Http Json ApiContext Hijack.
From S2P Require Import PromParser PrintedLaws HijackSpec.
From stdpp Require Import gmap.
From stdpp Require Import options.
Import Re2 RestrictionExamples RewritingExamples.

(** ** Instances *)
#[export] Instance machine : Machine := λ _, int64_min.
#[export] Instance no_multipart : MultipartReader := λ _, None.
#[export] Instance no_multipart_laws : MultipartLaws.
Proof. by intros r v. Qed.

#[export] Instance messages : PromMessages :=
  {| ReadHints := unit; TimeSeries := unit; MetricFamily := unit |}.

Definition read1 : ReadRequest := MkReadRequest
  [MkQuery 0 60000 [Prompb.MkLabelMatcher Prompb.LabelMatcher_EQ "prometheus" "main";
                    Prompb.MkLabelMatcher Prompb.LabelMatcher_RE "namespace" "n.*"] None] [].

(** What the codecs print of a matcher. *)
Definition print_matcher (m : Prompb.LabelMatcher) : string :=
  Prompb.Name m +:+ "~" +:+ Prompb.Value m.
Definition print_query (q : Query) : string := GoStrings.Join (print_matcher <$> Q_Matchers q) ",".

#[export] Instance codecs : Codecs := {|
  DecodeReadRequest r := match Body r with
                         | Some "read1" => Ok read1
                         | _ => Error (Foreign "snappy: corrupt input")
                         end;
  MarshalReadRequest pb := Ok (GoStrings.Join (print_query <$> Queries pb) ";");
  MarshalReadResponse pb := Ok (format_Z (Z.of_nat (length (Results pb))));
  snappy_Encode s := "snappy(" +:+ s +:+ ")";
  Negotiate _ := "text/plain; version=0.0.4";
  EncodeMetrics _ _ w := (w, ErrNil);
|}.

(** The tree of [scalar_text], and the texts of the queries below. *)
Definition scalar_x : Expr :=
  Call (MkFunction "scalar" [ValueTypeVector] 0 ValueTypeScalar)
    [metric "x" (matcher Labels.MatchEqual "namespace" "kube-system")].
Definition scalar_text : string := "scalar(x{namespace=" +:+ q "kube-system" +:+ "})".
Definition ratio_text : string :=
  "sum by (pod) (rate(a{namespace=~" +:+ q "n.*" +:+ "}[5m])) / b".

(** ** Requests *)
Definition get_request_of (path query : string) : Request :=
  MkRequest "GET" (MkURL path EmptyString false query) ∅ None None None.
Definition state_of (r : Request) : state := MkState false new_writer r.

(** A proxy that writes what it was asked. *)
Definition echo : Handler := λ r w,
  ((Write w (Method r +:+ " " +:+ URL_String (Req_URL r) +:+
             match Body r with Some b => " " +:+ b | None => EmptyString end)).1, Done ()).

Definition context_of (S : DataSet.Set_) : apiContext :=
  MkApiContext "tag" echo (DataSet.NewSet ["prometheus"]) S (λ _, (OtherValue, ErrNil)).

Lemma S0_len : DataSet.len S0 ≠ 0.
Proof. vm_compute. discriminate. Qed.

Lemma fresh_get path query :
  path ≠ "*" → fresh_state (state_of (get_request_of path query)).
Proof. intros Hp. split_and!; try done. by split; [|left]. Qed.

(** The handler answered: it did not refuse. *)
Lemma not_refused s s' res : once s = false → once s' = true → ¬ refused s s' res.
Proof. intros H1 H2 (err & _ & _ & Ho). congruence. Qed.

Definition ratio_query : string :=
  "query=sum+by+(pod)+(rate(a%7Bnamespace%3D~%22n.*%22%7D%5B5m%5D))+%2F+b&time=5".
Definition query1 : state := state_of (get_request_of "/api/v1/query" ratio_query).
Definition range1 : state :=
  state_of (get_request_of "/api/v1/query_range" "query=up&start=0&end=600&step=15s").
Definition series1 : state :=
  state_of (get_request_of "/api/v1/series" "match[]=up&match%5B%5D=up&start=1").
Definition read_state : state :=
  state_of (MkRequest "POST" (MkURL "/api/v1/read" EmptyString false EmptyString) ∅
    (Some "read1") None None).

(** What the client sees of the proxied requests. *)
Definition answered (f : apiContextHandler) (S : DataSet.Set_) (s : state) : string :=
  w_body (response (f (context_of S) s).1).

Example query1_upstream :
  answered hijackQuery S0 query1 =
  "GET /api/v1/query?query=sum+by%28pod%29+%28rate%28a%7Bnamespace%3D~%22ns-a%7Cns-b%22%7D%5B5m%5D%29%29+%2F+b%7Bnamespace%3D~%22ns-a%7Cns-b%7Crx-c%22%7D&time=5".
Proof. vm_compute. reflexivity. Qed.

Lemma hijackQuery_confines_witness :
  ∃ text r', confined_text S0 ratio_text text ∧
    same_resource (request query1) r' (<["query" := [text]]> (request_form (request query1))) ∧
    w_body (response (hijackQuery (context_of S0) query1).1) =
      w_body ((echo r' (response (json_state query1))).1).
Proof.
  pose proof (hijackQuery_confines (context_of S0) query1 S0_names S0_len
    (fresh_get "/api/v1/query" ratio_query ltac:(discriminate))) as Hc.
  cbv zeta in Hc. assert (once (hijackQuery (context_of S0) query1).1 = true) as Ho
    by (vm_compute; reflexivity).
  destruct (hijackQuery (context_of S0) query1) as [s' res].
  destruct Hc as [Hr|(text & r' & Ht & Hsame & Hf)]; [by apply not_refused in Hr|].
  exists text, r'. split; [exact Ht|]. split; [exact Hsame|].
  destruct Hf as (_ & Hresp & _). exact (f_equal w_body Hresp).
Defined.

Lemma hijackQueryRange_confines_witness :
  range_ok (request_form (request range1)) ∧
  answered hijackQueryRange S0 range1 =
    "GET /api/v1/query_range?end=600&query=up%7Bnamespace%3D~%22ns-a%7Cns-b%7Crx-c%22%7D&start=0&step=15s".
Proof.
  split; [|vm_compute; reflexivity].
  pose proof (hijackQueryRange_confines (context_of S0) range1 S0_names S0_len
    (fresh_get "/api/v1/query_range" "query=up&start=0&end=600&step=15s" ltac:(discriminate))) as Hc.
  cbv zeta in Hc. assert (once (hijackQueryRange (context_of S0) range1).1 = true) as Ho
    by (vm_compute; reflexivity).
  destruct (hijackQueryRange (context_of S0) range1) as [s' res].
  destruct Hc as [Hr|[Hok _]]; [by apply not_refused in Hr|exact Hok].
Defined.

(** The refusal speaks of 11,000 points: 11001 pass, and over the years 1 to
    9999, of which 292 years count, even 315538 do. *)
Definition range_query (start end_ step : string) : state :=
  state_of (get_request_of "/api/v1/query_range"
    ("query=up&start=" +:+ start +:+ "&end=" +:+ end_ +:+ "&step=" +:+ step)).
Definition range_points (start end_ step : string) : option Z :=
  match parseTime start, parseTime end_, parseDuration step with
  | Ok start, Ok end_, Ok step => Some (points start end_ step)
  | _, _, _ => None
  end.
Example one_more_point :
  range_points "0" "11000" "1" = Some 11001%Z ∧
  once (hijackQueryRange (context_of S0) (range_query "0" "11000" "1")).1 = true ∧
  once (hijackQueryRange (context_of S0) (range_query "0" "11001" "1")).1 = false.
Proof. split_and!; vm_compute; reflexivity. Qed.
Example span_saturates :
  range_points "0001-01-01T00:00:00Z" "9999-12-31T23:59:59Z" "1000000" = Some 315538%Z ∧
  once (hijackQueryRange (context_of S0)
    (range_query "0001-01-01T00:00:00Z" "9999-12-31T23:59:59Z" "1000000")).1 = true.
Proof. split; vm_compute; reflexivity. Qed.

Lemma hijack_selectors_confine_witness :
  (∃ texts, Forall2 (confined_text S0) ["up"; "up"] texts) ∧
  answered hijackSeries S0 series1 =
    "GET /api/v1/series?match%5B%5D=up%7Bnamespace%3D~%22ns-a%7Cns-b%7Crx-c%22%7D&match%5B%5D=up%7Bnamespace%3D~%22ns-a%7Cns-b%7Crx-c%22%7D&start=1".
Proof.
  split; [|vm_compute; reflexivity].
  pose proof (hijack_selectors_confine (context_of S0) series1 false S0_names S0_len
    (fresh_get "/api/v1/series" "match[]=up&match%5B%5D=up&start=1" ltac:(discriminate))) as Hc.
  cbv beta iota zeta in Hc. assert (once (hijackSeries (context_of S0) series1).1 = true) as Ho
    by (vm_compute; reflexivity).
  destruct (hijackSeries (context_of S0) series1) as [s' res].
  destruct Hc as [Hr|[(Hfed & _)|(texts & r' & Ht & _)]];
    [by apply not_refused in Hr|discriminate|exists texts; exact Ht].
Defined.

Lemma hijackRead_confines_witness :
  (∃ queries, Forall2 (query_confined S0 (DataSet.NewSet ["prometheus"])) (Queries read1) queries) ∧
  answered hijackRead S0 read_state = "POST /api/v1/read snappy(namespace~ns-a|ns-b)".
Proof.
  split; [|vm_compute; reflexivity].
  pose proof (hijackRead_confines (context_of S0) read_state S0_names S0_len) as Hc.
  assert (once (hijackRead (context_of S0) read_state).1 = true) as Ho by (vm_compute; reflexivity).
  destruct (hijackRead (context_of S0) read_state) as [s' res].
  destruct Hc as [Hr|(pbreq & queries & body & r' & Hdec & Hall & _)].
  - split_and!; try done. by split; [|left].
  - reflexivity.
  - by apply not_refused in Hr.
  - injection Hdec as <-. exists queries. exact Hall.
Defined.

Lemma no_namespaces_local_witness :
  hijackSeries (context_of (Some ∅)) series1 =
  hijackSeries (MkApiContext "tag" NotFound (DataSet.NewSet ["prometheus"]) (Some ∅)
    (λ _, (NilValue, Foreign "down"))) series1.
Proof.
  pose proof (no_namespaces_local (context_of (Some ∅))
    (MkApiContext "tag" NotFound (DataSet.NewSet ["prometheus"]) (Some ∅)
       (λ _, (NilValue, Foreign "down"))) series1 Rseries) as Hlocal.
  cbn [handler_of] in Hlocal. apply Hlocal.
  - split; reflexivity.
  - reflexivity.
  - exact (fresh_get "/api/v1/series" "match[]=up&match%5B%5D=up&start=1" ltac:(discriminate)).
  - intros [Hr|Hr]; discriminate Hr.
Defined.

(** The scalar query of a user whose namespaces could not be listed. *)
Definition scalar_query : string := "query=scalar(x%7Bnamespace%3D%22kube-system%22%7D)".
Definition scalar_state : state := state_of (get_request_of "/api/v1/query" scalar_query).

Lemma hijackQuery_nil_unfiltered_witness :
  (∃ r' s' res, forwarded (context_of None) r' (json_state scalar_state) s' res) ∧
  answered hijackQuery None scalar_state =
    "GET /api/v1/query?query=scalar%28x%7Bnamespace%3D%22kube-system%22%7D%29".
Proof.
  split; [|vm_compute; reflexivity].
  pose proof (hijackQuery_nil_unfiltered (context_of None) scalar_state scalar_x
    scalar_text eq_refl
    (fresh_get "/api/v1/query" scalar_query ltac:(discriminate))) as Hc.
  destruct (hijackQuery (context_of None) scalar_state) as [s' res].
  destruct Hc as (r' & _ & Hf); [vm_compute; reflexivity|vm_compute; discriminate| | | |vm_compute; reflexivity|].
  - reflexivity.
  - reflexivity.
  - repeat constructor.
  - by exists r', s', res.
Defined.

Definition names1 : Request := get_request_of "/api/v1/label/__name__/values" EmptyString.

Lemma hijackLabelName_outcomes_witness :
  status (ServeHTTP hijackLabelName (Some (context_of S0)) names1 new_writer).1 =
    StatusInternalServerError.
Proof.
  destruct (hijackLabelName_outcomes (context_of S0) names1 new_writer S0_names S0_len
    eq_refl eq_refl) as (expr & _ & Hout). exact Hout.
Defined.

Definition message : string := "1:8: parse error: unexpected right bracket ']'".
Lemma ServeHTTP_response_witness :
  let r := get_request_of "/api/v1/query" "query=invalid%5D%5Bquery" in
  let w' := (ServeHTTP hijackQuery (Some (context_of S0)) r new_writer).1 in
  status w' = StatusBadRequest ∧
  w_body w' = "{" +:+ q "status" +:+ ":" +:+ q "error" +:+ "," +:+ q "errorType" +:+ ":" +:+
    q "bad_data" +:+ "," +:+ q "error" +:+ ":" +:+ q message +:+ "}".
Proof.
  cbv zeta. set (r := get_request_of "/api/v1/query" "query=invalid%5D%5Bquery").
  set (s := parsed_state (json_state (state_of r))).
  pose proof (ServeHTTP_response hijackQuery (context_of S0) r new_writer s
    (Done (Wrap (Foreign message) badRequestErr))) as Hresp.
  cbv zeta in Hresp.
  destruct Hresp as [Hst Hbody].
  - reflexivity.
  - reflexivity.
  - split; [exact Hst|]. rewrite Hbody by reflexivity. vm_compute. reflexivity.
Defined.
