(* ===== verification/Mux.v ===== *)
(** * The request router (github.com/gorilla/mux)

    Routes are tried in order; a route has matchers for the path and the
    methods.  What the router does with host, header, query and scheme
    matchers, subrouters, strict slashes and named routes, which the agent
    does not use, is left out, and so are the path variables, which its
    handlers do not read.  [H] is the type of the handlers. *)
From S2P Require Import Prelude GoStrings Errors Url Http.
From Stdlib Require Import Ascii.
From stdpp Require Import options.

(** ** Path templates (regexp.go)

    The regular expression of a template is its text, with [[^/]+] for each
    variable in braces, anchored at the start and, for [Path], at the end.
    It is modelled by what it matches. *)
Inductive segment :=
| Literal (c : ascii)
| Variable_.

Inductive regexpType := regexpTypePath | regexpTypePrefix.

(** [newRouteRegexp], for templates whose variables have no pattern of
    their own: [None] is the error of unbalanced braces. *)
Fixpoint segments (in_braces : bool) (tpl : string) : option (list segment) :=
  match tpl with
  | EmptyString => if in_braces then None else Some []
  | String c tpl =>
      if bool_decide (c = "{"%char) then
        if in_braces then None else segments true tpl
      else if bool_decide (c = "}"%char) then
        if in_braces then cons Variable_ <$> segments false tpl else None
      else if in_braces then segments true tpl
      else cons (Literal c) <$> segments false tpl
  end.

Record routeRegexp := MkRouteRegexp { reType : regexpType; reSegments : list segment }.

Definition newRouteRegexp (tpl : string) (typ : regexpType) : option routeRegexp :=
  MkRouteRegexp typ <$> segments false tpl.

(** One or more bytes that are not slashes, then the rest. *)
Fixpoint match_variable (rest : string → bool) (path : string) : bool :=
  match path with
  | String c path =>
      negb (bool_decide (c = "/"%char)) && (rest path || match_variable rest path)
  | EmptyString => false
  end.

Fixpoint match_segments (typ : regexpType) (segs : list segment) (path : string) : bool :=
  match segs with
  | [] => match typ with
          | regexpTypePrefix => true
          | regexpTypePath => bool_decide (path = EmptyString)
          end
  | Literal c :: segs =>
      match path with
      | String d path => bool_decide (c = d) && match_segments typ segs path
      | EmptyString => false
      end
  | Variable_ :: segs => match_variable (match_segments typ segs) path
  end.

(** ** Routes (route.go) *)
Inductive matcher :=
| RegexpMatcher (r : routeRegexp)
| MethodMatcher (methods : list string).

Definition matcher_Match (m : matcher) (req : Request) : bool :=
  match m with
  | RegexpMatcher r => match_segments (reType r) (reSegments r) (Path (Req_URL req))
  | MethodMatcher methods => bool_decide (Method req ∈ methods)
  end.

Definition is_method_matcher (m : matcher) : bool :=
  match m with MethodMatcher _ => true | _ => false end.

Inductive match_error := ErrMethodMismatch | ErrNotFound.
#[export] Instance match_error_eq_dec : EqDecision match_error.
Proof. solve_decision. Defined.

Section Mux.
Context {H : Type}.

(** A route with an error (a malformed template) never matches. *)
Record Route := MkRoute { handler : option H; matchers : list matcher; err : bool }.

Record RouteMatch := MkRouteMatch {
  m_Handler : option H;
  m_MatchErr : option match_error;
}.

(** The loop over the matchers: [None] when it returns false at once,
    otherwise the local [matchErr]. *)
Fixpoint matchers_loop (ms : list matcher) (req : Request) (matchErr : option match_error)
    : option (option match_error) :=
  match ms with
  | [] => Some matchErr
  | m :: ms =>
      if matcher_Match m req then matchers_loop ms req matchErr
      else if is_method_matcher m then matchers_loop ms req (Some ErrMethodMismatch)
      else None
  end.

Definition Route_Match (r : Route) (req : Request) (m : RouteMatch) : bool * RouteMatch :=
  if err r then (false, m)
  else
    match matchers_loop (matchers r) req None with
    | None =>
        (false, if bool_decide (m_MatchErr m = Some ErrNotFound)
                then MkRouteMatch (m_Handler m) None else m)
    | Some (Some e) => (false, MkRouteMatch (m_Handler m) (Some e))
    | Some None =>
        let m := if bool_decide (m_MatchErr m = Some ErrMethodMismatch) &&
                    bool_decide (is_Some (handler r))
                 then MkRouteMatch (handler r) None else m in
        (true, MkRouteMatch (match m_Handler m with None => handler r | h => h end) (m_MatchErr m))
    end.

(** ** The router (mux.go) *)
Record Router := MkRouter { routes : list Route; middlewares : list (H → H) }.

(** The first middleware is the outermost. *)
Definition wrap_middlewares (mws : list (H → H)) (h : option H) : option H :=
  fold_right (λ mw h, mw <$> h) h mws.

Fixpoint match_routes (rs : list Route) (mws : list (H → H)) (req : Request) (m : RouteMatch)
    : bool * RouteMatch :=
  match rs with
  | [] => (false, if bool_decide (m_MatchErr m = Some ErrMethodMismatch) then m
                  else MkRouteMatch (m_Handler m) (Some ErrNotFound))
  | r :: rs =>
      match Route_Match r req m with
      | (true, m) =>
          (true, if bool_decide (m_MatchErr m = None)
                 then MkRouteMatch (wrap_middlewares mws (m_Handler m)) None else m)
      | (false, m) => match_routes rs mws req m
      end
  end.

Definition Router_Match (rt : Router) (req : Request) : bool * RouteMatch :=
  match_routes (routes rt) (middlewares rt) req (MkRouteMatch None None).

(** *** Building routers *)
Definition NewRouter : Router := MkRouter [] [].
Definition Use (rt : Router) (mw : H → H) : Router :=
  MkRouter (routes rt) (middlewares rt ++ [mw]).

Definition NewRoute : Route := MkRoute None [] false.
Definition addRegexpMatcher (r : Route) (tpl : string) (typ : regexpType) : Route :=
  if err r then r
  else if bool_decide (tpl ≠ EmptyString) && negb (HasPrefix tpl "/")
  then MkRoute (handler r) (matchers r) true
  else match newRouteRegexp tpl typ with
       | Some re => MkRoute (handler r) (matchers r ++ [RegexpMatcher re]) false
       | None => MkRoute (handler r) (matchers r) true
       end.
Definition Route_Path (r : Route) (tpl : string) : Route := addRegexpMatcher r tpl regexpTypePath.
Definition Route_PathPrefix (r : Route) (tpl : string) : Route :=
  addRegexpMatcher r tpl regexpTypePrefix.
Definition Methods (r : Route) (methods : list string) : Route :=
  if err r then r else MkRoute (handler r) (matchers r ++ [MethodMatcher methods]) false.
Definition Route_Handler (r : Route) (h : H) : Route :=
  if err r then r else MkRoute (Some h) (matchers r) false.
Definition add_route (rt : Router) (r : Route) : Router :=
  MkRouter (routes rt ++ [r]) (middlewares rt).

(** ** Specification *)

(** A route matches a request when all its matchers do; its path matches
    when those that are not about the method do. *)
Definition route_matches (req : Request) (r : Route) : bool :=
  negb (err r) && forallb (λ m, matcher_Match m req) (matchers r).
Definition path_matches (req : Request) (r : Route) : bool :=
  negb (err r) && forallb (λ m, is_method_matcher m || matcher_Match m req) (matchers r).

(** The first route that matches; without one, whether the method or the
    path is to blame. *)
Definition first_match (rt : Router) (req : Request) : bool * RouteMatch :=
  match List.find (route_matches req) (routes rt) with
  | Some r => (true, MkRouteMatch (wrap_middlewares (middlewares rt) (handler r)) None)
  | None => (false, MkRouteMatch None
      (Some (if existsb (path_matches req) (routes rt) then ErrMethodMismatch else ErrNotFound)))
  end.

(** ** Lemmas *)
Lemma matchers_loop_spec ms req e :
  matchers_loop ms req e =
  if forallb (λ m, is_method_matcher m || matcher_Match m req) ms then
    Some (if forallb (λ m, matcher_Match m req) ms then e else Some ErrMethodMismatch)
  else None.
Proof.
  revert e. induction ms as [|m ms IH]; intros e; [done|]. cbn.
  destruct (matcher_Match m req); [rewrite orb_true_r; apply IH|].
  destruct (is_method_matcher m); cbn; [|done]. rewrite IH.
  by destruct (forallb _ ms); [destruct (forallb _ ms)|].
Qed.

Lemma route_path_matches req r : route_matches req r = true → path_matches req r = true.
Proof.
  unfold route_matches, path_matches. intros [-> Hms]%andb_true_iff. cbn.
  apply forallb_forall. intros m Hm. rewrite forallb_forall in Hms.
  by rewrite Hms, orb_true_r.
Qed.

(** Before a route matched, the match has no handler and at most the error
    of a method mismatch. *)
Lemma match_routes_spec rs mws req e :
  e = None ∨ e = Some ErrMethodMismatch →
  Forall (λ r, is_Some (handler r)) rs →
  match_routes rs mws req (MkRouteMatch None e) =
  match List.find (route_matches req) rs with
  | Some r => (true, MkRouteMatch (wrap_middlewares mws (handler r)) None)
  | None => (false, MkRouteMatch None
      (Some (if existsb (path_matches req) rs || bool_decide (e = Some ErrMethodMismatch)
             then ErrMethodMismatch else ErrNotFound)))
  end.
Proof.
  intros He Hrs. revert e He. induction Hrs as [|r rs [h Hh] _ IH]; intros e He.
  { cbn. by destruct He as [-> | ->]. }
  assert (∀ e, e = None ∨ e = Some ErrMethodMismatch →
    bool_decide (e = Some ErrNotFound) = false) as Hnf by (by intros ? [-> | ->]).
  cbn [match_routes List.find existsb].
  unfold Route_Match. rewrite matchers_loop_spec. unfold route_matches at 1, path_matches at 1.
  destruct (err r); cbn [negb andb]; [by apply IH|].
  destruct (forallb (λ m, is_method_matcher m || _) _) eqn:Hpath.
  - destruct (forallb (λ m, matcher_Match m req) (matchers r)) eqn:Hall.
    + rewrite Hh. cbn [m_MatchErr m_Handler]. by destruct He as [-> | ->].
    + cbn [m_Handler orb]. rewrite IH by auto. by rewrite bool_decide_true, orb_true_r.
  - assert (forallb (λ m, matcher_Match m req) (matchers r) = false) as ->.
    { apply not_true_iff_false. intros Hall. apply not_true_iff_false in Hpath. apply Hpath.
      apply forallb_forall. intros m Hm. rewrite forallb_forall in Hall.
      by rewrite Hall, orb_true_r. }
    cbn [m_MatchErr]. rewrite Hnf by done. by apply IH.
Qed.

(** ** Properties *)

(** C31. Dispatch: a router whose routes all have handlers picks the first
    route whose path and method match, also after routes whose path alone
    matched, and wraps its handler in the middlewares; without one it
    reports a method mismatch exactly when some path matched. *)
Theorem Router_Match_first (rt : Router) (req : Request)
    (Hrt : Forall (λ r, is_Some (handler r)) (routes rt)) :
  Router_Match rt req = first_match rt req.
Proof.
  unfold Router_Match, first_match. rewrite match_routes_spec by auto.
  rewrite bool_decide_false, orb_false_r by done. done.
Qed.
End Mux.
Arguments Route : clear implicits.
Arguments Router : clear implicits.
Arguments RouteMatch : clear implicits.

(** ** Serving *)

(** [path.Clean] of a rooted path: the elements, without the empty ones and
    [.], [..] removing the one before. *)
Definition clean_step (acc : list string) (element : string) : list string :=
  if bool_decide (element = EmptyString) || bool_decide (element = ".") then acc
  else if bool_decide (element = "..") then removelast acc
  else acc ++ [element].
Definition Clean (p : string) : string :=
  "/" +:+ GoStrings.Join
    (fold_left clean_step (pieces (λ c, bool_decide (c = "/"%char)) p) []) "/".

Definition last_char (p : string) : option ascii := last (String.list_ascii_of_string p).

Definition cleanPath (p : string) : string :=
  if bool_decide (p = EmptyString) then "/"
  else
    let p := if HasPrefix p "/" then p else "/" +:+ p in
    let np := Clean p in
    if bool_decide (last_char p = Some "/"%char) && negb (bool_decide (np = "/"))
    then np +:+ "/" else np.

Definition methodNotAllowed : Handler := λ _ w,
  (WriteHeader w StatusMethodNotAllowed, Done ()).

(** [r.ServeHTTP(w, req)]; [serve_handler] runs a handler of the router. *)
Definition Router_ServeHTTP `{UnicodeTable} {H} (rt : Router H) (serve_handler : H → Handler)
    : Handler := λ req w,
  let path := Path (Req_URL req) in
  let p := cleanPath path in
  if negb (bool_decide (p = path)) then
    let u := Req_URL req in
    let location := URL_String (MkURL p (RawPath u) (ForceQuery u) (RawQuery u)) in
    let w := SetHeader w "Location" location in
    (WriteHeader w StatusMovedPermanently, Done ())
  else
    match Router_Match rt req with
    | (true, MkRouteMatch (Some h) _) => serve_handler h req w
    | (_, MkRouteMatch _ (Some ErrMethodMismatch)) => methodNotAllowed req w
    | _ => NotFound req w
    end.

(** ** Templates without variables *)
Definition literals (tpl : string) : list segment := Literal <$> String.list_ascii_of_string tpl.

Lemma match_literal_path tpl p :
  match_segments regexpTypePath (literals tpl) p = bool_decide (p = tpl).
Proof.
  revert p. induction tpl as [|c tpl IH]; intros [|d p]; cbn; try done.
  unfold literals in IH. rewrite IH. repeat case_bool_decide; cbn; congruence.
Qed.

Lemma match_literal_prefix tpl p :
  match_segments regexpTypePrefix (literals tpl) p = HasPrefix p tpl.
Proof.
  revert p. induction tpl as [|c tpl IH]; intros [|d p]; cbn; try done.
  unfold literals in IH. by rewrite IH.
Qed.
