(* ===== verification/Access.v ===== *)
(** * Access control and routes (src/pkg/agent/http.go)

    [httpBackend] proxies a white list of paths and hands everything else
    to [accessControl], whose middleware authenticates the request,
    decides whether the user sees everything, and otherwise computes the
    namespaces the hijack handlers work with. *)
From S2P Require Import Prelude GoStrings GoFloat Regexp DataSet Matchers Prom Promql Errors.
From S2P Require Import AccessControl Kube GoTime Url Http Json ApiContext Hijack Mux.
From stdpp Require Import gmap.
From stdpp Require Import options.

(** ** const.go, listener.go *)
Definition rancherUserHeaderKey : string := "X-Rancher-User".
Definition rancherGroupHeaderKey : string := "X-Rancher-Group".
Definition authorizationHeaderKey : string := "Authorization".

(** ** The agent (entry.go), as far as requests go *)
Record agent := MkAgent {
  cfg_filterReaderLabelSet : DataSet.Set_;
  nodes : AccessSetLookup;
  agt_namespaces : namespaces;
  secrets : SecretCache;
  agt_remoteAPI : string → ModelValue * error;
  myToken : string;
}.

(** The handlers of the router below the middleware: they get the
    [apiContext] through the context of the request. *)
Definition CtxHandler : Type := option apiContext → Handler.
Definition plain (h : Handler) : CtxHandler := λ _, h.

Definition unauthorized : Handler := λ _ w,
  (Http_Error w "unauthorized" StatusUnauthorized, Done ()).

(** [r.Header[key]], for a canonical key. *)
Definition header_values (r : Request) (key : string) : list string :=
  default [] (Req_Header r !! key).

Section Access.
Context `{RE : RegexpEngine, !Parser, !UnicodeTable, !Machine, MR : MultipartReader}.
Context `{PM : PromMessages, !Codecs}.

(** [fmt.Sprintf("%016x", time.Now().Unix())], a text for the logs. *)
Variable now_tag : string.

(** The part of the middleware after the user is known. *)
Definition authorize (agt : agent) (proxyHandler : Handler) (info : UserInfo)
    (next : CtxHandler) : Handler := λ r w,
  if CanList (nodes agt) info then proxyHandler r w
  else
    let namespaceSet := QueryByUser (agt_namespaces agt) info in
    let apiCtx := MkApiContext now_tag proxyHandler (cfg_filterReaderLabelSet agt) namespaceSet
                    (agt_remoteAPI agt) in
    next (Some apiCtx) r w.

(** The middleware of [accessControl]. *)
Definition access_middleware (agt : agent) (proxyHandler : Handler) (next : CtxHandler)
    : CtxHandler := λ _ r w,
  let rancherUser := Header_Get (Req_Header r) rancherUserHeaderKey in
  let rancherGroup := header_values r rancherGroupHeaderKey in
  let accessToken :=
    TrimPrefix (Header_Get (Req_Header r) authorizationHeaderKey) "Bearer " in
  if bool_decide (rancherUser = EmptyString) && bool_decide (length rancherGroup = 0) &&
     bool_decide (String.length accessToken = 0)
  then unauthorized r w
  else if bool_decide (rancherUser ≠ EmptyString) || bool_decide (length rancherGroup ≠ 0)
  then authorize agt proxyHandler (MkUserInfo rancherUser rancherUser rancherGroup) next r w
  else if bool_decide (myToken agt = accessToken) then proxyHandler r w
  else
    let '(sa, err) := GetSA (secrets agt) accessToken in
    if negb (is_nil err) then unauthorized r w
    else match sa with
         | None => (w, Panic nil_dereference)
         | Some sa =>
             let name := "system:serviceaccount:" +:+ SA_Namespace sa +:+ ":" +:+ SA_Name sa in
             authorize agt proxyHandler (MkUserInfo name EmptyString []) next r w
         end.

(** The routes below the middleware. *)
Definition path_route (tpl : string) (methods : list string) (h : CtxHandler) : Route CtxHandler :=
  Route_Handler (Methods (Route_Path NewRoute tpl) methods) h.
Definition api_handler (f : apiContextHandler) : CtxHandler := λ c, ServeHTTP f c.

Definition access_routes (proxyHandler : Handler) : list (Route CtxHandler) :=
  [path_route "/api/v1/query" ["GET"; "POST"] (api_handler hijackQuery);
   path_route "/api/v1/query_range" ["GET"; "POST"] (api_handler hijackQueryRange);
   path_route "/api/v1/series" ["GET"] (api_handler hijackSeries);
   path_route "/api/v1/read" ["POST"] (api_handler hijackRead);
   path_route "/api/v1/label/__name__/values" ["GET"] (api_handler hijackLabelName);
   path_route "/api/v1/label/namespace/values" ["GET"] (api_handler hijackLabelNamespaces);
   path_route "/api/v1/label/{name}/values" ["GET"] (plain proxyHandler);
   path_route "/federate" ["GET"] (api_handler hijackFederate);
   Route_Handler (Route_PathPrefix NewRoute "/") (plain unauthorized)].

Definition access_router (agt : agent) (proxyHandler : Handler) : Router CtxHandler :=
  fold_left add_route (access_routes proxyHandler)
    (Use NewRouter (access_middleware agt proxyHandler)).

Definition accessControl (agt : agent) (proxyHandler : Handler) : Handler :=
  Router_ServeHTTP (access_router agt proxyHandler) (λ h, h None).

(** ** httpBackend

    [promHandler] serves the metrics of the agent itself
    (promhttp.Handler()), [proxy] is the reverse proxy to Prometheus. *)
Definition white_list : list string :=
  ["/alerts"; "/graph"; "/status"; "/flags"; "/config"; "/rules"; "/targets"; "/version";
   "/service-discovery"].
Definition white_prefixes : list string := ["/consoles/"; "/static/"; "/user/"].
Definition white_list2 : list string := ["/metrics"; "/-/healthy"; "/-/ready"].

Definition get_route (h : Handler) (r : Route Handler) : Route Handler :=
  Route_Handler (Methods r ["GET"]) h.

Definition backend_routes (agt : agent) (promHandler proxy : Handler) : list (Route Handler) :=
  [get_route promHandler (Route_Path NewRoute "/_/metrics")] ++
  ((λ p, get_route proxy (Route_Path NewRoute p)) <$> white_list) ++
  ((λ p, get_route proxy (Route_PathPrefix NewRoute p)) <$> white_prefixes) ++
  ((λ p, get_route proxy (Route_Path NewRoute p)) <$> white_list2) ++
  [get_route proxy (Route_PathPrefix NewRoute "/debug/");
   Route_Handler (Route_PathPrefix NewRoute "/") (accessControl agt proxy)].

(** At the debug level a middleware logs each request and calls the next
    handler. *)
Definition log_middleware (next : Handler) : Handler := λ req resp, next req resp.

Definition httpBackend (debug : bool) (agt : agent) (promHandler proxy : Handler) : Handler :=
  let router := if debug then Use NewRouter log_middleware else NewRouter in
  Router_ServeHTTP (fold_left add_route (backend_routes agt promHandler proxy) router) id.
End Access.
