(* ===== verification/AccessSpec.v ===== *)
(** * Who reaches what

    The contract of src/pkg/agent/http.go: the verdict of the access
    control on a request, and the table of endpoints. *)
From S2P Require Import Prelude GoStrings GoFloat Regexp DataSet Matchers Prom Promql Errors.
From S2P Require Import AccessControl Kube GoTime Url Http Json ApiContext Hijack HijackSpec.
From S2P Require Import Mux Access.
From Stdlib Require Import Ascii.
From stdpp Require Import gmap.
From stdpp Require Import options.

Section AccessSpec.
#[local] Set Default Proof Using "Type*".
Context `{RE : RegexpEngine, P : !Parser, UT : !UnicodeTable, MA : !Machine, MR : MultipartReader}.
Context `{PM : PromMessages, CO : !Codecs}.
Variable now_tag : string.

(** ** Specification: verdicts *)
Inductive verdict :=
| Refused
| Everything
| Scoped (info : UserInfo)
| Crashed.

Definition user_of (r : Request) : string := Header_Get (Req_Header r) rancherUserHeaderKey.
Definition groups_of (r : Request) : list string := header_values r rancherGroupHeaderKey.
Definition bearer (r : Request) : string :=
  TrimPrefix (Header_Get (Req_Header r) authorizationHeaderKey) "Bearer ".

(** The identity a request carries: the headers the Rancher proxy sets, or
    else the service account of its bearer token. *)
Definition anonymous (r : Request) : Prop := user_of r = EmptyString ∧ groups_of r = [].
Definition service_account (sa : ServiceAccount) : UserInfo :=
  MkUserInfo ("system:serviceaccount:" +:+ SA_Namespace sa +:+ ":" +:+ SA_Name sa) EmptyString [].

Definition lists_nodes (allows : UserInfo → string → GroupResource → string → string → Prop)
    (info : UserInfo) : Prop :=
  allows info "list" (MkGroupResource GroupName NodeResource) EmptyString EmptyString.

Inductive identified (secs : list Secret) (r : Request) : UserInfo → Prop :=
| by_headers :
    ¬ anonymous r → identified secs r (MkUserInfo (user_of r) (user_of r) (groups_of r))
| by_token sa :
    anonymous r → bearer r ≠ EmptyString → authenticates secs (bearer r) sa →
    identified secs r (service_account sa).

(** The secrets with the token of the request. *)
Definition token_secrets (secs : list Secret) (r : Request) : list Secret :=
  filter (λ sec, token_of sec = Some (bearer r)) secs.

(** The verdict.  The own token of the agent comes first: whether a secret
    holds it too makes no difference; it is asked only of a request without
    user headers. *)
Inductive judged (secs : list Secret)
    (allows : UserInfo → string → GroupResource → string → string → Prop) (own : string)
    (r : Request) : verdict → Prop :=
| judged_anonymous :
    anonymous r → bearer r = EmptyString → judged secs allows own r Refused
| judged_own :
    anonymous r → bearer r ≠ EmptyString → bearer r = own → judged secs allows own r Everything
| judged_nodes info :
    (anonymous r → bearer r ≠ own) → identified secs r info → lists_nodes allows info →
    judged secs allows own r Everything
| judged_scoped info :
    (anonymous r → bearer r ≠ own) → identified secs r info → ¬ lists_nodes allows info →
    judged secs allows own r (Scoped info)
| judged_no_account :
    anonymous r → bearer r ≠ EmptyString → bearer r ≠ own → length (token_secrets secs r) = 1 →
    (∀ sa, ¬ authenticates secs (bearer r) sa) → judged secs allows own r Refused
| judged_unknown :
    anonymous r → bearer r ≠ EmptyString → bearer r ≠ own → length (token_secrets secs r) ≠ 1 →
    judged secs allows own r Crashed.

(** What the middleware does by verdict. *)
Definition context_for (agt : agent) (proxyHandler : Handler) (info : UserInfo) : apiContext :=
  MkApiContext now_tag proxyHandler (cfg_filterReaderLabelSet agt)
    (QueryByUser (agt_namespaces agt) info) (agt_remoteAPI agt).

Definition enforce (agt : agent) (proxyHandler : Handler) (next : CtxHandler) (v : verdict)
    : Handler := λ r w,
  match v with
  | Refused => (Http_Error w "unauthorized" StatusUnauthorized, Done ())
  | Everything => proxyHandler r w
  | Scoped info => next (Some (context_for agt proxyHandler info)) r w
  | Crashed => (w, Panic nil_dereference)
  end.

(** ** Specification: endpoints *)

(** The path of the values of a label: one element for its name. *)
Definition label_values_path (p : string) : Prop :=
  ∃ name, name ≠ EmptyString ∧ string_forall (λ c, negb (bool_decide (c = "/"%char))) name = true ∧
    p = "/api/v1/label/" +:+ name +:+ "/values".

Inductive endpoint :=
| Api (r : route)
| Unfiltered
| Unknown.

Definition is_GET (m : string) : bool := bool_decide (m = "GET").
Definition is_POST (m : string) : bool := bool_decide (m = "POST").

Definition label_values_segments : list segment :=
  literals "/api/v1/label/" ++ [Variable_] ++ literals "/values".

Definition endpoint_of (m p : string) : endpoint :=
  if bool_decide (p = "/api/v1/query") && (is_GET m || is_POST m) then Api Rquery
  else if bool_decide (p = "/api/v1/query_range") && (is_GET m || is_POST m) then Api Rquery_range
  else if bool_decide (p = "/api/v1/series") && is_GET m then Api Rseries
  else if bool_decide (p = "/api/v1/read") && is_POST m then Api Rread
  else if bool_decide (p = "/api/v1/label/__name__/values") && is_GET m then Api Rnames
  else if bool_decide (p = "/api/v1/label/namespace/values") && is_GET m then Api Rnamespaces
  else if match_segments regexpTypePath label_values_segments p && is_GET m then Unfiltered
  else if bool_decide (p = "/federate") && is_GET m then Api Rfederate
  else Unknown.

Definition endpoint_handler (proxyHandler : Handler) (e : endpoint) : CtxHandler :=
  match e with
  | Api r => λ c, ServeHTTP (handler_of r) c
  | Unfiltered => λ _, proxyHandler
  | Unknown => λ _, unauthorized
  end.

(** The paths that need no authentication: the pages of Prometheus, its
    metrics and health checks, and all below four directories. *)
Definition open_pages : list string :=
  ["/alerts"; "/graph"; "/status"; "/flags"; "/config"; "/rules"; "/targets"; "/version";
   "/service-discovery"; "/metrics"; "/-/healthy"; "/-/ready"].
Definition open_directories : list string := ["/consoles/"; "/static/"; "/user/"; "/debug/"].
Definition open_path (p : string) : bool :=
  bool_decide (p ∈ open_pages) || existsb (HasPrefix p) open_directories.

(** Serving by the first matching route, without middlewares. *)
Definition dispatch (r : Request) (w : ResponseWriter) (rs : list (Route Handler)) :=
  match List.find (route_matches r) rs with
  | Some rt => match handler rt with Some h => h r w | None => NotFound r w end
  | None => if existsb (path_matches r) rs then methodNotAllowed r w else NotFound r w
  end.

(** ** Lemmas: routes *)
Lemma fold_add_route {H} (rs : list (Route H)) rt :
  fold_left add_route rs rt = MkRouter (routes rt ++ rs) (middlewares rt).
Proof.
  revert rt. induction rs as [|r rs IH]; intros rt; cbn.
  - rewrite app_nil_r. by destruct rt.
  - rewrite IH. cbn. by rewrite <-app_assoc.
Qed.

Lemma Router_ServeHTTP_first {H} (rt : Router H) (sh : H → Handler) req w :
  Forall (λ r, is_Some (handler r)) (routes rt) →
  cleanPath (Path (Req_URL req)) = Path (Req_URL req) →
  Router_ServeHTTP rt sh req w =
  match List.find (route_matches req) (routes rt) with
  | Some r => match wrap_middlewares (middlewares rt) (handler r) with
              | Some h => sh h req w
              | None => NotFound req w
              end
  | None => if existsb (path_matches req) (routes rt) then methodNotAllowed req w
            else NotFound req w
  end.
Proof.
  intros Hrt Hp. unfold Router_ServeHTTP. rewrite Hp, bool_decide_true by done. cbn [negb].
  unfold Router_Match. rewrite match_routes_spec by auto.
  destruct (List.find _ _); [by destruct (wrap_middlewares _ _)|].
  rewrite (bool_decide_false (None = Some ErrMethodMismatch)), orb_false_r by done.
  by destruct (existsb _ _).
Qed.

Lemma HasPrefix_cons c p : HasPrefix (String c p) (String c EmptyString) = true.
Proof. cbn. rewrite bool_decide_true by done. by destruct p. Qed.

Lemma clean_rooted p : cleanPath p = p → HasPrefix p "/" = true.
Proof.
  assert (∀ s, HasPrefix ("/" +:+ s) "/" = true) as Hs.
  { intros s. rewrite string_app_cons, string_app_nil_l. apply HasPrefix_cons. }
  unfold cleanPath. case_bool_decide; [by intros <-|]. intros <-. unfold Clean.
  destruct (_ && _); [rewrite string_app_assoc|]; apply Hs.
Qed.

(** A route on a template without variables. *)
Lemma path_route_matches req tpl methods h :
  HasPrefix tpl "/" = true → segments false tpl = Some (literals tpl) →
  route_matches req (path_route tpl methods h) =
  bool_decide (Path (Req_URL req) = tpl) && bool_decide (Method req ∈ methods).
Proof.
  intros Hs Ht. unfold path_route, Route_Path, addRegexpMatcher, newRouteRegexp.
  cbn [err NewRoute]. rewrite Hs, andb_false_r, Ht.
  unfold route_matches. cbn. by rewrite match_literal_path, andb_true_r.
Qed.

Lemma label_route_matches req h :
  route_matches req (path_route "/api/v1/label/{name}/values" ["GET"] h) =
  match_segments regexpTypePath label_values_segments (Path (Req_URL req)) &&
  bool_decide (Method req ∈ ["GET"]).
Proof.
  unfold route_matches, label_values_segments. cbn [forallb matchers path_route].
  change (matchers (path_route "/api/v1/label/{name}/values" ["GET"] h)) with
    [RegexpMatcher (MkRouteRegexp regexpTypePath label_values_segments); MethodMatcher ["GET"]].
  cbn [forallb matcher_Match reType reSegments]. by rewrite andb_true_r.
Qed.

Lemma root_route_matches {H} req (h : H) :
  route_matches req (Route_Handler (Route_PathPrefix NewRoute "/") h) =
  HasPrefix (Path (Req_URL req)) "/".
Proof.
  unfold route_matches.
  change (matchers (Route_Handler (Route_PathPrefix NewRoute "/") h)) with
    [RegexpMatcher (MkRouteRegexp regexpTypePrefix (literals "/"))].
  cbn [forallb matcher_Match reType reSegments]. by rewrite match_literal_prefix, andb_true_r.
Qed.

Lemma method_GET m : bool_decide (m ∈ ["GET"]) = is_GET m.
Proof. apply bool_decide_ext. by rewrite list_elem_of_singleton. Qed.
Lemma method_POST m : bool_decide (m ∈ ["POST"]) = is_POST m.
Proof. apply bool_decide_ext. by rewrite list_elem_of_singleton. Qed.
Lemma method_both m : bool_decide (m ∈ ["GET"; "POST"]) = is_GET m || is_POST m.
Proof.
  apply eq_true_iff_eq. unfold is_GET, is_POST.
  rewrite orb_true_iff, !bool_decide_eq_true, elem_of_cons, list_elem_of_singleton. done.
Qed.

Lemma get_path_matches req tpl h :
  HasPrefix tpl "/" = true → segments false tpl = Some (literals tpl) →
  route_matches req (get_route h (Route_Path NewRoute tpl)) =
  bool_decide (Path (Req_URL req) = tpl) && is_GET (Method req).
Proof.
  intros Hs Ht. unfold get_route, Route_Path, addRegexpMatcher, newRouteRegexp.
  cbn [err NewRoute]. rewrite Hs, andb_false_r, Ht.
  unfold route_matches. cbn. by rewrite match_literal_path, andb_true_r, method_GET.
Qed.

Lemma get_prefix_matches req tpl h :
  HasPrefix tpl "/" = true → segments false tpl = Some (literals tpl) →
  route_matches req (get_route h (Route_PathPrefix NewRoute tpl)) =
  HasPrefix (Path (Req_URL req)) tpl && is_GET (Method req).
Proof.
  intros Hs Ht. unfold get_route, Route_PathPrefix, addRegexpMatcher, newRouteRegexp.
  cbn [err NewRoute]. rewrite Hs, andb_false_r, Ht.
  unfold route_matches. cbn. by rewrite match_literal_prefix, andb_true_r, method_GET.
Qed.

Lemma elem_of_existsb (p : string) ps :
  bool_decide (p ∈ ps) = existsb (λ q, bool_decide (p = q)) ps.
Proof.
  induction ps as [|q ps IH]; [done|]. cbn. rewrite <-IH. apply eq_true_iff_eq.
  by rewrite orb_true_iff, !bool_decide_eq_true, elem_of_cons.
Qed.

Lemma dispatch_backend agt promHandler proxy r w :
  HasPrefix (Path (Req_URL r)) "/" = true →
  dispatch r w (backend_routes now_tag agt promHandler proxy) =
  if bool_decide (Path (Req_URL r) = "/_/metrics") && is_GET (Method r) then promHandler r w
  else if open_path (Path (Req_URL r)) && is_GET (Method r) then proxy r w
  else accessControl now_tag agt proxy r w.
Proof.
  intros Hroot. unfold dispatch, backend_routes. cbn [List.find fmap list_fmap app white_list
    white_prefixes white_list2].
  rewrite !get_path_matches, !get_prefix_matches by reflexivity.
  rewrite root_route_matches, Hroot. unfold open_path, open_pages, open_directories.
  rewrite elem_of_existsb. cbn [existsb].
  destruct (is_GET (Method r)); [rewrite !andb_true_r|by rewrite !andb_false_r].
  repeat match goal with
    | |- context [if ?b then Some _ else _] => destruct b; [by rewrite ?orb_true_r|]
    end.
  reflexivity.
Qed.

(** The route of the values of a label matches the paths of that shape. *)
Lemma match_segments_literals typ pre segs p :
  match_segments typ (literals pre ++ segs) p = true ↔
  ∃ q, p = pre +:+ q ∧ match_segments typ segs q = true.
Proof.
  revert p. induction pre as [|c pre IH]; intros p; cbn.
  - split; [intros Hm; by exists p|by intros (q & -> & Hm)].
  - destruct p as [|d p]; [by split; [|intros (q & [=] & _)]|].
    unfold literals in IH. rewrite andb_true_iff, bool_decide_eq_true, IH. split.
    + intros [-> (q & -> & Hq)]. by exists q.
    + intros (q & [= -> ->] & Hq). split; [done|]. by exists q.
Qed.

Lemma match_variable_spec rest p :
  match_variable rest p = true ↔
  ∃ name q, name ≠ EmptyString ∧
    string_forall (λ c, negb (bool_decide (c = "/"%char))) name = true ∧
    p = name +:+ q ∧ rest q = true.
Proof.
  induction p as [|c p IH]; cbn [match_variable].
  - split; [done|]. by intros ([|] & q & Hn & _ & Hp & _).
  - rewrite andb_true_iff, orb_true_iff, IH. split.
    + intros [Hc [Hr|(name & q & Hn & Hs & -> & Hr)]].
      * exists (String c EmptyString), p. cbn. by rewrite Hc.
      * exists (String c name), q. cbn. by rewrite Hc.
    + intros ([|d name] & q & Hn & Hs & Hp & Hr); [done|].
      cbn in Hp, Hs. injection Hp as <- ->. apply andb_true_iff in Hs as [Hc Hs].
      split; [done|]. destruct name as [|e name]; [by left|right].
      by exists (String e name), q.
Qed.

Lemma label_values_spec p :
  match_segments regexpTypePath label_values_segments p = true ↔ label_values_path p.
Proof.
  unfold label_values_segments, label_values_path. rewrite match_segments_literals. split.
  - intros (q & -> & Hq). cbn [app match_segments] in Hq.
    apply match_variable_spec in Hq as (name & q' & Hn & Hs & -> & Hq).
    rewrite match_literal_path in Hq. apply bool_decide_eq_true in Hq as ->.
    by exists name.
  - intros (name & Hn & Hs & ->). eexists. split; [done|]. cbn [app match_segments].
    apply match_variable_spec. exists name, "/values". split_and!; [done..|].
    rewrite match_literal_path. by apply bool_decide_true.
Qed.

(** ** Lemmas: verdicts *)
Lemma authorize_spec agt allows secs own proxyHandler next info r w :
  AccessContract (nodes agt) allows → (anonymous r → bearer r ≠ own) → identified secs r info →
  ∃ v, judged secs allows own r v ∧
    authorize now_tag agt proxyHandler info next r w = enforce agt proxyHandler next v r w.
Proof.
  intros Hc Hown Hid. unfold authorize.
  pose proof (CanList_spec (nodes agt) info allows Hc) as Hlist. fold (lists_nodes allows info) in Hlist.
  destruct (CanList (nodes agt) info).
  - exists Everything. split; [|done]. apply (judged_nodes _ _ _ _ info); [done..|]. by apply Hlist.
  - exists (Scoped info). split; [|done]. apply judged_scoped; [done..|].
    intros Hl. by apply Hlist in Hl.
Qed.

Lemma GetSA_cases cache secs token :
  indexed cache secs →
  match GetSA cache token with
  | (Some sa, err) => err = ErrNil ∧ authenticates secs token sa
  | (None, ErrNil) => length (filter (λ sec, token_of sec = Some token) secs) ≠ 1
  | (None, _) => length (filter (λ sec, token_of sec = Some token) secs) = 1 ∧
                 ∀ sa, ¬ authenticates secs token sa
  end.
Proof.
  intros Hi. pose proof (λ sa, GetSA_authenticates cache secs token sa Hi) as Hauth.
  destruct (Hi token) as (found & Hfound & Hperm). apply Permutation_length in Hperm.
  assert (∀ sa, (GetSA cache token).1 = Some sa → (GetSA cache token).2 = ErrNil) as Hnil.
  { intros sa. unfold GetSA. rewrite Hfound. cbn.
    repeat (case_match; cbn; try done). }
  assert ((GetSA cache token).1 = None → (GetSA cache token).2 = ErrNil → length found ≠ 1) as Hn.
  { unfold GetSA. rewrite Hfound. cbn. destruct found as [|sec [|]]; [done| |done].
    repeat case_bool_decide; done. }
  assert ((GetSA cache token).2 ≠ ErrNil → length found = 1) as He.
  { unfold GetSA. rewrite Hfound. cbn. by destruct found as [|sec [|]]. }
  rewrite <-Hperm. destruct (GetSA cache token) as [[sa|] err]; cbn in *.
  - specialize (Hnil sa eq_refl). split; [done|]. apply Hauth. by rewrite Hnil.
  - destruct err; [by apply Hn|..]; (split; [by apply He|intros sa Hsa%Hauth; done]).
Qed.

(** *** The middleware, the routes of the access control, the backend *)
Lemma middleware_verdict (agt : agent) (secs : list Secret)
    (allows : UserInfo → string → GroupResource → string → string → Prop)
    (proxyHandler : Handler) (next : CtxHandler) (ctx : option apiContext) (r : Request)
    (w : ResponseWriter)
    (Hnodes : AccessContract (nodes agt) allows) (Hsecs : indexed (secrets agt) secs) :
  ∃ v, judged secs allows (myToken agt) r v ∧
    access_middleware now_tag agt proxyHandler next ctx r w = enforce agt proxyHandler next v r w.
Proof.
  unfold access_middleware. fold (user_of r) (groups_of r) (bearer r).
  assert (bool_decide (String.length (bearer r) = 0) = bool_decide (bearer r = EmptyString)) as ->
    by (apply bool_decide_ext; by destruct (bearer r)).
  assert (bool_decide (length (groups_of r) = 0) = bool_decide (groups_of r = [])) as ->
    by (apply bool_decide_ext; by destruct (groups_of r)).
  assert (bool_decide (length (groups_of r) ≠ 0) = bool_decide (groups_of r ≠ [])) as ->
    by (apply bool_decide_ext; by destruct (groups_of r)).
  destruct (decide (anonymous r)) as [Ha|Ha].
  - pose proof Ha as [Hu Hg]. rewrite (bool_decide_true (user_of r = _)) by done.
    rewrite (bool_decide_true (groups_of r = _)) by done.
    rewrite (bool_decide_false (user_of r ≠ _)) by (by rewrite Hu; intros Hn; apply Hn).
    rewrite (bool_decide_false (groups_of r ≠ _)) by (by rewrite Hg; intros Hn; apply Hn).
    cbn [andb orb]. case_bool_decide as Hb; [exists Refused; split; [by constructor|done]|].
    case_bool_decide as Hown; [exists Everything; split; [by apply judged_own|done]|].
    pose proof (GetSA_cases (secrets agt) secs (bearer r) Hsecs) as Hsa.
    destruct (GetSA (secrets agt) (bearer r)) as [[sa|] err].
    + destruct Hsa as [-> Hsa]. cbn [is_nil negb].
      apply (authorize_spec agt allows secs); [done|congruence|]. by apply by_token.
    + destruct err; cbn [is_nil negb].
      * exists Crashed. split; [|done]. by apply judged_unknown.
      * exists Refused. destruct Hsa. split; [by apply judged_no_account|done].
      * exists Refused. destruct Hsa. split; [by apply judged_no_account|done].
  - assert (bool_decide (user_of r = EmptyString) && bool_decide (groups_of r = []) = false) as ->.
    { apply not_true_iff_false. rewrite andb_true_iff, !bool_decide_eq_true. exact Ha. }
    assert (bool_decide (user_of r ≠ EmptyString) || bool_decide (groups_of r ≠ []) = true) as ->.
    { rewrite orb_true_iff, !bool_decide_eq_true.
      destruct (decide (user_of r = EmptyString)); [|by left].
      destruct (decide (groups_of r = [])); [by destruct Ha|by right]. }
    cbn [andb]. apply (authorize_spec agt allows secs); [done..|]. by apply by_headers.
Qed.

Lemma endpoints_served (agt : agent) (proxyHandler : Handler) (r : Request)
    (w : ResponseWriter) :
  let p := Path (Req_URL r) in
  if bool_decide (cleanPath p = p) then
    accessControl now_tag agt proxyHandler r w =
    access_middleware now_tag agt proxyHandler
      (endpoint_handler proxyHandler (endpoint_of (Method r) p)) None r w
  else status (accessControl now_tag agt proxyHandler r new_writer).1 = StatusMovedPermanently.
Proof.
  cbn zeta. case_bool_decide as Hp.
  2: { unfold accessControl, Router_ServeHTTP. rewrite bool_decide_false by done. done. }
  pose proof (clean_rooted _ Hp) as Hroot.
  unfold accessControl. rewrite Router_ServeHTTP_first; [|by repeat constructor|done].
  unfold access_router. rewrite fold_add_route. cbn [routes middlewares Use NewRouter app].
  unfold access_routes. cbn [List.find].
  rewrite !path_route_matches by reflexivity.
  rewrite (path_route_matches r "/federate") by reflexivity.
  rewrite label_route_matches, root_route_matches, Hroot.
  rewrite !method_GET, method_POST, !method_both. unfold endpoint_of.
  repeat match goal with
    | |- context [if ?b then Some _ else _] => destruct b; [reflexivity|]
    end.
  reflexivity.
Qed.

Lemma backend_served (debug : bool) (agt : agent) (promHandler proxy : Handler)
    (r : Request) (w : ResponseWriter) :
  let p := Path (Req_URL r) in
  let backend := httpBackend now_tag debug agt promHandler proxy in
  if bool_decide (cleanPath p = p) then
    backend r w =
      if bool_decide (p = "/_/metrics") && is_GET (Method r) then promHandler r w
      else if open_path p && is_GET (Method r) then proxy r w
      else accessControl now_tag agt proxy r w
  else status (backend r new_writer).1 = StatusMovedPermanently.
Proof.
  cbn zeta. case_bool_decide as Hp.
  2: { unfold httpBackend, Router_ServeHTTP. by rewrite bool_decide_false. }
  pose proof (clean_rooted _ Hp) as Hroot.
  unfold httpBackend. rewrite fold_add_route.
  assert (routes (if debug then Use NewRouter log_middleware else NewRouter) = []) as ->
    by by destruct debug.
  rewrite Router_ServeHTTP_first; [|by repeat constructor|done]. cbn [routes middlewares app].
  assert (∀ h, h = wrap_middlewares (middlewares (if debug then Use NewRouter log_middleware
    else NewRouter)) h) as Hmw_eq by (intros [h|]; by destruct debug).
  transitivity (dispatch r w (backend_routes now_tag agt promHandler proxy)); [|now apply dispatch_backend].
  unfold dispatch. destruct (List.find _ _) as [rt|]; [|done]. rewrite <-(Hmw_eq (handler rt)).
  by destruct (handler rt).
Qed.

(** The identity of a request, and with it the verdict, is one. *)
Lemma identified_unique secs r info info' : identified secs r info → identified secs r info' → info' = info.
Proof.
  intros [Ha|sa Ha Hb Hsa] [Ha'|sa' Ha' Hb' Hsa']; [done|by destruct Ha|by destruct Ha'|].
  f_equal. by eapply authenticates_unique.
Qed.

Lemma judged_identified secs allows own r info v :
  identified secs r info → (anonymous r → bearer r ≠ own) → judged secs allows own r v →
  v = Everything ∧ lists_nodes allows info ∨ v = Scoped info ∧ ¬ lists_nodes allows info.
Proof.
  intros Hid Hown Hv.
  assert (bearer r = EmptyString → anonymous r → False) as Hbearer by (by destruct Hid).
  assert (anonymous r → length (token_secrets secs r) = 1 ∧ ∃ sa, authenticates secs (bearer r) sa) as Hone.
  { destruct Hid as [|sa _ _ Hsa]; [done|]. intros _. split; [by eapply authenticates_one|by exists sa]. }
  destruct Hv as [Ha Hb|Ha Hb Ho|i _ Hi Hl|i _ Hi Hl|Ha Hb _ _ Hno|Ha Hb Ho Hlen].
  - by destruct (Hbearer Hb Ha).
  - by destruct (Hown Ha).
  - apply (identified_unique _ _ _ _ Hid) in Hi as ->. by left.
  - apply (identified_unique _ _ _ _ Hid) in Hi as ->. by right.
  - destruct (Hone Ha) as [_ [sa Hsa]]. by destruct (Hno sa).
  - by destruct (Hone Ha).
Qed.

Lemma judged_unique secs allows own r v v' :
  judged secs allows own r v → judged secs allows own r v' → v' = v.
Proof.
  intros Hv Hv'. destruct Hv as [Ha Hb|Ha Hb Ho|i Hown Hi Hl|i Hown Hi Hl|Ha Hb Ho Hlen Hno|Ha Hb Ho Hlen].
  3,4: destruct (judged_identified _ _ _ _ _ _ Hi Hown Hv') as [[-> ?]|[-> ?]]; done.
  all: destruct Hv' as [Ha' Hb'|Ha' Hb' Ho'|i' Hown' [|sa ? Hb' Hsa] Hl'|i' Hown' [|sa ? Hb' Hsa] Hl'
    |Ha' Hb' Ho' Hlen' Hno'|Ha' Hb' Ho' Hlen']; try done; try (by destruct (Hown' Ha)); try (by destruct (Hno sa)).
  all: by apply authenticates_one in Hsa.
Qed.

(** ** Properties *)

(** C4. The verdict on every request, of which there is just one.  The
    middleware refuses requests without identity; it hands over to the
    proxy, unfiltered, only the requests with the agent's own token, held
    by a secret or not, and those of an identity that may list the nodes;
    any other identity gets the namespaces it may see; and a token that no
    secret or several secrets hold is not refused but crashes the
    request. *)
Theorem access_middleware_judges (agt : agent) (secs : list Secret)
    (allows : UserInfo → string → GroupResource → string → string → Prop)
    (proxyHandler : Handler) (next : CtxHandler) (ctx : option apiContext) (r : Request)
    (w : ResponseWriter)
    (Hnodes : AccessContract (nodes agt) allows) (Hsecs : indexed (secrets agt) secs) :
  ∃ v, judged secs allows (myToken agt) r v ∧ (∀ v', judged secs allows (myToken agt) r v' → v' = v) ∧
    access_middleware now_tag agt proxyHandler next ctx r w = enforce agt proxyHandler next v r w.
Proof.
  destruct (middleware_verdict agt secs allows proxyHandler next ctx r w Hnodes Hsecs) as (v & Hv & Hw).
  exists v. split; [done|]. split; [|done]. intros v'. by apply judged_unique.
Qed.

(** C16. The endpoints below the access control.  A clean path is served,
    behind the middleware, by the handler of its line in the table; every
    path or method that is not in the table is unauthorized, and a path
    that is not clean is redirected. *)
Theorem accessControl_endpoints (agt : agent) (proxyHandler : Handler) (r : Request)
    (w : ResponseWriter) :
  let p := Path (Req_URL r) in
  if bool_decide (cleanPath p = p) then
    accessControl now_tag agt proxyHandler r w =
    access_middleware now_tag agt proxyHandler
      (endpoint_handler proxyHandler (endpoint_of (Method r) p)) None r w
  else status (accessControl now_tag agt proxyHandler r new_writer).1 = StatusMovedPermanently.
Proof. exact (endpoints_served agt proxyHandler r w). Qed.

(** C15. The public face of the agent: only a GET of a clean path that is one
    of the twelve open pages or below one of the four open directories is
    proxied without authentication; [/_/metrics] shows the
    metrics of the agent itself; everything else goes through the access
    control, at every log level, and a path that is not clean is
    redirected. *)
Theorem httpBackend_white_list (debug : bool) (agt : agent) (promHandler proxy : Handler)
    (r : Request) (w : ResponseWriter) :
  let p := Path (Req_URL r) in
  let backend := httpBackend now_tag debug agt promHandler proxy in
  if bool_decide (cleanPath p = p) then
    backend r w =
      if bool_decide (p = "/_/metrics") && is_GET (Method r) then promHandler r w
      else if open_path p && is_GET (Method r) then proxy r w
      else accessControl now_tag agt proxy r w
  else status (backend r new_writer).1 = StatusMovedPermanently.
Proof. exact (backend_served debug agt promHandler proxy r w). Qed.
End AccessSpec.
