(* ===== verification/EndToEnd.v ===== *)
(** * From the connection to Prometheus

    The parts together: what a request of a user who may not list the nodes
    can make the agent ask Prometheus.  The set of namespaces is the one
    that the role bindings of the cluster give the user, and the request
    that the proxy gets is confined to it.  The parser is the one of
    [PromParser]. *)
From S2P Require Import Prelude GoStrings GoFloat Regexp DataSet Matchers Prom Restriction.
From S2P Require Import Promql Rewriting Errors AccessControl Kube GoTime Url Http Json.
From S2P Require Import ApiContext Hijack PromParser PrintedLaws HijackSpec Mux Access AccessSpec.
From stdpp Require Import gmap.
From stdpp Require Import options.

Section EndToEnd.
#[local] Set Default Proof Using "Type*".
Context `{RE : RegexpEngine, !RegexpLiterals, UT : !UnicodeTable}.
Context `{MA : Machine, MR : MultipartReader, ML : !MultipartLaws}.
Context `{PM : PromMessages, CO : !Codecs}.
Variable now_tag : string.

(** ** Specification *)

(** The routes whose requests go upstream; the two label routes answer by
    themselves. *)
Definition selector_route (rt : route) : bool :=
  match rt with Rnamespaces | Rnames => false | _ => true end.

(** What the route [rt] may ask upstream for the request [r]. *)
Definition query_upstream (S : DataSet.Set_) (r r' : Request) : Prop :=
  ∃ text, confined_text S (Values_Get (request_form r) "query") text ∧
    same_resource r r' (<["query" := [text]]> (request_form r)).

Definition selectors_upstream (S : DataSet.Set_) (r r' : Request) : Prop :=
  let queries := (ParseQuery (RawQuery (Req_URL r))).1 in
  ∃ texts, Forall2 (confined_text S) (values_of queries "match[]") texts ∧
    same_resource r r' (<["match[]" := texts]> queries).

Definition read_upstream (S F : DataSet.Set_) (r r' : Request) : Prop :=
  ∃ pbreq queries body, DecodeReadRequest r = Ok pbreq ∧
    Forall2 (query_confined S F) (Queries pbreq) queries ∧
    MarshalReadRequest (MkReadRequest queries (AcceptedResponseTypes pbreq)) = Ok body ∧
    Method r' = "POST" ∧ Path (Req_URL r') = Path (Req_URL r) ∧
    Body r' = Some (snappy_Encode body).

Definition upstream (S F : DataSet.Set_) (rt : route) (r r' : Request) : Prop :=
  match rt with
  | Rquery => query_upstream S r r'
  | Rquery_range => range_ok (request_form r) ∧ query_upstream S r r'
  | Rseries | Rfederate => selectors_upstream S r r'
  | Rread => read_upstream S F r r'
  | Rnamespaces | Rnames => False
  end.

(** The response is the one of the proxy to [r'], on the writer [w]; it is
    cut off by an error when the proxy panics. *)
Definition proxied (proxy : Handler) (r' : Request) (w w' : ResponseWriter) : Prop :=
  w' = match proxy r' w with
       | (w1, Done _) => w1
       | (w1, Panic _) => Http_Error w1 "unknown internal error" StatusInternalServerError
       end.

(** The agent answers by itself: an error, or nothing. *)
Definition own_reply (w w' : ResponseWriter) : Prop :=
  status w' = StatusBadRequest ∨ status w' = StatusInternalServerError ∨
  (w_sent w' = None ∧ w_body w' = w_body w).

(** ** Lemmas *)
Lemma handler_outcome c rt s :
  selector_route rt = true → namespace_set (namespaceSet c) → DataSet.len (namespaceSet c) ≠ 0 →
  fresh_state s → string_forall query_char (RawQuery (Req_URL (request s))) = true →
  let '(s', res) := handler_of rt c s in
  ∃ s0, (s0 = s ∨ s0 = json_state s) ∧
    (refused s0 s' res ∨ (s', res) = responseMetrics None s ∨
     ∃ r', upstream (namespaceSet c) (filterReaderLabelSet c) rt (request s) r' ∧
       forwarded c r' s0 s' res).
Proof.
  intros Hrt HS Hlen Hs Hq. destruct rt; try done; cbn [handler_of upstream].
  - pose proof (hijackQuery_outcome c s HS Hlen Hs) as Hc. cbv beta iota zeta in Hc.
    destruct (hijackQuery c s) as [s' res]. exists (json_state s). split; [by right|].
    destruct Hc as [?|(text & r' & Ht & Hr & Hf)]; [by left|do 2 right].
    exists r'. split; [by exists text|done].
  - pose proof (hijackQueryRange_outcome c s HS Hlen Hs) as Hc. cbv beta iota zeta in Hc.
    destruct (hijackQueryRange c s) as [s' res]. exists (json_state s). split; [by right|].
    destruct Hc as [?|(Hok & text & r' & Ht & Hr & Hf)]; [by left|do 2 right].
    exists r'. split; [split; [done|by exists text]|done].
  - pose proof (hijack_selectors_outcome c s false HS Hlen Hs) as Hc. cbv beta iota zeta in Hc.
    destruct (hijackSeries c s) as [s' res]. exists (json_state s). split; [by right|].
    destruct Hc as [?|[(? & _)|(texts & r' & Ht & Hr & Hf)]]; [by left|done|do 2 right].
    exists r'. split; [by exists texts|done].
  - pose proof (hijack_selectors_outcome c s true HS Hlen Hs) as Hc. cbv beta iota zeta in Hc.
    destruct (hijackFederate c s) as [s' res]. exists s. split; [by left|].
    destruct Hc as [?|[(_ & _ & ?)|(texts & r' & Ht & Hr & Hf)]]; [by left|by right; left|do 2 right].
    exists r'. split; [by exists texts|done].
  - pose proof (hijackRead_outcome c s HS Hlen Hs Hq) as Hc.
    destruct (hijackRead c s) as [s' res]. exists s. split; [by left|].
    destruct Hc as [?|(pbreq & queries & body & r' & Hd & Hall & Hm & Hme & Hp & Hb & Hf)];
      [by left|do 2 right].
    exists r'. split; [by exists pbreq, queries, body|done].
Qed.

(** What [ServeHTTP] makes of these outcomes. *)
Lemma ServeHTTP_refused f c r w s0 s' res :
  f c (MkState false w r) = (s', res) → refused s0 s' res → w_sent (response s0) = None →
  status (ServeHTTP f (Some c) r w).1 = StatusBadRequest ∨
  status (ServeHTTP f (Some c) r w).1 = StatusInternalServerError.
Proof.
  intros Hf (err & -> & Hresp & _) Hsent. rewrite (ServeHTTP_outcome f c r w _ _ Hf).
  cbn [is_nil Wrap]. rewrite <-Hresp in Hsent.
  destruct (cause_message (Wrap err badRequestErr)) as [text|p] eqn:Hc.
  - left. destruct (respond_error_spec r _ text s' Hc Hsent) as (w' & -> & Hst & _).
    cbn [fst response]. by rewrite Hst.
  - right. rewrite (respond_error_panics r _ s' p Hc). by apply Http_Error_status.
Qed.

Lemma ServeHTTP_forwarded f c r w r' s0 s' res :
  f c (MkState false w r) = (s', res) → forwarded c r' s0 s' res →
  proxied (proxyHandler c) r' (response s0) (ServeHTTP f (Some c) r w).1.
Proof.
  intros Hf (_ & Hresp & ->). rewrite (ServeHTTP_outcome f c r w _ _ Hf). unfold proxied.
  destruct (proxyHandler c r' (response s0)) as [w1 [[]|p]]; cbn in *; by rewrite Hresp.
Qed.

Lemma ServeHTTP_selectors c rt r w :
  selector_route rt = true → namespace_set (namespaceSet c) → DataSet.len (namespaceSet c) ≠ 0 →
  fresh_state (MkState false w r) → string_forall query_char (RawQuery (Req_URL r)) = true →
  w_sent w = None →
  let w' := (ServeHTTP (handler_of rt) (Some c) r w).1 in
  own_reply w w' ∨
  ∃ r' w0, (w0 = w ∨ w0 = SetHeader w contentTypeHeader jsonContentType) ∧
    upstream (namespaceSet c) (filterReaderLabelSet c) rt r r' ∧ proxied (proxyHandler c) r' w0 w'.
Proof.
  intros Hrt HS Hlen Hs Hq Hsent. cbn zeta.
  pose proof (handler_outcome c rt _ Hrt HS Hlen Hs Hq) as Hout.
  destruct (handler_of rt c (MkState false w r)) as [s' res] eqn:Hf.
  destruct Hout as (s0 & Hs0 & Hout).
  assert (w_sent (response s0) = None) as Hsent0 by (by destruct Hs0 as [-> | ->]).
  destruct Hout as [Hr|[Hm|(r' & Hup & Hfw)]].
  - left. destruct (ServeHTTP_refused _ _ _ _ _ _ _ Hf Hr Hsent0); [by left|by right; left].
  - left. right; right. rewrite (ServeHTTP_outcome _ _ _ _ _ _ Hf).
    injection Hm as -> ->. done.
  - right. exists r', (response s0). split; [by destruct Hs0 as [-> | ->]; [left|right]|].
    split; [done|]. by eapply ServeHTTP_forwarded.
Qed.

(** A path of an API route is clean, and not open. *)
Lemma api_path m p rt :
  endpoint_of m p = Api rt →
  cleanPath p = p ∧ open_path p = false ∧ p ≠ "/_/metrics" ∧ p ≠ "*".
Proof.
  unfold endpoint_of.
  repeat match goal with
    | |- context [if bool_decide (p = ?t) && ?b then _ else _] =>
        destruct (decide (p = t)) as [->|];
        [intros _; split_and!; [vm_compute; reflexivity..|discriminate|discriminate]|
         rewrite (bool_decide_false (p = t)) by done; cbn [andb]]
    | |- context [if ?b then _ else _] => destruct b; [discriminate|]
    end.
  discriminate.
Qed.

Lemma elem_of_keys (S : gset string) x : x ∈ DataSet.keys (Some S) ↔ x ∈ S.
Proof. unfold DataSet.keys. set_solver. Qed.

Lemma scoped_reply agt proxy info rt S r :
  QueryByUser (agt_namespaces agt) info = Some S → S ≠ ∅ →
  (∀ x, x ∈ S → namespace_name x) →
  selector_route rt = true → fresh_state (MkState false new_writer r) →
  string_forall query_char (RawQuery (Req_URL r)) = true →
  let c := context_for now_tag agt proxy info in
  let w' := (ServeHTTP (handler_of rt) (Some c) r new_writer).1 in
  own_reply new_writer w' ∨
  ∃ r' w0, w_sent w0 = None ∧ w_body w0 = EmptyString ∧
    upstream (Some S) (cfg_filterReaderLabelSet agt) rt r r' ∧ proxied proxy r' w0 w'.
Proof.
  intros HS Hne Hnames Hrt Hr Hq. cbn zeta.
  assert (namespaceSet (context_for now_tag agt proxy info) = Some S) as Hset by exact HS.
  pose proof (ServeHTTP_selectors (context_for now_tag agt proxy info) rt r new_writer Hrt) as Hc.
  cbn zeta in Hc. rewrite Hset in Hc.
  destruct Hc as [?|(r' & w0 & Hw0 & Hup & Hpr)]; [| |done|done|done|by left|].
  - split; [done|]. intros n Hn. apply Hnames. by apply elem_of_keys.
  - unfold DataSet.len, DataSet.keys. cbn. intros Hl. apply size_empty_inv in Hl. set_solver.
  - right. exists r', w0. by destruct Hw0 as [-> | ->].
Qed.

(** ** Properties *)

(** C1. The whole agent, for a user with an identity that may not list the
    nodes and who may see some namespace.  Whatever API call with
    selectors the user makes, the agent returns, and it either answers by
    itself or answers what Prometheus answers to one request for the same
    resource, every selector of which is confined to the namespaces that
    the roles of the user make visible, in the tree that the agent prints.
    Of the tree that Prometheus reads from the text this says something only
    for a query that is [readable_expr] (its names, numbers, durations and
    matchings are kept by the printer) and has [plain_bases] (no base of a
    power and no operand of a subquery is printed with a sign): then its
    parser refuses the text, which happens only if some string or value is
    not plain, or reads the same query but for the matchers, with every
    selector confined. *)
Theorem scoped_requests_confined (debug : bool) (agt : agent) (secs : list Secret)
    (allows : UserInfo → string → GroupResource → string → string → Prop)
    (promHandler proxy : Handler) (r : Request) (info : UserInfo) (rt : route)
    (objs : list Namespace_)
    (Hnodes : AccessContract (nodes agt) allows)
    (Hstore : AccessContract (accessStore (agt_namespaces agt)) allows)
    (Hsecs : indexed (secrets agt) secs)
    (Hcache : namespaceCache (agt_namespaces agt) = (objs, ErrNil))
    (Hnames : ∀ v, v ∈ objs → namespace_name (Ns_Name v))
    (Hid : identified secs r info) (Hlist : ¬ lists_nodes allows info)
    (Hown : anonymous r → bearer r ≠ myToken agt)
    (Hrt : endpoint_of (Method r) (Path (Req_URL r)) = Api rt) (Hsel : selector_route rt = true)
    (Hr : fresh_state (MkState false new_writer r))
    (Hq : string_forall query_char (RawQuery (Req_URL r)) = true)
    (Hsome : ∃ v, v ∈ objs ∧ visible allows (monitoringNamespace (agt_namespaces agt)) info v) :
  ∃ S : gset string,
    (∀ x, x ∈ S ↔ ∃ v, v ∈ objs ∧ x = Ns_Name v ∧
       visible allows (monitoringNamespace (agt_namespaces agt)) info v) ∧
    let '(w', res) := httpBackend now_tag debug agt promHandler proxy r new_writer in
    res = Done () ∧
    (own_reply new_writer w' ∨
     ∃ r' w0, w_sent w0 = None ∧ w_body w0 = EmptyString ∧
       upstream (Some S) (cfg_filterReaderLabelSet agt) rt r r' ∧ proxied proxy r' w0 w').
Proof.
  pose proof (QueryByUser_visible (agt_namespaces agt) info allows Hstore) as HQ.
  rewrite Hcache in HQ. destruct HQ as (S & HS & Hvis). exists S. split; [exact Hvis|].
  destruct (api_path _ _ _ Hrt) as (Hclean & Hopen & Hmetrics & _).
  pose proof (backend_served now_tag debug agt promHandler proxy r new_writer) as Hb. cbn zeta in Hb.
  rewrite bool_decide_true in Hb by done.
  rewrite (bool_decide_false (_ = "/_/metrics")), Hopen in Hb by done. cbn [andb] in Hb.
  rewrite Hb. clear Hb.
  pose proof (endpoints_served now_tag agt proxy r new_writer) as He. cbn zeta in He.
  rewrite bool_decide_true, Hrt in He by done. rewrite He. clear He.
  destruct (middleware_verdict now_tag agt secs allows proxy
    (endpoint_handler proxy (Api rt)) None r new_writer Hnodes Hsecs) as (v & Hv & ->).
  apply (judged_identified _ _ _ _ info) in Hv as [[_ ?]|[-> _]]; [done| |done..].
  cbn [enforce endpoint_handler].
  destruct (ServeHTTP_Done (handler_of rt) (Some (context_for now_tag agt proxy info)) r new_writer)
    as (w' & Hw).
  pose proof (scoped_reply agt proxy info rt S r HS) as Hreply. cbn zeta in Hreply.
  rewrite Hw in *. split; [done|]. apply Hreply; [| |done..].
  - destruct Hsome as (v & Hv & Hvv). intros ->. apply (not_elem_of_empty (C:=gset string) (Ns_Name v)).
    apply Hvis. by exists v.
  - intros x (v & Hv & -> & _)%Hvis. by apply Hnames.
Qed.
End EndToEnd.
