(* ===== verification/AccessExamples.v ===== *)
(** * Concrete requests to the agent

    An agent in front of the cluster of the examples of Kube, and the
    theorems of Mux, AccessSpec and EndToEnd applied to requests. *)
From S2P Require Import Prelude GoStrings GoFloat Regexp DataSet Matchers Prom Restriction.
From S2P Require Import Promql Rewriting Errors AccessControl Kube GoTime Url Http Json.
From S2P Require Import ApiContext Hijack HijackSpec HijackExamples Mux Access AccessSpec.
From S2P Require Import PromParser EndToEnd.
From stdpp Require Import gmap.
From stdpp Require Import options.
Import Re2 RestrictionExamples RewritingExamples KubeExamples.

(** The agent; its own token is [own]. *)
Definition agent1 : agent :=
  MkAgent (DataSet.NewSet ["prometheus"]) (AccessFor_uncached rbac1) namespaces1
    (cache_of secrets1) (λ _, (OtherValue, ErrNil)) "own".

Definition with_headers (h : Header) (path query : string) : Request :=
  MkRequest "GET" (MkURL path EmptyString false query) h None None None.
Definition by_token_of (token : string) : Request :=
  with_headers {["Authorization" := ["Bearer " +:+ token]]} "/api/v1/query" "query=up".
Definition bob_asks : Request :=
  with_headers {["X-Rancher-User" := ["bob"]]} "/api/v1/query" "query=up".

(** What the client sees: the status and the body. *)
Definition seen (r : Request) : Z * string :=
  let w := (httpBackend "tag" false agent1 NotFound echo r new_writer).1 in (status w, w_body w).

Example bob_seen :
  seen bob_asks =
  (200%Z, "GET /api/v1/query?query=up%7Bnamespace%3D~%22monitoring%7Cns-a%22%7D").
Proof. vm_compute. reflexivity. Qed.
Example own_seen : seen (by_token_of "own") = (200%Z, "GET /api/v1/query?query=up").
Proof. vm_compute. reflexivity. Qed.
Example open_seen : seen (with_headers ∅ "/static/x.js" EmptyString) = (200%Z, "GET /static/x.js").
Proof. vm_compute. reflexivity. Qed.
Example anonymous_seen :
  seen (with_headers ∅ "/api/v1/query" "query=up") = (401%Z, "unauthorized" +:+ newline).
Proof. vm_compute. reflexivity. Qed.
Example unknown_path_seen :
  seen (with_headers {["X-Rancher-User" := ["bob"]]} "/api/v1/admin" EmptyString) =
  (401%Z, "unauthorized" +:+ newline).
Proof. vm_compute. reflexivity. Qed.

(** The token of nobody does not get a 401: the handler crashes. *)
Lemma access_middleware_judges_witness :
  judged secrets1 (rbac_allows rbac1) "own" (by_token_of "unknown") Crashed ∧
  (access_middleware "tag" agent1 echo (plain echo) None (by_token_of "unknown") new_writer).2 =
    Panic nil_dereference.
Proof.
  destruct (access_middleware_judges "tag" agent1 secrets1 (rbac_allows rbac1) echo (plain echo)
    None (by_token_of "unknown") new_writer (store_lookup_contract rbac1)
    (cache_of_indexed secrets1)) as (v & Hv & _ & Heq).
  assert ((access_middleware "tag" agent1 echo (plain echo) None (by_token_of "unknown")
    new_writer).2 = Panic nil_dereference) as Hp by (vm_compute; reflexivity).
  split; [|exact Hp]. rewrite Heq in Hp. destruct v as [| | |]; try discriminate Hp. exact Hv.
Defined.

(** A POST to [/api/v1/series] finds no route of that method but the last. *)
Lemma Router_Match_first_witness :
  (Router_Match (access_router "tag" agent1 echo)
     (MkRequest "POST" (MkURL "/api/v1/series" EmptyString false EmptyString) ∅ None None None)).1
  = true.
Proof.
  rewrite Router_Match_first; [reflexivity|].
  repeat (apply Forall_cons; split; [eexists; reflexivity|]). apply Forall_nil. done.
Defined.

(** Bob reads through the whole agent. *)
Lemma scoped_requests_confined_witness :
  ∃ S : gset string,
    (∀ x, x ∈ S ↔ ∃ v, v ∈ [ns "ns-a"; ns "ns-b"; ns "monitoring"] ∧ x = Ns_Name v ∧
       visible (rbac_allows rbac1) "monitoring" bob v) ∧
    let w' := (httpBackend "tag" false agent1 NotFound echo bob_asks new_writer).1 in
    own_reply new_writer w' ∨
    ∃ r' w0, upstream (Some S) (DataSet.NewSet ["prometheus"]) Rquery bob_asks r' ∧
      proxied echo r' w0 w'.
Proof.
  destruct (scoped_requests_confined "tag" false agent1 secrets1 (rbac_allows rbac1) NotFound echo
    bob_asks bob Rquery [ns "ns-a"; ns "ns-b"; ns "monitoring"]
    (store_lookup_contract rbac1) (store_lookup_contract rbac1) (cache_of_indexed secrets1) eq_refl)
    as (S & HS & Hout).
  - intros v Hv. repeat (apply elem_of_cons in Hv as [-> | Hv]; [vm_compute; done|]). by apply elem_of_nil in Hv.
  - apply by_headers. intros [Hu _]. discriminate Hu.
  - apply bob_lists_no_nodes.
  - intros [Hu _]. discriminate Hu.
  - reflexivity.
  - reflexivity.
  - apply fresh_get. discriminate.
  - reflexivity.
  - exists (ns "ns-a"). split; [by left|]. split_and!; [reflexivity| |intros Hm; discriminate Hm].
    left. apply store_lookup_contract. vm_compute. reflexivity.
  - exists S. split; [exact HS|].
    destruct (httpBackend _ _ _ _ _ _ _) as [w' res]. destruct Hout as [_ [Ho|(r' & w0 & _ & _ & Hu & Hp)]].
    + left. exact Ho.
    + right. exists r', w0. split; [exact Hu|exact Hp].
Defined.
