(* ===== verification/Cmux.v ===== *)
(** * The connection multiplexer (github.com/cockroachdb/cmux)

    HTTP and gRPC share one port.  For each connection the multiplexer
    lets its matchers read from the start of the stream, in the order the
    listeners were made, and hands the connection, unread, to the first
    listener with a matcher that accepts.  Matchers for prefixes look them
    up in a patricia tree. *)
From S2P Require Import Prelude GoStrings.
From Stdlib Require Import Ascii.
From Stdlib Require Import Btauto.
From stdpp Require Import options.

Notation bytes := (list ascii).
Notation bytes_of := String.list_ascii_of_string.

(** ** The tree (patricia.go)

    The map [next] of a node is an association list; [splitPrefix] and
    [newNode] follow the code, the fuel of [newNode] bounds the depth. *)
Inductive ptNode := PtNode (prefix : bytes) (next : list (ascii * ptNode)) (terminal : bool).

(** The loop over the position [i]: the bytes all strings share. *)
Fixpoint split_loop (first : bytes) (i : nat) (bss : list bytes) : bytes :=
  match first with
  | [] => []
  | cur :: first =>
      if forallb (λ b, bool_decide (b !! i = Some cur)) bss
      then cur :: split_loop first (S i) bss else []
  end.

Definition splitPrefix (bss : list bytes) : bytes * list bytes :=
  match bss with
  | [] | [] :: _ => ([], bss)
  | [b] => (b, [[]])
  | first :: _ =>
      let prefix := split_loop first 0 bss in
      (prefix, drop (length prefix) <$> bss)
  end.

(** [nexts[s[0]] = append(nexts[s[0]], s[1:])] *)
Fixpoint append_at (first : ascii) (rest : bytes) (nexts : list (ascii * list bytes))
    : list (ascii * list bytes) :=
  match nexts with
  | [] => [(first, [rest])]
  | (c, rests) :: nexts =>
      if bool_decide (c = first) then (c, rests ++ [rest]) :: nexts
      else (c, rests) :: append_at first rest nexts
  end.

Definition add_next (nexts : list (ascii * list bytes)) (s : bytes) : list (ascii * list bytes) :=
  match s with
  | [] => nexts
  | first :: rest => append_at first rest nexts
  end.

Definition is_empty (s : bytes) : bool := bool_decide (s = []).

Fixpoint newNode (fuel : nat) (strs : list bytes) : option ptNode :=
  match strs with
  | [] => Some (PtNode [] [] true)
  | [s] => Some (PtNode s [] true)
  | _ =>
      match fuel with
      | O => None
      | S fuel =>
          let '(p, strs) := splitPrefix strs in
          next ← mapM (λ '(first, rests), pair first <$> newNode fuel rests)
                   (fold_left add_next strs []);
          Some (PtNode p next (existsb is_empty strs))
      end
  end.

(** [(n *ptNode) match(b, prefix)] *)
Fixpoint pt_match (n : ptNode) (b : bytes) (prefix : bool) : bool :=
  match n with
  | PtNode p next terminal =>
      let l := length p `min` length b in
      if negb (bool_decide (take l b = p)) then false
      else if terminal && (prefix || bool_decide (length p = length b)) then true
      else
        match b !! l with
        | None => false
        | Some c =>
            (fix lookup next :=
               match next with
               | [] => false
               | (d, nextN) :: next =>
                   if bool_decide (d = c) then pt_match nextN (drop (S l) b) prefix
                   else lookup next
               end) next
        end
  end.

(** ** Readers

    What is computed from a reader uses [io.ReadFull] only: it is given the
    bytes and whether they are as many as it asked for. *)
Inductive Reader (A : Type) :=
| Return (a : A)
| ReadFull (n : nat) (k : bytes → bool → Reader A).
Arguments Return {A} _.
Arguments ReadFull {A} _ _.

Fixpoint Reader_bind_ {A B} (f : A → Reader B) (m : Reader A) : Reader B :=
  match m with
  | Return a => f a
  | ReadFull n k => ReadFull n (λ b full, Reader_bind_ f (k b full))
  end.
#[export] Instance Reader_ret : MRet Reader := λ A a, Return a.
#[export] Instance Reader_bind : MBind Reader := λ A B f m, Reader_bind_ f m.
#[export] Instance Reader_fmap : FMap Reader := λ A B f m, Reader_bind_ (λ a, Return (f a)) m.

Notation Matcher := (Reader bool).

(** [PrefixMatcher(strs...)]: the tree is built for every string, and the
    matcher reads one byte more than the longest. *)
Definition maxLen (strs : list bytes) : nat := foldr Nat.max 0 (length <$> strs).

Definition PrefixMatcher (strs : list bytes) : option Matcher :=
  root ← newNode (S (maxLen strs)) strs;
  Some (ReadFull (S (maxLen strs)) (λ b _, Return (pt_match root b true))).

Definition defaultHTTPMethods : list bytes :=
  bytes_of <$> ["OPTIONS"; "GET"; "HEAD"; "POST"; "PUT"; "DELETE"; "TRACE"; "CONNECT"].

Definition HTTP1Fast : option Matcher := PrefixMatcher defaultHTTPMethods.

(** What it computes on a stream, and what it leaves unread. *)
Fixpoint exec {A} (m : Reader A) (stream : bytes) : A * bytes :=
  match m with
  | Return a => (a, stream)
  | ReadFull n k => exec (k (take n stream) (bool_decide (n ≤ length stream))) (drop n stream)
  end.
Definition run {A} (m : Reader A) (stream : bytes) : A := (exec m stream).1.

(** *** The reader of a connection (buffer.go, cmux.go)

    A connection gives its bytes in chunks, which a read may split; no
    more chunks is the end of the stream. *)
Record MuxConn := MkMuxConn { source : list bytes; buf : bytes }.

(** [c.Read(p)], for [len(p) = n]: the bytes, whether the stream has not
    ended, and what is left. *)
Definition source_read (chunks : list bytes) (n : nat) : bytes * bool * list bytes :=
  match n, chunks with
  | O, _ => ([], true, chunks)
  | _, [] => ([], false, [])
  | _, chunk :: chunks =>
      if bool_decide (length chunk ≤ n) then (chunk, true, chunks)
      else (take n chunk, true, drop n chunk :: chunks)
  end.

(** [(m *MuxConn) Read(p)], for [len(p) = n]: what [bytes.Buffer] still
    has, which answers [io.EOF] when it is empty and [n] is not 0, and then
    what the connection gives. *)
Definition MuxConn_Read (c : MuxConn) (n : nat) : bytes * bool * MuxConn :=
  match buf c with
  | [] =>
      if bool_decide (n = 0) then ([], true, c)
      else let '(p, ok, chunks) := source_read (source c) n in (p, ok, MkMuxConn chunks [])
  | b => (take n b, true, MkMuxConn (source c) (drop n b))
  end.

(** The sniffer: [bufferRead] bytes of the buffer, which had [bufferSize]
    bytes when the sniffer was made, were read. *)
Record bufferedReader := MkReader {
  conn : MuxConn;
  bufferRead : nat;
  bufferSize : nat;
}.

Definition sniffer_read (s : bufferedReader) (n : nat) : bytes * bool * bufferedReader :=
  let b := take n (drop (bufferRead s) (take (bufferSize s) (buf (conn s)))) in
  let bn := length b in
  let '(p, ok, chunks) := source_read (source (conn s)) (n - bn) in
  (b ++ p, ok, MkReader (MkMuxConn chunks (buf (conn s) ++ p)) (bufferRead s + bn) (bufferSize s)).

(** [io.ReadFull(r, buf)]: reads until the buffer is full or a read
    fails; an error with the last byte is dropped. *)
Fixpoint sniffer_ReadFull (fuel : nat) (s : bufferedReader) (n : nat)
    : option (bytes * bool * bufferedReader) :=
  match n with
  | O => Some ([], true, s)
  | _ =>
      match fuel with
      | O => None
      | S fuel =>
          let '(b, ok, s) := sniffer_read s n in
          if bool_decide (length b = n) then Some (b, true, s)
          else if negb ok then Some (b, false, s)
          else
            '(b', full, s) ← sniffer_ReadFull fuel s (n - length b);
            Some (b ++ b', full, s)
      end
  end.

Fixpoint sniff (m : Matcher) (s : bufferedReader) : option (bool * MuxConn) :=
  match m with
  | Return matched => Some (matched, conn s)
  | ReadFull n k =>
      '(b, full, s) ← sniffer_ReadFull n s n;
      sniff (k b full) s
  end.

Definition getSniffer (c : MuxConn) : bufferedReader := MkReader c 0 (length (buf c)).

(** [(m *cMux) serve(c, ...)]: the listeners with their matchers; the
    index of the listener that gets the connection, [None] when it is
    closed. *)
Fixpoint try_matchers (ss : list Matcher) (c : MuxConn) : option (bool * MuxConn) :=
  match ss with
  | [] => Some (false, c)
  | s :: ss =>
      '(matched, c) ← sniff s (getSniffer c);
      if matched : bool then Some (true, c) else try_matchers ss c
  end.

Fixpoint serve_loop (i : nat) (sls : list (list Matcher)) (c : MuxConn)
    : option (option nat * MuxConn) :=
  match sls with
  | [] => Some (None, c)
  | ss :: sls =>
      '(matched, c) ← try_matchers ss c;
      if matched : bool then Some (Some i, c) else serve_loop (S i) sls c
  end.

Definition newMuxConn (chunks : list bytes) : MuxConn := MkMuxConn chunks [].
Definition serve (sls : list (list Matcher)) (chunks : list bytes) : option (option nat * MuxConn) :=
  serve_loop 0 sls (newMuxConn chunks).

(** ** Specification *)

(** What a connection still has: the buffer, then the source. *)
Definition stream_of (c : MuxConn) : bytes := buf c ++ concat (source c).

(** The first listener with a matcher that accepts the stream. *)
Definition dispatch_spec (sls : list (list Matcher)) (stream : bytes) : option nat :=
  fst <$> list_find (λ ss, existsb (λ m, run m stream) ss = true) sls.

Definition accepts (prefix : bool) (b s : bytes) : bool :=
  if prefix then bool_decide (s `prefix_of` b) else bool_decide (s = b).

(** The rests of the strings that start with a byte, and the look-up of a
    byte in an association list. *)
Definition tails (c : ascii) (strs : list bytes) : list bytes :=
  omap (λ s, match s with d :: rest => if bool_decide (d = c) then Some rest else None
             | [] => None end) strs.

Fixpoint assoc {A} (c : ascii) (l : list (ascii * A)) : option A :=
  match l with
  | [] => None
  | (d, a) :: l => if bool_decide (d = c) then Some a else assoc c l
  end.

(** The server reads with buffers of some sizes, one after the other. *)
Fixpoint MuxConn_reads (c : MuxConn) (sizes : list nat) : list (bytes * bool) * MuxConn :=
  match sizes with
  | [] => ([], c)
  | n :: sizes =>
      let '(b, ok, c) := MuxConn_Read c n in
      let '(rs, c) := MuxConn_reads c sizes in
      ((b, ok) :: rs, c)
  end.

(** The bytes that were read, the reads in order. *)
Definition delivered (rs : list (bytes * bool)) : bytes := concat (fst <$> rs).

(** The reads [rs] of [sizes] deliver [stream], which they leave [rest] of:
    its bytes in order, in each read no more than fit, one at least in each
    until the end, and an end only after the last byte. *)
Definition reads_stream (stream : bytes) (sizes : list nat) (rs : list (bytes * bool))
    (rest : bytes) : Prop :=
  stream = delivered rs ++ rest ∧ Forall2 (λ r n, length r.1 ≤ n) rs sizes ∧
  (Forall (λ n, n ≠ 0) sizes → length sizes `min` length stream ≤ length (delivered rs)) ∧
  ((∃ b, (b, false) ∈ rs) → delivered rs = stream).

(** No chunk is empty. *)
Definition nonempty (chunks : list bytes) : Prop := Forall (λ b, b ≠ []) chunks.

(** What the sniffer has still to read. *)
Definition remaining (s : bufferedReader) : bytes :=
  drop (bufferRead s) (take (bufferSize s) (buf (conn s))) ++ concat (source (conn s)).

(** The sniffer [s'] is [s] some reads later. *)
Definition later (s s' : bufferedReader) : Prop :=
  nonempty (source (conn s')) ∧ bufferSize s' ≤ length (buf (conn s')) ∧
  stream_of (conn s') = stream_of (conn s).

(** ** Lemmas: the tree *)
Lemma assoc_append_at c first rest nexts :
  assoc c (append_at first rest nexts) =
  if bool_decide (first = c) then Some (default [] (assoc c nexts) ++ [rest]) else assoc c nexts.
Proof.
  induction nexts as [|[d rests] nexts IH]; cbn.
  - by case_bool_decide.
  - destruct (bool_decide (d = first)) eqn:Hd; cbn.
    + apply bool_decide_eq_true in Hd as ->. by case_bool_decide.
    + rewrite IH. apply bool_decide_eq_false in Hd.
      repeat case_bool_decide; congruence.
Qed.

Lemma assoc_nexts c strs :
  assoc c (fold_left add_next strs []) =
  match tails c strs with [] => None | l => Some l end.
Proof.
  induction strs as [|s strs IH] using rev_ind; [done|].
  rewrite fold_left_app. unfold tails. rewrite omap_app. fold (tails c strs). cbn.
  destruct s as [|d rest]; cbn.
  - rewrite app_nil_r. apply IH.
  - rewrite assoc_append_at, IH. case_bool_decide; cbn.
    + by destruct (tails c strs).
    + by rewrite app_nil_r.
Qed.

Lemma pt_match_unfold p next terminal b prefix :
  pt_match (PtNode p next terminal) b prefix =
  let l := length p `min` length b in
  if negb (bool_decide (take l b = p)) then false
  else if terminal && (prefix || bool_decide (length p = length b)) then true
  else match b !! l with
       | None => false
       | Some c => match assoc c next with
                   | Some nextN => pt_match nextN (drop (S l) b) prefix
                   | None => false
                   end
       end.
Proof.
  cbn zeta. cbn [pt_match]. destruct (negb _); [done|]. destruct (terminal && _); [done|].
  destruct (b !! _) as [c|]; [|done].
  induction next as [|[d n] next IH]; [done|]. cbn. by case_bool_decide.
Qed.

Lemma accepts_app prefix p s b :
  accepts prefix (p ++ b) (p ++ s) = accepts prefix b s.
Proof.
  unfold accepts. destruct prefix; apply bool_decide_ext.
  - split; [apply prefix_app_inv|apply prefix_app].
  - split; [apply app_inv_head|congruence].
Qed.

Lemma accepts_cons prefix c d s b :
  accepts prefix (c :: b) (d :: s) = bool_decide (d = c) && accepts prefix b s.
Proof.
  case_bool_decide as Hd; cbn [andb].
  - subst. apply (accepts_app prefix [c]).
  - unfold accepts. destruct prefix; apply bool_decide_eq_false.
    + intros Hp. by apply prefix_cons_inv_1 in Hp.
    + congruence.
Qed.

(** Some string is accepted: the empty one, or one with the next byte. *)
Lemma accepts_split prefix b strs :
  existsb (accepts prefix b) strs =
  (existsb is_empty strs && (prefix || is_empty b)) ||
  match b with [] => false | c :: b => existsb (accepts prefix b) (tails c strs) end.
Proof.
  induction strs as [|s strs IH]; [by destruct b|]. cbn [existsb]. rewrite IH. clear IH.
  unfold tails. cbn [omap list_omap]. destruct s as [|d s].
  - assert (accepts prefix b [] = prefix || is_empty b) as ->.
    { unfold accepts, is_empty. destruct prefix; cbn.
      - apply bool_decide_eq_true. apply prefix_nil.
      - apply bool_decide_ext. by split. }
    fold (tails). unfold is_empty at 2. cbn. destruct prefix, b; cbn; btauto.
  - unfold is_empty at 3. cbn [bool_decide]. rewrite (bool_decide_false (d :: s = [])) by done.
    cbn [orb]. destruct b as [|c b].
    + assert (accepts prefix [] (d :: s) = false) as ->; [|cbn; btauto].
      unfold accepts. destruct prefix; apply bool_decide_eq_false; [|done].
      intros [? Hp]. discriminate Hp.
    + rewrite accepts_cons. case_bool_decide; cbn; [|btauto]. btauto.
Qed.

Lemma split_loop_spec first i bss b :
  b ∈ bss → split_loop first i bss `prefix_of` drop i b.
Proof.
  revert i. induction first as [|cur first IH]; intros i Hb; cbn; [apply prefix_nil|].
  destruct (forallb _ bss) eqn:Hall; [|apply prefix_nil].
  rewrite forallb_forall in Hall. apply list_elem_of_In in Hb as Hin.
  specialize (Hall b Hin). apply bool_decide_eq_true in Hall.
  rewrite (drop_S b cur i) by done. by apply prefix_cons, IH.
Qed.

Lemma splitPrefix_spec bss p rest :
  splitPrefix bss = (p, rest) → bss = (p ++.) <$> rest.
Proof.
  assert (∀ p, (∀ b, b ∈ bss → p `prefix_of` b) → bss = (p ++.) <$> (drop (length p) <$> bss)) as Hp.
  { intros q Hq. rewrite <-list_fmap_compose. rewrite <-(list_fmap_id bss) at 1.
    apply list_fmap_ext. intros i b Hb%list_elem_of_lookup_2. destruct (Hq b Hb) as [k ->].
    cbn. by rewrite drop_app_length. }
  unfold splitPrefix. destruct bss as [|[|c b] [|b2 bss]]; intros [= <- <-].
  - done.
  - done.
  - cbn. f_equal. by rewrite list_fmap_id.
  - cbn. by rewrite app_nil_r.
  - apply Hp. intros b' Hb'. exact (split_loop_spec (c :: b) 0 _ b' Hb').
Qed.

Lemma add_next_Forall (P : bytes → Prop) nexts s :
  Forall (λ e, Forall P e.2) nexts → (∀ c rest, s = c :: rest → P rest) →
  Forall (λ e, Forall P e.2) (add_next nexts s).
Proof.
  intros Hn Hs. destruct s as [|c rest]; [done|]. specialize (Hs c rest eq_refl). cbn.
  induction Hn as [|[d rests] nexts Hr Hn IH]; cbn.
  - repeat constructor. done.
  - case_bool_decide; constructor; try done. cbn in *. apply Forall_app. by repeat constructor.
Qed.

Lemma nexts_length strs n :
  Forall (λ s, length s ≤ n) strs →
  Forall (λ e, Forall (λ s, length s < n) e.2) (fold_left add_next strs []).
Proof.
  induction strs as [|s strs IH] using rev_ind; [constructor|].
  rewrite fold_left_app, Forall_app, Forall_singleton. intros [Hall Hs]. cbn.
  apply add_next_Forall; [auto|]. intros c rest ->. cbn in Hs. lia.
Qed.

Lemma mapM_assoc {A B} (f : A → option B) (l : list (ascii * A)) l' c :
  mapM (λ '(d, a), pair d <$> f a) l = Some l' → assoc c l' = assoc c l ≫= f.
Proof.
  revert l'. induction l as [|[d a] l IH]; intros l' Hl; [by injection Hl as <-|].
  cbn in Hl. destruct (f a) as [b|] eqn:Hb; [|done]. cbn in Hl.
  destruct (mapM _ l) as [k|]; [|done]. injection Hl as <-. cbn. case_bool_decide; [done|auto].
Qed.

Lemma mapM_assoc_total {A B} (P : A → Prop) (f : A → option B) (l : list (ascii * A)) :
  Forall (λ e, P e.2) l → (∀ a, P a → is_Some (f a)) →
  is_Some (mapM (λ '(d, a), pair d <$> f a) l).
Proof.
  intros Hl Hf. apply mapM_is_Some_2. eapply Forall_impl; [exact Hl|].
  intros [d a] Ha. destruct (Hf a Ha) as [b Hb]. exists (d, b). by rewrite Hb.
Qed.

(** A node whose children are right is right. *)
Lemma pt_match_node p rest next b prefix :
  (∀ c, match assoc c next, tails c rest with
        | None, [] => True
        | Some n, strs => ∀ b, pt_match n b prefix = existsb (accepts prefix b) strs
        | None, _ => False
        end) →
  pt_match (PtNode p next (existsb is_empty rest)) b prefix =
  existsb (accepts prefix b) ((p ++.) <$> rest).
Proof.
  intros Hnext. rewrite pt_match_unfold. cbn zeta.
  destruct (decide (p `prefix_of` b)) as [[b' ->]|Hp].
  - assert (∀ l, existsb (accepts prefix (p ++ b')) ((p ++.) <$> l) = existsb (accepts prefix b') l)
      as -> by (intros l; induction l as [|s l IH]; [done|]; cbn; by rewrite accepts_app, IH).
    rewrite length_app, Nat.min_l by lia. rewrite take_app_length, bool_decide_true by done. cbn [negb].
    rewrite accepts_split. rewrite lookup_app_r, Nat.sub_diag by lia.
    assert (bool_decide (length p = length p + length b') = is_empty b') as ->.
    { apply bool_decide_ext. destruct b'; cbn; split; try done; lia. }
    destruct (existsb is_empty rest && _) eqn:Hterm; [done|]. cbn [orb].
    destruct b' as [|c b']; [done|]. cbn [lookup list_lookup].
    specialize (Hnext c). rewrite drop_app_ge by lia.
    replace (S (length p) - length p) with 1 by lia. cbn [drop].
    destruct (assoc c next) as [n|]; [apply Hnext|]. by destruct (tails c rest).
  - rewrite bool_decide_false.
    2: { intros Ht. apply Hp. exists (drop (length p `min` length b) b).
         rewrite <-Ht at 1. by rewrite take_drop. }
    cbn [negb]. symmetry. apply not_true_iff_false. rewrite existsb_exists.
    intros (s & Hs & Ha). apply list_elem_of_In, list_elem_of_fmap in Hs as (s' & -> & _).
    apply Hp. unfold accepts in Ha. destruct prefix; apply bool_decide_eq_true in Ha.
    + destruct Ha as [k ->]. exists (s' ++ k). by rewrite app_assoc.
    + rewrite <-Ha. by exists s'.
Qed.

Lemma newNode_match fuel strs :
  Forall (λ s, length s < fuel) strs →
  ∃ n, newNode fuel strs = Some n ∧
    (strs ≠ [] → ∀ b prefix, pt_match n b prefix = existsb (accepts prefix b) strs).
Proof.
  revert strs. induction fuel as [|fuel IH]; intros strs Hlen.
  { destruct strs as [|s strs]; [by eexists|]. apply Forall_cons in Hlen as [Hs _]. lia. }
  destruct strs as [|s1 [|s2 strs]]; [by eexists| |].
  { eexists. split; [done|]. intros _ b prefix.
    assert ([s1] = (s1 ++.) <$> [[]]) as -> by (cbn; by rewrite app_nil_r).
    apply (pt_match_node s1 [[]] [] b prefix). done. }
  cbn [newNode]. destruct (splitPrefix (s1 :: s2 :: strs)) as [p rest] eqn:Hsplit.
  apply splitPrefix_spec in Hsplit. rewrite Hsplit in *.
  assert (Forall (λ s, length s ≤ fuel) rest) as Hrest.
  { apply Forall_fmap in Hlen. eapply Forall_impl; [exact Hlen|]. intros s Hs.
    cbn in Hs. rewrite length_app in Hs. lia. }
  apply nexts_length in Hrest.
  destruct (mapM_assoc_total _ (newNode fuel) _ Hrest) as [next Hnext].
  { intros strs' Hs. destruct (IH strs' Hs) as (n & -> & _). by eexists. }
  rewrite Hnext. eexists. split; [done|]. intros _ b prefix. apply pt_match_node. intros c.
  pose proof (mapM_assoc _ _ _ c Hnext) as Hc. rewrite assoc_nexts in Hc.
  destruct (tails c rest) as [|t ts] eqn:Ht; cbn in Hc; [by rewrite Hc|].
  assert (Forall (λ s, length s < fuel) (t :: ts)) as Hts.
  { pose proof (assoc_nexts c rest) as Hassoc. rewrite Ht in Hassoc.
    clear -Hrest Hassoc. induction Hrest as [|[d rests] l Hr Hl IHl]; [done|].
    cbn in Hassoc. case_bool_decide; [by injection Hassoc as ->|auto]. }
  destruct (IH _ Hts) as (n & Hn & Hmatch). rewrite Hn in Hc. rewrite Hc.
  intros b'. by apply Hmatch.
Qed.

Lemma maxLen_le strs s : s ∈ strs → length s ≤ maxLen strs.
Proof.
  unfold maxLen. induction strs as [|t strs IH]; [by intros ?%elem_of_nil|].
  rewrite elem_of_cons. cbn. intros [->|Hs]; [lia|]. specialize (IH Hs). lia.
Qed.

(** Prefixes no longer than the buffer are found in it. *)
Lemma accepts_take n stream s :
  length s ≤ n → accepts true (take n stream) s = accepts true stream s.
Proof.
  intros Hs. apply bool_decide_ext. split; intros [k Hk].
  - exists (k ++ drop n stream). rewrite <-(take_drop n stream) at 1.
    by rewrite Hk, <-app_assoc.
  - exists (take (n - length s) k). subst. by rewrite take_app_ge.
Qed.

Lemma PrefixMatcher_total strs :
  ∃ m, PrefixMatcher strs = Some m ∧
    (strs ≠ [] → ∀ stream, run m stream = existsb (accepts true stream) strs).
Proof.
  assert (Forall (λ s, length s < S (maxLen strs)) strs) as Hlen.
  { apply Forall_forall. intros s Hs. apply maxLen_le in Hs. lia. }
  destruct (newNode_match _ _ Hlen) as (n & Hn & Hmatch).
  unfold PrefixMatcher. rewrite Hn. cbn [mbind option_bind]. eexists. split; [done|].
  intros Hne stream. unfold run. cbn [exec fst]. rewrite Hmatch by done.
  rewrite Forall_forall in Hlen. clear -Hlen. generalize dependent (S (maxLen strs)). intros k Hk.
  induction strs as [|s strs IH]; [done|]. cbn. rewrite IH by (intros; apply Hk; by right).
  f_equal. apply accepts_take. apply Nat.lt_le_incl, Hk. by left.
Qed.

(** ** Lemmas: readers *)
Lemma source_read_spec chunks n :
  nonempty chunks →
  let '(p, ok, chunks') := source_read chunks n in
  concat chunks = p ++ concat chunks' ∧ length p ≤ n ∧ nonempty chunks' ∧
  (ok = false → chunks = [] ∧ n ≠ 0) ∧ (n ≠ 0 → ok = true → p ≠ []).
Proof.
  unfold nonempty. intros Hc. destruct n as [|n]; [by split_and!; cbn; try lia|].
  destruct chunks as [|chunk chunks]; [by split_and!; cbn; try lia|].
  apply Forall_cons in Hc as [Hne Hc]. cbn [source_read]. case_bool_decide as Hl.
  - by split_and!.
  - assert (length (take (S n) chunk) = S n) as Ht by (rewrite length_take; lia).
    split_and!; try done.
    + cbn [concat]. by rewrite app_assoc, take_drop.
    + lia.
    + constructor; [|done]. intros Hd. apply (f_equal length) in Hd.
      rewrite length_drop in Hd. cbn in *. lia.
    + intros _ _ Hn. by rewrite Hn in Ht.
Qed.

Lemma MuxConn_Read_spec c n :
  nonempty (source c) →
  let '(b, ok, c') := MuxConn_Read c n in
  stream_of c = b ++ stream_of c' ∧ length b ≤ n ∧ nonempty (source c') ∧
  (ok = false → stream_of c = []) ∧ (n ≠ 0 → ok = true → b ≠ []).
Proof.
  destruct c as [chunks [|x b]]; unfold MuxConn_Read, stream_of; cbn [buf source]; intros Hne.
  - case_bool_decide as Hn; [by split_and!; cbn; try lia|].
    pose proof (source_read_spec chunks n Hne) as Hread. destruct (source_read chunks n) as [[p ok] chunks'].
    destruct Hread as (Hcat & Hlen & Hne' & Hend & Hprog). split_and!; [done..| |done].
    by intros [-> _]%Hend.
  - split_and!; [by rewrite app_assoc, take_drop|rewrite length_take; lia|done..|].
    by destruct n.
Qed.

Lemma MuxConn_reads_stream c sizes :
  nonempty (source c) →
  let '(rs, c') := MuxConn_reads c sizes in reads_stream (stream_of c) sizes rs (stream_of c').
Proof.
  unfold reads_stream, delivered. revert c.
  induction sizes as [|n sizes IH]; intros c Hne; cbn [MuxConn_reads].
  { split_and!; [done|constructor|cbn; lia|by intros [b ?%elem_of_nil]]. }
  pose proof (MuxConn_Read_spec c n Hne) as Hread. destruct (MuxConn_Read c n) as [[b ok] c1].
  destruct Hread as (Hcat & Hlen & Hne1 & Hend & Hprog). specialize (IH c1 Hne1).
  destruct (MuxConn_reads c1 sizes) as [rs c2]. destruct IH as (Hs & Hfit & Hmin & Hlast).
  cbn [fmap list_fmap concat fst]. split_and!.
  - by rewrite Hcat, Hs at 1; rewrite app_assoc.
  - by constructor.
  - intros [Hn Hsizes]%Forall_cons. specialize (Hmin Hsizes). rewrite Hcat, !length_app. cbn [length].
    destruct ok; [|rewrite Hend in Hcat by done; symmetry in Hcat; apply app_eq_nil in Hcat as [-> ->];
      cbn; lia].
    assert (length b ≠ 0) by (destruct b; [by destruct (Hprog Hn eq_refl)|done]). lia.
  - intros [b' [[= <- <-]|Hin]%elem_of_cons].
    + rewrite (Hend eq_refl) in *. symmetry in Hcat. apply app_eq_nil in Hcat as [-> Hs1].
      rewrite Hs1 in Hs. symmetry in Hs. by apply app_eq_nil in Hs as [-> _].
    + rewrite Hcat, Hlast by eauto. done.
Qed.

Lemma sniffer_read_spec s n :
  nonempty (source (conn s)) → bufferSize s ≤ length (buf (conn s)) →
  let '(b, ok, s') := sniffer_read s n in
  remaining s = b ++ remaining s' ∧ length b ≤ n ∧ later s s' ∧
  (ok = false → remaining s' = []) ∧ (n ≠ 0 → ok = true → b ≠ []).
Proof.
  intros Hne Hsize. unfold sniffer_read.
  set (rest := drop (bufferRead s) (take (bufferSize s) (buf (conn s)))).
  pose proof (source_read_spec (source (conn s)) (n - length (take n rest)) Hne) as Hsource.
  destruct (source_read _ _) as [[p ok] chunks]. destruct Hsource as (Hcat & Hlen & Hne' & Hend & Hprog).
  assert (take (bufferSize s) (buf (conn s) ++ p) = take (bufferSize s) (buf (conn s))) as Htake
    by (by rewrite take_app_le).
  assert (remaining (MkReader (MkMuxConn chunks (buf (conn s) ++ p))
    (bufferRead s + length (take n rest)) (bufferSize s)) = drop n rest ++ concat chunks) as Hrem.
  { unfold remaining. cbn. rewrite Htake, <-drop_drop. fold rest. f_equal.
    rewrite length_take. destruct (decide (n ≤ length rest)); [by rewrite Nat.min_l|].
    rewrite Nat.min_r by lia. by rewrite !drop_ge by lia. }
  assert (p = [] ∨ drop n rest = []) as Hor.
  { destruct (decide (n ≤ length rest)); [left|right; apply drop_ge; lia].
    rewrite length_take, Nat.min_l, Nat.sub_diag in Hlen by done. by destruct p; cbn in *; [|lia]. }
  rewrite Hrem. split_and!.
  - unfold remaining. fold rest. rewrite <-(take_drop n rest) at 1. rewrite Hcat.
    destruct Hor as [-> | ->]; [by rewrite !app_nil_r, <-app_assoc|].
    by rewrite !app_nil_r, <-app_assoc.
  - rewrite length_app. rewrite length_take in *. lia.
  - unfold later, stream_of. cbn. rewrite length_app. split_and!; [done|lia|].
    by rewrite Hcat, <-app_assoc.
  - intros Hok. destruct (Hend Hok) as [Hnil Hn]. rewrite Hnil in Hcat. symmetry in Hcat.
    apply app_eq_nil in Hcat as [-> ->]. rewrite app_nil_r. apply drop_ge.
    rewrite length_take in Hn. lia.
  - intros Hn Hok Hb. apply app_eq_nil in Hb as [Ht ->]. rewrite Ht in Hprog. cbn in Hprog.
    apply Hprog; [lia|done|done].
Qed.

Lemma sniffer_ReadFull_spec fuel s n :
  n ≤ fuel → nonempty (source (conn s)) → bufferSize s ≤ length (buf (conn s)) →
  ∃ s', sniffer_ReadFull fuel s n =
      Some (take n (remaining s), bool_decide (n ≤ length (remaining s)), s') ∧
    remaining s' = drop n (remaining s) ∧ later s s'.
Proof.
  revert s n. induction fuel as [|fuel IH]; intros s n Hn Hne Hsize.
  { destruct n; [|lia]. exists s. by split_and!. }
  destruct n as [|n]; [exists s; by split_and!|]. cbn [sniffer_ReadFull].
  pose proof (sniffer_read_spec s (S n) Hne Hsize) as Hread.
  destruct (sniffer_read s (S n)) as [[b ok] s1].
  destruct Hread as (Hrem & Hlen & (Hne1 & Hsize1 & Hstream) & Hend & Hprog).
  rewrite Hrem. case_bool_decide as Hfull.
  - exists s1. rewrite take_app_length', drop_app_length' by done. split_and!; [|done..].
    do 2 f_equal. rewrite length_app. rewrite bool_decide_true by lia. done.
  - destruct ok; cbn [negb].
    + assert (b ≠ []) as Hb by auto. assert (length b ≠ 0) by (by destruct b).
      destruct (IH s1 (S n - length b)) as (s2 & -> & Hrem2 & Hne2 & Hsize2 & Hstream2);
        [lia|done..|].
      cbn [mbind option_bind]. exists s2. rewrite take_app_ge, drop_app_ge by lia. split_and!.
      * do 2 f_equal. f_equal. apply bool_decide_ext. rewrite length_app. lia.
      * done.
      * split_and!; [done..|]. by rewrite Hstream2.
    + exists s1. rewrite (Hend eq_refl), app_nil_r. rewrite take_ge, drop_ge by lia.
      split_and!; [|done..]. do 2 f_equal. rewrite bool_decide_false by lia. done.
Qed.

Lemma sniff_run m s :
  nonempty (source (conn s)) → bufferSize s ≤ length (buf (conn s)) →
  ∃ c, sniff m s = Some (run m (remaining s), c) ∧
    nonempty (source c) ∧ stream_of c = stream_of (conn s).
Proof.
  revert s. induction m as [matched|n k IH]; intros s Hne Hsize; [by exists (conn s)|].
  unfold run. cbn [sniff exec].
  destruct (sniffer_ReadFull_spec n s n) as (s' & -> & Hrem & Hne' & Hsize' & Hstream); [done..|].
  cbn [mbind option_bind]. destruct (IH (take n (remaining s)) (bool_decide (n ≤ length (remaining s))) s')
    as (c & Hc & Hnec & Hstreamc); [done..|].
  exists c. unfold run in Hc. rewrite Hrem in Hc. by rewrite Hstreamc.
Qed.

Lemma remaining_sniffer c : remaining (getSniffer c) = stream_of c.
Proof. unfold remaining, stream_of. cbn. by rewrite firstn_all. Qed.

Lemma try_matchers_run ss c :
  nonempty (source c) →
  ∃ c', try_matchers ss c = Some (existsb (λ m, run m (stream_of c)) ss, c') ∧
    nonempty (source c') ∧ stream_of c' = stream_of c.
Proof.
  revert c. induction ss as [|m ss IH]; intros c Hne; [by exists c|]. cbn [try_matchers existsb].
  destruct (sniff_run m (getSniffer c)) as (c1 & -> & Hne1 & Hs1); [done|done|].
  cbn [mbind option_bind]. rewrite remaining_sniffer. cbn [conn getSniffer] in Hs1.
  destruct (run m (stream_of c)); [by exists c1|]. cbn [orb].
  destruct (IH c1 Hne1) as (c2 & -> & Hne2 & Hs2). rewrite Hs1. exists c2. by rewrite Hs2, Hs1.
Qed.

Lemma serve_loop_run i sls c :
  nonempty (source c) →
  ∃ c', serve_loop i sls c = Some ((λ j, i + j) <$> dispatch_spec sls (stream_of c), c') ∧
    nonempty (source c') ∧ stream_of c' = stream_of c.
Proof.
  revert i c. induction sls as [|ss sls IH]; intros i c Hne; [by exists c|].
  cbn [serve_loop]. destruct (try_matchers_run ss c Hne) as (c1 & -> & Hne1 & Hs1).
  cbn [mbind option_bind]. unfold dispatch_spec. cbn [list_find].
  destruct (existsb _ ss) eqn:Hss.
  - exists c1. rewrite decide_True by done. cbn. by rewrite Nat.add_0_r.
  - rewrite decide_False by done. destruct (IH (S i) c1 Hne1) as (c2 & -> & Hne2 & Hs2).
    exists c2. rewrite Hs2, Hs1. split; [|done]. do 2 f_equal. unfold dispatch_spec.
    destruct (list_find _ sls) as [[j ss']|]; [|done]. cbn. f_equal. lia.
Qed.

Lemma serve_total (sls : list (list Matcher)) (chunks : list bytes)
    (Hchunks : nonempty chunks) :
  ∃ c, serve sls chunks = Some (dispatch_spec sls (concat chunks), c) ∧
    nonempty (source c) ∧ stream_of c = concat chunks.
Proof.
  destruct (serve_loop_run 0 sls (newMuxConn chunks) Hchunks) as (c & Hc & Hne & Hs).
  exists c. split; [|by split]. unfold serve. rewrite Hc. do 2 f_equal.
  unfold stream_of. cbn. by destruct (dispatch_spec _ _).
Qed.

(** ** Lemmas: sequences of reads *)
Lemma exec_bind {A B} (m : Reader A) (f : A → Reader B) stream :
  exec (m ≫= f) stream = exec (f (exec m stream).1) (exec m stream).2.
Proof.
  unfold mbind, Reader_bind. revert stream.
  induction m as [a|n k IH]; intros stream; cbn; [done|]. apply IH.
Qed.

Lemma run_fmap {A B} (g : A → B) (m : Reader A) stream : run (g <$> m) stream = g (run m stream).
Proof.
  unfold run, fmap, Reader_fmap. revert stream.
  induction m as [a|n k IH]; intros stream; cbn; [done|]. apply IH.
Qed.

(** ** Properties *)

(** Matching prefixes by the tree, on a bounded part of the stream, is
    asking each string whether the stream starts with it: the tree can be
    built for every non-empty list of strings, repeated and nested ones
    included. *)
Theorem PrefixMatcher_spec (strs : list bytes) (Hne : strs ≠ []) :
  ∃ m, PrefixMatcher strs = Some m ∧
    ∀ stream, run m stream = existsb (λ s, bool_decide (s `prefix_of` stream)) strs.
Proof.
  destruct (PrefixMatcher_total strs) as (m & Hm & Hrun). exists m. split; [exact Hm|].
  by apply Hrun.
Qed.

(** C38. Sniffing leaves no trace.  However the bytes of a connection come
    in chunks, every matcher is answered as on the whole stream from its
    start; the connection goes to the first listener with a matcher that
    accepts, to none if there is none; and whoever gets the connection and
    reads it, with buffers of any sizes, is given the whole stream from its
    first byte: the bytes in order, none twice, some in every read until
    they are all delivered, and the end only then. *)
Theorem serve_dispatches (sls : list (list Matcher)) (chunks : list bytes)
    (Hchunks : nonempty chunks) :
  ∃ c, serve sls chunks = Some (dispatch_spec sls (concat chunks), c) ∧
    stream_of c = concat chunks ∧
    ∀ sizes, let '(rs, c') := MuxConn_reads c sizes in
      reads_stream (concat chunks) sizes rs (stream_of c').
Proof.
  destruct (serve_total sls chunks Hchunks) as (c & Hc & Hne & Hs). exists c. split_and!; [done..|].
  intros sizes. rewrite <-Hs. by apply MuxConn_reads_stream.
Qed.

(** ** Witnesses *)
Module CmuxExamples.

Lemma PrefixMatcher_spec_witness :
  ∃ m, HTTP1Fast = Some m ∧
    run m (bytes_of "PUT /x") = true ∧ run m (bytes_of "PATCH /x") = false.
Proof.
  destruct (PrefixMatcher_spec defaultHTTPMethods) as (m & Hm & Hrun); [discriminate|].
  exists m. split; [exact Hm|]. rewrite !Hrun. split; vm_compute; reflexivity.
Defined.

(** Two listeners, the first for one byte; the stream comes in chunks. *)
Definition starts (c : ascii) : Matcher := ReadFull 1 (λ b _, Return (bool_decide (b = [c]))).
Lemma serve_dispatches_witness :
  ∃ c, serve [[starts "A"%char]; [starts "B"%char; starts "G"%char]]
         (bytes_of <$> ["G"; "ET"; " /"]) = Some (Some 1, c) ∧
    stream_of c = bytes_of "GET /" ∧
    delivered (MuxConn_reads c [2; 2; 2; 2]).1 = bytes_of "GET /".
Proof.
  destruct (serve_dispatches [[starts "A"%char]; [starts "B"%char; starts "G"%char]]
    (bytes_of <$> ["G"; "ET"; " /"])) as (c & Hc & Hs & Hreads).
  - repeat (constructor; [discriminate|]). constructor.
  - exists c. split; [exact Hc|]. split; [exact Hs|]. vm_compute in Hc. injection Hc as <-.
    vm_compute. reflexivity.
Defined.
End CmuxExamples.
