(* ===== verification/Http2.v ===== *)
(** * Reading HTTP/2 frames (golang.org/x/net/http2, frame.go)

    [ReadFrame] as the sniffer of gRPC connections uses it: reading only,
    with the default limits and no reuse of frames.  A machine word of w
    bits is an [N] below 2^w. *)
From S2P Require Import Prelude GoStrings Cmux.
From Stdlib Require Import Ascii NArith.
From stdpp Require Import options.

Local Open Scope N_scope.

Definition ClientPreface : bytes :=
  let crlf := [ascii_of_N 13; ascii_of_N 10] in
  bytes_of "PRI * HTTP/2.0" ++ crlf ++ crlf ++ bytes_of "SM" ++ crlf ++ crlf.

(** ** Headers *)
Definition frameHeaderLen : nat := 9.

Definition FrameData : N := 0.
Definition FrameHeaders : N := 1.
Definition FramePriority : N := 2.
Definition FrameRSTStream : N := 3.
Definition FrameSettings : N := 4.
Definition FramePushPromise : N := 5.
Definition FramePing : N := 6.
Definition FrameGoAway : N := 7.
Definition FrameWindowUpdate : N := 8.
Definition FrameContinuation : N := 9.

Definition Flags_Has (f v : N) : bool := bool_decide (N.land f v = v).
Definition FlagDataPadded : N := 8.
Definition FlagHeadersEndHeaders : N := 4.
Definition FlagHeadersPadded : N := 8.
Definition FlagHeadersPriority : N := 32.
Definition FlagSettingsAck : N := 1.
Definition FlagPushPromisePadded : N := 8.

Record FrameHeader := MkFrameHeader {
  Type_ : N;
  Flags : N;
  Length : N;
  StreamID : N;
}.

(** [binary.BigEndian]: the number that the bytes write in base 256. *)
Definition BigEndian (b : bytes) : N := fold_left (λ n c, N.lor (N.shiftl n 8) (byte_val c)) b 0.
Definition low31 (v : N) : N := N.land v 2147483647.
Definition byte_at (b : bytes) (i : nat) : N := default 0 (byte_val <$> b !! i).

(** The header in the nine bytes of the buffer. *)
Definition readFrameHeader (buf : bytes) : FrameHeader :=
  MkFrameHeader (byte_at buf 3) (byte_at buf 4) (BigEndian (take 3 buf))
    (low31 (BigEndian (take 4 (drop 5 buf)))).

(** ** Frames *)
Record PriorityParam := MkPriorityParam { StreamDep : N; Exclusive : bool; Weight : N }.

Inductive Frame :=
| DataFrame (fh : FrameHeader) (data : bytes)
| HeadersFrame (fh : FrameHeader) (Priority : PriorityParam) (headerFragBuf : bytes)
| PriorityFrame (fh : FrameHeader) (param : PriorityParam)
| RSTStreamFrame (fh : FrameHeader) (ErrCode : N)
| SettingsFrame (fh : FrameHeader) (p : bytes)
| PushPromiseFrame (fh : FrameHeader) (PromiseID : N) (headerFragBuf : bytes)
| PingFrame (fh : FrameHeader) (Data : bytes)
| GoAwayFrame (fh : FrameHeader) (LastStreamID ErrCode : N) (debugData : bytes)
| WindowUpdateFrame (fh : FrameHeader) (Increment : N)
| ContinuationFrame (fh : FrameHeader) (headerFragBuf : bytes)
| UnknownFrame (fh : FrameHeader) (p : bytes).

(** The errors: of the reader, for a whole connection, for a stream. *)
Inductive frame_error :=
| ErrRead
| ErrUnexpectedEOF
| ErrFrameTooLarge
| ConnectionError (code : N)
| StreamError (streamID code : N).
Definition ErrCodeProtocol : N := 1.
Definition ErrCodeFlowControl : N := 3.
Definition ErrCodeFrameSize : N := 6.

Definition parsed_frame : Type := result frame_error Frame.

Definition readByte (p : bytes) : result frame_error (bytes * N) :=
  match p with
  | [] => Error ErrUnexpectedEOF
  | b :: p => Ok (p, byte_val b)
  end.
Definition readUint32 (p : bytes) : result frame_error (bytes * N) :=
  if bool_decide (length p < 4)%nat then Error ErrUnexpectedEOF
  else Ok (drop 4 p, BigEndian (take 4 p)).

Definition len (p : bytes) : N := N.of_nat (length p).
Definition without_pad (p : bytes) (padLength : N) : bytes :=
  take (length p - N.to_nat padLength) p.

(** An optional byte before the payload: the length of the padding. *)
Definition read_pad (padded : bool) (p : bytes) : result frame_error (bytes * N) :=
  if padded then readByte p else Ok (p, 0).

Definition parseDataFrame (fh : FrameHeader) (payload : bytes) : parsed_frame :=
  if bool_decide (StreamID fh = 0) then Error (ConnectionError ErrCodeProtocol)
  else
    '(payload, padSize) ← read_pad (Flags_Has (Flags fh) FlagDataPadded) payload;
    if bool_decide (len payload < padSize) then Error (ConnectionError ErrCodeProtocol)
    else Ok (DataFrame fh (without_pad payload padSize)).

Definition parseHeadersFrame (fh : FrameHeader) (p : bytes) : parsed_frame :=
  if bool_decide (StreamID fh = 0) then Error (ConnectionError ErrCodeProtocol)
  else
    '(p, padLength) ← read_pad (Flags_Has (Flags fh) FlagHeadersPadded) p;
    '(p, priority) ← (if Flags_Has (Flags fh) FlagHeadersPriority then
                        '(p, v) ← readUint32 p;
                        '(p, weight) ← readByte p;
                        Ok (p, MkPriorityParam (low31 v) (negb (bool_decide (v = low31 v))) weight)
                      else Ok (p, MkPriorityParam 0 false 0));
    if bool_decide (len p ≤ padLength) then Error (StreamError (StreamID fh) ErrCodeProtocol)
    else Ok (HeadersFrame fh priority (without_pad p padLength)).

Definition parsePriorityFrame (fh : FrameHeader) (payload : bytes) : parsed_frame :=
  if bool_decide (StreamID fh = 0) then Error (ConnectionError ErrCodeProtocol)
  else if negb (bool_decide (length payload = 5%nat)) then Error (ConnectionError ErrCodeFrameSize)
  else
    let v := BigEndian (take 4 payload) in
    Ok (PriorityFrame fh
          (MkPriorityParam (low31 v) (negb (bool_decide (low31 v = v))) (byte_at payload 4))).

Definition parseRSTStreamFrame (fh : FrameHeader) (p : bytes) : parsed_frame :=
  if negb (bool_decide (length p = 4%nat)) then Error (ConnectionError ErrCodeFrameSize)
  else if bool_decide (StreamID fh = 0) then Error (ConnectionError ErrCodeProtocol)
  else Ok (RSTStreamFrame fh (BigEndian p)).

(** [f.Value(id)]: the value of the first setting with the identifier; the
    settings are six bytes each. *)
Fixpoint setting_value (fuel : nat) (p : bytes) (id : N) : option N :=
  match fuel, p with
  | S fuel, _ :: _ =>
      if bool_decide (BigEndian (take 2 p) = id) then Some (BigEndian (take 4 (drop 2 p)))
      else setting_value fuel (drop 6 p) id
  | _, _ => None
  end.
Definition SettingInitialWindowSize : N := 4.

Definition parseSettingsFrame (fh : FrameHeader) (p : bytes) : parsed_frame :=
  if Flags_Has (Flags fh) FlagSettingsAck && bool_decide (0 < Length fh)
  then Error (ConnectionError ErrCodeFrameSize)
  else if bool_decide (StreamID fh ≠ 0) then Error (ConnectionError ErrCodeProtocol)
  else if bool_decide (len p mod 6 ≠ 0) then Error (ConnectionError ErrCodeFrameSize)
  else
    match setting_value (length p / 6)%nat p SettingInitialWindowSize with
    | Some v => if bool_decide (2147483647 < v) then Error (ConnectionError ErrCodeFlowControl)
                else Ok (SettingsFrame fh p)
    | None => Ok (SettingsFrame fh p)
    end.

Definition parsePushPromise (fh : FrameHeader) (p : bytes) : parsed_frame :=
  if bool_decide (StreamID fh = 0) then Error (ConnectionError ErrCodeProtocol)
  else
    '(p, padLength) ← read_pad (Flags_Has (Flags fh) FlagPushPromisePadded) p;
    '(p, promise) ← readUint32 p;
    if bool_decide (len p < padLength) then Error (ConnectionError ErrCodeProtocol)
    else Ok (PushPromiseFrame fh (low31 promise) (without_pad p padLength)).

Definition parsePingFrame (fh : FrameHeader) (payload : bytes) : parsed_frame :=
  if negb (bool_decide (length payload = 8%nat)) then Error (ConnectionError ErrCodeFrameSize)
  else if bool_decide (StreamID fh ≠ 0) then Error (ConnectionError ErrCodeProtocol)
  else Ok (PingFrame fh payload).

Definition parseGoAwayFrame (fh : FrameHeader) (p : bytes) : parsed_frame :=
  if bool_decide (StreamID fh ≠ 0) then Error (ConnectionError ErrCodeProtocol)
  else if bool_decide (length p < 8)%nat then Error (ConnectionError ErrCodeFrameSize)
  else Ok (GoAwayFrame fh (low31 (BigEndian (take 4 p))) (BigEndian (take 4 (drop 4 p))) (drop 8 p)).

Definition parseWindowUpdateFrame (fh : FrameHeader) (p : bytes) : parsed_frame :=
  if negb (bool_decide (length p = 4%nat)) then Error (ConnectionError ErrCodeFrameSize)
  else
    let inc := low31 (BigEndian p) in
    if bool_decide (inc = 0) then
      if bool_decide (StreamID fh = 0) then Error (ConnectionError ErrCodeProtocol)
      else Error (StreamError (StreamID fh) ErrCodeProtocol)
    else Ok (WindowUpdateFrame fh inc).

Definition parseContinuationFrame (fh : FrameHeader) (p : bytes) : parsed_frame :=
  if bool_decide (StreamID fh = 0) then Error (ConnectionError ErrCodeProtocol)
  else Ok (ContinuationFrame fh p).

Definition parseUnknownFrame (fh : FrameHeader) (p : bytes) : parsed_frame := Ok (UnknownFrame fh p).

Definition typeFrameParser (t : N) : FrameHeader → bytes → parsed_frame :=
  if bool_decide (t = FrameData) then parseDataFrame
  else if bool_decide (t = FrameHeaders) then parseHeadersFrame
  else if bool_decide (t = FramePriority) then parsePriorityFrame
  else if bool_decide (t = FrameRSTStream) then parseRSTStreamFrame
  else if bool_decide (t = FrameSettings) then parseSettingsFrame
  else if bool_decide (t = FramePushPromise) then parsePushPromise
  else if bool_decide (t = FramePing) then parsePingFrame
  else if bool_decide (t = FrameGoAway) then parseGoAwayFrame
  else if bool_decide (t = FrameWindowUpdate) then parseWindowUpdateFrame
  else if bool_decide (t = FrameContinuation) then parseContinuationFrame
  else parseUnknownFrame.

(** ** The framer

    Its state is [lastHeaderStream]: the stream of a header block that has
    not ended, or 0. *)
Definition checkFrameOrder (lastHeaderStream : N) (fh : FrameHeader) : result frame_error N :=
  let last :=
    if bool_decide (Type_ fh = FrameHeaders ∨ Type_ fh = FrameContinuation) then
      if Flags_Has (Flags fh) FlagHeadersEndHeaders then 0 else StreamID fh
    else lastHeaderStream in
  if bool_decide (lastHeaderStream ≠ 0) then
    if bool_decide (Type_ fh ≠ FrameContinuation) then Error (ConnectionError ErrCodeProtocol)
    else if bool_decide (StreamID fh ≠ lastHeaderStream) then Error (ConnectionError ErrCodeProtocol)
    else Ok last
  else if bool_decide (Type_ fh = FrameContinuation) then Error (ConnectionError ErrCodeProtocol)
  else Ok last.

Definition maxReadSize : N := 16777215.

(** [framer.ReadFrame()]: the frame and the next state. *)
Definition ReadFrame (lastHeaderStream : N) : Reader (result frame_error (Frame * N)) :=
  ReadFull frameHeaderLen (λ buf full,
    if negb full then Return (Error ErrRead)
    else
      let fh := readFrameHeader buf in
      if bool_decide (maxReadSize < Length fh) then Return (Error ErrFrameTooLarge)
      else
        ReadFull (N.to_nat (Length fh)) (λ payload full,
          if negb full then Return (Error ErrRead)
          else Return (
            f ← typeFrameParser (Type_ fh) fh payload;
            last ← checkFrameOrder lastHeaderStream fh;
            Ok (f, last)))).

(** ** Lemmas *)

(** A frame takes its header and its payload from the stream. *)
Lemma ReadFrame_consumes st stream f st' rest :
  exec (ReadFrame st) stream = (Ok (f, st'), rest) →
  (length rest + 9 ≤ length stream)%nat ∧ rest `suffix_of` stream.
Proof.
  unfold ReadFrame, frameHeaderLen. cbn [exec]. case_bool_decide as Hh; [|done]. cbn [negb].
  case_bool_decide; [done|]. cbn [exec]. case_bool_decide as Hp; [|done]. cbn [negb exec].
  intros [= _ <-]. rewrite length_drop, length_drop in *. split; [lia|].
  exists (take 9 stream ++ take (N.to_nat (Length (readFrameHeader (take 9 stream)))) (drop 9 stream)).
  by rewrite <-app_assoc, !take_drop.
Qed.
