(* ===== verification/Listener.v ===== *)
(** * Sorting connections (src/pkg/agent/listener.go)

    The two listeners of the agent: HTTP/1 connections by their method,
    gRPC connections by the content type in the first header block. *)
From S2P Require Import Prelude GoStrings Cmux Http2.
From Stdlib Require Import Ascii.
From stdpp Require Import options.

(** HPACK: [hdec.Write(p)] emits the fields it decodes, and may fail after
    some. *)
Record HeaderField := MkHeaderField { HF_Name : string; HF_Value : string }.
Class Hpack := {
  Decoder : Type;
  NewDecoder : N → Decoder;
  Decoder_Write : Decoder → bytes → list HeaderField * bool * Decoder;
}.

Section Listener.
Context `{Hpack}.

(** ** Matchers *)
Definition hasHTTP2Preface : Matcher :=
  ReadFull (length ClientPreface) (λ b full,
    if negb full then Return false else Return (bool_decide (b = ClientPreface))).

(** The emit function, on the variable [matched]: the loop over the pairs
    stops at the first that does not match. *)
Fixpoint emit_loop (nameValuePairs : list (string * string)) (hf : HeaderField) (matched : bool)
    : bool :=
  match nameValuePairs with
  | [] => matched
  | (name, value) :: nameValuePairs =>
      let matched := EqualFold (HF_Name hf) name && bool_decide (HF_Value hf = value) in
      if negb matched then matched else emit_loop nameValuePairs hf matched
  end.

(** The loop over the frames; the fuel bounds their number, and [None] is
    the answer without fuel. *)
Fixpoint frames_loop (fuel : nat) (nameValuePairs : list (string * string))
    (framer : N) (hdec : Decoder) (matched : bool) : Reader (option bool) :=
  match fuel with
  | O => Return None
  | S fuel =>
      r ← ReadFrame framer;
      match r with
      | Error _ => Return (Some false)
      | Ok (HeadersFrame fh _ fragment, framer) =>
          let '(fields, ok, hdec) := Decoder_Write hdec fragment in
          let matched := fold_left (λ m hf, emit_loop nameValuePairs hf m) fields matched in
          if negb ok then Return (Some false)
          else if matched then Return (Some true)
          else if negb (bool_decide (N.land (Flags fh) FlagHeadersEndHeaders = 0%N))
          then Return (Some false)
          else frames_loop fuel nameValuePairs framer hdec matched
      | Ok (_, framer) => frames_loop fuel nameValuePairs framer hdec matched
      end
  end.

Definition http2HeaderFieldEqual (fuel : nat) (nameValuePairs : list (string * string))
    : Reader (option bool) :=
  preface ← hasHTTP2Preface;
  if negb preface then Return (Some false)
  else frames_loop fuel nameValuePairs 0%N (NewDecoder 4096%N) false.

(** ** Listeners *)
Definition grpc_pairs : list (string * string) := [("Content-Type", "application/grpc")].
Definition createGRPCListener (fuel : nat) : Matcher :=
  default false <$> http2HeaderFieldEqual fuel grpc_pairs.
Definition createHTTPListener : Matcher := default (Return false) HTTP1Fast.

(** The order in which [serve] (entry.go) starts the servers; the calls of
    [Match] may come in the other order, for which see [Serving]. *)
Definition listeners (fuel : nat) : list (list Matcher) :=
  [[createHTTPListener]; [createGRPCListener fuel]].

(** ** Specification *)
Definition is_HeadersFrame (f : Frame) : bool :=
  match f with HeadersFrame _ _ _ => true | _ => false end.

(** The frames that are skipped: the stream reads as frames that are no
    HEADERS, and [rest] is left. *)
Inductive skips : N → bytes → N → bytes → Prop :=
| skips_nil st stream : skips st stream st stream
| skips_frame st stream f st' rest st'' rest' :
    exec (ReadFrame st) stream = (Ok (f, st'), rest) → is_HeadersFrame f = false →
    skips st' rest st'' rest' → skips st stream st'' rest'.

(** The field has the name and the value of every pair. *)
Definition field_is (nameValuePairs : list (string * string)) (hf : HeaderField) : bool :=
  forallb (λ p, EqualFold (HF_Name hf) p.1 && bool_decide (HF_Value hf = p.2)) nameValuePairs.

Definition starts_with_method (stream : bytes) : bool :=
  existsb (λ s, bool_decide (s `prefix_of` stream)) defaultHTTPMethods.

(** ** Lemmas *)
Lemma emit_loop_spec pairs hf matched :
  pairs ≠ [] → emit_loop pairs hf matched = field_is pairs hf.
Proof.
  assert (∀ pairs, emit_loop pairs hf true = field_is pairs hf) as Htrue.
  { clear. induction pairs as [|[n v] pairs IH]; [done|]. cbn.
    destruct (EqualFold _ _ && _); [exact IH|done]. }
  destruct pairs as [|[n v] pairs]; [done|]. intros _. cbn.
  destruct (EqualFold _ _ && _); [apply Htrue|done].
Qed.

(** Each field overwrites what the fields before it matched. *)
Lemma emit_last pairs fields matched :
  pairs ≠ [] →
  fold_left (λ m hf, emit_loop pairs hf m) fields matched =
  match last fields with Some hf => field_is pairs hf | None => matched end.
Proof.
  intros Hne. destruct fields as [|hf fields _] using rev_ind; [done|].
  rewrite fold_left_app, last_snoc. cbn. by apply emit_loop_spec.
Qed.

Lemma frames_loop_step fuel pairs st dec matched stream f st' rest :
  exec (ReadFrame st) stream = (Ok (f, st'), rest) → is_HeadersFrame f = false →
  exec (frames_loop (S fuel) pairs st dec matched) stream =
  exec (frames_loop fuel pairs st' dec matched) rest.
Proof.
  intros Hread Hf. cbn [frames_loop]. rewrite exec_bind, Hread. cbn [fst snd].
  by destruct f.
Qed.

(** With more fuel than frames can be in the stream the loop answers, and
    the answer does not depend on the fuel. *)
Lemma frames_loop_enough fuel fuel' pairs st dec matched stream :
  length stream < fuel → length stream < fuel' →
  is_Some (run (frames_loop fuel pairs st dec matched) stream) ∧
  run (frames_loop fuel pairs st dec matched) stream =
  run (frames_loop fuel' pairs st dec matched) stream.
Proof.
  revert fuel' st dec matched stream. induction fuel as [|fuel IH]; intros fuel' st dec matched stream;
    [lia|]. intros Hf Hf'. destruct fuel' as [|fuel']; [lia|].
  unfold run. cbn [frames_loop]. rewrite !exec_bind.
  destruct (exec (ReadFrame st) stream) as [[[f st']|err] rest] eqn:Hread; cbn [fst snd];
    [|split; [by eexists|done]].
  apply ReadFrame_consumes in Hread as [Hlen _].
  assert (∀ dec matched, is_Some (run (frames_loop fuel pairs st' dec matched) rest) ∧
    run (frames_loop fuel pairs st' dec matched) rest =
    run (frames_loop fuel' pairs st' dec matched) rest) as Hrec by (intros; apply IH; lia).
  destruct f; try apply Hrec. destruct (Decoder_Write _ _) as [[fields ok] dec'].
  destruct ok; cbn [negb]; [|split; [by eexists|done]].
  destruct (fold_left _ _ _); [split; [by eexists|done]|].
  case_bool_decide; cbn [negb]; [apply Hrec|split; [by eexists|done]].
Qed.

Lemma frames_loop_headers fuel pairs st dec stream fh priority fragment st' rest :
  exec (ReadFrame st) stream = (Ok (HeadersFrame fh priority fragment, st'), rest) →
  run (frames_loop (S fuel) pairs st dec false) stream =
  let '(fields, ok, dec) := Decoder_Write dec fragment in
  let matched := fold_left (λ m hf, emit_loop pairs hf m) fields false in
  if negb ok then Some false
  else if matched then Some true
  else if bool_decide (N.land (Flags fh) FlagHeadersEndHeaders = 0%N)
       then run (frames_loop fuel pairs st' dec matched) rest
  else Some false.
Proof.
  intros Hframe. unfold run. cbn [frames_loop]. rewrite exec_bind, Hframe. cbn [fst snd].
  destruct (Decoder_Write _ _) as [[fields ok] dec']. cbn zeta.
  destruct ok; cbn [negb]; [|done]. destruct (fold_left _ _ _); [done|].
  by destruct (bool_decide _).
Qed.

Lemma skips_run st stream st' rest fuel pairs dec matched :
  skips st stream st' rest → length stream < fuel →
  run (frames_loop fuel pairs st dec matched) stream =
  run (frames_loop (S (length rest)) pairs st' dec matched) rest.
Proof.
  intros Hs. revert fuel. induction Hs as [st stream|st stream f st' rest st'' rest' Hread Hf _ IH];
    intros fuel Hfuel.
  - apply frames_loop_enough; lia.
  - destruct fuel as [|fuel]; [lia|]. unfold run. rewrite (frames_loop_step _ _ _ _ _ _ _ _ _ Hread Hf).
    apply ReadFrame_consumes in Hread as [Hlen _]. apply IH. lia.
Qed.

Lemma preface_run stream :
  exec hasHTTP2Preface (ClientPreface ++ stream) = (true, stream).
Proof.
  unfold hasHTTP2Preface. cbn [exec]. rewrite length_app, bool_decide_true by lia. cbn [negb exec].
  rewrite take_app_length, drop_app_length, bool_decide_true by done. done.
Qed.

Lemma preface_false stream :
  ¬ ClientPreface `prefix_of` stream → (exec hasHTTP2Preface stream).1 = false.
Proof.
  intros Hp. unfold hasHTTP2Preface. cbn [exec]. case_bool_decide as Hl; cbn [negb exec fst]; [|done].
  apply bool_decide_eq_false. intros Ht. apply Hp. exists (drop (length ClientPreface) stream).
  rewrite <-Ht at 1. by rewrite take_drop.
Qed.

Lemma HTTP_run stream : run createHTTPListener stream = starts_with_method stream.
Proof.
  unfold createHTTPListener, HTTP1Fast.
  destruct (PrefixMatcher_total defaultHTTPMethods) as (m & -> & Hrun).
  cbn [default from_option id]. by rewrite Hrun.
Qed.

(** The preface of HTTP/2 starts with no method. *)
Lemma preface_no_method stream : starts_with_method (ClientPreface ++ stream) = false.
Proof.
  apply not_true_iff_false. unfold starts_with_method. rewrite existsb_exists.
  intros (s & Hs & Hp%bool_decide_eq_true). destruct Hp as [k Hk].
  repeat (destruct Hs as [<-|Hs]; [discriminate Hk|]). destruct Hs.
Qed.

(** ** Properties *)


(** The two listeners share the connections.  With enough fuel the
    sniffer of gRPC answers on every stream.  A connection goes to the HTTP
    server when it starts with a method; a connection with the preface of
    HTTP/2 does not, and goes to the gRPC server or nowhere; any other is
    closed. *)
Theorem listeners_share (fuel : nat) (chunks : list bytes) (Hchunks : nonempty chunks)
    (Hfuel : length (concat chunks) < fuel) :
  let stream := concat chunks in
  is_Some (run (http2HeaderFieldEqual fuel grpc_pairs) stream) ∧
  ∃ c, serve (listeners fuel) chunks =
    Some (if starts_with_method stream then Some 0
          else if bool_decide (ClientPreface `prefix_of` stream) &&
                  run (createGRPCListener fuel) stream then Some 1 else None, c) ∧
    stream_of c = stream ∧
    (ClientPreface `prefix_of` stream → starts_with_method stream = false).
Proof.
  cbn zeta. destruct (serve_total (listeners fuel) chunks Hchunks) as (c & Hc & _ & Hs).
  generalize dependent (concat chunks). intros stream Hfuel Hc Hs.
  assert (¬ ClientPreface `prefix_of` stream →
    run (http2HeaderFieldEqual fuel grpc_pairs) stream = Some false) as Hno.
  { intros Hp. unfold http2HeaderFieldEqual, run. rewrite exec_bind, (preface_false _ Hp). done. }
  split.
  - destruct (decide (ClientPreface `prefix_of` stream)) as [[rest ->]|Hp]; [|rewrite Hno; by eauto].
    unfold http2HeaderFieldEqual, run. rewrite exec_bind, preface_run. cbn [fst snd negb].
    rewrite length_app in Hfuel.
    apply (frames_loop_enough fuel fuel grpc_pairs 0%N (NewDecoder 4096%N) false rest); lia.
  - exists c. split_and!; [|done|by intros [rest ->]; apply preface_no_method]. rewrite Hc.
    unfold dispatch_spec, listeners. cbn [list_find existsb]. rewrite !orb_false_r, HTTP_run.
    destruct (starts_with_method stream); [by rewrite decide_True|]. rewrite decide_False by done.
    assert (run (createGRPCListener fuel) stream =
      default false (run (http2HeaderFieldEqual fuel grpc_pairs) stream)) as -> by apply run_fmap.
    case_bool_decide as Hp; cbn [andb]; [|by rewrite (Hno Hp)].
    by destruct (default false _).
Qed.
End Listener.

(** ** Witnesses *)
Module ListenerExamples.

(** A decoder for fields written as lines with a colon. *)
Fixpoint split_at_byte (c : ascii) (b : bytes) : list bytes :=
  match b with
  | [] => [[]]
  | d :: b =>
      match split_at_byte c b with
      | l :: ls => if bool_decide (d = c) then [] :: l :: ls else (d :: l) :: ls
      | [] => [[]]
      end
  end.
Definition line_field (l : bytes) : list HeaderField :=
  match split_at_byte ":"%char l with
  | [n; v] => [MkHeaderField (String.string_of_list_ascii n) (String.string_of_list_ascii v)]
  | _ => []
  end.
#[export] Instance lines : Hpack := {|
  Decoder := unit;
  NewDecoder _ := ();
  Decoder_Write _ p := (mjoin (line_field <$> split_at_byte "|"%char p), true, ());
|}.

(** A frame: length, type, flags, stream and payload. *)
Definition frame (t flags stream : N) (payload : bytes) : bytes :=
  (ascii_of_N <$> [0; 0; N.of_nat (length payload); t; flags; 0; 0; 0; stream]%N) ++ payload.
Definition settings : bytes := frame FrameSettings 0 0 [].
Definition request (fields : string) : bytes :=
  ClientPreface ++ settings ++ frame FrameHeaders 4 1 (bytes_of fields).

Definition answer (fields : string) : option bool :=
  run (http2HeaderFieldEqual 100 grpc_pairs) (request fields).

(** A block in two frames: the content type in the CONTINUATION frame is
    not seen, and in the HEADERS frame it decides whatever follows. *)
Definition split_answer (headers continuation : string) : option bool :=
  run (http2HeaderFieldEqual 100 grpc_pairs)
    (ClientPreface ++ frame FrameHeaders 0 1 (bytes_of headers) ++
     frame FrameContinuation 4 1 (bytes_of continuation)).
Example continuation_undecoded :
  split_answer "path:/s/m" "content-type:application/grpc" = Some false ∧
  split_answer "content-type:application/grpc" "user-agent:grpc-go" = Some true.
Proof. vm_compute. done. Qed.


Lemma listeners_share_witness :
  ∃ c, serve (listeners 100) (bytes_of <$> ["GET"; " / HTTP/1.1"]) = Some (Some 0, c).
Proof.
  destruct (listeners_share 100 (bytes_of <$> ["GET"; " / HTTP/1.1"])) as [_ (c & Hc & _)].
  - repeat (constructor; [discriminate|]). constructor.
  - vm_compute. lia.
  - exists c. exact Hc.
Defined.
End ListenerExamples.
