(* ===== verification/Multiplexing.v ===== *)
(** * The multiplexer at work (github.com/cockroachdb/cmux, src/pkg/agent/entry.go, listener.go)

    [serve] of the agent starts three goroutines: two call [Match], each for
    its server, and the third calls [Serve], which accepts connections from
    the listener of [netutil.LimitListener] and starts a goroutine for each.
    They share the list of listeners, a channel per listener, the semaphore
    of the limit and the listener at the root.  The model is a step relation
    on what they share: a step is one operation on it.

    The first part models the goroutines, the second gives their invariant,
    and the third what follows from it. *)
From stdpp Require Import functions.
From S2P Require Import Prelude GoStrings Cmux Http2 Listener.
From stdpp Require Import options.

(** ** The state *)

(** The two servers, each with the listener that [Match] gave it. *)
Inductive frontend := HTTP | GRPC.
#[export] Instance frontend_eq_dec : EqDecision frontend.
Proof. solve_decision. Defined.

Record matchersListener := MkListener { ss : list Matcher; l : frontend }.

(** [connc]: connections are given by their number. *)
Record channel := MkChan { queue : list nat; chan_closed : bool }.
Definition bufLen : nat := 1024.

(** A call of [Match], whose [append] reads the list before it writes it. *)
Inductive matching_state :=
| NotCalled
| Appending (old : list matchersListener)
| Matched.

(** Errors, by what [handleErr] asks them; the agent sets no handler. *)
Inductive net_error := NetError (temporary : bool) | OtherError.
Definition ErrNotMatched : net_error := NetError true.
Definition ErrListenerClosed : net_error := NetError false.
Definition errh (err : net_error) : bool := true.
Definition handleErr (err : net_error) : bool :=
  if negb (errh err) then false
  else match err with NetError temporary => temporary | OtherError => false end.

(** The goroutine of a connection: [m.serve]. *)
Inductive conn_routine :=
| Starting
| Sniffing (sls : list matchersListener)
| Offering (l : frontend)
| Finished.

(** What the client has sent, whether it will send no more, and whether
    the agent has closed the connection. *)
Record connection := MkConnection {
  sent : list bytes;
  ended : bool;
  routine : conn_routine;
  conn_closed : bool;
}.
Definition stream (c : connection) : bytes := concat (sent c).

(** [Serve]: in its loop, before or after the semaphore was acquired, or
    in the deferred function, which waits for the goroutines, and then
    closes and drains the channels. *)
Inductive serve_state :=
| Acquiring
| Accepting (acquired : bool)
| Waiting (err : net_error)
| Closing (rest : list matchersListener) (err : net_error)
| Draining (l : frontend) (rest : list matchersListener) (err : net_error)
| ServeReturned (err : net_error).

Record cMux := MkMux {
  sls : list matchersListener;
  matching : frontend → matching_state;
  connc : frontend → channel;
  taken : frontend → list nat;  (** the connections the server accepted *)
  conns : list connection;
  loop : serve_state;
  root_closed : bool;
  sem : nat;                    (** [len(l.sem)] of the limit *)
  panicked : bool;
}.

(** [close(m.donec)] is the first thing the deferred function does. *)
Definition donec (st : cMux) : bool :=
  match loop st with Acquiring | Accepting _ => false | _ => true end.

Definition with_sls x st :=
  MkMux x (matching st) (connc st) (taken st)
    (conns st) (loop st) (root_closed st) (sem st) (panicked st).
Definition with_matching x st :=
  MkMux (sls st) x (connc st) (taken st)
    (conns st) (loop st) (root_closed st) (sem st) (panicked st).
Definition with_connc x st :=
  MkMux (sls st) (matching st) x (taken st)
    (conns st) (loop st) (root_closed st) (sem st) (panicked st).
Definition with_taken x st :=
  MkMux (sls st) (matching st) (connc st) x
    (conns st) (loop st) (root_closed st) (sem st) (panicked st).
Definition with_conns x st :=
  MkMux (sls st) (matching st) (connc st) (taken st)
    x (loop st) (root_closed st) (sem st) (panicked st).
Definition with_loop x st :=
  MkMux (sls st) (matching st) (connc st) (taken st)
    (conns st) x (root_closed st) (sem st) (panicked st).
Definition with_root x st :=
  MkMux (sls st) (matching st) (connc st) (taken st)
    (conns st) (loop st) x (sem st) (panicked st).
Definition with_sem x st :=
  MkMux (sls st) (matching st) (connc st) (taken st)
    (conns st) (loop st) (root_closed st) x (panicked st).
Definition panic st :=
  MkMux (sls st) (matching st) (connc st) (taken st)
    (conns st) (loop st) (root_closed st) (sem st) true.

Definition set_routine (r : conn_routine) (c : connection) : connection :=
  MkConnection (sent c) (ended c) r (conn_closed c).
Definition set_closed (c : connection) : connection :=
  MkConnection (sent c) (ended c) (routine c) true.
Definition set_sent (chunks : list bytes) (c : connection) : connection :=
  MkConnection chunks (ended c) (routine c) (conn_closed c).
Definition set_ended (c : connection) : connection :=
  MkConnection (sent c) true (routine c) (conn_closed c).
Definition goes (i : nat) (r : conn_routine) (st : cMux) : cMux :=
  with_conns (alter (set_routine r) i (conns st)) st.

(** ** The limit (netutil/listen.go) *)
Definition release (st : cMux) : cMux := with_sem (sem st - 1) st.

(** [(l *limitListenerConn) Close()]: only the first call releases. *)
Definition close_conn (i : nat) (st : cMux) : cMux :=
  match conns st !! i with
  | Some c => if conn_closed c then st else release (with_conns (alter set_closed i (conns st)) st)
  | None => st
  end.

(** ** Operations of the multiplexer *)
Definition muxListener_Accept (ch : channel) : option (result net_error nat * channel) :=
  match queue ch with
  | i :: q => Some (Ok i, MkChan q (chan_closed ch))
  | [] => if chan_closed ch then Some (Error ErrListenerClosed, ch) else None
  end.

(** Whether the sniffers have an answer from the bytes so far, with more
    to come: none of the matchers that are asked reads past them. *)
Fixpoint within {A} (m : Reader A) (stream : bytes) : bool :=
  match m with
  | Return _ => true
  | ReadFull n k =>
      bool_decide (n ≤ length stream) && within (k (take n stream) true) (drop n stream)
  end.
Fixpoint answered (ms : list Matcher) (stream : bytes) : bool :=
  match ms with
  | [] => true
  | m :: ms => within m stream && (run m stream || answered ms stream)
  end.
Definition sniffed (c : connection) (sls : list matchersListener) : bool :=
  ended c || answered (mjoin (ss <$> sls)) (stream c).

(** The listener of the first matcher that accepts, by [Cmux.serve]. *)
Definition matched_listener (sls : list matchersListener) (c : connection) : option frontend :=
  '(found, _) ← serve (ss <$> sls) (sent c);
  k ← found;
  l <$> sls !! k.

(** The end of [m.serve], when no matcher accepts. *)
Definition not_matched (i : nat) (st : cMux) : cMux :=
  let st := goes i Finished (close_conn i st) in
  if negb (handleErr ErrNotMatched) then with_root true st else st.

(** [m.root.Accept()] with an error. *)
Definition accept_failed (acquired : bool) (err : net_error) (st : cMux) : cMux :=
  let st := if acquired then release st else st in
  with_loop (if negb (handleErr err) then Waiting err else Acquiring) st.

Definition newConnection : connection := MkConnection [] false Starting false.

Definition enqueue (i : nat) (f : frontend) (st : cMux) : cMux :=
  with_connc (<[f := MkChan (queue (connc st f) ++ [i]) (chan_closed (connc st f))]> (connc st)) st.
Definition dequeue (q : list nat) (f : frontend) (st : cMux) : cMux :=
  with_connc (<[f := MkChan q (chan_closed (connc st f))]> (connc st)) st.
Definition close_chan (f : frontend) (st : cMux) : cMux :=
  with_connc (<[f := MkChan (queue (connc st f)) true]> (connc st)) st.
Definition take_conn (i : nat) (f : frontend) (st : cMux) : cMux :=
  with_taken (<[f := taken st f ++ [i]]> (taken st)) st.
Definition set_matching (f : frontend) (m : matching_state) (st : cMux) : cMux :=
  with_matching (<[f := m]> (matching st)) st.

(** ** Steps *)
Section Multiplexing.
Context (matchers : frontend → list Matcher) (maxConnections : nat).

(** The goroutine of [Serve]. *)
Inductive serve_step : cMux → cMux → Prop :=
| acquire_free st :
    loop st = Acquiring → sem st < maxConnections →
    serve_step st (with_sem (S (sem st)) (with_loop (Accepting true) st))
| acquire_done st :
    loop st = Acquiring → root_closed st = true →
    serve_step st (with_loop (Accepting false) st)
| root_accepts acquired st :
    loop st = Accepting acquired → root_closed st = false →
    serve_step st (with_conns (conns st ++ [newConnection]) (with_loop Acquiring st))
| root_fails acquired err st :
    loop st = Accepting acquired → serve_step st (accept_failed acquired err st)
| waited err st :
    loop st = Waiting err → Forall (λ c, routine c = Finished) (conns st) →
    serve_step st (with_loop (Closing (sls st) err) st)
| closes sl rest err st :
    loop st = Closing (sl :: rest) err →
    serve_step st
      (if chan_closed (connc st (l sl)) then panic st
       else close_chan (l sl) (with_loop (Draining (l sl) rest err) st))
| drains f rest err i q st :
    loop st = Draining f rest err → queue (connc st f) = i :: q →
    serve_step st (close_conn i (dequeue q f st))
| drained f rest err st :
    loop st = Draining f rest err → queue (connc st f) = [] →
    serve_step st (with_loop (Closing rest err) st)
| serve_returns err st :
    loop st = Closing [] err → serve_step st (with_loop (ServeReturned err) st).

(** The goroutine of the connection [i]. *)
Inductive conn_step (i : nat) : cMux → cMux → Prop :=
| conn_starts c st :
    conns st !! i = Some c → routine c = Starting →
    conn_step i st (goes i (Sniffing (sls st)) st)
| conn_matched c seen f st :
    conns st !! i = Some c → routine c = Sniffing seen → sniffed c seen = true →
    matched_listener seen c = Some f → conn_step i st (goes i (Offering f) st)
| conn_refused c seen st :
    conns st !! i = Some c → routine c = Sniffing seen → sniffed c seen = true →
    matched_listener seen c = None → conn_step i st (not_matched i st)
| conn_enqueued c f st :
    conns st !! i = Some c → routine c = Offering f → chan_closed (connc st f) = false →
    length (queue (connc st f)) < bufLen → conn_step i st (goes i Finished (enqueue i f st))
| conn_panics c f st :
    conns st !! i = Some c → routine c = Offering f → chan_closed (connc st f) = true →
    conn_step i st (panic st)
| conn_too_late c f st :
    conns st !! i = Some c → routine c = Offering f → donec st = true →
    conn_step i st (goes i Finished (close_conn i st)).

(** The server [f], from its call of [Match]. *)
Inductive frontend_step (f : frontend) : cMux → cMux → Prop :=
| match_reads st :
    matching st f = NotCalled → frontend_step f st (set_matching f (Appending (sls st)) st)
| match_writes old st :
    matching st f = Appending old →
    frontend_step f st (with_sls (old ++ [MkListener (matchers f) f]) (set_matching f Matched st))
| frontend_accepts i ch st :
    matching st f = Matched → muxListener_Accept (connc st f) = Some (Ok i, ch) →
    frontend_step f st (take_conn i f (dequeue (queue ch) f st))
| frontend_closes i st :
    i ∈ taken st f → frontend_step f st (close_conn i st)
| frontend_closes_root st :
    matching st f = Matched → frontend_step f st (with_root true st).

(** The client of the connection [i]. *)
Inductive client_step (i : nat) : cMux → cMux → Prop :=
| client_sends c chunk st :
    conns st !! i = Some c → ended c = false → chunk ≠ [] →
    client_step i st (with_conns (alter (set_sent (sent c ++ [chunk])) i (conns st)) st)
| client_ends c st :
    conns st !! i = Some c → client_step i st (with_conns (alter set_ended i (conns st)) st).

Inductive step (client : nat → Prop) : cMux → cMux → Prop :=
| step_serve st st' : serve_step st st' → step client st st'
| step_conn i st st' : conn_step i st st' → step client st st'
| step_frontend f st st' : frontend_step f st st' → step client st st'
| step_client i st st' : client i → client_step i st st' → step client st st'.

Definition anyone (i : nat) : Prop := True.
Definition steps : cMux → cMux → Prop := rtc (step anyone).

(** [cmux.New], and the state in which the servers have called [Match] in
    some order before [Serve] is called. *)
Definition New : cMux :=
  MkMux [] (λ _, NotCalled) (λ _, MkChan [] false) (λ _, []) [] Acquiring false 0 false.
Definition ready (order : list frontend) : cMux :=
  with_sls ((λ f, MkListener (matchers f) f) <$> order) (with_matching (λ _, Matched) New).

(** ** Specification *)

(** The connections that are not closed, and the slot that the loop
    holds. *)
Definition open_conns (st : cMux) : list connection :=
  filter (λ c, conn_closed c = false) (conns st).
Definition slot (st : cMux) : nat := if loop st is Accepting true then 1 else 0.

(** A matcher of the server accepts what the client has sent, for good. *)
Definition accepted_by (f : frontend) (c : connection) : bool :=
  existsb (λ m, (ended c || within m (stream c)) && run m (stream c)) (matchers f).

(** A client that waits for nothing, and from which the matchers still wait
    for bytes. *)
Definition silent (c : connection) : bool :=
  negb (ended c) &&
  match routine c with Sniffing seen => negb (sniffed c seen) | _ => false end.

(** Where a connection can be, after its goroutine. *)
Definition places (st : cMux) : list nat :=
  queue (connc st HTTP) ++ taken st HTTP ++ queue (connc st GRPC) ++ taken st GRPC.

(** *** The invariant *)
Definition slots_inv (st : cMux) : Prop :=
  sem st = length (open_conns st) + slot st ∧ sem st ≤ maxConnections ∧
  (loop st = Accepting false → root_closed st = true).

Definition registered (m : frontend → matching_state) (sls : list matchersListener) : Prop :=
  NoDup (l <$> sls) ∧ Forall (λ x, ss x = matchers (l x) ∧ m (l x) = Matched) sls.
Definition listeners_inv (st : cMux) : Prop :=
  registered (matching st) (sls st) ∧
  (∀ f old, matching st f = Appending old → registered (matching st) old) ∧
  (∀ i c seen, conns st !! i = Some c → routine c = Sniffing seen →
    registered (matching st) seen).

Definition finished (st : cMux) : Prop := Forall (λ c, routine c = Finished) (conns st).
Definition still_open (st : cMux) (rest : list matchersListener) : Prop :=
  NoDup (l <$> rest) ∧ ∀ f, f ∈ l <$> rest → chan_closed (connc st f) = false.
Definition loop_inv (st : cMux) : Prop :=
  panicked st = false ∧
  match loop st with
  | Acquiring | Accepting _ | Waiting _ => ∀ f, chan_closed (connc st f) = false
  | Closing rest _ | Draining _ rest _ => finished st ∧ still_open st rest
  | ServeReturned _ => finished st
  end.

Definition placed (ps : list nat) (cs : list connection) : Prop :=
  NoDup ps ∧
  (∀ i, i ∈ ps → ∃ c, cs !! i = Some c ∧ routine c = Finished) ∧
  (∀ i c, cs !! i = Some c →
    (routine c ≠ Finished → conn_closed c = false) ∧
    (routine c = Finished → conn_closed c = false → i ∈ ps)).
Definition queues_inv (st : cMux) : Prop :=
  ∀ f, length (queue (connc st f)) ≤ bufLen ∧
       ∀ i, i ∈ queue (connc st f) → ∃ c, conns st !! i = Some c ∧ conn_closed c = false.
Definition places_inv (st : cMux) : Prop := placed (places st) (conns st) ∧ queues_inv st.

Definition heading (f : frontend) (i : nat) (c : connection) (st : cMux) : Prop :=
  routine c = Offering f ∨ i ∈ queue (connc st f) ∨ i ∈ taken st f.
Definition routed_inv (st : cMux) : Prop :=
  ∀ i c, conns st !! i = Some c →
    Forall (.≠ []) (sent c) ∧
    ∀ f, heading f i c st → accepted_by f c = true.

(** ** Lemmas *)
Lemma length_filter_alter {A} (P : A → Prop) `{∀ x, Decision (P x)} (g : A → A) i (xs : list A) x :
  xs !! i = Some x →
  length (filter P (alter g i xs)) + (if decide (P x) then 1 else 0) =
  length (filter P xs) + (if decide (P (g x)) then 1 else 0).
Proof.
  revert i. induction xs as [|y xs IH]; intros [|i] Hx; [done..| |].
  - injection Hx as ->. cbn [alter list_alter]. rewrite !filter_cons.
    repeat case_decide; cbn [length]; lia.
  - specialize (IH i Hx). change (alter g (S i) (y :: xs)) with (y :: alter g i xs).
    rewrite !filter_cons. revert IH. repeat case_decide; cbn [length]; lia.
Qed.

Lemma lookup_alter_inv {A} (g : A → A) i j (xs : list A) y :
  alter g i xs !! j = Some y → ∃ x, xs !! j = Some x ∧ (j = i ∧ y = g x ∨ j ≠ i ∧ y = x).
Proof.
  rewrite list_lookup_alter. case_decide; [|naive_solver].
  intros (x & Hx & ->)%fmap_Some. subst. eauto.
Qed.

Lemma alter_same {A} (g : A → A) i (xs : list A) : (∀ x, xs !! i = Some x → g x = x) → alter g i xs = xs.
Proof.
  intros Hg. apply list_eq. intros j. rewrite list_lookup_alter. case_decide; [|done]. subst.
  destruct (xs !! j) as [x|] eqn:Hx; [|done]. cbn. by rewrite Hg.
Qed.

(** Closing a connection marks it, and gives its slot back if it was
    open. *)
Lemma close_conn_alter i st :
  ∃ s, close_conn i st = with_sem s (with_conns (alter set_closed i (conns st)) st) ∧
    ∀ k, sem st = length (open_conns st) + k →
      s = length (filter (λ c, conn_closed c = false) (alter set_closed i (conns st))) + k ∧ s ≤ sem st.
Proof.
  unfold close_conn, open_conns. destruct (conns st !! i) as [c|] eqn:Hc;
    [destruct (conn_closed c) eqn:Hcl|].
  2: { eexists. split; [done|]. cbn. intros k Hk.
       pose proof (length_filter_alter (λ c, conn_closed c = false) set_closed i _ c Hc) as Hlen.
       rewrite decide_True, decide_False in Hlen by done. lia. }
  all: assert (alter set_closed i (conns st) = conns st) as ->
    by (apply alter_same; intros [] Hx; rewrite Hc in Hx; simplify_eq; cbn in *; by subst).
  all: exists (sem st); split; [by destruct st|done].
Qed.

(** *** Slots *)
Lemma filter_alter_open g i cs :
  (∀ c, conn_closed (g c) = conn_closed c) →
  length (filter (λ c, conn_closed c = false) (alter g i cs)) =
  length (filter (λ c, conn_closed c = false) cs).
Proof.
  intros Hg. destruct (cs !! i) as [c|] eqn:Hc.
  - pose proof (length_filter_alter (λ c, conn_closed c = false) g i cs c Hc) as Hlen.
    cbn beta in Hlen. rewrite Hg in Hlen. by case_decide; apply Nat.add_cancel_r in Hlen.
  - by rewrite alter_same by congruence.
Qed.

Lemma slots_same st st' :
  slots_inv st → sem st' = sem st → loop st' = loop st →
  length (open_conns st') = length (open_conns st) →
  (root_closed st = true → root_closed st' = true) → slots_inv st'.
Proof. unfold slots_inv, slot. intros Hinv -> -> ->. tauto. Qed.

Lemma slots_goes i r st : slots_inv st → slots_inv (goes i r st).
Proof. intros Hinv. apply (slots_same _ _ Hinv); try done. by apply filter_alter_open. Qed.

Lemma slots_close i st : slots_inv st → slots_inv (close_conn i st).
Proof.
  intros (Hsem & Hmax & Hroot). destruct (close_conn_alter i st) as (s & -> & Hs).
  destruct (Hs _ Hsem) as [-> Hle]. unfold slots_inv, open_conns. split_and!; [done|cbn; lia|done].
Qed.

Lemma not_matched_goes i st : not_matched i st = goes i Finished (close_conn i st).
Proof. done. Qed.

Lemma serve_step_slots st st' : serve_step st st' → slots_inv st → slots_inv st'.
Proof.
  intros Hstep Hinv. pose proof Hinv as (Hsem & Hmax & Hroot). unfold slot in Hsem.
  destruct Hstep as [st Hl Hs|st Hl Hr|a st Hl Hr|a err st Hl|err st Hl Hf|sl rest err st Hl
    |f rest err i q st Hl Hq|f rest err st Hl Hq|err st Hl]; rewrite Hl in Hsem.
  - unfold slots_inv, open_conns, slot in *. cbn. split_and!; [lia|lia|done].
  - unfold slots_inv, open_conns, slot in *. cbn. split_and!; [lia|lia|done].
  - destruct a; [|specialize (Hroot Hl); congruence].
    unfold slots_inv, open_conns, slot in *. cbn. rewrite filter_app, length_app.
    change (length (filter _ [newConnection])) with 1.
    split_and!; [lia|lia|done].
  - unfold slots_inv, open_conns, slot, accept_failed in *.
    destruct a, (negb (handleErr err)); cbn in *; split_and!; try done; lia.
  - unfold slots_inv, open_conns, slot in *. cbn. split_and!; [lia|lia|done].
  - destruct (chan_closed _); unfold slots_inv, open_conns, slot in *; cbn.
    + rewrite Hl. split_and!; [lia|lia|done].
    + split_and!; [lia|lia|done].
  - by apply slots_close.
  - unfold slots_inv, open_conns, slot in *. cbn. split_and!; [lia|lia|done].
  - unfold slots_inv, open_conns, slot in *. cbn. split_and!; [lia|lia|done].
Qed.

Lemma step_slots allowed st st' : step allowed st st' → slots_inv st → slots_inv st'.
Proof.
  intros Hstep Hinv. destruct Hstep as [st1 st2 Hs|i st1 st2 Hs|f st1 st2 Hs|i st1 st2 _ Hs].
  - by eapply serve_step_slots.
  - destruct Hs; rewrite ?not_matched_goes; auto using slots_goes, slots_close;
      try apply slots_goes; by apply (slots_same _ _ Hinv).
  - destruct Hs; auto using slots_close; by apply (slots_same _ _ Hinv).
  - destruct Hs; apply (slots_same _ _ Hinv); try done; by apply filter_alter_open.
Qed.

(** *** Lists of listeners *)
Lemma registered_mono m m' s :
  (∀ f, m f = Matched → m' f = Matched) → registered m s → registered m' s.
Proof.
  intros Hm [Hnd Hall]. split; [done|]. apply (Forall_impl _ _ _ Hall). naive_solver.
Qed.

Lemma registered_snoc m s f :
  registered m s → m f ≠ Matched → registered (<[f := Matched]> m) (s ++ [MkListener (matchers f) f]).
Proof.
  intros [Hnd Hall] Hf. split.
  - rewrite fmap_app. apply NoDup_app. split_and!; [done| |cbn; apply NoDup_singleton].
    intros g (x & -> & Hx)%list_elem_of_fmap Hg. cbn in Hg. apply list_elem_of_singleton in Hg.
    rewrite Forall_forall in Hall. destruct (Hall x Hx) as [_ Hm]. congruence.
  - apply Forall_app. split.
    + apply (Forall_impl _ _ _ Hall). intros x [Hss Hm]. split; [done|].
      destruct (decide (f = l x)) as [->|Hne]; [by rewrite fn_lookup_insert|].
      by rewrite fn_lookup_insert_ne.
    + apply Forall_singleton. cbn. by rewrite fn_lookup_insert.
Qed.

Lemma listeners_conns cs st st' :
  listeners_inv st → sls st' = sls st → matching st' = matching st → conns st' = cs →
  (∀ i c seen, cs !! i = Some c → routine c = Sniffing seen →
    registered (matching st) seen) →
  listeners_inv st'.
Proof. unfold listeners_inv. intros (Hs & Ho & _) -> -> -> Hcs. by split_and!. Qed.

Lemma listeners_alter g i st st' :
  listeners_inv st → sls st' = sls st → matching st' = matching st → conns st' = alter g i (conns st) →
  (∀ c seen, conns st !! i = Some c → routine (g c) = Sniffing seen →
    routine c = Sniffing seen ∨ registered (matching st) seen) →
  listeners_inv st'.
Proof.
  intros Hinv Hs Hm Hc Hg. apply (listeners_conns _ _ _ Hinv Hs Hm Hc).
  intros j c seen (c0 & Hc0 & [[-> ->]|[_ ->]])%lookup_alter_inv Hseen.
  - destruct (Hg c0 seen Hc0 Hseen) as [Hr|Hr]; [|done]. by eapply Hinv.
  - by eapply Hinv.
Qed.

Lemma listeners_close i st : listeners_inv st → listeners_inv (close_conn i st).
Proof.
  intros Hinv. destruct (close_conn_alter i st) as (s & -> & _).
  apply (listeners_alter set_closed i _ _ Hinv); try done. by left.
Qed.

Lemma listeners_goes i r st :
  (∀ seen, r = Sniffing seen → registered (matching st) seen) →
  listeners_inv st → listeners_inv (goes i r st).
Proof.
  intros Hr Hinv. apply (listeners_alter (set_routine r) i _ _ Hinv); try done.
  intros c seen _ Hs. right. by apply Hr.
Qed.

Lemma serve_step_listeners st st' : serve_step st st' → listeners_inv st → listeners_inv st'.
Proof.
  intros Hstep Hinv. destruct Hstep; try exact Hinv.
  - apply (listeners_conns (conns st ++ [newConnection]) _ _ Hinv); [done..|].
    intros i c seen Hc Hseen. apply lookup_app_Some in Hc as [Hc|[_ Hc]]; [by eapply Hinv|].
    destruct (i - _) as [|k]; [|by destruct k]. by injection Hc as <-.
  - unfold accept_failed. by destruct acquired.
  - by destruct (chan_closed _).
  - by apply listeners_close.
Qed.

Lemma matching_listeners f m st st' :
  listeners_inv st → sls st' = sls st → matching st' = <[f := m]> (matching st) → conns st' = conns st →
  matching st f ≠ Matched → (∀ old, m = Appending old → registered (matching st) old) →
  listeners_inv st'.
Proof.
  unfold listeners_inv. intros (Hs & Ho & Hc) -> -> -> Hf Hm.
  assert (∀ s, registered (matching st) s → registered (<[f := m]> (matching st)) s) as Hmono.
  { intros s. apply registered_mono. intros g Hg. by rewrite fn_lookup_insert_ne by congruence. }
  split_and!; [auto| |eauto].
  intros g old. destruct (decide (f = g)) as [->|Hne].
  - rewrite fn_lookup_insert. auto.
  - rewrite fn_lookup_insert_ne by done. eauto.
Qed.

Lemma step_listeners allowed st st' : step allowed st st' → listeners_inv st → listeners_inv st'.
Proof.
  intros Hstep Hinv. destruct Hstep as [st1 st2 Hs|i st1 st2 Hs|f st1 st2 Hs|i st1 st2 _ Hs].
  - by eapply serve_step_listeners.
  - destruct Hs; rewrite ?not_matched_goes; try exact Hinv; apply listeners_goes; try done;
      auto using listeners_close. intros seen [= <-]. apply Hinv.
  - destruct Hs as [st Hm|old st Hm|j ch st Hm Ha|j st Hj|st Hm]; try exact Hinv.
    + apply (matching_listeners f (Appending (sls st)) st); [done..|congruence|].
      intros old [= <-]. apply Hinv.
    + destruct (matching_listeners f Matched st (set_matching f Matched st) Hinv) as (_ & Ho & Hc);
        [done..|congruence|done|].
      split_and!; [|exact Ho|exact Hc]. apply registered_snoc; [|congruence]. destruct Hinv as (_ & Hold & _). by apply (Hold f).
    + by apply listeners_close.
  - destruct Hs; (eapply listeners_alter; [exact Hinv|done..|]); by left.
Qed.

(** *** The loop, and why nothing panics *)
Lemma finished_routine st i c : finished st → conns st !! i = Some c → routine c = Finished.
Proof. intros Hf Hc. by apply (Forall_lookup_1 _ _ _ _ Hf Hc). Qed.

Lemma loop_same st st' :
  loop_inv st → panicked st' = panicked st → loop st' = loop st →
  (∀ f, chan_closed (connc st' f) = chan_closed (connc st f)) →
  (finished st → finished st') → loop_inv st'.
Proof.
  unfold loop_inv, still_open. intros [Hp Hinv] -> -> Hc Hf. split; [done|].
  destruct (loop st); try (by intros f; rewrite Hc); [..|by apply Hf].
  all: destruct Hinv as (Hfin & Hnd & Hopen); split_and!; auto; intros f; rewrite Hc; apply Hopen.
Qed.

Lemma finished_alter g i st cs :
  cs = alter g i (conns st) → (∀ c, routine c = Finished → routine (g c) = Finished) →
  finished st → Forall (λ c, routine c = Finished) cs.
Proof. intros -> Hg Hf. apply Forall_alter; auto. Qed.

Lemma loop_close i st : loop_inv st → loop_inv (close_conn i st).
Proof.
  intros Hinv. destruct (close_conn_alter i st) as (s & -> & _).
  apply (loop_same _ _ Hinv); try done. by eapply finished_alter.
Qed.

Lemma loop_goes i r st :
  loop_inv st → r = Finished ∨ (∃ c, conns st !! i = Some c ∧ routine c ≠ Finished) →
  loop_inv (goes i r st).
Proof.
  intros Hinv Hr. apply (loop_same _ _ Hinv); try done. intros Hf.
  destruct Hr as [->|(c & Hc & Hne)]; [by eapply finished_alter|].
  by apply (finished_routine st i) in Hc.
Qed.

Lemma chan_closed_enqueue i f st g : chan_closed (connc (enqueue i f st) g) = chan_closed (connc st g).
Proof.
  cbn. destruct (decide (f = g)) as [->|Hne]; [by rewrite fn_lookup_insert|].
  by rewrite fn_lookup_insert_ne.
Qed.
Lemma chan_closed_dequeue q f st g : chan_closed (connc (dequeue q f st) g) = chan_closed (connc st g).
Proof.
  cbn. destruct (decide (f = g)) as [->|Hne]; [by rewrite fn_lookup_insert|].
  by rewrite fn_lookup_insert_ne.
Qed.

Lemma serve_step_loop st st' :
  serve_step st st' → listeners_inv st → loop_inv st → loop_inv st'.
Proof.
  intros Hstep Hlist [Hp Hinv].
  destruct Hstep as [st Hl Hs|st Hl Hr|a st Hl Hr|a err st Hl|err st Hl Hf|sl rest err st Hl
    |f rest err i q st Hl Hq|f rest err st Hl Hq|err st Hl]; rewrite Hl in Hinv; try done.
  - split; [by destruct a|]. unfold accept_failed. cbn [loop with_loop].
    by destruct (negb _), a.
  - split; [done|]. cbn. split; [done|]. split; [apply Hlist|]. intros f _. apply Hinv.
  - destruct Hinv as (Hf & Hnd & Hopen). cbn in Hnd. apply NoDup_cons in Hnd as [Hnin Hnd].
    rewrite Hopen by (cbn; left). split; [done|]. cbn. split; [done|]. split; [done|].
    intros g Hg. cbn. rewrite fn_lookup_insert_ne by congruence. apply Hopen. cbn. by right.
  - apply loop_close. apply (loop_same st); try done; [split; [done|by rewrite Hl]|].
    intros g. apply chan_closed_dequeue.
  - split; [done|]. apply Hinv.
Qed.

Lemma step_loop allowed st st' :
  step allowed st st' → listeners_inv st → loop_inv st → loop_inv st'.
Proof.
  intros Hstep Hlist Hinv. destruct Hstep as [st1 st2 Hs|i st1 st2 Hs|f st1 st2 Hs|i st1 st2 _ Hs].
  - by eapply serve_step_loop.
  - destruct Hs as [c st Hc Hr|c seen f st Hc Hr _ _|c seen st Hc Hr _ _|c f st Hc Hr Ho _
      |c f st Hc Hr Ho|c f st Hc Hr _]; rewrite ?not_matched_goes;
      try (apply loop_goes; [|by (left + (right; exists c; split; [done|congruence]))]);
      try exact Hinv; try by apply loop_close.
    + apply (loop_same _ _ Hinv); try done. intros g. apply chan_closed_enqueue.
    + destruct Hinv as [Hp Hinv]. exfalso. destruct (loop st); try congruence.
      all: assert (routine c = Finished) by (eapply finished_routine; [apply Hinv|done]); congruence.
  - destruct Hs as [st Hm|old st Hm|j ch st Hm Ha|j st Hj|st Hm]; try exact Hinv.
    + apply (loop_same _ _ Hinv); try done. intros g. apply (chan_closed_dequeue (queue ch) f st g).
    + by apply loop_close.
  - destruct Hs; apply (loop_same _ _ Hinv); try done; by eapply finished_alter.
Qed.

(** *** Places *)
Lemma queue_places f i st : i ∈ queue (connc st f) → i ∈ places st.
Proof. unfold places. destruct f; set_solver. Qed.
Lemma taken_places f i st : i ∈ taken st f → i ∈ places st.
Proof. unfold places. destruct f; set_solver. Qed.
Lemma taken_not_queued f g i st : NoDup (places st) → i ∈ taken st f → i ∉ queue (connc st g).
Proof.
  unfold places. rewrite !NoDup_app. intros (_ & H1 & _ & H2 & _ & H3 & _) Hi Hq.
  destruct f, g; set_solver.
Qed.

Lemma enqueue_places i f st : places (enqueue i f st) ≡ₚ i :: places st.
Proof. unfold places. destruct f; cbn; solve_Permutation. Qed.
Lemma dequeue_places i q f st :
  queue (connc st f) = i :: q → places st ≡ₚ i :: places (dequeue q f st).
Proof. unfold places. intros Hq. destruct f; cbn; rewrite Hq; solve_Permutation. Qed.
Lemma take_places i q f st :
  queue (connc st f) = i :: q → places (take_conn i f (dequeue q f st)) ≡ₚ places st.
Proof. unfold places. intros Hq. destruct f; cbn; rewrite Hq; solve_Permutation. Qed.

Lemma placed_perm ps ps' cs : ps ≡ₚ ps' → placed ps cs → placed ps' cs.
Proof. unfold placed. intros Hp. by setoid_rewrite Hp. Qed.

(** One connection changes, or its place. *)
Lemma placed_alter g i c ps ps' cs :
  placed ps cs → cs !! i = Some c → NoDup ps' → (∀ j, j ≠ i → (j ∈ ps' ↔ j ∈ ps)) →
  (i ∈ ps' → routine (g c) = Finished) →
  (routine (g c) ≠ Finished → conn_closed (g c) = false) →
  (routine (g c) = Finished → conn_closed (g c) = false → i ∈ ps') →
  placed ps' (alter g i cs).
Proof.
  intros (_ & Hps & Hcs) Hc Hnd Hiff Hin Hopen Hplace. split_and!; [done| |].
  - intros j Hj. destruct (decide (j = i)) as [->|Hne].
    + exists (g c). rewrite list_lookup_alter_eq, Hc. auto.
    + rewrite list_lookup_alter_ne by done. apply Hps. by apply Hiff.
  - intros j c' (c0 & Hc0 & [[-> ->]|[Hne ->]])%lookup_alter_inv.
    + rewrite Hc in Hc0. injection Hc0 as <-. auto.
    + rewrite Hiff by done. by apply Hcs.
Qed.

Lemma placed_new ps cs : placed ps cs → placed ps (cs ++ [newConnection]).
Proof.
  intros (Hnd & Hps & Hcs). split_and!; [done| |].
  - intros i Hi. destruct (Hps i Hi) as (c & Hc & Hr). exists c. split; [|done].
    by apply lookup_app_l_Some.
  - intros i c [Hc|[_ Hc]]%lookup_app_Some; [by apply Hcs|].
    destruct (i - _) as [|k]; [|by destruct k]. by injection Hc as <-.
Qed.

Lemma unplaced i c st :
  places_inv st → conns st !! i = Some c → routine c ≠ Finished → i ∉ places st.
Proof.
  intros [(_ & Hps & _) _] Hc Hr Hi. destruct (Hps i Hi) as (c' & Hc' & Hr'). congruence.
Qed.

(** The queues do not grow, and what is closed is in none of them. *)
Lemma queues_alter g i st st' :
  queues_inv st → conns st' = alter g i (conns st) →
  (∀ f, length (queue (connc st' f)) ≤ bufLen) →
  (∀ f j, j ∈ queue (connc st' f) → j ∈ queue (connc st f) ∨
     j = i ∧ ∃ c, conns st !! i = Some c ∧ conn_closed c = false) →
  (∀ f c, conns st !! i = Some c → i ∈ queue (connc st' f) →
     conn_closed c = false → conn_closed (g c) = false) →
  queues_inv st'.
Proof.
  unfold queues_inv. intros Hq -> Hlen Hsub Hg f. split; [apply Hlen|]. intros j Hj.
  assert (∃ c, conns st !! j = Some c ∧ conn_closed c = false) as (c & Hc & Ho).
  { destruct (Hsub f j Hj) as [Hjq|[-> Hc]]; [by apply (Hq f)|done]. }
  rewrite list_lookup_alter. case_decide as Hji; [|by exists c]. subst j.
  exists (g c). rewrite Hc. split; [done|]. by eapply Hg.
Qed.

Lemma places_same st st' :
  places_inv st → places st' ≡ₚ places st → conns st' = conns st →
  (∀ f, length (queue (connc st' f)) ≤ bufLen) →
  (∀ f j, j ∈ queue (connc st' f) → j ∈ queue (connc st f)) →
  places_inv st'.
Proof.
  intros [Hp Hq] Hps Hc Hlen Hsub. split.
  - rewrite Hc. by eapply placed_perm.
  - intros f. split; [apply Hlen|]. intros j Hj. rewrite Hc. by apply (Hq f), Hsub.
Qed.

(** A change of a connection that keeps where it is. *)
Lemma places_alter g i st st' :
  places_inv st → connc st' = connc st → taken st' = taken st → conns st' = alter g i (conns st) →
  (∀ c, conns st !! i = Some c →
     (routine (g c) = Finished ↔ routine c = Finished) ∧ conn_closed (g c) = conn_closed c) →
  places_inv st'.
Proof.
  intros [Hp Hq] Hcc Ht Hc Hg. assert (places st' = places st) as Hps.
  { unfold places. by rewrite Hcc, Ht. }
  destruct (conns st !! i) as [c|] eqn:Hci.
  - destruct (Hg c eq_refl) as [Hr Hcl]. split.
    + rewrite Hps, Hc. pose proof Hp as (Hnd & Hin & Hall). destruct (Hall i c Hci) as [H1 H2].
      apply (placed_alter g i c (places st)); try done; rewrite ?Hcl, ?Hr; auto.
      intros Hi. destruct (Hin i Hi) as (c' & Hc' & Hr'). congruence.
    + eapply (queues_alter g i); [exact Hq|exact Hc|rewrite Hcc; apply Hq|rewrite Hcc; by left|].
      intros f c' Hc' _ Ho. rewrite Hci in Hc'. injection Hc' as <-. by rewrite Hcl.
  - rewrite alter_same in Hc by congruence. apply (places_same st); try done.
    + by rewrite Hps.
    + rewrite Hcc. apply Hq.
    + by rewrite Hcc.
Qed.

Lemma length_queue_insert f q b ch g :
  length q ≤ bufLen → (∀ g, length (queue (ch g)) ≤ bufLen) →
  length (queue ((<[f := MkChan q b]> ch : frontend → channel) g)) ≤ bufLen.
Proof.
  intros Hq Hch. destruct (decide (f = g)) as [->|Hne]; [by rewrite fn_lookup_insert|].
  by rewrite fn_lookup_insert_ne.
Qed.

Lemma elem_queue_insert f q b (ch : frontend → channel) g j :
  j ∈ queue ((<[f := MkChan q b]> ch) g) → j ∈ queue (ch g) ∨ (g = f ∧ j ∈ q).
Proof.
  destruct (decide (f = g)) as [->|Hne]; [rewrite fn_lookup_insert; auto|].
  rewrite fn_lookup_insert_ne by done. auto.
Qed.

(** Closing a connection that is in no queue, and whose goroutine is, or is
    about to be, at its end. *)
Lemma places_closed (finish : bool) i c st :
  places_inv st → conns st !! i = Some c →
  (if finish then routine c ≠ Finished else routine c = Finished) →
  (∀ f, i ∉ queue (connc st f)) →
  places_inv (let st := close_conn i st in if finish then goes i Finished st else st).
Proof.
  intros [Hp Hq] Hc Hr Hnq. destruct (close_conn_alter i st) as (s & -> & _).
  pose (g := if finish then set_routine Finished ∘ set_closed else set_closed).
  assert (∃ st', (let st := with_sem s (with_conns (alter set_closed i (conns st)) st) in
      if finish then goes i Finished st else st) = st' ∧
    conns st' = alter g i (conns st) ∧ connc st' = connc st ∧ taken st' = taken st)
    as (st' & -> & Hc' & Hcc & Ht).
  { eexists. split; [done|]. subst g. destruct finish; cbn; [|done].
    split; [|done]. by rewrite list_alter_alter_eq. }
  assert (routine (g c) = Finished) as Hgr by (subst g; by destruct finish).
  assert (conn_closed (g c) = true) as Hgc by (subst g; by destruct finish).
  split.
  - unfold places. rewrite Hc', Hcc, Ht. fold (places st).
    eapply placed_alter; [exact Hp|exact Hc|apply Hp|done|done|congruence|congruence].
  - eapply (queues_alter g i); [exact Hq|exact Hc'|rewrite Hcc; apply Hq|rewrite Hcc; by left|].
    intros f c' _ Hi. rewrite Hcc in Hi. by apply Hnq in Hi.
Qed.

Lemma serve_step_places st st' : serve_step st st' → places_inv st → places_inv st'.
Proof.
  intros Hstep Hinv. pose proof Hinv as [Hp Hq].
  destruct Hstep as [st Hl Hs|st Hl Hr|a st Hl Hr|a err st Hl|err st Hl Hf|sl rest err st Hl
    |f rest err i q st Hl Hqu|f rest err st Hl Hqu|err st Hl]; try exact Hinv.
  - split; [by apply placed_new|]. intros f. split; [apply Hq|]. intros i Hi.
    destruct (Hq f) as [_ Hopen]. destruct (Hopen i Hi) as (c & Hc & Ho). exists c.
    split; [by apply lookup_app_l_Some|done].
  - unfold accept_failed. by destruct a.
  - destruct (chan_closed _); [exact Hinv|]. apply (places_same st); try done.
    + unfold places. destruct sl as [s []]; done.
    + intros g. apply length_queue_insert; intros; apply Hq.
    + intros g j [Hj|[-> Hj]]%elem_queue_insert; done.
  - pose proof (dequeue_places i q f st Hqu) as Hpop.
    pose proof Hp as (Hnd & Hps & Hcs). rewrite Hpop in Hnd. apply NoDup_cons in Hnd as [Hnin Hnd].
    destruct (Hps i) as (c & Hc & Hr); [rewrite Hpop; left|].
    destruct (close_conn_alter i (dequeue q f st)) as (s & -> & _).
    assert (∀ g j, j ∈ queue (connc (dequeue q f st) g) → j ∈ queue (connc st g)) as Hsub.
    { intros g j [Hj|[-> Hj]]%elem_queue_insert; [done|]. rewrite Hqu. by right. }
    split.
    + eapply (placed_alter set_closed i c (places st)); [done..| |done|done|done].
      intros j Hj. rewrite Hpop, elem_of_cons. split; [by right|by intros [->|?]].
    + eapply (queues_alter set_closed i); [exact Hq|done|..].
      * intros g. apply length_queue_insert; [|intros; apply Hq].
        destruct (Hq f) as [Hlen _]. rewrite Hqu in Hlen. cbn in Hlen. lia.
      * intros g j Hj. left. by apply Hsub.
      * intros g c' _ Hi. exfalso. apply Hnin. by apply (queue_places g).
Qed.

Lemma step_places allowed st st' :
  step allowed st st' → places_inv st → places_inv st'.
Proof.
  intros Hstep Hinv. destruct Hstep as [st1 st2 Hs|i st1 st2 Hs|f st1 st2 Hs|i st1 st2 _ Hs].
  - by eapply serve_step_places.
  - assert (∀ c, conns st1 !! i = Some c → routine c ≠ Finished →
      i ∉ places st1 ∧ ∀ f, i ∉ queue (connc st1 f)) as Hfresh.
    { intros c Hc Hr. pose proof (unplaced i c st1 Hinv Hc Hr) as Hn. split; [done|].
      intros f Hf. by apply queue_places in Hf. }
    destruct Hs as [c st Hc Hr|c seen f st Hc Hr _ _|c seen st Hc Hr _ _|c f st Hc Hr Ho Hlen
      |c f st Hc Hr Ho|c f st Hc Hr _]; rewrite ?not_matched_goes; try exact Hinv.
    1,2: eapply (places_alter (set_routine _) i); [exact Hinv|done..|].
    1,2: intros c' Hc'; rewrite Hc in Hc'; injection Hc' as <-; cbn; split; [|done].
    1,2: split; congruence.
    1,3: apply (places_closed true i c); try done; [congruence|]; apply (Hfresh c); congruence.
    destruct (Hfresh c) as [Hnp Hnq]; [done|congruence|]. destruct Hinv as [Hp Hq]. split.
    + apply (placed_perm (i :: places st)); [symmetry; apply enqueue_places|].
      eapply (placed_alter (set_routine Finished) i c (places st)); try done.
      * apply NoDup_cons. split; [done|apply Hp].
      * intros j Hj. rewrite elem_of_cons. split; [by intros [->|?]|by right].
      * intros _ _. left.
    + eapply (queues_alter (set_routine Finished) i); [exact Hq|done| | |done].
      * intros g. apply length_queue_insert; [rewrite length_app; cbn; lia|intros; apply Hq].
      * intros g j [Hj|[-> Hj]]%elem_queue_insert; [by left|].
        apply elem_of_app in Hj as [Hj| ->%list_elem_of_singleton]; [by left|]. right. split; [done|].
        exists c. split; [done|]. destruct Hp as (_ & _ & Hcs). apply (Hcs i c Hc). congruence.
  - destruct Hs as [st Hm|old st Hm|j ch st Hm Ha|j st Hj|st Hm]; try exact Hinv.
    + unfold muxListener_Accept in Ha. destruct (queue (connc st f)) as [|j' q] eqn:Hqu;
        [by destruct (chan_closed _)|]. injection Ha as <- <-. cbn [queue].
      apply (places_same st); try done.
      * by apply take_places.
      * intros g. destruct Hinv as [_ Hq]. apply length_queue_insert; [|intros; apply Hq].
        destruct (Hq f) as [Hlen _]. rewrite Hqu in Hlen. cbn in Hlen. lia.
      * intros g k [Hk|[-> Hk]]%elem_queue_insert; [done|]. rewrite Hqu. by right.
    + pose proof Hinv as [(Hnd & Hps & _) _].
      destruct (Hps j) as (c & Hc & Hr); [by eapply taken_places|].
      apply (places_closed false j c); try done. intros g. by eapply taken_not_queued.
  - destruct Hs; (eapply places_alter; [exact Hinv|done..|]); done.
Qed.

(** *** Routes *)

(** What a matcher answered without the end of the stream it answers on
    every longer one. *)
Lemma within_app {A} (m : Reader A) s t :
  within m s = true → within m (s ++ t) = true ∧ run m (s ++ t) = run m s.
Proof.
  revert s. induction m as [a|n k IH]; intros s Hw; [done|]. cbn in Hw.
  apply andb_true_iff in Hw as [Hn%bool_decide_eq_true Hw]. unfold run in *. cbn.
  rewrite length_app, !bool_decide_true by lia. cbn.
  rewrite take_app_le, drop_app_le by lia. by apply IH.
Qed.

Lemma accepted_sent f c chunk :
  accepted_by f c = true → ended c = false → accepted_by f (set_sent (sent c ++ [chunk]) c) = true.
Proof.
  unfold accepted_by, stream. cbn. intros Hex He. rewrite He in *. rewrite concat_app.
  apply existsb_exists in Hex as (m & Hm & Hacc). apply existsb_exists. exists m. split; [done|].
  apply andb_true_iff in Hacc as [Hw Hr]. cbn in Hw.
  destruct (within_app m _ (concat [chunk]) Hw) as [-> ->]. done.
Qed.

Lemma accepted_ended f c : accepted_by f c = true → accepted_by f (set_ended c) = true.
Proof.
  unfold accepted_by, stream. cbn. intros Hex.
  apply existsb_exists in Hex as (m & Hm & Hacc). apply existsb_exists. exists m. split; [done|].
  by apply andb_true_iff in Hacc as [_ Hr].
Qed.

Lemma answered_app ms ms' s :
  answered (ms ++ ms') s = answered ms s && (existsb (λ m, run m s) ms || answered ms' s).
Proof.
  induction ms as [|m ms IH]; [done|]. cbn. rewrite IH.
  destruct (within m s), (run m s); cbn; rewrite ?andb_true_r; done.
Qed.

Lemma answered_accepts ms s :
  answered ms s = true → existsb (λ m, run m s) ms = true →
  existsb (λ m, within m s && run m s) ms = true.
Proof.
  induction ms as [|m ms IH]; [done|]. cbn. intros [-> Ha]%andb_true_iff Hex.
  destruct (run m s); [done|]. cbn in *. auto.
Qed.

(** The first listener with a matcher that accepts. *)
Lemma matched_listener_find seen c :
  Forall (.≠ []) (sent c) →
  matched_listener seen c =
  (λ p, l p.2) <$> list_find (λ x, existsb (λ m, run m (stream c)) (ss x) = true) seen.
Proof.
  intros Hne. unfold matched_listener.
  destruct (serve_total (ss <$> seen) (sent c) Hne) as (mc & -> & _). cbn.
  unfold dispatch_spec. rewrite list_find_fmap. unfold compose.
  destruct (list_find _ seen) as [[i sl]|] eqn:Hfind; [|done]. cbn.
  apply list_find_Some in Hfind as (Hsl & _). by rewrite Hsl.
Qed.

Lemma matched_listener_spec seen c f :
  Forall (.≠ []) (sent c) → matched_listener seen c = Some f →
  ∃ i sl, list_find (λ x, existsb (λ m, run m (stream c)) (ss x) = true) seen = Some (i, sl) ∧ l sl = f.
Proof.
  intros Hne. rewrite matched_listener_find by done.
  intros ([i sl] & Hfind & ->)%fmap_Some. by exists i, sl.
Qed.

Lemma accepted_all_ended f c sl :
  ss sl = matchers f → ended c = true → existsb (λ m, run m (stream c)) (ss sl) = true →
  accepted_by f c = true.
Proof. unfold accepted_by. intros -> -> Hex. by cbn. Qed.

Lemma answered_find seen s i sl :
  answered (mjoin (ss <$> seen)) s = true →
  list_find (λ x, existsb (λ m, run m s) (ss x) = true) seen = Some (i, sl) →
  existsb (λ m, within m s && run m s) (ss sl) = true.
Proof.
  revert i. induction seen as [|x seen IH]; intros i; [done|]. cbn [fmap list_fmap mjoin list_join list_find].
  rewrite answered_app. intros [Ha Hr]%andb_true_iff. case_decide as Hx.
  - intros [= <- <-]. by apply answered_accepts.
  - apply not_true_is_false in Hx. rewrite Hx in Hr. cbn in Hr.
    intros Hf. destruct (list_find _ seen) as [[j y]|] eqn:Hj; [|done]. injection Hf as <- <-.
    by apply (IH j).
Qed.

Lemma matched_accepted seen c f :
  Forall (.≠ []) (sent c) → Forall (λ x, ss x = matchers (l x)) seen →
  sniffed c seen = true → matched_listener seen c = Some f → accepted_by f c = true.
Proof.
  intros Hne Hss Hsn (i & sl & Hfind & <-)%matched_listener_spec; [|done].
  apply list_find_Some in Hfind as Hsl. destruct Hsl as (Hsl & Hex & _).
  rewrite Forall_lookup in Hss. specialize (Hss _ _ Hsl).
  unfold sniffed in Hsn. destruct (ended c) eqn:He; [by eapply accepted_all_ended|].
  cbn in Hsn. pose proof (answered_find _ _ _ _ Hsn Hfind) as Hacc.
  unfold accepted_by. by rewrite He, <-Hss.
Qed.

Lemma routed_alter g i st st' :
  routed_inv st → conns st' = alter g i (conns st) →
  (∀ c, conns st !! i = Some c → Forall (.≠ []) (sent (g c)) ∧
     ∀ f, accepted_by f c = true → accepted_by f (g c) = true) →
  (∀ f j c', conns st' !! j = Some c' → heading f j c' st' →
     ∃ c, conns st !! j = Some c ∧ (heading f j c st ∨ accepted_by f c = true)) →
  routed_inv st'.
Proof.
  intros Hinv Hc Hg Hhead j c' Hc'. pose proof Hc' as Hc0. rewrite Hc in Hc0.
  apply lookup_alter_inv in Hc0 as (c & Hcj & Hcase).
  destruct (Hinv j c Hcj) as [Hne Hacc]. split.
  - destruct Hcase as [[-> ->]|[_ ->]]; [|done]. by apply Hg.
  - intros f Hh. destruct (Hhead f j c' Hc' Hh) as (c0 & Hc0 & Hor).
    rewrite Hcj in Hc0. injection Hc0 as <-.
    assert (accepted_by f c = true) as Ha by (destruct Hor; auto).
    destruct Hcase as [[-> ->]|[_ ->]]; [|done]. by apply Hg.
Qed.

Definition somewhere (f : frontend) (j : nat) (st : cMux) : Prop :=
  j ∈ queue (connc st f) ∨ j ∈ taken st f.

(** A change that sends no connection anywhere. *)
Lemma routed_keeps g i st st' :
  routed_inv st → conns st' = alter g i (conns st) →
  (∀ c, conns st !! i = Some c → Forall (.≠ []) (sent (g c)) ∧
     ∀ f, accepted_by f c = true → accepted_by f (g c) = true) →
  (∀ c f, routine (g c) = Offering f → routine c = Offering f) →
  (∀ f j, somewhere f j st' → somewhere f j st) →
  routed_inv st'.
Proof.
  intros Hinv Hc Hg Hr Hs. eapply routed_alter; [exact Hinv|exact Hc|exact Hg|].
  intros f j c' Hc' Hh. rewrite Hc in Hc'. apply lookup_alter_inv in Hc' as (c & Hcj & Hcase).
  exists c. split; [done|]. left. unfold heading in *. destruct Hh as [Ho|Hpl].
  - left. destruct Hcase as [[_ ->]|[_ ->]]; [by apply Hr|done].
  - right. by apply Hs.
Qed.

Lemma routed_same st st' :
  routed_inv st → conns st' = conns st → (∀ f j, somewhere f j st' → somewhere f j st) →
  routed_inv st'.
Proof.
  intros Hinv Hc Hs. apply (routed_keeps (λ c, c) 0 st); try done.
  - rewrite Hc. symmetry. by apply alter_same.
  - intros c Hc0. split; [by eapply Hinv|done].
Qed.

(** What a change of the routine or of the mark keeps. *)
Lemma routed_state g st i c :
  routed_inv st → conns st !! i = Some c → sent (g c) = sent c → ended (g c) = ended c →
  Forall (.≠ []) (sent (g c)) ∧ ∀ f, accepted_by f c = true → accepted_by f (g c) = true.
Proof.
  intros Hinv Hc Hs He. destruct (Hinv i c Hc) as [Hne _]. unfold accepted_by, stream.
  by rewrite Hs, He.
Qed.

Lemma routed_close i st : routed_inv st → routed_inv (close_conn i st).
Proof.
  intros Hinv. destruct (close_conn_alter i st) as (s & -> & _).
  apply (routed_keeps set_closed i st); try done. intros c Hc. by eapply routed_state.
Qed.

Lemma routed_goes i r st :
  routed_inv st → (∀ f, r ≠ Offering f) → routed_inv (goes i r st).
Proof.
  intros Hinv Hr. apply (routed_keeps (set_routine r) i st); try done.
  - intros c Hc. by eapply routed_state.
  - intros c f Ho. by apply Hr in Ho.
Qed.

Lemma somewhere_dequeue i q f st g j :
  queue (connc st f) = i :: q → somewhere g j (dequeue q f st) → somewhere g j st.
Proof.
  intros Hq [[Hj|[-> Hj]]%elem_queue_insert|Hj]; [by left| |by right]. left. rewrite Hq. by right.
Qed.

Lemma serve_step_routed st st' :
  serve_step st st' → places_inv st → routed_inv st → routed_inv st'.
Proof.
  intros Hstep [(_ & Hps & _) _] Hinv.
  destruct Hstep as [st Hl Hs|st Hl Hr|a st Hl Hr|a err st Hl|err st Hl Hf|sl rest err st Hl
    |f rest err i q st Hl Hqu|f rest err st Hl Hqu|err st Hl]; try exact Hinv.
  - intros i c [Hc|[Hle Hc]]%lookup_app_Some; [by apply Hinv|].
    destruct (i - length (conns st)) as [|k] eqn:Hi; [|by destruct k]. injection Hc as <-.
    split; [constructor|]. intros f [Ho|Hpl]; [done|]. exfalso.
    destruct (Hps i) as (c & Hc & _).
    { destruct Hpl; [by eapply queue_places|by eapply taken_places]. }
    apply lookup_lt_Some in Hc. lia.
  - unfold accept_failed. by destruct a.
  - destruct (chan_closed _); [exact Hinv|]. apply (routed_same st); try done.
    intros g j [[Hj|[-> Hj]]%elem_queue_insert|Hj]; by (left + right).
  - apply routed_close. apply (routed_same st); try done.
    intros g j. by eapply somewhere_dequeue.
Qed.

Lemma step_routed allowed st st' :
  step allowed st st' → listeners_inv st → places_inv st → routed_inv st → routed_inv st'.
Proof.
  intros Hstep Hlist Hplaces Hinv.
  destruct Hstep as [st1 st2 Hs|i st1 st2 Hs|f st1 st2 Hs|i st1 st2 _ Hs].
  - by eapply serve_step_routed.
  - destruct Hs as [c st Hc Hr|c seen f st Hc Hr Hsn Hm|c seen st Hc Hr _ _|c f st Hc Hr Ho Hlen
      |c f st Hc Hr Ho|c f st Hc Hr _]; rewrite ?not_matched_goes; try exact Hinv;
      try (apply routed_goes; [by auto using routed_close|done]).
    + apply (routed_alter (set_routine (Offering f)) i st); [done|done| |].
      { intros c' Hc'. by eapply routed_state. }
      intros g j c' (c0 & Hc0 & Hcase)%lookup_alter_inv Hh. exists c0. split; [done|].
      destruct Hcase as [[-> ->]|[_ ->]]; [|by left]. rewrite Hc in Hc0. injection Hc0 as <-.
      destruct Hh as [[= <-]|Hpl]; [|left; by right]. right.
      destruct (Hinv i c Hc) as [Hne _]. apply (matched_accepted seen); try done.
      destruct Hlist as (_ & _ & Hseen). destruct (Hseen i c seen Hc Hr) as [_ Hall].
      apply (Forall_impl _ _ _ Hall). by intros x [? _].
    + apply (routed_alter (set_routine Finished) i st); [done|done| |].
      { intros c' Hc'. by eapply routed_state. }
      intros g j c' (c0 & Hc0 & Hcase)%lookup_alter_inv Hh. exists c0. split; [done|]. left.
      destruct Hh as [Hof|[[Hj|[-> Hj]]%elem_queue_insert|Hj]].
      * destruct Hcase as [[_ ->]|[_ ->]]; [done|by left].
      * right; by left.
      * apply elem_of_app in Hj as [Hj| ->%list_elem_of_singleton]; [right; by left|].
        left. cbn in Hc0. congruence.
      * right; by right.
  - destruct Hs as [st Hm|old st Hm|j ch st Hm Ha|j st Hj|st Hm]; try exact Hinv.
    + unfold muxListener_Accept in Ha. destruct (queue (connc st f)) as [|j' q] eqn:Hqu;
        [by destruct (chan_closed _)|]. injection Ha as <- <-. cbn [queue].
      apply (routed_same st); try done. intros g k [Hk|Hk].
      * eapply somewhere_dequeue; [exact Hqu|by left].
      * cbn in Hk. destruct (decide (f = g)) as [->|Hne].
        -- rewrite fn_lookup_insert in Hk. apply elem_of_app in Hk as [Hk| ->%list_elem_of_singleton];
             [by right|]. left. rewrite Hqu. left.
        -- rewrite fn_lookup_insert_ne in Hk by done. by right.
    + by apply routed_close.
  - destruct Hs as [c chunk st Hc He Hne|c st Hc].
    + apply (routed_keeps (set_sent (sent c ++ [chunk])) i st); try done.
      intros c' Hc'. rewrite Hc in Hc'. injection Hc' as <-. destruct (Hinv i c Hc) as [Hs _].
      split; [cbn; apply Forall_app; split; [exact Hs|by constructor]|]. intros f Ha. by apply accepted_sent.
    + apply (routed_keeps set_ended i st); try done. intros c' Hc'.
      split; [apply (Hinv i c' Hc')|]. intros f. apply accepted_ended.
Qed.

(** *** All of it *)
Record mux_inv (st : cMux) : Prop := {
  inv_slots : slots_inv st;
  inv_listeners : listeners_inv st;
  inv_loop : loop_inv st;
  inv_places : places_inv st;
  inv_routed : routed_inv st;
}.

Lemma step_inv allowed st st' : step allowed st st' → mux_inv st → mux_inv st'.
Proof.
  intros Hstep [H1 H2 H3 H4 H5]. split.
  - by eapply step_slots.
  - by eapply step_listeners.
  - by eapply step_loop.
  - by eapply step_places.
  - by eapply step_routed.
Qed.

Lemma rtc_inv allowed st st' : rtc (step allowed) st st' → mux_inv st → mux_inv st'.
Proof. induction 1; eauto using step_inv. Qed.

Lemma New_inv : mux_inv New.
Proof.
  split.
  - split_and!; [done|cbn; lia|done].
  - split_and!; [split; constructor|done|done].
  - split; [done|]. by intros f.
  - split; [|intros f; split; [cbn; lia|by intros i ?%elem_of_nil]].
    split_and!; [constructor|by intros i ?%elem_of_nil|done].
  - done.
Qed.

Lemma reachable_inv st : steps New st → mux_inv st.
Proof. intros Hst. exact (rtc_inv _ _ _ Hst New_inv). Qed.
End Multiplexing.
