(* ===== verification/Serving.v ===== *)
(** * What the multiplexer at work guarantees, and what it does not

    From the invariant of [Multiplexing]: the limit on connections, the
    sorting of connections by what they send, how [Serve] ends; and two
    failures: clients that send nothing hold their slots for ever, and a
    server whose [Match] races with the other's may get no connection. *)
From stdpp Require Import functions.
From S2P Require Import Prelude GoStrings Cmux Http2 Listener Multiplexing.
From stdpp Require Import options.

(** ** Specification *)

Definition shut (f : frontend) (st : cMux) : Prop :=
  chan_closed (connc st f) = true ∧ queue (connc st f) = [].

(** Both servers have their listener, and those whose channel is still to
    be closed are on the list of the deferred function. *)
Definition closing_inv (st : cMux) : Prop :=
  (∀ f, f ∈ l <$> sls st) ∧
  match loop st with
  | Acquiring | Accepting _ | Waiting _ => True
  | Closing rest _ => ∀ f, f ∈ l <$> rest ∨ shut f st
  | Draining g rest _ =>
      chan_closed (connc st g) = true ∧ ∀ f, f = g ∨ f ∈ l <$> rest ∨ shut f st
  | ServeReturned _ => ∀ f, shut f st
  end.

(** The connections that wait for a silent client. *)
Definition silents (st : cMux) : list connection := filter (λ c, silent c = true) (conns st).

(** A server that is on no list, and so in nobody's way. *)
Definition unlisted (f : frontend) (s : list matchersListener) : Prop := f ∉ l <$> s.
Definition lost (f : frontend) (st : cMux) : Prop :=
  matching st f = Matched ∧ unlisted f (sls st) ∧
  (∀ g old, matching st g = Appending old → unlisted f old) ∧
  (∀ i c, conns st !! i = Some c →
     routine c ≠ Offering f ∧ ∀ seen, routine c = Sniffing seen → unlisted f seen) ∧
  taken st f = [] ∧ connc st f = MkChan [] false ∧
  match loop st with
  | Closing rest _ => unlisted f rest
  | Draining g rest _ => f ≠ g ∧ unlisted f rest
  | _ => True
  end.

(** The other server. *)
Definition other (f : frontend) : frontend := match f with HTTP => GRPC | GRPC => HTTP end.

(** Both servers read the empty list, then both write: what [f] wrote is
    overwritten. *)
Definition race (matchers : frontend → list Matcher) (f : frontend) : cMux :=
  let st := set_matching f (Appending []) New in
  let st := set_matching (other f) (Appending []) st in
  let st := with_sls [MkListener (matchers f) f] (set_matching f Matched st) in
  with_sls [MkListener (matchers (other f)) (other f)] (set_matching (other f) Matched st).

(** *** Runs

    The steps as a function, for runs that are computed: what a goroutine, a
    server or a client does next. *)
Inductive action :=
| Acquire | NoAcquire | RootAccept | RootFail (err : net_error)
| Deferred
| Conn (i : nat)
| CallMatch (f : frontend) | Take (f : frontend) | CloseRoot (f : frontend)
| Send (i : nat) (chunk : bytes).

Section Serving.
Context (matchers : frontend → list Matcher) (maxConnections : nat).
#[local] Notation serve_step := (serve_step maxConnections).
#[local] Notation frontend_step := (frontend_step matchers).
#[local] Notation step := (step matchers maxConnections).
#[local] Notation steps := (steps matchers maxConnections).
#[local] Notation ready := (ready matchers).
#[local] Notation listeners_inv := (listeners_inv matchers).
#[local] Notation routed_inv := (routed_inv matchers).
#[local] Notation mux_inv := (mux_inv matchers maxConnections).

(** *** Runs *)
Definition perform (a : action) (st : cMux) : option cMux :=
  match a with
  | Acquire =>
      if loop st is Acquiring then
        if decide (sem st < maxConnections)
        then Some (with_sem (S (sem st)) (with_loop (Accepting true) st)) else None
      else None
  | NoAcquire =>
      if loop st is Acquiring then
        if root_closed st then Some (with_loop (Accepting false) st) else None
      else None
  | RootAccept =>
      if loop st is Accepting _ then
        if root_closed st then None
        else Some (with_conns (conns st ++ [newConnection]) (with_loop Acquiring st))
      else None
  | RootFail err =>
      if loop st is Accepting acquired then Some (accept_failed acquired err st) else None
  | Deferred =>
      match loop st with
      | Closing (sl :: rest) err =>
          Some (if chan_closed (connc st (l sl)) then panic st
                else close_chan (l sl) (with_loop (Draining (l sl) rest err) st))
      | Draining f rest err =>
          match queue (connc st f) with
          | i :: q => Some (close_conn i (dequeue q f st))
          | [] => Some (with_loop (Closing rest err) st)
          end
      | Closing [] err => Some (with_loop (ServeReturned err) st)
      | Waiting err =>
          if forallb (λ c, if routine c is Finished then true else false) (conns st)
          then Some (with_loop (Closing (sls st) err) st) else None
      | _ => None
      end
  | Conn i =>
      match conns st !! i with
      | None => None
      | Some c =>
          match routine c with
          | Starting => Some (goes i (Sniffing (sls st)) st)
          | Sniffing seen =>
              if sniffed c seen
              then Some (match matched_listener seen c with
                         | Some f => goes i (Offering f) st
                         | None => not_matched i st
                         end)
              else None
          | Offering f =>
              if chan_closed (connc st f) then Some (panic st)
              else if decide (length (queue (connc st f)) < bufLen)
              then Some (goes i Finished (enqueue i f st)) else None
          | Finished => None
          end
      end
  | CallMatch f =>
      match matching st f with
      | NotCalled => Some (set_matching f (Appending (sls st)) st)
      | Appending old => Some (with_sls (old ++ [MkListener (matchers f) f]) (set_matching f Matched st))
      | Matched => None
      end
  | Take f =>
      if matching st f is Matched then
        match muxListener_Accept (connc st f) with
        | Some (Ok i, ch) => Some (take_conn i f (dequeue (queue ch) f st))
        | _ => None
        end
      else None
  | CloseRoot f => if matching st f is Matched then Some (with_root true st) else None
  | Send i chunk =>
      match conns st !! i, chunk with
      | Some c, _ :: _ =>
          if ended c then None
          else Some (with_conns (alter (set_sent (sent c ++ [chunk])) i (conns st)) st)
      | _, _ => None
      end
  end.

Fixpoint schedule (actions : list action) (st : cMux) : option cMux :=
  match actions with
  | [] => Some st
  | a :: actions => perform a st ≫= schedule actions
  end.

Definition sender (a : action) : option nat := if a is Send i _ then Some i else None.

Lemma perform_step (allowed : nat → Prop) a st st' :
  perform a st = Some st' → (∀ i, sender a = Some i → allowed i) → step allowed st st'.
Proof.
  intros Hp Ha. destruct a; cbn in Hp; repeat case_match; simplify_eq;
    try (by apply step_serve; econstructor; eauto);
    try (by eapply step_conn; econstructor; eauto);
    try (by eapply step_frontend; econstructor; eauto).
  - eapply step_serve, waited; [eassumption|]. apply Forall_forall. intros c Hc.
    rewrite forallb_forall in *. apply list_elem_of_In in Hc.
    match goal with H : ∀ x, In x _ → _ |- _ => specialize (H c Hc) end. by destruct (routine c).
  - match goal with Hl : loop st = Closing ?sl _ |- _ => pose proof (closes maxConnections _ _ _ _ Hl) as Hc end.
    case_match; [by apply step_serve|congruence].
  - match goal with Hl : loop st = Closing ?sl _ |- _ => pose proof (closes maxConnections _ _ _ _ Hl) as Hc end.
    case_match; [congruence|by apply step_serve].
  - eapply step_client; [by apply Ha|]. by econstructor.
Qed.

Lemma schedule_steps (allowed : nat → Prop) actions st st' :
  schedule actions st = Some st' →
  (∀ a i, a ∈ actions → sender a = Some i → allowed i) → rtc (step allowed) st st'.
Proof.
  revert st. induction actions as [|a actions IH]; intros st Hs Ha; [by injection Hs as <-|].
  cbn in Hs. apply bind_Some in Hs as (st1 & Hp & Hs). eapply rtc_l.
  - eapply perform_step; [exact Hp|]. intros i. apply Ha. left.
  - apply IH; [exact Hs|]. intros b i Hb. apply Ha. by right.
Qed.

(** The state after a run, if it is one. *)
Definition after (actions : list action) (st : cMux) : cMux := default st (schedule actions st).
Definition runs (actions : list action) (st : cMux) : bool := if schedule actions st then true else false.

Lemma after_rtc (allowed : nat → Prop) actions st :
  runs actions st = true → (∀ a i, a ∈ actions → sender a = Some i → allowed i) →
  rtc (step allowed) st (after actions st).
Proof.
  unfold runs, after. destruct (schedule actions st) as [st'|] eqn:Hs; [|done]. intros _.
  by apply (schedule_steps _ actions).
Qed.

Lemma after_steps actions st : runs actions st = true → steps st (after actions st).
Proof. intros Hr. by apply after_rtc. Qed.

(** ** Lemmas: the end of [Serve] *)
Lemma closing_same st st' :
  closing_inv st → sls st' = sls st → loop st' = loop st →
  (∀ f, chan_closed (connc st f) = true → chan_closed (connc st' f) = true) →
  (∀ f, shut f st → shut f st') → closing_inv st'.
Proof.
  unfold closing_inv. intros [Hs Hl] -> -> Hc Hsh. split; [exact Hs|].
  destruct (loop st); auto.
  - intros f. destruct (Hl f); auto.
  - destruct Hl as [Hg Hl]. split; [auto|]. intros f. destruct (Hl f) as [|[|]]; auto.
Qed.

Lemma closing_close i st : closing_inv st → closing_inv (close_conn i st).
Proof.
  intros Hinv. destruct (close_conn_alter i st) as (s & -> & _). by apply (closing_same st).
Qed.

Lemma shut_dequeue i q f g st : queue (connc st f) = i :: q → shut g st → shut g (dequeue q f st).
Proof.
  intros Hq [Hc He]. unfold shut. cbn. rewrite fn_lookup_insert_ne; [done|]. intros ->. congruence.
Qed.

Lemma all_listed st f : listeners_inv st → (∀ g, g ∈ l <$> sls st) → matching st f = Matched.
Proof.
  intros [[_ Hall] _] Hs. specialize (Hs f). apply list_elem_of_fmap in Hs as (x & -> & Hx). rewrite Forall_forall in Hall. by apply Hall.
Qed.

Lemma serve_step_closing st st' :
  serve_step st st' → loop_inv st → closing_inv st → closing_inv st'.
Proof.
  intros Hstep [_ Hloop] [Hs Hinv].
  destruct Hstep as [st Hl Hse|st Hl Hr|a st Hl Hr|a err st Hl|err st Hl Hf|sl rest err st Hl
    |f rest err i q st Hl Hq|f rest err st Hl Hq|err st Hl]; rewrite Hl in Hinv, Hloop;
    try (split; [exact Hs|]); try done.
  - unfold accept_failed. split; [by destruct a|]. cbn. by destruct (negb _).
  - intros f. left. apply Hs.
  - destruct Hloop as (_ & _ & Hopen). rewrite Hopen by (cbn; left).
    split; [exact Hs|]. cbn. rewrite fn_lookup_insert. split; [done|]. intros f.
    destruct (decide (f = l sl)) as [->|Hne]; [by left|]. right. unfold shut. cbn.
    rewrite fn_lookup_insert_ne by congruence. destruct (Hinv f) as [Hin|]; [|by right].
    left. cbn in Hin. apply elem_of_cons in Hin as [|]; [congruence|done].
  - apply closing_close. apply (closing_same st); try done.
    + split; [exact Hs|by rewrite Hl].
    + intros g. by rewrite chan_closed_dequeue.
    + intros g. by eapply shut_dequeue.
  - destruct Hinv as [Hg Hinv]. cbn. intros g. destruct (Hinv g) as [->|[|]]; [|by left|by right].
    by right.
  - cbn. intros f. destruct (Hinv f) as [Hin|]; [|done]. by apply elem_of_nil in Hin.
Qed.

Lemma step_closing allowed st st' :
  step allowed st st' → mux_inv st → closing_inv st → closing_inv st'.
Proof.
  intros Hstep [_ Hlist Hloop Hplaces _] Hinv.
  destruct Hstep as [st1 st2 Hs|i st1 st2 Hs|f st1 st2 Hs|i st1 st2 _ Hs].
  - by eapply serve_step_closing.
  - destruct Hs as [c st Hc Hr|c seen f st Hc Hr Hsn Hm|c seen st Hc Hr _ _|c f st Hc Hr Ho Hlen
      |c f st Hc Hr Ho|c f st Hc Hr _]; rewrite ?not_matched_goes;
      try exact Hinv; try (by apply (closing_same st));
      try (apply (closing_same (close_conn i st)); try done; by apply closing_close).
    apply (closing_same st); try done.
    + intros g Hg. by rewrite <-Hg, <-(chan_closed_enqueue i f st g).
    + intros g [Hcl He]. unfold shut. cbn. rewrite fn_lookup_insert_ne; [done|]. intros ->. congruence.
  - assert (∀ g, matching st1 g = Matched) as Hall by (intros g; apply all_listed; [done|apply Hinv]).
    destruct Hs as [st Hm|old st Hm|j ch st Hm Ha|j st Hj|st Hm];
      try (rewrite Hall in Hm; discriminate Hm).
    + unfold muxListener_Accept in Ha. destruct (queue (connc st f)) as [|j' q] eqn:Hqu;
        [by destruct (chan_closed _)|]. injection Ha as <- <-. cbn [queue].
      apply (closing_same st); try done.
      * intros g Hg. by rewrite <-Hg, <-(chan_closed_dequeue q f st g).
      * intros g. by apply (shut_dequeue j').
    + by apply closing_close.
    + by apply (closing_same st).
  - destruct Hs; by apply (closing_same st).
Qed.

Lemma ready_inv order : NoDup order → mux_inv (ready order).
Proof.
  intros Hnd. destruct (New_inv matchers maxConnections) as [H1 _ H3 H4 H5].
  split; [exact H1| |exact H3|exact H4|exact H5].
  split_and!; [|done|done]. split; cbn.
  - rewrite <-list_fmap_compose. by rewrite list_fmap_id.
  - apply Forall_fmap. by apply Forall_true.
Qed.

Lemma ready_reachable order st :
  NoDup order → (∀ f, f ∈ order) → steps (ready order) st → mux_inv st ∧ closing_inv st.
Proof.
  intros Hnd Horder Hst. assert (mux_inv (ready order) ∧ closing_inv (ready order)) as Hinv.
  { split; [by apply ready_inv|]. split; [|done]. cbn. rewrite <-list_fmap_compose.
    intros f. rewrite list_fmap_id. apply Horder. }
  clear Hnd Horder. induction Hst as [|st1 st2 st3 Hstep _ IH]; [done|]. apply IH.
  destruct Hinv as [Hm Hc]. split; [by eapply step_inv|by eapply step_closing].
Qed.

(** *** Silent clients *)
Lemma length_filter_mono {A} (P : A → Prop) `{∀ x, Decision (P x)} (xs ys : list A) :
  (∀ i x, xs !! i = Some x → P x → ys !! i = Some x) →
  length (filter P xs) ≤ length (filter P ys).
Proof.
  revert ys. induction xs as [|x xs IH]; intros ys Hxs; [cbn; lia|]. rewrite filter_cons.
  destruct ys as [|y ys].
  - case_decide as Hx; [by specialize (Hxs 0 x eq_refl Hx)|].
    apply (IH []). intros i z Hz Hp. by specialize (Hxs (S i) z Hz Hp).
  - assert (length (filter P xs) ≤ length (filter P ys)) as Hlen
      by (apply IH; intros i z; apply (Hxs (S i))).
    rewrite filter_cons. case_decide as Hx.
    + specialize (Hxs 0 x eq_refl Hx). injection Hxs as ->. rewrite decide_True by done. cbn. lia.
    + case_decide; cbn; lia.
Qed.

Lemma length_filter_impl {A} (P Q : A → Prop) `{∀ x, Decision (P x), ∀ x, Decision (Q x)} (xs : list A) :
  (∀ i x, xs !! i = Some x → P x → Q x) → length (filter P xs) ≤ length (filter Q xs).
Proof.
  induction xs as [|x xs IH]; intros Hpq; [done|]. rewrite !filter_cons.
  assert (length (filter P xs) ≤ length (filter Q xs)) as Hlen
    by (apply IH; intros i z; apply (Hpq (S i))).
  specialize (Hpq 0 x eq_refl). repeat case_decide; cbn; try lia. tauto.
Qed.

Lemma silent_routine c : silent c = true → ended c = false ∧
  ∃ seen, routine c = Sniffing seen ∧ sniffed c seen = false.
Proof.
  unfold silent. destruct (ended c); [done|]. destruct (routine c) as [|seen| |]; try done. cbn.
  intros Hs%negb_true_iff. eauto.
Qed.

Lemma silents_open st : mux_inv st → length (silents st) ≤ length (open_conns st).
Proof.
  intros [_ _ _ [(_ & _ & Hcs) _] _]. apply length_filter_impl. intros i c Hc Hs.
  apply silent_routine in Hs as (_ & seen & Hr & _). apply (Hcs i c Hc). congruence.
Qed.

(** A step that is not one of a silent client does not touch it. *)
Lemma alter_keeps (g : connection → connection) i j c (cs : list connection) :
  cs !! j = Some c → (j = i → False) → alter g i cs !! j = Some c.
Proof. intros Hc Hne. by rewrite list_lookup_alter_ne by congruence. Qed.

Lemma close_keeps i j c st :
  conns st !! j = Some c → (j = i → False) → conns (close_conn i st) !! j = Some c.
Proof.
  intros Hc Hne. destruct (close_conn_alter i st) as (s & -> & _). by apply alter_keeps.
Qed.

Lemma step_silent (allowed : nat → Prop) st st' j c :
  step allowed st st' → mux_inv st → conns st !! j = Some c → silent c = true → ¬ allowed j →
  conns st' !! j = Some c.
Proof.
  intros Hstep [_ _ _ [(_ & Hps & _) _] _] Hc Hsilent Hj.
  apply silent_routine in Hsilent as (Hend & seen & Hr & Hsn).
  assert (∀ i, i ∈ places st → j = i → False) as Hplaces.
  { intros i Hi ->. destruct (Hps i Hi) as (c' & Hc' & Hr'). congruence. }
  destruct Hstep as [st1 st2 Hs|i st1 st2 Hs|f st1 st2 Hs|i st1 st2 Hi Hs].
  - destruct Hs as [st Hl Hse|st Hl Hrc|a st Hl Hrc|a err st Hl|err st Hl Hf|sl rest err st Hl
      |f rest err i q st Hl Hq|f rest err st Hl Hq|err st Hl]; try exact Hc.
    + by apply lookup_app_l_Some.
    + unfold accept_failed. by destruct a.
    + by destruct (chan_closed _).
    + apply close_keeps; [exact Hc|]. apply Hplaces. apply (queue_places f). rewrite Hq. left.
  - destruct Hs; rewrite ?not_matched_goes; try exact Hc;
      apply alter_keeps; try apply close_keeps; try exact Hc; intros ->; congruence.
  - destruct Hs as [st Hm|old st Hm|i ch st Hm Ha|i st Hi|st Hm]; try exact Hc.
    apply close_keeps; [exact Hc|]. apply Hplaces. by eapply taken_places.
  - destruct Hs; (apply alter_keeps; [exact Hc|]); by intros ->.
Qed.

(** While the silent clients hold every slot no connection is accepted. *)
Lemma step_full allowed st st' :
  step allowed st st' → mux_inv st → length (silents st) = maxConnections →
  length (conns st') = length (conns st).
Proof.
  intros Hstep Hinv Hfull. pose proof (silents_open st Hinv) as Hle.
  destruct Hinv as [(Hsem & Hmax & Hroot) _ _ _ _].
  assert (slot st = 0) as Hslot by lia. unfold slot in Hslot.
  assert (∀ i s, length (conns (close_conn i s)) = length (conns s)) as Hclose.
  { intros i s. destruct (close_conn_alter i s) as (s' & -> & _). apply length_alter. }
  destruct Hstep as [st1 st2 Hs|i st1 st2 Hs|f st1 st2 Hs|i st1 st2 _ Hs].
  - destruct Hs as [st Hl Hse|st Hl Hr|a st Hl Hr|a err st Hl|err st Hl Hf|sl rest err st Hl
      |f rest err i q st Hl Hq|f rest err st Hl Hq|err st Hl]; try done.
    + rewrite Hl in Hslot. destruct a; [done|]. specialize (Hroot Hl). congruence.
    + unfold accept_failed. by destruct a.
    + by destruct (chan_closed _).
    + by rewrite Hclose.
  - destruct Hs; rewrite ?not_matched_goes; cbn; rewrite ?length_alter, ?Hclose; done.
  - destruct Hs; rewrite ?Hclose; done.
  - destruct Hs; cbn; by rewrite length_alter.
Qed.

Lemma silent_open st i c : mux_inv st → conns st !! i = Some c → silent c = true → conn_closed c = false.
Proof.
  intros [_ _ _ [(_ & _ & Hcs) _] _] Hc Hs. apply silent_routine in Hs as (_ & seen & Hr & _).
  apply (Hcs i c Hc). congruence.
Qed.

Lemma silent_rtc st st' :
  mux_inv st → length (silents st) = maxConnections →
  rtc (step (λ i, ∀ c, conns st !! i = Some c → silent c = false)) st st' →
  mux_inv st' ∧ (∀ i c, conns st !! i = Some c → silent c = true → conns st' !! i = Some c) ∧
  length (conns st') = length (conns st).
Proof.
  intros Hinv Hfull. revert st'.
  apply (rtc_ind_r (λ st', mux_inv st' ∧
    (∀ i c, conns st !! i = Some c → silent c = true → conns st' !! i = Some c) ∧
    length (conns st') = length (conns st)) st); [done|].
  intros st1 st2 _ Hstep (Hinv1 & Hkeep & Hlen).
  assert (length (silents st1) = maxConnections) as Hfull1.
  { assert (length (silents st) ≤ length (silents st1))
      by (apply length_filter_mono; intros i c; apply Hkeep).
    pose proof (silents_open st1 Hinv1). destruct Hinv1 as [(Hsem & Hmax & _) _ _ _ _]. lia. }
  split_and!; [by eapply step_inv| |by rewrite (step_full _ _ _ Hstep)].
  intros i c Hc Hs. eapply step_silent; [exact Hstep|exact Hinv1|by apply Hkeep|done|].
  intros Hallowed. specialize (Hallowed c Hc). congruence.
Qed.

(** *** A lost listener *)
Lemma lost_conns f st st' :
  lost f st → sls st' = sls st → matching st' = matching st → taken st' f = taken st f →
  connc st' f = connc st f → loop st' = loop st →
  (∀ i c', conns st' !! i = Some c' →
     (routine c' ≠ Offering f ∧ ∀ seen, routine c' = Sniffing seen → unlisted f seen) ∨
     ∃ c, conns st !! i = Some c ∧ routine c' = routine c) →
  lost f st'.
Proof.
  unfold lost. intros (Hm & Hs & Ho & Hc & Ht & Hq & Hl) -> -> -> -> -> Hcs. split_and!; try done.
  intros i c' Hc'. destruct (Hcs i c' Hc') as [|(c & Hc0 & Hr)]; [done|]. rewrite Hr. by apply (Hc i).
Qed.

Lemma lost_alter f g i st st' :
  lost f st → sls st' = sls st → matching st' = matching st → taken st' f = taken st f →
  connc st' f = connc st f → loop st' = loop st → conns st' = alter g i (conns st) →
  (∀ c, conns st !! i = Some c →
     (routine (g c) ≠ Offering f ∧ ∀ seen, routine (g c) = Sniffing seen → unlisted f seen) ∨
     routine (g c) = routine c) →
  lost f st'.
Proof.
  intros Hinv Hs Hm Ht Hq Hl Hc Hg. apply (lost_conns f st); try done.
  intros j c'. rewrite Hc. intros (c & Hcj & [[-> ->]|[_ ->]])%lookup_alter_inv.
  - destruct (Hg c Hcj); [by left|right; eauto].
  - right; eauto.
Qed.

Lemma lost_close f i st : lost f st → lost f (close_conn i st).
Proof.
  intros Hinv. destruct (close_conn_alter i st) as (s & -> & _).
  apply (lost_alter f set_closed i st); try done. by right.
Qed.

Lemma lost_finish f i st : lost f st → lost f (goes i Finished st).
Proof. intros Hinv. apply (lost_alter f (set_routine Finished) i st); try done. by left. Qed.

Lemma lost_loop f st st' :
  lost f st → sls st' = sls st → matching st' = matching st → taken st' f = taken st f →
  connc st' f = connc st f → conns st' = conns st →
  match loop st' with
  | Closing rest _ => unlisted f rest
  | Draining g rest _ => f ≠ g ∧ unlisted f rest
  | _ => True
  end → lost f st'.
Proof.
  unfold lost. intros (Hm & Hs & Ho & Hc & Ht & Hq & _) -> -> -> -> -> Hl. by split_and!.
Qed.

Lemma serve_step_lost f st st' : serve_step st st' → lost f st → lost f st'.
Proof.
  intros Hstep Hinv. pose proof Hinv as (Hm & Hs & Ho & Hc & Ht & Hq & Hloop).
  destruct Hstep as [st Hl Hse|st Hl Hr|a st Hl Hr|a err st Hl|err st Hl Hf|sl rest err st Hl
    |g rest err i q st Hl Hqu|g rest err st Hl Hqu|err st Hl]; rewrite Hl in Hloop;
    try (by apply (lost_loop f st)).
  - apply (lost_conns f (with_loop Acquiring st)); try done.
    intros i c' [Hc'|[_ Hc']]%lookup_app_Some; [right; by exists c'|].
    destruct (i - _) as [|k]; [|by destruct k]. injection Hc' as <-. by left.
  - unfold accept_failed. destruct a; apply (lost_loop f st); try done; cbn; by destruct (negb _).
  - apply not_elem_of_cons in Hloop as [Hne Hrest].
    destruct (chan_closed _); apply (lost_loop f st); try done; cbn.
    + rewrite Hl. by apply not_elem_of_cons.
    + by rewrite fn_lookup_insert_ne by congruence.
  - destruct Hloop as [Hne Hrest]. apply lost_close. apply (lost_loop f st); try done; cbn.
    + by rewrite fn_lookup_insert_ne by congruence.
    + by rewrite Hl.
  - apply (lost_loop f st); try done. by destruct Hloop.
Qed.

Lemma matched_listed seen c f : Forall (.≠ []) (sent c) → matched_listener seen c = Some f → f ∈ l <$> seen.
Proof.
  intros Hne (i & sl & Hfind & <-)%matched_listener_spec; [|done].
  apply list_find_Some in Hfind as (Hsl & _). apply list_elem_of_fmap. exists sl.
  split; [done|]. by eapply list_elem_of_lookup_2.
Qed.

Lemma step_lost allowed f st st' : step allowed st st' → routed_inv st → lost f st → lost f st'.
Proof.
  intros Hstep Hrouted Hinv. pose proof Hinv as (Hm & Hs & Ho & Hc & Ht & Hq & Hloop).
  destruct Hstep as [st1 st2 Hst|i st1 st2 Hst|g st1 st2 Hst|i st1 st2 _ Hst].
  - by eapply serve_step_lost.
  - destruct Hst as [c st Hci Hr|c seen g st Hci Hr Hsn Hmt|c seen st Hci Hr _ _|c g st Hci Hr Hop Hlen
      |c g st Hci Hr Hop|c g st Hci Hr _]; rewrite ?not_matched_goes; try exact Hinv.
    + apply (lost_alter f (set_routine (Sniffing (sls st))) i st); try done.
      intros c' _. left. split; [done|]. by intros seen [= <-].
    + apply (lost_alter f (set_routine (Offering g)) i st); try done. intros c' _. left.
      split; [|done]. intros [= ->]. destruct (Hc i c Hci) as [_ Hun].
      apply (Hun seen Hr). destruct (Hrouted i c Hci) as [Hne _]. by eapply matched_listed.
    + by apply lost_finish, lost_close.
    + apply lost_finish. apply (lost_loop f st); try done. cbn.
      rewrite fn_lookup_insert_ne; [done|]. intros ->. destruct (Hc i c Hci) as [Hno _]. done.
    + by apply lost_finish, lost_close.
  - destruct Hst as [st Hmt|old st Hmt|j ch st Hmt Ha|j st Hj|st Hmt]; try exact Hinv.
    + assert (f ≠ g) by congruence. unfold lost. cbn. rewrite fn_lookup_insert_ne by done.
      split_and!; try done. intros g' old. destruct (decide (g = g')) as [->|Hne].
      * rewrite fn_lookup_insert. by intros [= <-].
      * rewrite fn_lookup_insert_ne by done. apply Ho.
    + assert (f ≠ g) by congruence. unfold lost. cbn. rewrite fn_lookup_insert_ne by done.
      split_and!; try done.
      * unfold unlisted. rewrite fmap_app, not_elem_of_app. split; [by eapply Ho|].
        cbn. by apply not_elem_of_cons; split; [|apply not_elem_of_nil].
      * intros g' old'. destruct (decide (g = g')) as [->|Hne]; [by rewrite fn_lookup_insert|].
        rewrite fn_lookup_insert_ne by done. apply Ho.
    + assert (f ≠ g) as Hne by (intros ->; unfold muxListener_Accept in Ha; by rewrite Hq in Ha).
      apply (lost_loop f st); try done; cbn; by rewrite fn_lookup_insert_ne.
    + by apply lost_close.
  - destruct Hst; (eapply (lost_alter f); [exact Hinv|done..|]); by right.
Qed.

Lemma race_reachable f : steps New (race matchers f).
Proof.
  assert (∀ st g st', frontend_step g st st' → step anyone st st') as Hf
    by (intros; by eapply step_frontend).
  eapply rtc_l; [apply (Hf _ f), (match_reads matchers); done|].
  eapply rtc_l; [apply (Hf _ (other f)), (match_reads matchers); by destruct f|].
  eapply rtc_l; [apply (Hf _ f), (match_writes matchers f []); by destruct f|].
  eapply rtc_l; [apply (Hf _ (other f)), (match_writes matchers (other f) []); by destruct f|].
  apply rtc_refl.
Qed.

Lemma race_lost f : lost f (race matchers f).
Proof.
  split_and!; try done; [by destruct f| |].
  - unfold unlisted. destruct f; cbn; by apply not_elem_of_cons; split; [|apply not_elem_of_nil].
  - intros [] old; by destruct f.
Qed.

Lemma race_stays f st : steps (race matchers f) st → lost f st.
Proof.
  intros Hst. assert (mux_inv (race matchers f)) as Hinv by (apply reachable_inv, race_reachable).
  pose proof (race_lost f) as Hlost. induction Hst as [|st1 st2 st3 Hstep _ IH]; [done|].
  apply IH; [by eapply step_inv|]. eapply step_lost; [exact Hstep|by destruct Hinv|done].
Qed.

(** ** Properties *)

(** C33. The limit holds.  In every state that the agent can reach, however
    its goroutines, its servers and its clients take turns, no more than
    [maxConnections] connections are open, no send on a closed channel and
    no second close of a channel has panicked, no queue is longer than its
    buffer, and no connection is in two queues or with two servers. *)
Theorem connections_limited (st : cMux) (Hst : steps New st) :
  length (open_conns st) ≤ maxConnections ∧ panicked st = false ∧
  (∀ f, length (queue (connc st f)) ≤ bufLen) ∧ NoDup (places st).
Proof.
  destruct (reachable_inv _ _ _ Hst) as [(Hsem & Hmax & _) _ [Hp _] [(Hnd & _) Hq] _].
  split_and!; [lia|done|apply Hq|done].
Qed.

(** C35. [Serve] leaves nothing behind.  When both servers have called
    [Match] first and [Serve] has returned, the listeners of both servers
    report that they are closed, and every connection that is still open is
    one that a server has accepted. *)
Theorem Serve_returned (order : list frontend) (st : cMux) (err : net_error)
    (Hnd : NoDup order) (Horder : ∀ f, f ∈ order)
    (Hst : steps (ready order) st) (Hret : loop st = ServeReturned err) :
  (∀ f, muxListener_Accept (connc st f) = Some (Error ErrListenerClosed, connc st f)) ∧
  (∀ i c, conns st !! i = Some c → routine c = Finished ∧
     (conn_closed c = false → ∃ f, i ∈ taken st f)).
Proof.
  destruct (ready_reachable order st Hnd Horder Hst) as [[_ _ [_ Hfin] [(_ & _ & Hcs) _] _] [_ Hshut]].
  rewrite Hret in Hfin, Hshut. split.
  - intros f. destruct (Hshut f) as [Hc Hq]. unfold muxListener_Accept. by rewrite Hq, Hc.
  - intros i c Hc. pose proof (finished_routine _ _ _ Hfin Hc) as Hr. split; [done|]. intros Ho.
    destruct (Hcs i c Hc) as [_ Hin]. specialize (Hin Hr Ho). unfold places in Hin.
    rewrite (proj2 (Hshut HTTP)), (proj2 (Hshut GRPC)) in Hin. cbn in Hin.
    apply elem_of_app in Hin as [|]; eauto.
Qed.

(** C36. Silent clients stop the agent.  When as many clients as the limit
    allows have connected and then send nothing that a matcher could decide
    on, then whatever the agent, the servers and all other clients do, no
    timeout closes their connections, no other connection is accepted, and
    [Serve] does not return: the read timeout starts after the sniffing. *)
Theorem silent_clients_hold (st st' : cMux) (Hst : steps New st)
    (Hmax : 0 < maxConnections) (Hfull : length (silents st) = maxConnections)
    (Hst' : rtc (step (λ i, ∀ c, conns st !! i = Some c → silent c = false)) st st') :
  (∀ i c, conns st !! i = Some c → silent c = true →
     conns st' !! i = Some c ∧ conn_closed c = false) ∧
  length (conns st') = length (conns st) ∧ ∀ err, loop st' ≠ ServeReturned err.
Proof.
  pose proof (reachable_inv _ _ _ Hst) as Hinv.
  destruct (silent_rtc st st' Hinv Hfull Hst') as (Hinv' & Hkeep & Hlen). split_and!; [|done|].
  - intros i c Hc Hs. split; [auto|]. exact (silent_open st i c Hinv Hc Hs).
  - intros err Hret. destruct Hinv' as [_ _ [_ Hfin] _ _]. rewrite Hret in Hfin.
    destruct (silents st) as [|c cs] eqn:Hsil; [cbn in Hfull; lia|].
    assert (c ∈ silents st) as Hc by (rewrite Hsil; left).
    apply list_elem_of_filter in Hc as [Hs [i Hi]%list_elem_of_lookup_1].
    pose proof (finished_routine _ _ _ Hfin (Hkeep i c Hi Hs)) as Hr.
    apply silent_routine in Hs as (_ & seen & Hseen & _). congruence.
Qed.

(** C37. A server can lose its listener.  The two calls of [Match] are made
    by different goroutines without synchronisation: for either server
    there is a run in which both calls return, and after which, whatever
    happens, the server never accepts a connection, and its [Accept] waits
    for ever, even when [Serve] has returned. *)
Theorem Match_race (f : frontend) :
  ∃ st, steps New st ∧ (∀ g, matching st g = Matched) ∧
    ∀ st', steps st st' → taken st' f = [] ∧ muxListener_Accept (connc st' f) = None.
Proof.
  exists (race matchers f). split; [apply race_reachable|]. split; [by intros []; destruct f|].
  intros st' Hst'. destruct (race_stays f st' Hst') as (_ & _ & _ & _ & Ht & Hq & _).
  unfold muxListener_Accept. by rewrite Hq.
Qed.
End Serving.

(** ** The agent's two listeners *)
Section Agent.
Context `{Hpack} (fuel maxConnections : nat).

Definition agent_matchers (f : frontend) : list Matcher :=
  match f with HTTP => [createHTTPListener] | GRPC => [createGRPCListener fuel] end.

(** The server that a stream is for. *)
Definition meant_for (f : frontend) (s : bytes) : bool :=
  match f with
  | HTTP => starts_with_method s
  | GRPC => bool_decide (ClientPreface `prefix_of` s) && run (createGRPCListener fuel) s
  end.

Lemma agent_matchers_run f s : existsb (λ m, run m s) (agent_matchers f) = meant_for f s.
Proof.
  destruct f; cbn [agent_matchers existsb meant_for]; rewrite orb_false_r; [apply HTTP_run|].
  case_bool_decide as Hp; [done|]. cbn [andb].
  assert (run (createGRPCListener fuel) s = default false (run (http2HeaderFieldEqual fuel grpc_pairs) s))
    as -> by apply run_fmap.
  unfold http2HeaderFieldEqual, run. by rewrite exec_bind, (preface_false _ Hp).
Qed.

(** No stream is for both. *)
Lemma meant_for_one f g s : meant_for f s = true → meant_for g s = true → f = g.
Proof.
  assert (meant_for HTTP s = true → meant_for GRPC s = true → False) as Hno.
  { unfold meant_for. intros Hm [[t ->]%bool_decide_eq_true _]%andb_true_iff. by rewrite preface_no_method in Hm. }
  intros Hf Hg. destruct f, g; try done; exfalso; auto.
Qed.

Lemma accepted_meant f c : accepted_by agent_matchers f c = true → meant_for f (stream c) = true.
Proof.
  rewrite <-agent_matchers_run. unfold accepted_by. rewrite !existsb_exists.
  intros (m & Hm & [_ Hr]%andb_true_iff). eauto.
Qed.

(** C34. Every connection reaches the server it is meant for.  Whatever the
    order of the two calls of [Match], a connection on its way to a server,
    in its queue or accepted by it has sent a text for this server and not
    for the other: a method for HTTP, the preface of HTTP/2 and the content
    type for gRPC; and a connection for which the sniffers have an answer
    goes to the server it is meant for, if its goroutine sees this server's
    listener, and is refused otherwise. *)
Theorem connections_routed (st : cMux) (Hst : steps agent_matchers maxConnections New st) :
  ∀ i c, conns st !! i = Some c →
    (∀ f, heading f i c st → ∀ g, meant_for g (stream c) = bool_decide (g = f)) ∧
    (∀ seen, routine c = Sniffing seen → ∀ f,
       matched_listener seen c = Some f ↔ f ∈ l <$> seen ∧ meant_for f (stream c) = true).
Proof.
  intros i c Hc. destruct (reachable_inv _ _ _ Hst) as [_ (_ & _ & Hseen) _ _ Hrouted].
  destruct (Hrouted i c Hc) as [Hne Hacc]. split.
  - intros f Hh g. specialize (Hacc f Hh). apply accepted_meant in Hacc.
    case_bool_decide as Hg; [by subst|]. apply not_true_iff_false. intros Hm.
    by apply Hg, (meant_for_one g f (stream c)).
  - intros seen Hr f. destruct (Hseen i c seen Hc Hr) as [_ Hall]. rewrite Forall_forall in Hall.
    assert (∀ x, x ∈ seen → existsb (λ m, run m (stream c)) (ss x) = meant_for (l x) (stream c)) as Hx.
    { intros x Hx. destruct (Hall x Hx) as [-> _]. apply agent_matchers_run. }
    rewrite matched_listener_find by done. split.
    + intros ([j x] & Hfind & ->)%fmap_Some. apply list_find_Some in Hfind as (Hj & He & _).
      apply list_elem_of_lookup_2 in Hj. split; [by apply list_elem_of_fmap_2|]. by rewrite <-Hx.
    + intros [(x & -> & Hin)%list_elem_of_fmap Hm].
      destruct (list_find_elem_of (λ x, existsb (λ m, run m (stream c)) (ss x) = true) seen x)
        as [[j y] Hfind]; [done|by rewrite Hx|]. rewrite Hfind. cbn. f_equal.
      apply list_find_Some in Hfind as (Hj & He & _). apply list_elem_of_lookup_2 in Hj.
      rewrite Hx in He by done. by apply (meant_for_one _ _ (stream c)).
Qed.
End Agent.

(** ** Witnesses *)
Module ServingExamples.
Import ListenerExamples.

Notation two_listeners := (agent_matchers 100).

(** A client sends a request, and is handed to the HTTP server. *)
Definition request : bytes := bytes_of "GET / HTTP/1.1".
Definition arrives : list action := [Acquire; RootAccept; Conn 0].
Definition served : list action := arrives ++ [Send 0 request; Conn 0; Conn 0; Take HTTP].
Definition state1 : cMux := after two_listeners 1 ([CallMatch HTTP; CallMatch HTTP] ++ served) New.

Lemma connections_limited_witness :
  taken state1 HTTP = [0] ∧ length (open_conns state1) ≤ 1 ∧ panicked state1 = false.
Proof.
  split; [vm_compute; reflexivity|].
  destruct (connections_limited two_listeners 1 state1) as (Hopen & Hp & _); [|by split].
  apply after_steps. vm_compute. reflexivity.
Defined.

Lemma connections_routed_witness :
  ∃ c, conns state1 !! 0 = Some c ∧ ∀ g, meant_for 100 g (stream c) = bool_decide (g = HTTP).
Proof.
  assert (steps two_listeners 1 New state1) as Hst by (apply after_steps; vm_compute; reflexivity).
  destruct (conns state1 !! 0) as [c|] eqn:Hc.
  - exists c. split; [done|]. destruct (connections_routed 100 1 state1 Hst 0 c Hc) as [Hr _].
    apply Hr. right; right. replace (taken state1 HTTP) with [0] by (vm_compute; reflexivity). left.
  - exfalso. assert ((if conns state1 !! 0 then true else false) = true) as Hs by (vm_compute; reflexivity).
    by rewrite Hc in Hs.
Defined.

(** The listener at the root fails while a server has a connection. *)
Definition state2 : cMux :=
  after two_listeners 2 (served ++ [Acquire; RootFail OtherError] ++ replicate 6 Deferred) (ready two_listeners [HTTP; GRPC]).
Lemma Serve_returned_witness :
  muxListener_Accept (connc state2 GRPC) = Some (Error ErrListenerClosed, connc state2 GRPC).
Proof.
  refine (proj1 (Serve_returned two_listeners 2 [HTTP; GRPC] state2 OtherError _ _ _ _) GRPC).
  - repeat constructor; set_solver.
  - intros []; set_solver.
  - apply after_steps. vm_compute. reflexivity.
  - vm_compute. reflexivity.
Defined.

(** One client sends two bytes; the root is closed, and [Serve] waits. *)
Definition state3 : cMux :=
  after two_listeners 1 ([CallMatch HTTP; CallMatch HTTP] ++ arrives ++ [Send 0 (bytes_of "GE")]) New.
Definition state4 : cMux := after two_listeners 1 [CloseRoot HTTP; NoAcquire; RootFail OtherError] state3.
Lemma silent_clients_hold_witness :
  loop state4 = Waiting OtherError ∧ length (conns state4) = 1 ∧ ∀ err, loop state4 ≠ ServeReturned err.
Proof.
  split; [vm_compute; reflexivity|].
  destruct (silent_clients_hold two_listeners 1 state3 state4) as (_ & Hlen & Hret).
  - apply after_steps. vm_compute. reflexivity.
  - lia.
  - vm_compute. reflexivity.
  - apply after_rtc; [vm_compute; reflexivity|]. intros a i Ha Hs. exfalso. revert Hs.
    repeat (apply elem_of_cons in Ha as [->|Ha]; [discriminate|]). by apply elem_of_nil in Ha.
  - split; [|exact Hret]. rewrite Hlen. vm_compute. reflexivity.
Defined.

(** A connection that arrives before the servers have called [Match] is
    closed, whatever its client is about to send. *)
Example early_refused :
  let st := after two_listeners 1 (arrives ++ [Conn 0]) New in
  runs two_listeners 1 (arrives ++ [Conn 0]) New = true ∧ conn_closed <$> conns st = [true].
Proof. split; vm_compute; reflexivity. Qed.
End ServingExamples.
