(* ===== verification/Entry.v ===== *)
(** * The life of the agent (src/pkg/agent/entry.go, grpc.go, src/cmd/main.go)

    [Run] checks the flags, creates the agent and serves until one of
    three servers fails or the context is done.  The calls to libraries are
    given by what they return. *)
From S2P Require Import Prelude GoStrings DataSet Errors AccessControl Kube Url Http.
From S2P Require Import ApiContext Access.
From stdpp Require Import options.

(** ** Run *)

(** The flags. *)
Record cliContext := MkCli {
  cli_listen_address : string;
  cli_proxy_url : string;
  cli_monitoring_namespace : string;
  cli_read_timeout : Z;
  cli_max_connections : Z;
  cli_filter_reader_labels : list string;
}.

Record agentConfig := MkConfig {
  listenAddress : string;
  proxyURL : string;
  readTimeout : Z;
  maxConnections : Z;
  filterReaderLabelSet : DataSet.Set_;
  monitoringNamespace : string;
}.

(** The flags of src/cmd/main.go with their defaults; the log flags, which
    only set up the logger, aside. *)
Definition app_Flags : cliContext :=
  MkCli ":9090" "http://localhost:9999" "cattle-prometheus" (5 * 60 * 1000000000) 512 [].

(** [d.String()] of a duration in nanoseconds: [fmt_frac] prints a fraction
    of [prec] digits without trailing zeros, and gives the integer part. *)
Fixpoint fmt_frac (prec : nat) (v : Z) (text : string) : string * Z :=
  match prec with
  | O => (if bool_decide (text = EmptyString) then EmptyString else "." +:+ text, v)
  | S prec =>
      let digit := (v mod 10)%Z in
      fmt_frac prec (v / 10)%Z
        (if bool_decide (text = EmptyString) && bool_decide (digit = 0%Z) then EmptyString
         else format_Z digit +:+ text)
  end.

Definition micro : string := String (Ascii.ascii_of_N 194) (String (Ascii.ascii_of_N 181) EmptyString).

Definition time_Duration_String (d : Z) : string :=
  let u := Z.abs d in
  let sub prec unit := let '(frac, v) := fmt_frac prec u EmptyString in
                       format_Z v +:+ frac +:+ unit +:+ "s" in
  let text :=
    if bool_decide (u = 0)%Z then "0s"
    else if bool_decide (u < 1000)%Z then sub 0 "n"
    else if bool_decide (u < 1000000)%Z then sub 3 micro
    else if bool_decide (u < 1000000000)%Z then sub 6 "m"
    else
      let '(frac, v) := fmt_frac 9 u EmptyString in
      let seconds := format_Z (v mod 60) +:+ frac +:+ "s" in
      let v := (v / 60)%Z in
      if bool_decide (v = 0)%Z then seconds
      else
        let minutes := format_Z (v mod 60) +:+ "m" +:+ seconds in
        let v := (v / 60)%Z in
        if bool_decide (v = 0)%Z then minutes else format_Z v +:+ "h" +:+ minutes in
  if bool_decide (d < 0)%Z then "-" +:+ text else text.

Definition agentConfig_String (a : agentConfig) : string :=
  "listening on " +:+ listenAddress a +:+ ", proxying to " +:+ proxyURL a +:+
  " with ignoring 'remote reader' labels [" +:+ DataSet.String_ (filterReaderLabelSet a) +:+
  "], only allow maximum " +:+ format_Z (maxConnections a) +:+ " connections with " +:+
  time_Duration_String (readTimeout a) +:+ " read timeout .".

(** How the process ends: [log.Fatal] exits at once, without the deferred
    calls. *)
Inductive ending :=
| Fatal (message : string) (err : error)
| Returned.

(** ** grpcBackend (grpc.go)

    The director of the gRPC proxy: whatever the method, the connection is
    dialled to the URL of Prometheus. *)
Record grpc_status := MkStatus { grpc_code : string; grpc_message : string }.
Definition grpcBackend {Conn : Type} (DialContext : string → result error Conn) (a : agentConfig)
    (fullMethodName : string) : result grpc_status Conn :=
  match DialContext (proxyURL a) with
  | Error _ => Error (MkStatus "Unavailable" "Unavailable endpoint")
  | Ok con => Ok con
  end.

(** ** createAgent *)

(** What the libraries answer, in the order of the calls.  A URL is given
    by its text. *)
Record world := MkWorld {
  url_Parse : string → result error string;
  env_KUBECONFIG : string;
  BuildConfigFromFlags : string → result error string;
  InClusterConfig : result error string;
  Listen : string → error;
  NewClient : string → result error (string → ModelValue * error);
  NewSharedControllerFactory : error;
  AddIndexers_namespaces : error;
  AddIndexers_secrets : error;
  w_namespaces : NamespaceCache;
  w_secrets : SecretCache;
  w_accessStore : AccessSetLookup;
}.

(** The bearer token of the Kubernetes configuration. *)
Definition getKubeConfig (w : world) : result error string :=
  let kubeConfig := env_KUBECONFIG w in
  if bool_decide (kubeConfig ≠ EmptyString) then BuildConfigFromFlags w kubeConfig
  else InClusterConfig w.

Definition createAgent (w : world) (cfg : agentConfig) : result error agent :=
  let err := Listen w (listenAddress cfg) in
  if negb (is_nil err)
  then Error (Annotatef err ("unable to listen on addr " +:+ listenAddress cfg))
  else
    match NewClient w (proxyURL cfg) with
    | Error err => Error (Annotate err "unable to new Prometheus client")
    | Ok promClient =>
        match getKubeConfig w with
        | Error err => Error (Annotate err "unable to create Kubernetes config")
        | Ok bearerToken =>
            let err := NewSharedControllerFactory w in
            if negb (is_nil err) then Error err
            else
              let err := AddIndexers_namespaces w in
              if negb (is_nil err) then Error (Annotate err "unable to add namespace indexer")
              else
                let err := AddIndexers_secrets w in
                if negb (is_nil err) then Error (Annotate err "unable to add secret indexer")
                else Ok (MkAgent (filterReaderLabelSet cfg) (w_accessStore w)
                           (MkNamespaces (monitoringNamespace cfg) (w_namespaces w) (w_accessStore w))
                           (w_secrets w) promClient bearerToken)
        end
    end.

(** ** serve

    The goroutines of the three servers and the [select] of the caller.  A
    goroutine that was started has called its server or not yet.  The
    server of gRPC has left its loop before it returns: [Leaving] is its
    deferred call, which waits for the end of a graceful stop. *)
Inductive server := HttpProxy | GrpcProxy | ListenerMux.
#[export] Instance server_eq_dec : EqDecision server.
Proof. solve_decision. Defined.

Inductive goroutine :=
| Starting
| Serving
| Leaving (err : error)
| Sending (err : error)
| Ended.

(** The caller waits, is inside [GracefulStop], is inside [Shutdown], or
    has returned. *)
Inductive caller :=
| Selecting
| Stopping
| ShuttingDown
| ReturnedWith (err : error).

(** What the caller asked the servers to do on its way out. *)
Inductive action := GracefulStop | Shutdown.
#[export] Instance action_eq_dec : EqDecision action.
Proof. solve_decision. Defined.

Record serving := MkServing {
  routine : server → goroutine;
  grpc_conns : nat;
  ctx_done : bool;
  main : caller;
  actions : list action;
}.

Definition annotation (cfg : agentConfig) (s : server) (err : error) : error :=
  match s with
  | HttpProxy => Annotate err "failed to start proxy http listener"
  | GrpcProxy => Annotate err "failed to start proxy grpc listener"
  | ListenerMux => Annotatef err ("failed to listen on " +:+ listenAddress cfg)
  end.

Definition set_routine (f : server → goroutine) (s : server) (g : goroutine) : server → goroutine :=
  λ s', if decide (s' = s) then g else f s'.

Definition with_routine (st : serving) (s : server) (g : goroutine) : serving :=
  MkServing (set_routine (routine st) s g) (grpc_conns st) (ctx_done st) (main st) (actions st).
Definition with_conns (st : serving) (n : nat) : serving :=
  MkServing (routine st) n (ctx_done st) (main st) (actions st).
Definition with_main (st : serving) (c : caller) (l : list action) : serving :=
  MkServing (routine st) (grpc_conns st) (ctx_done st) c l.

(** [s.quit.HasFired()] and [s.done.HasFired()] of the gRPC server: its
    graceful stop has begun, and is over. *)
Definition quit_fired (st : serving) : bool := bool_decide (GracefulStop ∈ actions st).
Definition done_fired (st : serving) : bool := bool_decide (Shutdown ∈ actions st).

(** What a goroutine does with what its server returned. *)
Definition server_returned (cfg : agentConfig) (s : server) (err : error) : goroutine :=
  if negb (is_nil err) then Sending (annotation cfg s err) else Ended.

(** [GracefulStop] waits for the loop of the server ([serveWG]), and then
    for its connections. *)
Definition GracefulStop_over (st : serving) : bool :=
  match routine st GrpcProxy with Serving => false | _ => bool_decide (grpc_conns st = 0) end.

(** [controllerFactory.Start]: its error is returned at once. *)
Definition serve_start (start_error : error) : serving :=
  if negb (is_nil start_error)
  then MkServing (λ _, Ended) 0 false (ReturnedWith start_error) []
  else MkServing (λ _, Starting) 0 false Selecting [].

Definition ErrServerStopped : error := Foreign "grpc: the server has been stopped".

(** The channel of the errors has no buffer: a goroutine that failed waits
    until the caller takes its error.  The servers of HTTP and of the
    multiplexer return with an error only; that of gRPC returns at once
    when it was stopped before it served, and returns nil when its listener
    fails after that.  [Shutdown] gets a context that is done, so that it
    does not wait for its connections. *)
Inductive serve_step (cfg : agentConfig) : serving → serving → Prop :=
| server_starts s st :
    routine st s = Starting → ¬ (s = GrpcProxy ∧ quit_fired st = true) →
    serve_step cfg st (with_routine st s Serving)
| server_stopped st :
    routine st GrpcProxy = Starting → quit_fired st = true →
    serve_step cfg st (with_routine st GrpcProxy (server_returned cfg GrpcProxy ErrServerStopped))
| server_fails s st err :
    routine st s = Serving → s ≠ GrpcProxy → err ≠ ErrNil →
    serve_step cfg st (with_routine st s (server_returned cfg s err))
| grpc_leaves st err :
    routine st GrpcProxy = Serving → err ≠ ErrNil →
    serve_step cfg st (with_routine st GrpcProxy (Leaving (if quit_fired st then ErrNil else err)))
| grpc_returns st err :
    routine st GrpcProxy = Leaving err → quit_fired st = false ∨ done_fired st = true →
    serve_step cfg st (with_routine st GrpcProxy (server_returned cfg GrpcProxy err))
| grpc_accepts st :
    routine st GrpcProxy = Serving →
    serve_step cfg st (with_conns st (S (grpc_conns st)))
| grpc_closes st n :
    grpc_conns st = S n → serve_step cfg st (with_conns st n)
| error_received s st err :
    main st = Selecting → routine st s = Sending err →
    serve_step cfg st (with_main (with_routine st s Ended) (ReturnedWith err) (actions st))
| context_done st :
    main st = Selecting → ctx_done st = true →
    serve_step cfg st (with_main st Stopping [GracefulStop])
| gracefully_stopped st :
    main st = Stopping → GracefulStop_over st = true →
    serve_step cfg st (with_main st ShuttingDown [GracefulStop; Shutdown])
| shut_down st :
    main st = ShuttingDown → serve_step cfg st (with_main st (ReturnedWith ErrNil) (actions st)).

(** With somebody else cancelling the context. *)
Inductive serve_env_step (cfg : agentConfig) : serving → serving → Prop :=
| own_step st st' : serve_step cfg st st' → serve_env_step cfg st st'
| context_cancelled st :
    serve_env_step cfg st (MkServing (routine st) (grpc_conns st) true (main st) (actions st)).

(** *** Run, until it serves *)
Definition Run_prepare (w : world) (cli : cliContext) : ending + agentConfig * agent :=
  let proxyURLString := cli_proxy_url cli in
  if bool_decide (String.length proxyURLString = 0)
  then inl (Fatal "--agent.proxy-url is blank" ErrNil)
  else
    match url_Parse w proxyURLString with
    | Error err => inl (Fatal "Unable to parse agent.proxy-url" ErrNil)
    | Ok proxyURL =>
        let cfg := MkConfig (cli_listen_address cli) proxyURL (cli_read_timeout cli)
                     (cli_max_connections cli) (DataSet.NewSet (cli_filter_reader_labels cli))
                     (cli_monitoring_namespace cli) in
        match createAgent w cfg with
        | Error err => inl (Fatal "Failed to create agent" err)
        | Ok reader => inr (cfg, reader)
        end
    end.

(** The context of the agent is cancelled by the deferred call of [Run]
    only, after [serve]. *)
Inductive Run (w : world) (cli : cliContext) (start_error : error) : ending → Prop :=
| Run_refused e : Run_prepare w cli = inl e → Run w cli start_error e
| Run_served cfg reader st err :
    Run_prepare w cli = inr (cfg, reader) →
    rtc (serve_step cfg) (serve_start start_error) st → main st = ReturnedWith err →
    Run w cli start_error (if is_nil err then Returned else Fatal "Failed to serve" err).

(** ** Lemmas *)
Section Serve.
Context (cfg : agentConfig) (start_error : error).

Lemma GracefulStop_over_spec st :
  GracefulStop_over st = true ↔ routine st GrpcProxy ≠ Serving ∧ grpc_conns st = 0.
Proof.
  unfold GracefulStop_over. destruct (routine st GrpcProxy); rewrite ?bool_decide_eq_true; naive_solver.
Qed.

(** Why the caller returned. *)
Definition reason (st : serving) (err : error) : Prop :=
  (err = start_error ∧ start_error ≠ ErrNil ∧ actions st = []) ∨
  (err = ErrNil ∧ ctx_done st = true ∧ actions st = [GracefulStop; Shutdown]) ∨
  (actions st = [] ∧ ∃ s e, e ≠ ErrNil ∧ err = annotation cfg s e).

(** Where the caller is, and what it has asked for by then. *)
Definition caller_inv (st : serving) : Prop :=
  match main st with
  | Selecting => actions st = []
  | Stopping => ctx_done st = true ∧ actions st = [GracefulStop]
  | ShuttingDown => ctx_done st = true ∧ actions st = [GracefulStop; Shutdown]
  | ReturnedWith err => reason st err
  end.

(** An error on its way is that of a server. *)
Definition errors_inv (st : serving) : Prop :=
  ∀ s err, routine st s = Sending err → ∃ e, e ≠ ErrNil ∧ err = annotation cfg s e.

Lemma set_routine_inv f s g s' err :
  set_routine f s g s' = Sending err → (s' = s ∧ g = Sending err) ∨ f s' = Sending err.
Proof. unfold set_routine. case_decide; auto. Qed.

Lemma server_returned_inv s err err' :
  server_returned cfg s err = Sending err' → err ≠ ErrNil ∧ err' = annotation cfg s err.
Proof. unfold server_returned. destruct err; cbn; by intros [= <-]. Qed.

Lemma with_routine_errors st s g :
  (∀ err, g = Sending err → ∃ e, e ≠ ErrNil ∧ err = annotation cfg s e) →
  errors_inv st → errors_inv (with_routine st s g).
Proof. intros Hg Hst s' err [[-> Hs]|Hs]%set_routine_inv; [by apply Hg|by apply Hst]. Qed.

Lemma server_returned_errors st s err :
  errors_inv st → errors_inv (with_routine st s (server_returned cfg s err)).
Proof. apply with_routine_errors. intros err' He%server_returned_inv. eauto. Qed.

Lemma serve_step_errors st st' : serve_step cfg st st' → errors_inv st → errors_inv st'.
Proof.
  intros Hstep. destruct Hstep; intros Hst; try exact Hst;
    try (by apply server_returned_errors); by apply with_routine_errors.
Qed.

Lemma serve_step_caller st st' :
  serve_step cfg st st' → errors_inv st → caller_inv st → caller_inv st'.
Proof.
  intros Hstep Hsend. unfold caller_inv.
  destruct Hstep as [| | | | | | |s st err Hm Hs|st Hm Hd|st Hm Ho|st Hm]; cbn;
    [exact id..| | | |]; rewrite Hm.
  - intros Ha. right; right. split; [done|]. destruct (Hsend s err Hs) as (e & He & ->). by exists s, e.
  - by intros _.
  - by intros [Hd _].
  - intros [Hd Ha]. right; left. by split_and!.
Qed.

Lemma serve_start_inv : errors_inv (serve_start start_error) ∧ caller_inv (serve_start start_error).
Proof.
  unfold serve_start, errors_inv, caller_inv, reason.
  destruct start_error; cbn; (split; [done|]); [done|..].
  all: by left; split_and!.
Qed.

Lemma serve_env_step_inv st st' :
  serve_env_step cfg st st' → errors_inv st ∧ caller_inv st → errors_inv st' ∧ caller_inv st'.
Proof.
  intros [st1 st2 Hstep|st1] [Hsend Hmain].
  - split; [by eapply serve_step_errors|by eapply serve_step_caller].
  - split; [exact Hsend|]. unfold caller_inv, reason in *. cbn. destruct (main st1); naive_solver.
Qed.

Lemma serve_reachable_inv st :
  rtc (serve_env_step cfg) (serve_start start_error) st → errors_inv st ∧ caller_inv st.
Proof.
  apply (rtc_ind_r (λ st, errors_inv st ∧ caller_inv st) _ serve_start_inv).
  intros st1 st2 _ Hstep Hinv. by eapply serve_env_step_inv.
Qed.

Lemma serve_step_ctx st st' : serve_step cfg st st' → ctx_done st' = ctx_done st.
Proof. by destruct 1. Qed.

(** Without a cancellation the context is not done. *)
Lemma serve_own_reachable st :
  rtc (serve_step cfg) (serve_start start_error) st → caller_inv st ∧ ctx_done st = false.
Proof.
  intros Hr. split.
  - apply serve_reachable_inv. eapply rtc_subrel; [|exact Hr]. intros ??. apply own_step.
  - revert Hr. apply (rtc_ind_r (λ st, ctx_done st = false)).
    + unfold serve_start. by destruct start_error.
    + intros st1 st2 _ Hstep Hd. by rewrite (serve_step_ctx _ _ Hstep).
Qed.

Lemma sending_stuck st st' s err :
  serve_env_step cfg st st' → main st ≠ Selecting → routine st s = Sending err →
  routine st' s = Sending err.
Proof.
  intros [st1 st2 Hstep|st1]; [|done].
  destruct Hstep; cbn; intros Hm Hs; try done;
    unfold set_routine; case_decide; subst; congruence.
Qed.

(** The graceful stop ends in one way. *)
Lemma stopping_waits st st' :
  serve_env_step cfg st st' → main st = Stopping → main st' ≠ Stopping →
  GracefulStop_over st = true.
Proof. intros [st1 st2 Hstep|st1]; [|done]. destruct Hstep; cbn; congruence. Qed.

Lemma selecting_waits st st' :
  serve_env_step cfg st st' → main st = Selecting → main st' ≠ Selecting →
  ctx_done st = true ∨ ∃ s e, routine st s = Sending e.
Proof. intros [st1 st2 Hstep|st1]; [|done]. destruct Hstep; cbn; try congruence; eauto. Qed.

(** ** Properties *)

(** C39. How [serve] ends.  While it waits, it goes on only for an error of
    a server, which it can return, or because the context is done, and then
    it can begin to stop.  The graceful stop of the gRPC server lasts as
    long as that server is in its loop or has connections, whatever the
    others do, and no longer; the shutdown after it ends at once.  [serve]
    returns the error of the controllers, before anything is started, or
    nil, after both stops, or the annotated error of one server, and then
    it stops nothing.  Once it is out of its [select], a goroutine with an
    error waits forever. *)
Theorem serve_outcome (st : serving)
    (Hst : rtc (serve_env_step cfg) (serve_start start_error) st) :
  match main st with
  | Selecting =>
      actions st = [] ∧
      (∀ s e, routine st s = Sending e →
        ∃ st', serve_step cfg st st' ∧ main st' = ReturnedWith e ∧ actions st' = []) ∧
      (ctx_done st = true →
        ∃ st', serve_step cfg st st' ∧ main st' = Stopping ∧ actions st' = [GracefulStop]) ∧
      (∀ st', serve_env_step cfg st st' → main st' ≠ Selecting →
        ctx_done st = true ∨ ∃ s e, routine st s = Sending e)
  | Stopping =>
      ctx_done st = true ∧ actions st = [GracefulStop] ∧
      (∀ st', serve_env_step cfg st st' → main st' ≠ Stopping →
        routine st GrpcProxy ≠ Serving ∧ grpc_conns st = 0) ∧
      (routine st GrpcProxy ≠ Serving → grpc_conns st = 0 →
        ∃ st', serve_step cfg st st' ∧ main st' = ShuttingDown ∧ actions st' = [GracefulStop; Shutdown])
  | ShuttingDown =>
      ctx_done st = true ∧ actions st = [GracefulStop; Shutdown] ∧
      ∃ st', serve_step cfg st st' ∧ main st' = ReturnedWith ErrNil
  | ReturnedWith err => reason st err
  end ∧
  (main st ≠ Selecting → ∀ s e st', routine st s = Sending e →
    serve_env_step cfg st st' → routine st' s = Sending e).
Proof.
  pose proof (serve_reachable_inv st Hst) as [_ Hinv]. unfold caller_inv in Hinv.
  split; [|intros Hm s e st' Hs Hstep; by eapply sending_stuck].
  destruct (main st) as [| | |err] eqn:Hm.
  - split_and!; [done| | |].
    + intros s e Hs. eexists. split; [by apply (error_received cfg s)|done].
    + intros Hd. eexists. split; [by apply context_done|done].
    + intros st' Hstep. by apply selecting_waits.
  - destruct Hinv as [Hd Ha]. split_and!; [done|done| |].
    + intros st' Hstep Hm'. by apply GracefulStop_over_spec, (stopping_waits st st').
    + intros Hr Hc. eexists. split; [apply gracefully_stopped; [done|]|done].
      by apply GracefulStop_over_spec.
  - destruct Hinv as [Hd Ha]. split_and!; [done|done|]. eexists. split; [by apply shut_down|done].
  - exact Hinv.
Qed.
End Serve.

(** C40. The agent never ends well: since nothing but the deferred call of
    [Run] cancels its context, [serve] returns with an error only, and
    every end of [Run] is fatal; the graceful stop is never reached. *)
Theorem Run_ends_fatal (w : world) (cli : cliContext) (start_error : error) (e : ending)
    (Hrun : Run w cli start_error e) :
  ∃ message err, e = Fatal message err ∧
    (message = "Failed to serve" → err ≠ ErrNil).
Proof.
  destruct Hrun as [e Hp|cfg reader st err Hp Hr Hm].
  - unfold Run_prepare in Hp. case_bool_decide; [injection Hp as <-; by eexists _, _|].
    destruct (url_Parse _ _); [|injection Hp as <-; by eexists _, _].
    destruct (createAgent _ _); [done|]. injection Hp as <-. by eexists _, _.
  - destruct (serve_own_reachable cfg start_error st Hr) as [Hinv Hd].
    unfold caller_inv in Hinv. rewrite Hm in Hinv.
    assert (err ≠ ErrNil) as He.
    { destruct Hinv as [(-> & Hs & _)|[(_ & Hdone & _)|(_ & s & e & He & ->)]]; [done|congruence|].
      destruct s, e; done. }
    exists "Failed to serve", err. by destruct err.
Qed.

(** ** Witnesses *)
Module EntryExamples.

Definition world1 : world := MkWorld (λ s, Ok s) EmptyString (λ _, Error (Foreign "no file"))
  (Ok "own") (λ _, ErrNil) (λ _, Ok (λ _, (NilValue, ErrNil))) ErrNil ErrNil ErrNil
  ([], ErrNil) (λ _ _, ([], ErrNil)) (λ _, MkAccessSet EmptyString ∅).
Definition cfg1 : agentConfig :=
  MkConfig ":9090" "http://localhost:9999" (5 * 60 * 1000000000) 512 (DataSet.NewSet []) "cattle-prometheus".

Example cfg1_text :
  agentConfig_String cfg1 = "listening on :9090, proxying to http://localhost:9999 with ignoring 'remote reader' labels [], only allow maximum 512 connections with 5m0s read timeout .".
Proof. vm_compute. reflexivity. Qed.
Example durations :
  time_Duration_String <$> [1500; 90061001000000; -2500000000]%Z =
  ["1.5" +:+ micro +:+ "s"; "25h1m1.001s"; "-2.5s"].
Proof. vm_compute. reflexivity. Qed.

(** The gRPC server fails, and the caller takes its error. *)
Definition refused_port : error := Foreign "bind: permission denied".
Definition grpc_error : error := annotation cfg1 GrpcProxy refused_port.
Definition failed : serving :=
  let st := with_routine (serve_start ErrNil) GrpcProxy Serving in
  let st := with_routine st GrpcProxy (Leaving refused_port) in
  let st := with_routine st GrpcProxy (Sending grpc_error) in
  with_main (with_routine st GrpcProxy Ended) (ReturnedWith grpc_error) [].

Lemma failed_reachable : rtc (serve_step cfg1) (serve_start ErrNil) failed.
Proof.
  eapply rtc_l; [apply (server_starts cfg1 GrpcProxy); [done|by intros [_ ?]]|].
  eapply rtc_l; [by apply (grpc_leaves cfg1 _ refused_port)|].
  eapply rtc_l; [apply (grpc_returns cfg1 _ refused_port); [done|by left]|].
  eapply rtc_l; [by apply (error_received cfg1 GrpcProxy)|]. apply rtc_refl.
Qed.

(** The context is done while the gRPC server serves one connection: the
    graceful stop waits, for the connection and for the loop. *)
Definition stopping : serving :=
  let st := with_conns (with_routine (serve_start ErrNil) GrpcProxy Serving) 1 in
  with_main (MkServing (routine st) 1 true (main st) (actions st)) Stopping [GracefulStop].

Lemma stopping_reachable : rtc (serve_env_step cfg1) (serve_start ErrNil) stopping.
Proof.
  eapply rtc_l; [apply own_step, (server_starts cfg1 GrpcProxy); [done|by intros [_ ?]]|].
  eapply rtc_l; [by apply own_step, grpc_accepts|].
  eapply rtc_l; [apply context_cancelled|].
  eapply rtc_l; [by apply own_step, context_done|]. apply rtc_refl.
Qed.

Lemma serve_outcome_witness :
  reason cfg1 ErrNil failed grpc_error ∧
  (serve_env_step cfg1 stopping (with_main stopping ShuttingDown [GracefulStop; Shutdown]) → False).
Proof.
  split.
  - refine (proj1 (serve_outcome cfg1 ErrNil failed _)).
    eapply rtc_subrel; [|apply failed_reachable]. intros st st' Hs. by apply own_step.
  - intros Hstep.
    destruct (serve_outcome cfg1 ErrNil stopping stopping_reachable) as [(_ & _ & Hwait & _) _].
    destruct (Hwait _ Hstep ltac:(discriminate)) as [Hs _]. by apply Hs.
Defined.

Lemma Run_ends_fatal_witness :
  ∃ message err, Fatal "Failed to serve" grpc_error = Fatal message err ∧
    (message = "Failed to serve" → err ≠ ErrNil).
Proof.
  apply (Run_ends_fatal world1 app_Flags ErrNil).
  exact (Run_served world1 app_Flags ErrNil cfg1 _ failed grpc_error
    eq_refl failed_reachable eq_refl).
Defined.
End EntryExamples.
