(* ===== verification/Samples.v ===== *)
(** * The scenarios of the tests (src/pkg/agent/samples)

    The requests that http_test.go sends to an agent in front of a
    Prometheus server with a few series, and the response it demands for
    each: common.go, series.go, label.go, federate.go, query.go and read.go,
    table for table.  [Conformance] runs them. *)
From S2P Require Import Prelude GoStrings GoFloat Regexp Matchers Promql Http ApiContext.
From stdpp Require Import options.

(** ** common.go

    A response body is a text, or what [jsonResponseData] encodes. *)
Notation sample_labels := (list (string * string)).

(** The values of promql: the point of a sample is its value and its time
    in milliseconds; [None] is a nil metric. *)
Inductive Result_ :=
| Scalar (V : float64) (T : Z)
| Vector (samples : list (option sample_labels * (float64 * Z)))
| Matrix (series : list (option sample_labels * list (float64 * Z))).

Inductive response_data :=
| Strings (l : list string)
| LabelSets (l : list sample_labels)
| QueryData (ResultType : ValueType) (Result : Result_).

Inductive response_body :=
| Text (s : string)
| Success (Data : response_data)
| Failure (ErrorType Error : string).

(** The labels and the samples of a series in a remote read. *)
#[export] Instance sample_messages : PromMessages := {|
  ReadHints := Z * string;
  TimeSeries := sample_labels * list (float64 * Z);
  MetricFamily := unit;
|}.

Record Scenario := MkScenario {
  Endpoint : string;
  Queries_ : list (string * list string);
  Params : list (string * string);
  PrompbQueries : list Query;
  RespCode : Z;
  RespBody : response_body;
}.

Definition float (s : string) : float64 :=
  match ParseFloat s with Ok x => x | Error _ => of_Z 0 end.

Definition test_metric1_ns_a : sample_labels :=
  [("__name__", "test_metric1"); ("foo", "bar"); ("namespace", "ns-a")].

(** ** series.go, label.go, federate.go, query.go *)
Definition NoneNamespacesTokenSeriesScenarios_1 : list (string * Scenario) := [
  ("missing match[] query Params in series requests", MkScenario EmptyString [] [] []
    StatusBadRequest (Failure "bad_data" "no match[] parameter provided"));
  ("bad match[] `invalid][query`", MkScenario EmptyString [("match[]", ["invalid][query"])] []
    [] StatusBadRequest (Failure "bad_data" "1:8: parse error: unexpected right bracket ']'"));
  ("test_metric1", MkScenario EmptyString [("match[]", ["test_metric1"])] [] [] StatusOK
    (Success (LabelSets [])));
  ("test_metric1{namespace='ns-c'}", MkScenario EmptyString [("match[]",
    ["test_metric1{namespace='ns-c'}"])] [] [] StatusOK (Success (LabelSets [])));
  ("test_metric2{foo='boo'}", MkScenario EmptyString [("match[]", ["test_metric2{foo='boo'}"])]
    [] [] StatusOK (Success (LabelSets [])));
  ("{foo='boo'}", MkScenario EmptyString [("match[]", ["{foo='boo'}"])] [] [] StatusOK (Success
    (LabelSets [])));
  ("two matches", MkScenario EmptyString [("match[]", [("test_metric1{foo=~" +:+ dquote +:+
    ".+o$" +:+ dquote +:+ "}"); ("test_metric1{foo=~" +:+ dquote +:+ ".+o" +:+ dquote +:+
    "}")])] [] [] StatusOK (Success (LabelSets [])));
  ("two matches, but one is `none`", MkScenario EmptyString [("match[]", [("test_metric2{foo=~"
    +:+ dquote +:+ ".+o" +:+ dquote +:+ "}"); "none"])] [] [] StatusOK (Success (LabelSets [])));
  ("test_metric_without_labels", MkScenario EmptyString [("match[]",
    ["test_metric_without_labels"])] [] [] StatusOK (Success (LabelSets [])));
  ("does_not_match_anything", MkScenario EmptyString [("match[]", ["does_not_match_anything"])]
    [] [] StatusOK (Success (LabelSets [])));
  ("start and end before series starts", MkScenario EmptyString [("match[]", ["test_metric1"]);
    ("start", ["-2"]); ("end", ["-1"])] [] [] StatusOK (Success (LabelSets [])));
  ("start and end after series ends", MkScenario EmptyString [("match[]", ["test_metric1"]);
    ("start", ["100000"]); ("end", ["100001"])] [] [] StatusOK (Success (LabelSets [])));
  ("start and end within series", MkScenario EmptyString [("match[]", ["test_metric1"]);
    ("start", ["1"]); ("end", ["100"])] [] [] StatusOK (Success (LabelSets [])))
].

Definition NoneNamespacesTokenSeriesScenarios_2 : list (string * Scenario) := [
  ("start within series, end after", MkScenario EmptyString [("match[]", ["test_metric1"]);
    ("start", ["1"]); ("end", ["100000"])] [] [] StatusOK (Success (LabelSets [])));
  ("start before series, end within series", MkScenario EmptyString [("match[]",
    ["test_metric1"]); ("start", ["-1"]); ("end", ["1"])] [] [] StatusOK (Success (LabelSets
    [])))
].

Definition NoneNamespacesTokenSeriesScenarios : list (string * Scenario) :=
  NoneNamespacesTokenSeriesScenarios_1 ++ NoneNamespacesTokenSeriesScenarios_2.

Definition SomeNamespacesTokenSeriesScenarios_1 : list (string * Scenario) := [
  ("missing match[] query Params in series requests", MkScenario EmptyString [] [] []
    StatusBadRequest (Failure "bad_data" "no match[] parameter provided"));
  ("bad match[] `invalid][query`", MkScenario EmptyString [("match[]", ["invalid][query"])] []
    [] StatusBadRequest (Failure "bad_data" "1:8: parse error: unexpected right bracket ']'"));
  ("test_metric1", MkScenario EmptyString [("match[]", ["test_metric1"])] [] [] StatusOK
    (Success (LabelSets [test_metric1_ns_a])));
  ("test_metric1{namespace='ns-c'}", MkScenario EmptyString [("match[]",
    ["test_metric1{namespace='ns-c'}"])] [] [] StatusOK (Success (LabelSets [])));
  ("test_metric2{foo='boo'}", MkScenario EmptyString [("match[]", ["test_metric2{foo='boo'}"])]
    [] [] StatusOK (Success (LabelSets [])));
  ("{foo='boo'}", MkScenario EmptyString [("match[]", ["{foo='boo'}"])] [] [] StatusOK (Success
    (LabelSets [])));
  ("two matches", MkScenario EmptyString [("match[]", [("test_metric1{foo=~" +:+ dquote +:+
    ".+o$" +:+ dquote +:+ "}"); ("test_metric1{foo=~" +:+ dquote +:+ ".+o" +:+ dquote +:+
    "}")])] [] [] StatusOK (Success (LabelSets [])));
  ("two matches, but one is `none`", MkScenario EmptyString [("match[]", [("test_metric2{foo=~"
    +:+ dquote +:+ ".+o" +:+ dquote +:+ "}"); "none"])] [] [] StatusOK (Success (LabelSets [])));
  ("test_metric_without_labels", MkScenario EmptyString [("match[]",
    ["test_metric_without_labels"])] [] [] StatusOK (Success (LabelSets [])));
  ("does_not_match_anything", MkScenario EmptyString [("match[]", ["does_not_match_anything"])]
    [] [] StatusOK (Success (LabelSets [])));
  ("start and end before series starts", MkScenario EmptyString [("match[]", ["test_metric1"]);
    ("start", ["-2"]); ("end", ["-1"])] [] [] StatusOK (Success (LabelSets [])));
  ("start and end after series ends", MkScenario EmptyString [("match[]", ["test_metric1"]);
    ("start", ["100000"]); ("end", ["100001"])] [] [] StatusOK (Success (LabelSets [])));
  ("start and end within series", MkScenario EmptyString [("match[]", ["test_metric1"]);
    ("start", ["1"]); ("end", ["100"])] [] [] StatusOK (Success (LabelSets
    [test_metric1_ns_a])))
].

Definition SomeNamespacesTokenSeriesScenarios_2 : list (string * Scenario) := [
  ("start within series, end after", MkScenario EmptyString [("match[]", ["test_metric1"]);
    ("start", ["1"]); ("end", ["100000"])] [] [] StatusOK (Success (LabelSets
    [test_metric1_ns_a])));
  ("start before series, end within series", MkScenario EmptyString [("match[]",
    ["test_metric1"]); ("start", ["-1"]); ("end", ["1"])] [] [] StatusOK (Success (LabelSets
    [test_metric1_ns_a])))
].

Definition SomeNamespacesTokenSeriesScenarios : list (string * Scenario) :=
  SomeNamespacesTokenSeriesScenarios_1 ++ SomeNamespacesTokenSeriesScenarios_2.

Definition NoneNamespacesTokenLabelScenarios : list (string * Scenario) := [
  ("bad value `invalid][query`", MkScenario EmptyString [] [("name", "invalid][query")] []
    StatusBadRequest (Failure "bad_data" ("invalid label name: " +:+ dquote +:+ "invalid][query"
    +:+ dquote)));
  ("__name__", MkScenario EmptyString [] [("name", "__name__")] [] StatusOK (Success (Strings
    [])));
  ("namespace", MkScenario EmptyString [] [("name", "namespace")] [] StatusOK (Success (Strings
    [])));
  ("foo", MkScenario EmptyString [] [("name", "foo")] [] StatusOK (Success (Strings ["bar";
    "boo"])));
  ("does_not_match_anything", MkScenario EmptyString [] [("name", "does_not_match_anything")] []
    StatusOK (Success (Strings [])));
  ("test_metric_without_labels", MkScenario EmptyString [] [("name",
    "test_metric_without_labels")] [] StatusOK (Success (Strings [])))
].

Definition SomeNamespacesTokenLabelScenarios : list (string * Scenario) := [
  ("bad value `invalid][query`", MkScenario EmptyString [] [("name", "invalid][query")] []
    StatusBadRequest (Failure "bad_data" ("invalid label name: " +:+ dquote +:+ "invalid][query"
    +:+ dquote)));
  ("__name__", MkScenario EmptyString [] [("name", "__name__")] [] StatusOK (Success (Strings
    ["test_metric1"])));
  ("namespace", MkScenario EmptyString [] [("name", "namespace")] [] StatusOK (Success (Strings
    ["ns-a"; "ns-b"])));
  ("foo", MkScenario EmptyString [] [("name", "foo")] [] StatusOK (Success (Strings ["bar";
    "boo"])));
  ("does_not_match_anything", MkScenario EmptyString [] [("name", "does_not_match_anything")] []
    StatusOK (Success (Strings [])));
  ("test_metric_without_labels", MkScenario EmptyString [] [("name",
    "test_metric_without_labels")] [] StatusOK (Success (Strings [])))
].

Definition NoneNamespacesTokenFederateScenarios : list (string * Scenario) := [
  ("empty", MkScenario EmptyString [] [] [] StatusOK (Text EmptyString));
  ("match nothing", MkScenario EmptyString [("match[]", ["does_not_match_anything"])] [] []
    StatusOK (Text EmptyString));
  ("invalid Params from the beginning", MkScenario EmptyString [("match[]",
    ["-not-a-valid-metric-name"])] [] [] StatusBadRequest (Text
    ("1:1: parse error: unexpected <op:->" +:+ newline)));
  ("invalid Params somewhere in the middle", MkScenario EmptyString [("match[]",
    ["not-a-valid-metric-name"])] [] [] StatusBadRequest (Text
    ("1:4: parse error: unexpected <op:->" +:+ newline)));
  ("test_metric1", MkScenario EmptyString [("match[]", ["test_metric1"])] [] [] StatusOK (Text
    EmptyString));
  ("test_metric2", MkScenario EmptyString [("match[]", ["test_metric2"])] [] [] StatusOK (Text
    EmptyString));
  ("test_metric_without_labels", MkScenario EmptyString [("match[]",
    ["test_metric_without_labels"])] [] [] StatusOK (Text EmptyString));
  ("test_stale_metric", MkScenario EmptyString [("match[]", ["test_metric_stale"])] [] []
    StatusOK (Text EmptyString));
  ("test_old_metric", MkScenario EmptyString [("match[]", ["test_metric_old"])] [] [] StatusOK
    (Text EmptyString));
  ("{foo='boo'}", MkScenario EmptyString [("match[]", ["{foo='boo'}"])] [] [] StatusOK (Text
    EmptyString));
  ("{namespace='ns-c'}", MkScenario EmptyString [("match[]", ["{namespace='ns-c'}"])] [] []
    StatusOK (Text EmptyString));
  ("two matchers", MkScenario EmptyString [("match[]", ["test_metric1"; "test_metric2"])] [] []
    StatusOK (Text EmptyString));
  ("everything", MkScenario EmptyString [("match[]", ["{__name__=~'.+'}"])] [] [] StatusOK (Text
    EmptyString));
  ("empty existing label value matches everything that doesn't have that label", MkScenario
    EmptyString [("match[]", ["{foo='',__name__=~'.+'}"])] [] [] StatusOK (Text EmptyString));
  ("empty none-existing label value matches everything", MkScenario EmptyString [("match[]",
    ["{bar='',__name__=~'.+'}"])] [] [] StatusOK (Text EmptyString));
  ("empty `namespace` label value matches everything", MkScenario EmptyString [("match[]",
    ["{namespace='',__name__=~'.+'}"])] [] [] StatusOK (Text EmptyString))
].

Definition SomeNamespacesTokenFederateScenarios : list (string * Scenario) := [
  ("empty", MkScenario EmptyString [] [] [] StatusOK (Text EmptyString));
  ("match nothing", MkScenario EmptyString [("match[]", ["does_not_match_anything"])] [] []
    StatusOK (Text EmptyString));
  ("invalid Params from the beginning", MkScenario EmptyString [("match[]",
    ["-not-a-valid-metric-name"])] [] [] StatusBadRequest (Text
    ("1:1: parse error: unexpected <op:->" +:+ newline)));
  ("invalid Params somewhere in the middle", MkScenario EmptyString [("match[]",
    ["not-a-valid-metric-name"])] [] [] StatusBadRequest (Text
    ("1:4: parse error: unexpected <op:->" +:+ newline)));
  ("test_metric1", MkScenario EmptyString [("match[]", ["test_metric1"])] [] [] StatusOK (Text
    ("# TYPE test_metric1 untyped" +:+ newline +:+ "test_metric1{foo=" +:+ dquote +:+ "bar" +:+
    dquote +:+ ",namespace=" +:+ dquote +:+ "ns-a" +:+ dquote +:+ ",instance=" +:+ dquote +:+
    dquote +:+ ",prometheus=" +:+ dquote +:+ "cluster-level/test" +:+ dquote +:+
    "} 10000 6000000" +:+ newline)));
  ("test_metric2", MkScenario EmptyString [("match[]", ["test_metric2"])] [] [] StatusOK (Text
    EmptyString));
  ("test_metric_without_labels", MkScenario EmptyString [("match[]",
    ["test_metric_without_labels"])] [] [] StatusOK (Text EmptyString));
  ("test_stale_metric", MkScenario EmptyString [("match[]", ["test_metric_stale"])] [] []
    StatusOK (Text EmptyString));
  ("test_old_metric", MkScenario EmptyString [("match[]", ["test_metric_old"])] [] [] StatusOK
    (Text EmptyString));
  ("{foo='boo'}", MkScenario EmptyString [("match[]", ["{foo='boo'}"])] [] [] StatusOK (Text
    EmptyString));
  ("{namespace='ns-c'}", MkScenario EmptyString [("match[]", ["{namespace='ns-c'}"])] [] []
    StatusOK (Text EmptyString));
  ("two matchers", MkScenario EmptyString [("match[]", ["test_metric1"; "test_metric2"])] [] []
    StatusOK (Text ("# TYPE test_metric1 untyped" +:+ newline +:+ "test_metric1{foo=" +:+ dquote
    +:+ "bar" +:+ dquote +:+ ",namespace=" +:+ dquote +:+ "ns-a" +:+ dquote +:+ ",instance=" +:+
    dquote +:+ dquote +:+ ",prometheus=" +:+ dquote +:+ "cluster-level/test" +:+ dquote +:+
    "} 10000 6000000" +:+ newline)));
  ("everything", MkScenario EmptyString [("match[]", ["{__name__=~'.+'}"])] [] [] StatusOK (Text
    ("# TYPE test_metric1 untyped" +:+ newline +:+ "test_metric1{foo=" +:+ dquote +:+ "bar" +:+
    dquote +:+ ",namespace=" +:+ dquote +:+ "ns-a" +:+ dquote +:+ ",instance=" +:+ dquote +:+
    dquote +:+ ",prometheus=" +:+ dquote +:+ "cluster-level/test" +:+ dquote +:+
    "} 10000 6000000" +:+ newline)));
  ("empty existing label value matches everything that doesn't have that label", MkScenario
    EmptyString [("match[]", ["{foo='',__name__=~'.+'}"])] [] [] StatusOK (Text EmptyString));
  ("empty none-existing label value matches everything", MkScenario EmptyString [("match[]",
    ["{bar='',__name__=~'.+'}"])] [] [] StatusOK (Text ("# TYPE test_metric1 untyped" +:+
    newline +:+ "test_metric1{foo=" +:+ dquote +:+ "bar" +:+ dquote +:+ ",namespace=" +:+ dquote
    +:+ "ns-a" +:+ dquote +:+ ",instance=" +:+ dquote +:+ dquote +:+ ",prometheus=" +:+ dquote
    +:+ "cluster-level/test" +:+ dquote +:+ "} 10000 6000000" +:+ newline)));
  ("empty `namespace` label value matches everything that doesn't have `namespace` label",
    MkScenario EmptyString [("match[]", ["{namespace='',__name__=~'.+'}"])] [] [] StatusOK (Text
    EmptyString))
].

Definition NoneNamespacesTokenQueryScenarios_1 : list (string * Scenario) := [
  ("query - none expression with time 1", MkScenario "/query" [("query", ["2"]); ("time",
    ["123.4"])] [] [] StatusOK (Success (QueryData ValueTypeScalar (Scalar (of_Z 2) 123400))));
  ("query - none expression with time 2", MkScenario "/query" [("query", ["0.333"]); ("time",
    ["1970-01-01T00:02:03Z"])] [] [] StatusOK (Success (QueryData ValueTypeScalar (Scalar (float
    "0.333") 123000))));
  ("query - bad query `invalid][query`", MkScenario "/query" [("query", ["invalid][query"])] []
    [] StatusBadRequest (Failure "bad_data" "1:8: parse error: unexpected right bracket ']'"));
  ("query - test_metric1", MkScenario "/query" [("query", ["test_metric1"])] [] [] StatusOK
    (Success (QueryData ValueTypeVector (Vector []))));
  ("query - test_metric1{namespace='ns-c'}", MkScenario "/query" [("query",
    ["test_metric1{namespace='ns-c'}"])] [] [] StatusOK (Success (QueryData ValueTypeVector
    (Vector []))));
  ("query - test_metric2{foo='boo'}", MkScenario "/query" [("query",
    ["test_metric2{foo='boo'}"])] [] [] StatusOK (Success (QueryData ValueTypeVector (Vector
    []))));
  ("query - test_metric_without_labels", MkScenario "/query" [("query",
    ["test_metric_without_labels"])] [] [] StatusOK (Success (QueryData ValueTypeVector (Vector
    []))));
  ("query - does_not_match_anything", MkScenario "/query" [("query",
    ["does_not_match_anything"])] [] [] StatusOK (Success (QueryData ValueTypeVector (Vector
    []))))
].

Definition NoneNamespacesTokenQueryScenarios_2 : list (string * Scenario) := [
  ("query_range - query=time()&start=0&end=2&step=1", MkScenario "/query_range" [("query",
    ["time()"]); ("start", ["0"]); ("end", ["2"]); ("step", ["1"])] [] [] StatusOK (Success
    (QueryData ValueTypeMatrix (Matrix [(None, [((of_Z 0), 0%Z); ((of_Z 1), 1000%Z); ((of_Z 2),
    2000%Z)])]))));
  ("query_range - query=time()&end=2&step=1", MkScenario "/query_range" [("query", ["time()"]);
    ("end", ["2"]); ("step", ["1"])] [] [] StatusBadRequest (Failure "bad_data" ("cannot parse "
    +:+ dquote +:+ dquote +:+ " to a valid timestamp")));
  ("query_range - bad query `invalid][query`", MkScenario "/query_range" [("query",
    ["invalid][query"]); ("start", ["0"]); ("end", ["100"]); ("step", ["1"])] [] []
    StatusBadRequest (Failure "bad_data" "1:8: parse error: unexpected right bracket ']'"));
  ("query_range - invalid step", MkScenario "/query_range" [("query", ["time()"]); ("start",
    ["1"]); ("end", ["2"]); ("step", ["0"])] [] [] StatusBadRequest (Failure "bad_data"
    "zero or negative query resolution step widths are not accepted. Try a positive integer"));
  ("query_range - start after end", MkScenario "/query_range" [("query", ["time()"]); ("start",
    ["2"]); ("end", ["1"]); ("step", ["1"])] [] [] StatusBadRequest (Failure "bad_data"
    "end timestamp must not be before start time"));
  ("query_range - start overflows int64 internally", MkScenario "/query_range" [("query",
    ["time()"]); ("start", ["148966367200.372"]); ("end", ["1489667272.372"]); ("step", ["1"])]
    [] [] StatusBadRequest (Failure "bad_data" "end timestamp must not be before start time"));
  ("query_range - test_metric1", MkScenario "/query_range" [("query", ["test_metric1"]);
    ("start", ["0"]); ("end", ["2"]); ("step", ["1"])] [] [] StatusOK (Success (QueryData
    ValueTypeMatrix (Matrix []))));
  ("query_range - test_metric1{namespace='ns-c'}", MkScenario "/query_range" [("query",
    ["test_metric1{namespace='ns-c'}"]); ("start", ["0"]); ("end", ["2"]); ("step", ["1"])] []
    [] StatusOK (Success (QueryData ValueTypeMatrix (Matrix []))))
].

Definition NoneNamespacesTokenQueryScenarios_3 : list (string * Scenario) := [
  ("query_range - test_metric2{foo='boo'}", MkScenario "/query_range" [("query",
    ["test_metric2{foo='boo'}"]); ("start", ["0"]); ("end", ["2"]); ("step", ["1"])] [] []
    StatusOK (Success (QueryData ValueTypeMatrix (Matrix []))));
  ("query_range - test_metric_without_labels", MkScenario "/query_range" [("query",
    ["test_metric_without_labels"]); ("start", ["0"]); ("end", ["2"]); ("step", ["1"])] [] []
    StatusOK (Success (QueryData ValueTypeMatrix (Matrix []))));
  ("query_range - does_not_match_anything", MkScenario "/query" [("query",
    ["does_not_match_anything"]); ("start", ["0"]); ("end", ["2"]); ("step", ["1"])] [] []
    StatusOK (Success (QueryData ValueTypeVector (Vector []))))
].

Definition NoneNamespacesTokenQueryScenarios : list (string * Scenario) :=
  NoneNamespacesTokenQueryScenarios_1 ++ NoneNamespacesTokenQueryScenarios_2 ++ NoneNamespacesTokenQueryScenarios_3.

Definition SomeNamespacesTokenQueryScenarios_1 : list (string * Scenario) := [
  ("query - none expression with time 1", MkScenario "/query" [("query", ["2"]); ("time",
    ["123.4"])] [] [] StatusOK (Success (QueryData ValueTypeScalar (Scalar (of_Z 2) 123400))));
  ("query - none expression with time 2", MkScenario "/query" [("query", ["0.333"]); ("time",
    ["1970-01-01T00:02:03Z"])] [] [] StatusOK (Success (QueryData ValueTypeScalar (Scalar (float
    "0.333") 123000))));
  ("query - bad query `invalid][query`", MkScenario "/query" [("query", ["invalid][query"])] []
    [] StatusBadRequest (Failure "bad_data" "1:8: parse error: unexpected right bracket ']'"));
  ("query - test_metric1", MkScenario "/query" [("query", ["test_metric1"])] [] [] StatusOK
    (Success (QueryData ValueTypeVector (Vector [((Some test_metric1_ns_a), ((of_Z 0),
    0%Z))]))));
  ("query - test_metric1{namespace='ns-c'}", MkScenario "/query" [("query",
    ["test_metric1{namespace='ns-c'}"])] [] [] StatusOK (Success (QueryData ValueTypeVector
    (Vector []))));
  ("query - test_metric2{foo='boo'}", MkScenario "/query" [("query",
    ["test_metric2{foo='boo'}"])] [] [] StatusOK (Success (QueryData ValueTypeVector (Vector
    []))))
].

Definition SomeNamespacesTokenQueryScenarios_2 : list (string * Scenario) := [
  ("query - test_metric1[30s]", MkScenario "/query" [("query", ["test_metric1[30s]"])] [] []
    StatusOK (Success (QueryData ValueTypeMatrix (Matrix [((Some test_metric1_ns_a), [((of_Z 0),
    0%Z)])]))));
  ("query - test_metric_without_labels", MkScenario "/query" [("query",
    ["test_metric_without_labels"])] [] [] StatusOK (Success (QueryData ValueTypeVector (Vector
    []))));
  ("query - does_not_match_anything", MkScenario "/query" [("query",
    ["does_not_match_anything"])] [] [] StatusOK (Success (QueryData ValueTypeVector (Vector
    []))));
  ("query_range - query=time()&start=0&end=2&step=1", MkScenario "/query_range" [("query",
    ["time()"]); ("start", ["0"]); ("end", ["2"]); ("step", ["1"])] [] [] StatusOK (Success
    (QueryData ValueTypeMatrix (Matrix [(None, [((of_Z 0), 0%Z); ((of_Z 1), 1000%Z); ((of_Z 2),
    2000%Z)])]))));
  ("query_range - query=time()&end=2&step=1", MkScenario "/query_range" [("query", ["time()"]);
    ("end", ["2"]); ("step", ["1"])] [] [] StatusBadRequest (Failure "bad_data" ("cannot parse "
    +:+ dquote +:+ dquote +:+ " to a valid timestamp")));
  ("query_range - bad query `invalid][query`", MkScenario "/query_range" [("query",
    ["invalid][query"]); ("start", ["0"]); ("end", ["100"]); ("step", ["1"])] [] []
    StatusBadRequest (Failure "bad_data" "1:8: parse error: unexpected right bracket ']'"));
  ("query_range - invalid step", MkScenario "/query_range" [("query", ["time()"]); ("start",
    ["1"]); ("end", ["2"]); ("step", ["0"])] [] [] StatusBadRequest (Failure "bad_data"
    "zero or negative query resolution step widths are not accepted. Try a positive integer"))
].

Definition SomeNamespacesTokenQueryScenarios_3 : list (string * Scenario) := [
  ("query_range - start after end", MkScenario "/query_range" [("query", ["time()"]); ("start",
    ["2"]); ("end", ["1"]); ("step", ["1"])] [] [] StatusBadRequest (Failure "bad_data"
    "end timestamp must not be before start time"));
  ("query_range - start overflows int64 internally", MkScenario "/query_range" [("query",
    ["time()"]); ("start", ["148966367200.372"]); ("end", ["1489667272.372"]); ("step", ["1"])]
    [] [] StatusBadRequest (Failure "bad_data" "end timestamp must not be before start time"));
  ("query_range - test_metric1", MkScenario "/query_range" [("query", ["test_metric1"]);
    ("start", ["0"]); ("end", ["2"]); ("step", ["1"])] [] [] StatusOK (Success (QueryData
    ValueTypeMatrix (Matrix [((Some test_metric1_ns_a), [((of_Z 0), 0%Z); ((of_Z 0), 1000%Z);
    ((of_Z 0), 2000%Z)])]))));
  ("query_range - test_metric1{namespace='ns-c'}", MkScenario "/query_range" [("query",
    ["test_metric1{namespace='ns-c'}"]); ("start", ["0"]); ("end", ["2"]); ("step", ["1"])] []
    [] StatusOK (Success (QueryData ValueTypeMatrix (Matrix []))));
  ("query_range - test_metric2{foo='boo'}", MkScenario "/query_range" [("query",
    ["test_metric2{foo='boo'}"]); ("start", ["0"]); ("end", ["2"]); ("step", ["1"])] [] []
    StatusOK (Success (QueryData ValueTypeMatrix (Matrix []))));
  ("query_range - test_metric_without_labels", MkScenario "/query_range" [("query",
    ["test_metric_without_labels"]); ("start", ["0"]); ("end", ["2"]); ("step", ["1"])] [] []
    StatusOK (Success (QueryData ValueTypeMatrix (Matrix []))));
  ("query_range - does_not_match_anything", MkScenario "/query" [("query",
    ["does_not_match_anything"]); ("start", ["0"]); ("end", ["2"]); ("step", ["1"])] [] []
    StatusOK (Success (QueryData ValueTypeVector (Vector []))))
].

Definition SomeNamespacesTokenQueryScenarios : list (string * Scenario) :=
  SomeNamespacesTokenQueryScenarios_1 ++ SomeNamespacesTokenQueryScenarios_2 ++ SomeNamespacesTokenQueryScenarios_3.

(** ** read.go

    The hints of a query are its step and its function. *)
(** [remote.ToQuery(0, 1, matchers, hints)], for equality matchers. *)
Definition equal_query (matchers : list (string * string)) (hints : Z * string) : Query :=
  MkQuery 0 1 ((λ '(n, v), Prompb.MkLabelMatcher Prompb.LabelMatcher_EQ n v) <$> matchers)
    (Some hints).

Definition metricNameMatcher : string * string := ("__name__", "test_metric1").
Definition mockQueries (externalLabelMatchers : list (string * string)) : list (list Query) :=
  [[equal_query (externalLabelMatchers ++ [metricNameMatcher]) (0%Z, "avg")];
   [equal_query (externalLabelMatchers ++ [metricNameMatcher; ("namespace", "ns-c")]) (0%Z, "count")];
   [equal_query (externalLabelMatchers ++ [("foo", "boo")]) (0%Z, "sum")];
   [equal_query (externalLabelMatchers ++ [metricNameMatcher]) (5%Z, EmptyString)]].

(** A scenario of the read API: its queries and the results it demands. *)
Record ReadScenario := MkReadScenario {
  Read_Queries : list Query;
  Read_Results : list QueryResult;
}.
Definition read_scenarios (names : list string) (results : list (list QueryResult))
    : list (string * ReadScenario) :=
  zip_with (λ n qr, (n, MkReadScenario qr.1 qr.2)) names
    (zip (mockQueries [("prometheus", "project-level/test")]) results).

Definition read_names : list string :=
  ["avg(test_metric1)"; "count(test_metric1{namespace=" +:+ dquote +:+ "ns-c" +:+ dquote +:+ "})";
   "sum({foo=" +:+ dquote +:+ "boo" +:+ dquote +:+ "})"; "test_metric1[30s]"].

Definition NoneNamespacesTokenReadScenarios : list (string * ReadScenario) :=
  read_scenarios read_names [[MkQueryResult []]; [MkQueryResult []]; [MkQueryResult []]; [MkQueryResult []]].

Definition read_series : QueryResult :=
  MkQueryResult [(test_metric1_ns_a ++ [("prometheus", "cluster-level/test")], [(of_Z 0, 0%Z)])].
Definition SomeNamespacesTokenReadScenarios : list (string * ReadScenario) :=
  read_scenarios read_names [[read_series]; [MkQueryResult []]; [MkQueryResult []]; [read_series]].
