(* ===== verification/Conformance.v ===== *)
(** * The agent on the scenarios of its tests (src/pkg/agent/http_test.go)

    The agent of [mockAgent], with the parser of [PromParser], in front of a
    handler that plays the part of the Prometheus server of the test: it
    selects among the series that the test loads by the selectors of the
    request it gets.  Each scenario of [Samples] gets the response it
    demands. *)
From S2P Require Import Prelude GoStrings GoFloat Regexp DataSet Matchers Prom Restriction.
From S2P Require Import Promql Rewriting Errors AccessControl Kube GoTime Strutil Lexer Parser.
From S2P Require Import Url Http Json ApiContext Hijack PromParser Mux Access Samples.
From stdpp Require Import gmap.
From stdpp Require Import options.
Import Re2.

#[local] Instance ascii_only : UnicodeTable := λ _, true.
#[local] Instance amd64 : Machine := λ _, int64_min.
#[local] Instance no_forms : MultipartReader := λ _, None.

(** ** The series of the test

    The labels of each series, sorted, and its last value; the samples are
    taken from 0 to 6000 seconds. *)
Definition loaded : list (sample_labels * string) :=
  [([("__name__", "test_metric1"); ("foo", "bar"); ("namespace", "ns-a")], "10000");
   ([("__name__", "test_metric1"); ("foo", "boo"); ("namespace", "ns-c")], "1");
   ([("__name__", "test_metric2"); ("foo", "boo")], "1");
   ([("__name__", "test_metric_without_labels")], "1001");
   ([("__name__", "test_metric_stale")], "991");
   ([("__name__", "test_metric_old")], "981")].

Definition label (name : string) (s : sample_labels) : string :=
  default EmptyString (snd <$> List.find (λ p, bool_decide (p.1 = name)) s).
Definition matches (ms : list Labels.Matcher) (s : sample_labels) : bool :=
  forallb (λ m, go_value false (Labels.Matches m (label (Labels.Name m) s))) ms.

(** The series that a selector of one of the texts selects. *)
Definition selected (texts : list string) : list (sample_labels * string) :=
  filter (λ s, existsb (λ text, match Parser.ParseExpr text with
                         | Ok e => existsb (λ ms, matches ms s.1) (selectors e)
                         | Error _ => false
                         end) texts = true) loaded.

(** ** The server *)
Definition labels_json (s : sample_labels) : json := JObject (prod_map id JString <$> s).
Definition success (v : json) : string :=
  json_text (response_json (MkJsonResponse "success" (Some v) EmptyString EmptyString)).
Definition failure (typ text : string) : string :=
  json_text (response_json (MkJsonResponse "error" None typ text)).

(** The seconds of a parameter. *)
Definition seconds (v : Values) (key : string) (def : Z) : Z :=
  if bool_decide (Values_Get v key = EmptyString) then def
  else match parseTime (Values_Get v key) with Ok t => (sec t - unixToInternal)%Z | Error _ => def end.

Definition exposition (s : sample_labels * string) : string :=
  "# TYPE " +:+ label "__name__" s.1 +:+ " untyped" +:+ newline +:+ label "__name__" s.1 +:+ "{" +:+
  GoStrings.Join ((λ p, p.1 +:+ "=" +:+ dquote +:+ p.2 +:+ dquote) <$>
    (drop 1 s.1 ++ [("instance", EmptyString); ("prometheus", "cluster-level/test")])) "," +:+
  "} " +:+ s.2 +:+ " 6000000" +:+ newline.

Definition label_values (name : string) : Z * string :=
  if isLabel name then
    (StatusOK, success (JArray (JString <$> sort_Strings (remove_dups
       (filter (λ v, v ≠ EmptyString) ((λ s, label name s.1) <$> loaded))))))
  else (StatusBadRequest, failure "bad_data" ("invalid label name: " +:+ Quote name)).

(** What the server answers: the metrics of a query are listed, its values
    left out. *)
Definition prometheus_answer (r : Request) : Z * string :=
  let queries := (ParseQuery (RawQuery (Req_URL r))).1 in
  let path := Path (Req_URL r) in
  let metrics texts := JArray (labels_json <$> (selected texts).*1) in
  if bool_decide (path = "/api/v1/series") then
    let during := bool_decide (seconds queries "start" 0 ≤ 6000)%Z &&
                  bool_decide (0 ≤ seconds queries "end" 6000)%Z in
    (StatusOK, success (if during then metrics (values_of queries "match[]") else JArray []))
  else if bool_decide (path = "/federate") then
    (StatusOK, GoStrings.Join (exposition <$> selected (values_of queries "match[]")) EmptyString)
  else if bool_decide (path = "/api/v1/query") || bool_decide (path = "/api/v1/query_range") then
    (StatusOK, json_text (metrics (values_of queries "query")))
  else
    let name := TrimPrefix path "/api/v1/label/" in
    label_values (String.substring 0 (String.length name - String.length "/values") name).

Definition prometheus : Handler := λ r w,
  let '(code, text) := prometheus_answer r in ((Write (WriteHeader w code) text).1, Done ()).

(** The instant query of [hijackLabelName]: the count of the selected series
    by name. *)
Definition prometheus_query (expr : string) : ModelValue * error :=
  (VectorValue ((λ n, {["__name__" := n]}) <$> remove_dups ((λ s, label "__name__" s.1) <$> selected [expr])),
   ErrNil).

(** ** The agent *)
Definition noneNamespacesUserName : string := "noneNamespacesUserName".
Definition someNamespacesUserName : string := "someNamespacesUserName".

(** A cluster in which the second user sees ns-a and ns-b, the first user
    nothing, and neither may list the nodes. *)
Definition mock_rbac : Rbac := MkRbac
  {["viewer" := [MkPolicyRule ["get"] [EmptyString] ["namespaces"] ["ns-a"; "ns-b"]]]} ∅
  [MkClusterRoleBinding "viewers" (AccessControlExamples.user_subject someNamespacesUserName)
     (MkRoleRef "ClusterRole" "viewer")] [].
Definition mockOwnedNamespaces : namespaces :=
  MkNamespaces "cattle-monitoring-system"
    ((λ n, MkNamespace n EmptyString None None) <$> ["ns-a"; "ns-b"; "ns-c"], ErrNil)
    (AccessFor_uncached mock_rbac).
Definition mockAgent : agent :=
  MkAgent (DataSet.NewSet ["prometheus"; "prometheus_replica"]) (AccessFor_uncached mock_rbac)
    mockOwnedNamespaces (λ _ _, ([], ErrNil)) prometheus_query EmptyString.

(** ** Codecs: the read requests of the scenarios by their text *)
Definition matcher_text (m : Prompb.LabelMatcher) : string :=
  Prompb.Name m +:+ "=" +:+ Prompb.Value m.
Definition read_text (qs : list Query) : string :=
  GoStrings.Join ((λ q, GoStrings.Join (matcher_text <$> Q_Matchers q) ",") <$> qs) ";".
Definition all_reads : list (list Query) := mockQueries [("prometheus", "project-level/test")].

#[local] Instance sample_codecs : Codecs := {|
  DecodeReadRequest r :=
    match List.find (λ qs, bool_decide (Some (read_text qs) = Body r)) all_reads with
    | Some qs => Ok (MkReadRequest qs [])
    | None => Error (Foreign "corrupt input")
    end;
  MarshalReadRequest pb := Ok (read_text (Queries pb));
  MarshalReadResponse pb := Ok (format_Z (Z.of_nat (length (Results pb))));
  snappy_Encode s := s;
  Negotiate _ := "text/plain; version=0.0.4";
  EncodeMetrics _ _ w := (w, ErrNil);
|}.

(** ** The requests of the test *)
Definition as_values (l : list (string * list string)) : Values := list_to_map l.
Definition user_header (token : string) : Header := {[rancherUserHeaderKey := [token]]}.
Definition url_of (path : string) (queries : Values) : URL :=
  match URL_Parse (path +:+ "?" +:+ Encode queries) with
  | Ok u => u
  | Error _ => MkURL path EmptyString false EmptyString
  end.
Definition get_request (token path : string) (queries : Values) : Request :=
  MkRequest "GET" (url_of path queries) (user_header token) None None None.
Definition post_request (token path : string) (queries : Values) : Request :=
  MkRequest "POST" (MkURL path EmptyString false EmptyString)
    (<[contentTypeHeader := ["application/x-www-form-urlencoded"]]> (user_header token))
    (Some (Encode queries)) None None.

(** The status and the body that the client sees. *)
Definition response_to (r : Request) : Z * string :=
  let w := (httpBackend "tag" false mockAgent NotFound prometheus r new_writer).1 in
  (status w, w_body w).

(** ** What a scenario demands *)
Definition data_json (d : response_data) : json :=
  match d with
  | Strings l => JArray (JString <$> l)
  | LabelSets l => JArray (labels_json <$> l)
  | QueryData t _ => JObject [("resultType", JString (ValueType_text t)); ("result", JArray [])]
  end.
Definition body_text (b : response_body) : string :=
  match b with
  | Text s => s
  | Success d => success (data_json d)
  | Failure typ text => failure typ text
  end.

(** The metrics of a query result that are not nil, and whether it is
    empty. *)
Definition result_metrics (r : Result_) : list sample_labels :=
  match r with
  | Scalar _ _ => []
  | Vector l => omap fst l
  | Matrix l => omap fst l
  end.
Definition result_empty (r : Result_) : bool :=
  match r with Vector [] | Matrix [] => true | _ => false end.

(** The answer of the agent itself, or of the server above to a query. *)
Definition demands (sc : Scenario) (answer : Z * string) : bool :=
  bool_decide (answer.1 = RespCode sc) &&
  match RespBody sc with
  | Success (QueryData t r) =>
      (result_empty r && bool_decide (answer.2 = body_text (RespBody sc))) ||
      bool_decide (answer.2 = json_text (JArray (labels_json <$> result_metrics r)))
  | b => bool_decide (answer.2 = body_text b)
  end.

Definition both_users (f : string → Scenario → bool) (none some : list (string * Scenario)) : bool :=
  forallb (λ sc, f noneNamespacesUserName sc.2) none && forallb (λ sc, f someNamespacesUserName sc.2) some.

Definition federate_conforms : bool :=
  both_users (λ token sc, demands sc (response_to (get_request token "/federate" (as_values (Queries_ sc)))))
    NoneNamespacesTokenFederateScenarios SomeNamespacesTokenFederateScenarios.
Definition series_conforms : bool :=
  both_users (λ token sc, demands sc (response_to (get_request token "/api/v1/series" (as_values (Queries_ sc)))))
    NoneNamespacesTokenSeriesScenarios SomeNamespacesTokenSeriesScenarios.
Definition param (name : string) (sc : Scenario) : string :=
  default EmptyString (snd <$> List.find (λ p, bool_decide (p.1 = name)) (Samples.Params sc)).
Definition label_request (token name : string) : Request :=
  MkRequest "GET" (match URL_Parse ("/api/v1/label/" +:+ name +:+ "/values") with
                   | Ok u => u
                   | Error _ => MkURL EmptyString EmptyString false EmptyString
                   end) (user_header token) None None None.
Definition label_conforms : bool :=
  both_users (λ token sc, demands sc (response_to (label_request token (param "name" sc))))
    NoneNamespacesTokenLabelScenarios SomeNamespacesTokenLabelScenarios.
Definition query_conforms (post : bool) : bool :=
  both_users (λ token sc,
      let path := "/api/v1" +:+ Endpoint sc in
      let queries := as_values (Queries_ sc) in
      demands sc (response_to (if post then post_request token path queries else get_request token path queries)))
    NoneNamespacesTokenQueryScenarios SomeNamespacesTokenQueryScenarios.

(** The matchers of a read request, as the server compiles them. *)
Definition compiled (m : Prompb.LabelMatcher) : option Labels.Matcher :=
  let typ := match Prompb.Type_ m with
             | Prompb.LabelMatcher_EQ => Some Labels.MatchEqual
             | Prompb.LabelMatcher_NEQ => Some Labels.MatchNotEqual
             | Prompb.LabelMatcher_RE => Some Labels.MatchRegexp
             | Prompb.LabelMatcher_NRE => Some Labels.MatchNotRegexp
             | Prompb.LabelMatcher_Other _ => None
             end in
  t ← typ;
  match Labels.NewMatcher t (Prompb.Name m) (Prompb.Value m) with Ok m => Some m | Error _ => None end.
Definition read_selected (q : Query) : list sample_labels :=
  match mapM compiled (Q_Matchers q) with
  | Some ms => filter (λ s, matches ms s = true) loaded.*1
  | None => []
  end.
Definition without_external (s : sample_labels) : sample_labels :=
  filter (λ p, p.1 ≠ "prometheus") s.

(** The read API of the first user answers one empty result for each query;
    for the second it asks for the series of the results. *)
Definition read_request (token : string) (qs : list Query) : Request :=
  MkRequest "POST" (MkURL "/api/v1/read" EmptyString false EmptyString) (user_header token)
    (Some (read_text qs)) None None.
Definition none_read_conforms : bool :=
  forallb (λ '(_, sc), bool_decide (response_to (read_request noneNamespacesUserName (Read_Queries sc)) =
      (StatusOK, format_Z (Z.of_nat (length (Read_Results sc))))) &&
    bool_decide (length (Read_Results sc) = length (Read_Queries sc)) &&
    forallb (λ r, match Timeseries r with [] => true | _ => false end) (Read_Results sc))
    NoneNamespacesTokenReadScenarios.
Definition some_read_conforms : bool :=
  forallb (λ '(_, sc), forallb (λ '(q, result),
      match modifyQuery q (DataSet.NewSet ["ns-a"; "ns-b"]) (cfg_filterReaderLabelSet mockAgent) with
      | Done q => bool_decide (read_selected q = (λ ts, without_external ts.1) <$> Timeseries result)
      | Panic _ => false
      end) (zip (Read_Queries sc) (Read_Results sc)))
    SomeNamespacesTokenReadScenarios.

(** ** Properties *)

(** The agent with the parser of the program on each scenario of
    http_test.go, in front of the series that the test loads: the federate,
    series, label and query calls of a user without namespaces and of one
    with two, errors included, and the query calls as GET and as POST.  Of
    a query result that is not empty only the metrics are compared with
    those the test demands. *)
Theorem scenarios_conform :
  federate_conforms = true ∧ series_conforms = true ∧ label_conforms = true ∧
  query_conforms false = true ∧ query_conforms true = true.
Proof. vm_compute. auto. Qed.

(** The remote read scenarios: an empty result for each query of the
    user without namespaces; for the other user the rewritten matchers,
    without the external label, select the series of the results. *)
Theorem read_scenarios_conform : none_read_conforms = true ∧ some_read_conforms = true.
Proof. vm_compute. auto. Qed.
